(* ===== verification/_CoqProject ===== *)
-Q . S2P
Prelude.v
Words.v
Fmt.v
BTree.v
Types.v
Io.v
Udp.v
Crypto.v
NoisePrimitives.v
NoiseSymmetric.v
NoiseTransport.v
NoiseHandshake.v
Identity.v
Cookie.v
HostState.v
Host.v
HostSpec.v
HostInv.v
HostProps.v
HostE2E.v
HostLink.v
HostFlight.v
KadId.v
KadTable.v
AddrWire.v
KadCodec.v
KadLookup.v
KadNode.v
KadProps.v
LookupDriver.v
KadMesh.v
KadNet.v
KadPeers.v
KadDrive.v
KadSilent.v
KadConverge.v
RendezvousCodec.v
RendezvousNode.v
RendezvousProps.v
Rlnc.v
RlncToy.v
PubsubAuth.v
PubsubCodec.v
PubsubState.v
PubsubMux.v
PubsubSpec.v
PubsubProps.v
PubsubE2E.v
PubsubRelay.v
PubsubWitness.v
MuxNode.v
MuxLookup.v
MuxSpec.v
MuxProps.v
MuxWitness.v
MuxConverge.v
Rpc.v
RpcProps.v
StdText.v
Process.v
Chat.v
Stage.v
ChatE2E.v
ChatProps.v
RvDemo.v
RvDemoProps.v
