(* ===== verification/Prelude.v ===== *)
(** * libp2p-cat-rs: a verification library

    libp2p-cat-rs is a peer-to-peer stack over UDP: a Noise XX handshake with
    identities bound to it, an encrypted datagram transport with replay
    protection, a host that keeps many such connections over one socket, and
    protocols above the host (Kademlia, rendezvous, gossip), all written as
    values that consume themselves: an operation takes the old state and
    returns the new one inside a deferred effect [Io<Error, _>].  The model
    keeps that shape: states are records, operations are functions that
    return the next state in [Io], and every theorem is about those functions.

    ** The program and the files

    Paths are below src/crates (the programs': below src/examples); each file names the sources it models, and
    its definitions carry the source's names, with a prefix ([kad_], [rv_],
    [host_], ...) where two crates use one name.

    - Foundations.  [Prelude] (this file): results, error propagation, list
      and option lemmas, tactics, the rewriting hints [p2p].  [Words]:
      integers of a fixed width with [wrapping_add] and [checked_add], and
      the arrays [[u8; n]], both carrying their bounds; big-endian coding.
      [Fmt]: [format!], UTF-8 checking, IP addresses as text.  [BTree]:
      ordered maps over stdpp's [gmap].
    - libp2p-cat-types ([Types]): the [Error] type with its messages,
      addresses, PeerIds, protocol ids.
    - Effects ([Io]): the external crate [comp_cat_rs] is the parameter
      [IoRuntime] with laws [IoLaws] (running a description runs its parts in
      order, up to the first error); the standard library's sockets are
      modelled over a [World]: datagrams to come, faults of coming sends,
      datagrams sent, calls of the caller's entropy source.  [direct_io] is a
      concrete runtime.
    - libp2p-cat-udp ([Udp]): the transport with its ceiling on sends and its
      scratch buffer.
    - libp2p-cat-noise ([Crypto], [NoisePrimitives], [NoiseSymmetric],
      [NoiseTransport], [NoiseHandshake]): BLAKE3, X25519,
      ChaCha20-Poly1305 and Ed25519 are the parameter [Crypto], with the
      documented [CryptoLaws]; everything else is modelled: key derivation,
      the symmetric state, the phases of the handshake as types, the
      transport's counter and its 64-entry replay window.
    - libp2p-cat-identity ([Identity]): keys and the signed binding of a
      Noise static key.
    - libp2p-cat-host ([Cookie], [HostState], [Host]): stateless cookies, the
      two connection tables with least-recently-used eviction and the idle
      sweep, and every operation of the host with the whole dispatch of a
      received datagram.
    - libp2p-cat-kad ([KadId], [KadTable], [AddrWire], [KadCodec],
      [KadLookup], [KadNode], [LookupDriver], [KadDrive]): the XOR metric,
      buckets and the routing table, the frames, the lookup's shortlist, the
      node, and the loop that drives a lookup, once over any node and then at
      this one.
    - libp2p-cat-rendezvous ([RendezvousCodec], [RendezvousNode]): frames,
      and the node that observes addresses and forwards punches and payloads.
    - libp2p-cat-pubsub ([Rlnc], [PubsubAuth], [PubsubCodec], [PubsubState],
      [PubsubMux]): topics and the frame codec, the stock authenticators'
      wire forms, the decoders and relays with the tick that ages them, and
      the gossip node: broadcasts, the decoder's and the relay's path of a
      received piece.  The network-coding crate [rlnc_cat_rs] is the
      parameter [Rlnc] with laws; [RlncToy] is an instance.
    - libp2p-cat-mux ([MuxNode], [MuxLookup]): one host under the gossip
      state and the routing table, the kind byte, the lookup loop over it.
    - libp2p-cat-rpc ([Rpc]): the client's transport anchored to one peer and
      the server's step; [tarpc_cat] and [serde_json] are the parameters
      [Tarpc] and [Serve].
    - The programs ([StdText], [Process], [Chat], [RvDemo]): src/examples/chat
      and src/examples/rendezvous-demo from their arguments to their exit
      codes.  [StdText] is the standard library's text of addresses, byte
      lists and UTF-8; [Process] adds to the [World] what a program has of
      its own: arguments, the bytes of its input, what it wrote to its
      output streams, failing writes, the entropy [getrandom] gives.

    The crates call downwards: a node holds a [Host] and calls [dial],
    [host_send] and [recv_one]; the multi-protocol node joins its host with
    one protocol's state, calls that protocol's node and takes the parts
    back; the host calls the handshake, the transport, the identity binding
    and the cookies; all effects are those of [Udp].  The programs run the
    hosts' and nodes' descriptions at their edge ([run_prog]).

    ** Interfaces and abstract specifications

    - [HostSpec]: the relation [recv_step] states, case by case, what one
      datagram may do to a host; [recv_one] is proved sound and complete for
      it.  [HostInv]: [host_step] and [host_ok], the invariant all operations
      keep, and what they never change ([host_frame]).
    - [HostLink]: [linked], two hosts whose sessions fit together, and
      [linked_transfer], what sending and receiving over such a session
      does.  The exchanges of [KadProps], [RendezvousProps], [MuxProps] and
      [RpcProps] are proved against it and do not look into the host.
    - [HostFlight]: [in_flight], a session with datagrams still to come, and
      [arrives], a network that loses datagrams and, within the replay
      window, reorders them; the fan-outs of [PubsubE2E] and [PubsubRelay]
      are proved against it.
    - [NoiseTransport]: [transport_seen], a receiver that remembers the set of
      all nonces it accepted, which the bit window refines.
    - [KadTable]: the table as the list of its entries.
      [KadLookup]: [lookup_reaches], the transition system of the shortlist,
      and [made_of], the candidates a shortlist consists of.
      [LookupDriver]: the class of nodes a lookup can be driven over, with
      its laws, discharged by the Kademlia and the multi-protocol node;
      [lookup_run], what the driver does to the node and the world, with the
      events it was given.
      [KadMesh]: the state of the shortlist while queries and dials are open
      ([running]).  [KadNet]: what the driver needs of its surroundings to
      end ([answering]: a connected peer answers a query, any other
      completes a handshake), and [takes], a run with the datagrams it sends
      and reads.  [KadPeers] supplies the surroundings: [MeshNode], the class
      of nodes that are a host and a routing table; [mesh], such a node among
      its peers, each at its point of handshake, question and answer
      ([standing]), moved by the single steps of [HostE2E] ([dial_step],
      [challenge_step], [msg2_step]) and the sessions of [HostFlight].
      [KadConverge] and [MuxConverge] are its two instances.
    - [PubsubSpec]: [gossip_step], what one frame may do to the gossip state,
      and [pubsub_ok], which gives every decoder and relay the history of
      pieces it is made of, and [gossip_event], the event a frame calls for.
      [RendezvousNode]: [rv_event], the same of a rendezvous frame.
      [MuxSpec]: [dispatch_kind], which protocol's state a plaintext may
      touch, by its kind byte, and what is reported.  The classes [RlncLaws],
      [AuthLaws], [WireAuthLaws], [StockAuthLaws] and [TarpcLaws] state what
      the layers above rely on.
    - [Stage]: [stage p inbox drawn sent input output], the process [p] at a
      point of its run; the chat and the demonstration are executed step by
      step over it, with [receives] and [sends] of [HostE2E] as the host's
      steps.  [host_hears] and, in [RvDemoProps], [node_hears] are the runs of
      a host and of a node over whatever datagrams arrive.
    - [Io]: [io_post], what holds of every value an effect can return, and
      [io_cost], how many datagrams it reads and seeds it draws.

    ** What the theorems show

    - Connections ([HostE2E], [HostProps], [HostInv]): two hosts connect
      through dial, cookie, echo and messages 2 and 3, agree on identities
      and carry payloads; the host's invariant; an unvalidated source creates
      no state and gets at most one shorter reply; no datagram makes
      [recv_one] fail; junk leaves a connection as it was; eviction and the
      idle sweep remove exactly what they should, and what ages connections.
    - Noise and identity: both roles complete the handshake with mirrored
      keys; readers are total; delivery in order and, within the window, in
      any order; no nonce is accepted twice or sent twice; cookies and
      bindings verify exactly when minted.
    - Kademlia: the metric; insertion, removal and nearest neighbours of the
      table; the codec accepts exactly its encodings; statuses of a lookup,
      its result, the nearest of what its table and the responses it received
      name, its bounds on datagrams and seeds; among peers that are connected
      or can be dialed, a lookup asks each at most once and ends
      with the closest peers it was told of ([KadConverge], [MuxConverge]);
      a silent peer keeps it waiting ([KadSilent]); requests are answered;
      the table learns only verified or advertised peers; and the two ways a
      node can be lost (a stuck dial, a reply that is too large).
    - Rendezvous: the codec; a client learns its observed address; punches
      and payloads arrive at their target, or the requester learns why not;
      the invariant; and the oversized relay request that loses the server.
    - Gossip ([PubsubProps], [PubsubE2E], [PubsubRelay], [PubsubWitness]): a
      broadcast is delivered as sent to every subscriber that gets enough of
      its datagrams, directly or through a relay, whatever is lost; what is
      delivered was decoded from pieces that verified; the node's steps
      refine [gossip_step]; a relay forwards at most [k] pieces of a
      generation; the codec accepts exactly its encodings; a piece that
      verifies but is malformed loses the decoder.
    - The multi-protocol node ([MuxProps], [MuxWitness]): its invariant, its
      refinement of [dispatch_kind], equivalence with the gossip node on
      gossip traffic, payloads, answered requests and lookups.
    - RPC ([RpcProps]): a call completes; an envelope received came from the
      peer the transport is anchored to.
    - The programs ([ChatE2E], [ChatProps], [RvDemoProps]): two chats
      converse, each line typed on one side being printed on the other; what
      ends a chat and what cannot, its session staying as it is through junk;
      the demonstration's client learns and prints its address; its server
      logs the event of every datagram, and only an answer that cannot be
      sealed stops it.

    ** Fuel and bounds

    Recursions follow the source's own counters where it has them
    ([rounds_left] and [budget] of the lookup, the entries of a frame).  The
    source's unbounded [drain_for_observe_response] and [drain_for_rpc] take
    fuel: every turn reads a datagram, so any fuel above the inbox gives the
    same run ([drain_fuel_enough], [drain_rpc_fuel]), and a run that would
    use it up blocks, as the source does.  The programs' own recursions
    ([drive_handshake_to_completion], [chat_step]) take fuel in the same way,
    which the datagrams and typed lines bound ([chat_fuel_enough]); the count
    of the server's loop, [usize::MAX] in the source, is an argument.
    Integers are kept at their width:
    nonces and ticks are 64-bit words whose overflow is modelled
    ([checked_add] in the transport, [wrapping_add] in the host and the
    gossip state).

    ** Limits of the model

    Hostile datagrams are arbitrary bytes, but unforgeability is not assumed
    of the cryptography, so the theorems say what the program does with a
    datagram that opens and with one that does not, not that an attacker
    cannot make one.  Time, threads and the operating system's buffering are
    outside: the inbox is a given sequence, and a read of an empty inbox
    blocks for ever.  The [Debug] of a string is the
    one of ASCII text: the escapes of other characters are not modelled.

    ** Not modelled

    The umbrella crate and the crate roots only re-export; tests and benches
    are not modelled.  The
    external crates are parameters, as said above; their toy instances only
    serve to evaluate the theorems and stand for no real implementation. *)

From stdpp Require Export prelude gmap strings sorting pretty.
From Stdlib Require Export Strings.Byte.
From Stdlib Require Import Eqdep_dec.

(** ** Results: the source's [Result<A, E>] *)

Inductive result (E A : Type) : Type :=
| Ok (a : A)
| Err (e : E).
Arguments Ok {E A} a.
Arguments Err {E A} e.

#[export] Instance result_ret {E} : MRet (result E) := fun A a => Ok a.
#[export] Instance result_bind {E} : MBind (result E) := fun A B f r =>
  match r with Ok a => f a | Err e => Err e end.
#[export] Instance result_fmap {E} : FMap (result E) := fun A B f r =>
  match r with Ok a => Ok (f a) | Err e => Err e end.

(** [Option::ok_or_else]. *)
Definition ok_or_else {E A} (o : option A) (e : E) : result E A :=
  match o with Some a => Ok a | None => Err e end.

(** [Result::map_err]. *)
Definition map_err {E F A} (f : E -> F) (r : result E A) : result F A :=
  match r with Ok a => Ok a | Err e => Err (f e) end.

Definition is_ok {E A} (r : result E A) : bool :=
  match r with Ok _ => true | Err _ => false end.

(** ** Bytes: the source's [u8] is [Byte.byte] *)

Definition b2n (b : byte) : N := Byte.to_N b.
Definition n2b (n : N) : byte := default x00 (Byte.of_N (n mod 256)).

#[export] Instance byte_eq_dec : EqDecision byte := Byte.byte_eq_dec.
#[export] Program Instance byte_countable : Countable byte :=
  inj_countable b2n Byte.of_N _.
Next Obligation. apply Byte.of_to_N. Qed.

Lemma b2n_lt b : (b2n b < 256)%N.
Proof. unfold b2n. pose proof (Byte.to_N_bounded b). lia. Qed.

Lemma b2n_inj a b : b2n a = b2n b -> a = b.
Proof.
  unfold b2n. intros H. pose proof (Byte.of_to_N a) as Ha.
  rewrite H, Byte.of_to_N in Ha. congruence.
Qed.

Lemma b2n_n2b n : b2n (n2b n) = (n mod 256)%N.
Proof.
  unfold b2n, n2b. destruct (Byte.of_N (n mod 256)) as [b|] eqn:E; cbn.
  - by apply Byte.to_of_N in E.
  - apply Byte.of_N_None_iff in E. pose proof (N.mod_lt n 256). lia.
Qed.

Lemma n2b_b2n b : n2b (b2n b) = b.
Proof. apply b2n_inj. rewrite b2n_n2b, N.mod_small; [done | apply b2n_lt]. Qed.

(** [a ^ b], [a | b] on [u8]. *)
Definition byte_xor (a b : byte) : byte := n2b (N.lxor (b2n a) (b2n b)).
Definition byte_or (a b : byte) : byte := n2b (N.lor (b2n a) (b2n b)).

(** [u8::leading_zeros]. *)
Definition byte_leading_zeros (b : byte) : nat := 8 - N.to_nat (N.size (b2n b)).

Lemma N_size_le_iff n k : (N.size n <= k <-> n < 2 ^ k)%N.
Proof.
  destruct (decide (n = 0%N)) as [->|Hn].
  - split; [intros _ | cbn; lia]. apply N.neq_0_lt_0, N.pow_nonzero. done.
  - rewrite N.size_log2, N.le_succ_l by done.
    rewrite N.log2_lt_pow2 by lia. done.
Qed.

Lemma lxor_lt a b k : (a < 2 ^ k -> b < 2 ^ k -> N.lxor a b < 2 ^ k)%N.
Proof.
  rewrite <- !N_size_le_iff. intros Ha Hb.
  destruct (decide (N.lxor a b = 0%N)) as [->|Hx]; [cbn; lia|].
  rewrite N.size_log2 by done. pose proof (N.log2_lxor a b) as H.
  assert (Hs : forall n, (N.log2 n < N.size n)%N \/ n = 0%N).
  { intros n. destruct (decide (n = 0%N)); [by right|left].
    rewrite N.size_log2 by done. lia. }
  destruct (Hs a) as [H1| ->], (Hs b) as [H2| ->];
    rewrite ?N.lxor_0_l, ?N.lxor_0_r in *; lia.
Qed.

Lemma lor_lt a b k : (a < 2 ^ k -> b < 2 ^ k -> N.lor a b < 2 ^ k)%N.
Proof.
  rewrite <- !N_size_le_iff. intros Ha Hb.
  destruct (decide (N.lor a b = 0%N)) as [->|Hx]; [cbn; lia|].
  rewrite N.size_log2 by done. rewrite N.log2_lor.
  destruct (decide (a = 0%N)) as [->|Ha0], (decide (b = 0%N)) as [->|Hb0];
    rewrite ?N.size_log2 in * by done; rewrite ?N.lor_0_r in *;
    cbn [N.log2 N.lor] in *; try done; lia.
Qed.

Lemma b2n_xor a b : b2n (byte_xor a b) = N.lxor (b2n a) (b2n b).
Proof.
  unfold byte_xor. rewrite b2n_n2b, N.mod_small; [done|].
  change 256%N with (2 ^ 8)%N. apply lxor_lt; apply b2n_lt.
Qed.

Lemma b2n_or a b : b2n (byte_or a b) = N.lor (b2n a) (b2n b).
Proof.
  unfold byte_or. rewrite b2n_n2b, N.mod_small; [done|].
  change 256%N with (2 ^ 8)%N. apply lor_lt; apply b2n_lt.
Qed.

Lemma byte_xor_comm a b : byte_xor a b = byte_xor b a.
Proof. unfold byte_xor. by rewrite N.lxor_comm. Qed.

Lemma byte_xor_zero_iff a b : byte_xor a b = x00 <-> a = b.
Proof.
  split; [|intros ->; apply b2n_inj; by rewrite b2n_xor, N.lxor_nilpotent].
  intros H. apply b2n_inj, N.lxor_eq. by rewrite <- b2n_xor, H.
Qed.

Lemma byte_or_zero_iff a b : byte_or a b = x00 <-> a = x00 /\ b = x00.
Proof.
  split; [|intros [-> ->]; done].
  intros H. apply (f_equal b2n) in H. rewrite b2n_or in H.
  change (b2n x00) with 0%N in H. apply N.lor_eq_0_iff in H as [Ha Hb].
  split; by apply b2n_inj.
Qed.

(** ** Slices: [slice.get(..n)], [slice.get(n..)], [slice.get(a..b)] *)

Definition get_to {A} (n : nat) (l : list A) : option (list A) :=
  if n <=? length l then Some (take n l) else None.
Definition get_from {A} (n : nat) (l : list A) : option (list A) :=
  if n <=? length l then Some (drop n l) else None.
Definition get_range {A} (a b : nat) (l : list A) : option (list A) :=
  if (a <=? b) && (b <=? length l) then Some (take (b - a) (drop a l)) else None.

(** [slice.get(n..).unwrap_or(&[])]: the empty slice when out of range, which
    is what [drop] computes. *)
Lemma get_from_unwrap_or {A} n (l : list A) : default [] (get_from n l) = drop n l.
Proof.
  unfold get_from. destruct (Nat.leb_spec n (length l)); [done|].
  cbn. by rewrite drop_ge by lia.
Qed.

Lemma get_to_Some {A} n (l s : list A) :
  get_to n l = Some s <-> n <= length l /\ s = take n l.
Proof.
  unfold get_to. destruct (Nat.leb_spec n (length l)).
  - split; [intros [= <-]; done | intros [_ ->]; done].
  - split; [done | intros [? _]; lia].
Qed.
Lemma get_from_Some {A} n (l s : list A) :
  get_from n l = Some s <-> n <= length l /\ s = drop n l.
Proof.
  unfold get_from. destruct (Nat.leb_spec n (length l)).
  - split; [intros [= <-]; done | intros [_ ->]; done].
  - split; [done | intros [? _]; lia].
Qed.

Lemma get_to_app {A} n (l k : list A) : length l = n -> get_to n (l ++ k) = Some l.
Proof.
  intros <-. apply get_to_Some. rewrite length_app, take_app_length. split; [lia|done].
Qed.
Lemma get_from_app {A} n (l k : list A) : length l = n -> get_from n (l ++ k) = Some k.
Proof.
  intros <-. apply get_from_Some. rewrite length_app, drop_app_length. split; [lia|done].
Qed.
Lemma get_range_app {A} a b (l m k : list A) :
  length l = a -> a + length m = b -> get_range a b (l ++ m ++ k) = Some m.
Proof.
  intros <- <-. unfold get_range. rewrite !length_app.
  destruct (Nat.leb_spec (length l) (length l + length m)); [|lia].
  destruct (Nat.leb_spec (length l + length m)
              (length l + (length m + length k))); [|lia]. cbn.
  by rewrite drop_app_length, Nat.add_comm, Nat.add_sub, take_app_length.
Qed.
Lemma get_range_0_app {A} n (l k : list A) : length l = n -> get_range 0 n (l ++ k) = Some l.
Proof. intros Hl. by apply (get_range_app 0 n [] l k). Qed.
Lemma get_range_all {A} n (l : list A) : length l = n -> get_range 0 n l = Some l.
Proof. intros Hl. rewrite <- (app_nil_r l) at 1. by apply get_range_0_app. Qed.
Lemma get_range_app_end {A} a b (l m : list A) :
  length l = a -> a + length m = b -> get_range a b (l ++ m) = Some m.
Proof.
  intros Hl Hm. pose proof (get_range_app a b l m [] Hl Hm) as H.
  by rewrite app_nil_r in H.
Qed.

(** A list at least [a + b] long, cut after [a] and after [a + b]. *)
Lemma split_list {A} a b (l : list A) :
  a + b <= length l ->
  exists x y z, l = x ++ y ++ z /\ length x = a /\ length y = b.
Proof.
  intros H. exists (take a l), (take b (drop a l)), (drop b (drop a l)).
  rewrite !length_take, length_drop, !take_drop. split_and!; [done|lia|lia].
Qed.

Lemma elem_of_concat {A} (x : A) (ls : list (list A)) :
  x ∈ concat ls <-> exists l, x ∈ l /\ l ∈ ls.
Proof.
  rewrite list_elem_of_In, in_concat. setoid_rewrite list_elem_of_In. naive_solver.
Qed.

(** [iter.map(f).collect::<Result<Vec<_>, _>>()]: the first error wins. *)
Fixpoint collect_results {E A B} (f : A -> result E B) (l : list A) : result E (list B) :=
  match l with
  | [] => Ok []
  | a :: l' => b ← f a; bs ← collect_results f l'; Ok (b :: bs)
  end.

(** [iter.try_fold(init, f)]: the first error wins. *)
Fixpoint try_fold {E A B} (f : B -> A -> result E B) (init : B) (l : list A) : result E B :=
  match l with
  | [] => Ok init
  | a :: l' => b ← f init a; try_fold f b l'
  end.

(** ** Tactics shared by the development *)

(** Split every [match] of the goal, discharging the absurd branches. *)
Ltac case_matches := repeat (case_match; simplify_eq/=; try done).

(** Split every [match] of a hypothesis. *)
Ltac case_in H :=
  match type of H with
  | context [match ?x with _ => _ end] => destruct x eqn:?
  end.
Ltac cases_in H := repeat (case_in H; simplify_eq/=; try done).

(** Turn boolean comparisons of the context into propositions. *)
Ltac bool_to_prop :=
  repeat match goal with
  | H : (_ <=? _) = true |- _ => apply Nat.leb_le in H
  | H : (_ <=? _) = false |- _ => apply Nat.leb_gt in H
  | H : (_ <? _) = true |- _ => apply Nat.ltb_lt in H
  | H : (_ <? _) = false |- _ => apply Nat.ltb_ge in H
  | H : (_ =? _) = true |- _ => apply Nat.eqb_eq in H
  | H : (_ =? _) = false |- _ => apply Nat.eqb_neq in H
  | H : (_ <=? _)%N = true |- _ => apply N.leb_le in H
  | H : (_ <=? _)%N = false |- _ => apply N.leb_gt in H
  | H : (_ <? _)%N = true |- _ => apply N.ltb_lt in H
  | H : (_ <? _)%N = false |- _ => apply N.ltb_ge in H
  | H : (_ =? _)%N = true |- _ => apply N.eqb_eq in H
  | H : (_ =? _)%N = false |- _ => apply N.eqb_neq in H
  | H : _ && _ = true |- _ => apply andb_true_iff in H as [? ?]
  | H : _ || _ = false |- _ => apply orb_false_iff in H as [? ?]
  | H : negb _ = true |- _ => apply negb_true_iff in H
  | H : negb _ = false |- _ => apply negb_false_iff in H
  | H : bool_decide _ = true |- _ => apply bool_decide_eq_true in H
  | H : bool_decide _ = false |- _ => apply bool_decide_eq_false in H
  end.

(** Two equations for one term: identify their right-hand sides. *)
Ltac same_lhs :=
  repeat match goal with
  | A : ?x = ?y, B : ?x = ?z |- _ =>
      assert_fails (constr_eq y z); rewrite A in B; simplify_eq
  end.

Create HintDb p2p.
Create Rewrite HintDb p2p.
#[export] Hint Rewrite @get_from_unwrap_or : p2p.
