(* ===== verification/Words.v ===== *)
(** * Machine words and fixed-size arrays

    [uint w] is an unsigned integer of [w] bits and [arr n] the source's
    [[u8; n]]: both carry their bound, so a value of the type is a value the
    source could hold and no theorem needs a range hypothesis. *)

From S2P Require Export Prelude.

(** A boolean fact proved by evaluation where it can be: the bound of a closed
    number or array then reduces to [eq_refl], whatever proved it. *)
Definition by_eval (b : bool) : b = true -> b = true :=
  match b with true => fun _ => eq_refl | false => fun H => H end.

(** ** Unsigned integers of a fixed width *)

Record uint (w : N) : Type := UInt {
  uval : N;
  uval_ok : (uval <? 2 ^ w)%N = true
}.
Arguments UInt {w} uval uval_ok.
Arguments uval {w} u.

Abbreviation u16 := (uint 16).
Abbreviation u32 := (uint 32).
Abbreviation u64 := (uint 64).

Section uint.
Context {w : N}.
Implicit Types a b : uint w.

Lemma uint_eq a b : uval a = uval b -> a = b.
Proof.
  destruct a as [a Ha], b as [b Hb]. cbn. intros ->. f_equal. apply proof_irrel.
Qed.

Lemma uint_lt a : (uval a < 2 ^ w)%N.
Proof. apply N.ltb_lt, uval_ok. Qed.

#[export] Instance uint_eq_dec : EqDecision (uint w).
Proof.
  refine (fun a b => match decide (uval a = uval b) with
                     | left H => left (uint_eq a b H)
                     | right H => right _ end).
  congruence.
Defined.

Lemma wrap_ok (n : N) : (n mod 2 ^ w <? 2 ^ w)%N = true.
Proof. apply N.ltb_lt, N.mod_lt, N.pow_nonzero. done. Qed.

(** [n as uN]: reduction modulo [2^w]. *)
Definition uint_wrap (n : N) : uint w := UInt (n mod 2 ^ w) (by_eval _ (wrap_ok n)).

Lemma uval_wrap n : uval (uint_wrap n) = (n mod 2 ^ w)%N.
Proof. done. Qed.

Lemma uint_wrap_small n : (n < 2 ^ w)%N -> uval (uint_wrap n) = n.
Proof. intros. cbn. by apply N.mod_small. Qed.

Lemma uint_wrap_uval a : uint_wrap (uval a) = a.
Proof. apply uint_eq, uint_wrap_small, uint_lt. Qed.

(** [uN::try_from(n)]. *)
Definition uint_try (n : N) : option (uint w) :=
  match bool_dec (n <? 2 ^ w)%N true with
  | left H => Some (UInt n H)
  | right _ => None
  end.

Lemma uint_try_Some n a : uint_try n = Some a <-> uval a = n.
Proof.
  unfold uint_try. destruct (bool_dec _ _) as [H|H]; split; intros Ha; simplify_eq/=.
  - done.
  - f_equal. by apply uint_eq.
  - exfalso. apply H, uval_ok.
Qed.

Lemma uint_try_None n : uint_try n = None <-> (2 ^ w <= n)%N.
Proof.
  unfold uint_try. destruct (bool_dec _ _) as [H|H].
  - pose proof (proj1 (N.ltb_lt _ _) H). split; [done|lia].
  - apply not_true_is_false, N.ltb_ge in H. done.
Qed.

(** [wrapping_add], [saturating_sub], [checked_add], [checked_mul]. *)
Definition wrapping_add a (n : N) : uint w := uint_wrap (uval a + n).
Definition checked_add a (n : N) : option (uint w) := uint_try (uval a + n).

Lemma sub_ok a (n : N) : (uval a - n <? 2 ^ w)%N = true.
Proof. apply N.ltb_lt. pose proof (uint_lt a). lia. Qed.
Definition saturating_sub a (b : uint w) : uint w :=
  UInt (uval a - uval b) (by_eval _ (sub_ok a (uval b))).

#[export] Program Instance uint_countable : Countable (uint w) :=
  inj_countable uval uint_try _.
Next Obligation. intros a. by apply uint_try_Some. Qed.

End uint.

Definition u64_zero : u64 := UInt (w:=64) 0 eq_refl.
Definition U64_MAX : N := 2 ^ 64 - 1.

(** ** Fixed-size byte arrays *)

Record arr (n : nat) : Type := Arr {
  arr_list : list byte;
  arr_ok : (length arr_list =? n) = true
}.
Arguments Arr {n} arr_list arr_ok.
Arguments arr_list {n} a.

Section arr.
Context {n : nat}.
Implicit Types a b : arr n.

Lemma arr_eq a b : arr_list a = arr_list b -> a = b.
Proof.
  destruct a as [a Ha], b as [b Hb]. cbn. intros ->. f_equal. apply proof_irrel.
Qed.

Lemma length_arr a : length (arr_list a) = n.
Proof. apply Nat.eqb_eq, arr_ok. Qed.

#[export] Instance arr_eq_dec : EqDecision (arr n).
Proof.
  refine (fun a b => match decide (arr_list a = arr_list b) with
                     | left H => left (arr_eq a b H)
                     | right H => right _ end).
  congruence.
Defined.

(** [<[u8; N]>::try_from(slice)]. *)
Definition arr_try (l : list byte) : option (arr n) :=
  match bool_dec (length l =? n) true with
  | left H => Some (Arr l H)
  | right _ => None
  end.

Lemma arr_try_Some l a : arr_try l = Some a <-> arr_list a = l.
Proof.
  unfold arr_try. destruct (bool_dec _ _) as [H|H]; split; intros Ha; simplify_eq/=.
  - done.
  - f_equal. by apply arr_eq.
  - exfalso. apply H, arr_ok.
Qed.

Lemma arr_try_arr a : arr_try (arr_list a) = Some a.
Proof. by apply arr_try_Some. Qed.

Lemma arr_try_length l : length l = n -> exists a, arr_try l = Some a /\ arr_list a = l.
Proof.
  intros H%Nat.eqb_eq. exists (Arr l H). split; [by apply arr_try_Some | done].
Qed.

Lemma arr_try_None l : arr_try l = None <-> length l <> n.
Proof.
  split.
  - intros H Hl%arr_try_length. destruct Hl as (a & Ha & _). congruence.
  - intros H. destruct (arr_try l) as [a|] eqn:E; [|done].
    apply arr_try_Some in E. subst l. by rewrite length_arr in H.
Qed.

(** [core::array::from_fn(f)]. *)
Lemma from_fn_ok (f : nat -> byte) : (length (f <$> seq 0 n) =? n) = true.
Proof. apply Nat.eqb_eq. by rewrite length_fmap, length_seq. Qed.
Definition arr_from_fn (f : nat -> byte) : arr n :=
  Arr (f <$> seq 0 n) (by_eval _ (from_fn_ok f)).

(** [array.get(i).copied().unwrap_or(0)]. *)
Definition arr_get a (i : nat) : byte := default x00 (arr_list a !! i).

Lemma lookup_from_fn f i : i < n -> arr_list (arr_from_fn f) !! i = Some (f i).
Proof.
  intros H. cbn. rewrite list_lookup_fmap, lookup_seq_lt by done. done.
Qed.

Lemma arr_get_from_fn f i : i < n -> arr_get (arr_from_fn f) i = f i.
Proof. intros H. unfold arr_get. by rewrite lookup_from_fn. Qed.

Lemma lookup_arr a i : i < n -> arr_list a !! i = Some (arr_get a i).
Proof.
  intros H. unfold arr_get. destruct (lookup_lt_is_Some_2 (arr_list a) i) as [b Hb].
  { by rewrite length_arr. }
  by rewrite Hb.
Qed.

(** Two arrays with the same bytes are equal. *)
Lemma arr_get_eq a b : (forall i, i < n -> arr_get a i = arr_get b i) -> a = b.
Proof.
  intros H. apply arr_eq, list_eq. intros i.
  destruct (decide (i < n)) as [Hi|Hi].
  - rewrite !lookup_arr by done. f_equal. by apply H.
  - rewrite !lookup_ge_None_2 by (rewrite length_arr; lia). done.
Qed.

Lemma arr_from_fn_get a : arr_from_fn (arr_get a) = a.
Proof. apply arr_get_eq. intros i Hi. by apply arr_get_from_fn. Qed.

#[export] Program Instance arr_countable : Countable (arr n) :=
  inj_countable arr_list arr_try _.
Next Obligation. apply arr_try_arr. Qed.

End arr.

(** [[0u8; N]] and [[b; N]]. *)
Lemma arr_repeat_ok n (b : byte) : (length (replicate n b) =? n) = true.
Proof. apply Nat.eqb_eq, length_replicate. Qed.
Definition arr_repeat (n : nat) (b : byte) : arr n :=
  Arr (replicate n b) (by_eval _ (arr_repeat_ok n b)).

(** A [from_fn] that copies from a list of the right length is the list. *)
Lemma from_fn_list n (l : list byte) (f : nat -> byte) :
  length l = n -> (forall i, i < n -> f i = default x00 (l !! i)) ->
  arr_list (n:=n) (arr_from_fn f) = l.
Proof.
  intros Hl Hf. apply Nat.eqb_eq in Hl as Hok.
  change l with (arr_list (Arr l Hok)). f_equal. apply arr_get_eq.
  intros i Hi. rewrite arr_get_from_fn by done. by apply Hf.
Qed.

(** ** Big-endian and little-endian encodings *)

Fixpoint le_encode (k : nat) (n : N) : list byte :=
  match k with
  | O => []
  | S k' => n2b n :: le_encode k' (n / 256)
  end.

Fixpoint le_decode (l : list byte) : N :=
  match l with
  | [] => 0
  | b :: l' => b2n b + 256 * le_decode l'
  end.

Lemma length_le_encode k n : length (le_encode k n) = k.
Proof. revert n. induction k; intros; cbn; [done|]. by rewrite IHk. Qed.

Lemma le_decode_encode k n : le_decode (le_encode k n) = (n mod 2 ^ (8 * N.of_nat k))%N.
Proof.
  revert n. induction k as [|k IH]; intros n; cbn [le_encode le_decode].
  - by rewrite N.mod_1_r.
  - rewrite IH, b2n_n2b.
    replace (8 * N.of_nat (S k))%N with (8 + 8 * N.of_nat k)%N by lia.
    rewrite N.pow_add_r. change (2 ^ 8)%N with 256%N.
    assert (2 ^ (8 * N.of_nat k) <> 0)%N by (by apply N.pow_nonzero).
    rewrite N.Div0.mod_mul_r. lia.
Qed.

Lemma le_encode_decode l : le_encode (length l) (le_decode l) = l.
Proof.
  induction l as [|b l IH]; cbn; [done|].
  replace (b2n b + 256 * le_decode l)%N with (le_decode l * 256 + b2n b)%N by lia.
  pose proof (b2n_lt b). f_equal.
  - apply b2n_inj. rewrite b2n_n2b.
    rewrite N.add_comm, N.Div0.mod_add. by apply N.mod_small.
  - rewrite N.div_add_l by done. rewrite N.div_small by done. by rewrite N.add_0_r.
Qed.

Lemma le_decode_lt l : (le_decode l < 2 ^ (8 * N.of_nat (length l)))%N.
Proof.
  rewrite <- (le_encode_decode l) at 1. rewrite le_decode_encode.
  apply N.mod_lt, N.pow_nonzero. done.
Qed.

(** [to_be_bytes] / [from_be_bytes] of a [uint (8 * k)], as the source uses
    them for [u16], [u32] and [u64]; [to_le_bytes] / [from_le_bytes]. *)
Definition be_bytes {w} (k : nat) (a : uint w) : list byte := rev (le_encode k (uval a)).
Definition le_bytes {w} (k : nat) (a : uint w) : list byte := le_encode k (uval a).
Definition from_be {w} (l : list byte) : uint w := uint_wrap (le_decode (rev l)).

#[global] Arguments be_bytes : simpl never.
#[global] Arguments le_bytes : simpl never.
#[global] Arguments from_be : simpl never.

Lemma length_be_bytes {w} k (a : uint w) : length (be_bytes k a) = k.
Proof. unfold be_bytes. by rewrite length_rev, length_le_encode. Qed.

Lemma length_le_bytes {w} k (a : uint w) : length (le_bytes k a) = k.
Proof. apply length_le_encode. Qed.

Lemma from_be_bytes {w} k (a : uint w) : w = (8 * N.of_nat k)%N -> from_be (be_bytes k a) = a.
Proof.
  intros ->. apply uint_eq. unfold from_be, be_bytes.
  rewrite rev_involutive, le_decode_encode, uval_wrap, N.Div0.mod_mod.
  apply N.mod_small, uint_lt.
Qed.

Lemma be_bytes_from_be {w} k (l : list byte) :
  w = (8 * N.of_nat k)%N -> length l = k -> be_bytes k (from_be (w:=w) l) = l.
Proof.
  intros -> <-. unfold be_bytes, from_be. rewrite uint_wrap_small.
  - rewrite <- (length_rev l) at 1. rewrite le_encode_decode. apply rev_involutive.
  - rewrite <- (length_rev l). apply le_decode_lt.
Qed.

#[export] Hint Rewrite @length_arr @length_be_bytes @length_le_bytes : p2p.
