(* ===== verification/Fmt.v ===== *)
(** * Text: [format!], [Display] of the standard types and UTF-8

    A Rust [String] is a [string]: its UTF-8 bytes, one [ascii] per byte.
    The [Display] of integers and IP addresses and [str::from_utf8] are the
    standard library's; the source uses them for error messages and, in the
    [RELAY_FAIL] frame, on the wire. *)

From S2P Require Export Words.
From Stdlib Require Import Strings.Ascii.
From Stdlib Require Strings.String.

#[local] Open Scope string_scope.

(** [s.as_bytes()] and the unchecked inverse. *)
Definition str_bytes (s : string) : list byte := String.list_byte_of_string s.
Definition bytes_str (l : list byte) : string := String.string_of_list_byte l.

Lemma bytes_str_bytes s : bytes_str (str_bytes s) = s.
Proof. apply String.string_of_list_byte_of_string. Qed.
Lemma str_bytes_str l : str_bytes (bytes_str l) = l.
Proof. apply String.list_byte_of_string_of_list_byte. Qed.

#[export] Instance str_bytes_inj : Inj (=) (=) str_bytes.
Proof. intros a b H. by rewrite <- (bytes_str_bytes a), H, bytes_str_bytes. Qed.

(** [{}] of an unsigned integer. *)
Definition dec (n : N) : string := pretty n.
Definition decn (n : nat) : string := dec (N.of_nat n).

(** [{:x}] and [{:02x}]. *)
Definition hex_digit (n : N) : ascii :=
  if (n <? 10)%N then ascii_of_N (48 + n) else ascii_of_N (87 + n).
Fixpoint hex_go (fuel : nat) (n : N) (acc : string) : string :=
  match fuel with
  | O => acc
  | S f =>
      let acc := String (hex_digit (n mod 16)) acc in
      if (n <? 16)%N then acc else hex_go f (n / 16) acc
  end.
Definition hex (n : N) : string := hex_go (S (N.to_nat (N.size n))) n EmptyString.
Definition hex02 (b : byte) : string :=
  String (hex_digit (b2n b / 16)) (String (hex_digit (b2n b mod 16)) EmptyString).

(** [iter().try_for_each(|byte| write!(f, "{byte:02x}"))]. *)
Definition hex_bytes (l : list byte) : string :=
  String.concat EmptyString (hex02 <$> l).

(** ** IP addresses: [Ipv4Addr] and [Ipv6Addr] by their octets *)

Definition ipv4_display (ip : arr 4) : string :=
  String.concat "." ((fun b => dec (b2n b)) <$> arr_list ip).

(** [Ipv6Addr::segments]: eight big-endian 16-bit groups. *)
Fixpoint be_pairs (l : list byte) : list N :=
  match l with
  | a :: b :: l' => (256 * b2n a + b2n b)%N :: be_pairs l'
  | _ => []
  end.
Definition ipv6_segments (ip : arr 16) : list N := be_pairs (arr_list ip).

(** [Ipv6Addr::to_ipv4_mapped]: the V4 address of [::ffff:a.b.c.d]. *)
Definition to_ipv4_mapped (ip : arr 16) : option (arr 4) :=
  if decide (take 12 (arr_list ip) = (replicate 10 x00 ++ [xff; xff])%list)
  then arr_try (drop 12 (arr_list ip)) else None.

(** The standard library compresses the first longest run of zero groups
    when it is longer than one group. *)
Record span : Type := Span { span_start : nat; span_len : nat }.

Fixpoint longest_zero_run (i : nat) (cur longest : span) (segs : list N) : span :=
  match segs with
  | [] => longest
  | s :: segs' =>
      if (s =? 0)%N then
        let cur := Span (if (span_len cur =? 0)%nat then i else span_start cur) (S (span_len cur)) in
        let longest := if (span_len longest <? span_len cur)%nat then cur else longest in
        longest_zero_run (S i) cur longest segs'
      else longest_zero_run (S i) (Span 0 0) longest segs'
  end.

Definition ipv6_display (ip : arr 16) : string :=
  match to_ipv4_mapped ip with
  | Some v4 => "::ffff:" ++ ipv4_display v4
  | None =>
      let segs := ipv6_segments ip in
      let sub l := String.concat ":" (hex <$> l) in
      let z := longest_zero_run 0 (Span 0 0) (Span 0 0) segs in
      if (1 <? span_len z)%nat
      then sub (take (span_start z) segs) ++ "::" ++ sub (drop (span_start z + span_len z) segs)
      else sub segs
  end.

(** ** [str::from_utf8] *)

(** [Utf8Error]: [valid_up_to] and [error_len]. *)
Record utf8_error : Type := Utf8Error { valid_up_to : nat; error_len : option nat }.

Definition in_range (lo hi : N) (b : byte) : bool := (lo <=? b2n b)%N && (b2n b <=? hi)%N.
Definition is_cont (b : byte) : bool := in_range 128 191 b.

(** The second byte a three- or four-byte sequence may have. *)
Definition second3_ok (b0 b1 : byte) : bool :=
  if (b2n b0 =? 224)%N then in_range 160 191 b1
  else if (b2n b0 =? 237)%N then in_range 128 159 b1
  else is_cont b1.
Definition second4_ok (b0 b1 : byte) : bool :=
  if (b2n b0 =? 240)%N then in_range 144 191 b1
  else if (b2n b0 =? 244)%N then in_range 128 143 b1
  else is_cont b1.

Fixpoint utf8_check (i : nat) (l : list byte) : option utf8_error :=
  let err n := Some (Utf8Error i (Some n)) in
  let eof := Some (Utf8Error i None) in
  match l with
  | [] => None
  | b0 :: l1 =>
      if (b2n b0 <? 128)%N then utf8_check (i + 1) l1
      else if in_range 194 223 b0 then
        match l1 with
        | [] => eof
        | b1 :: l2 => if is_cont b1 then utf8_check (i + 2) l2 else err 1
        end
      else if in_range 224 239 b0 then
        match l1 with
        | [] => eof
        | b1 :: l2 =>
            if second3_ok b0 b1 then
              match l2 with
              | [] => eof
              | b2 :: l3 => if is_cont b2 then utf8_check (i + 3) l3 else err 2
              end
            else err 1
        end
      else if in_range 240 244 b0 then
        match l1 with
        | [] => eof
        | b1 :: l2 =>
            if second4_ok b0 b1 then
              match l2 with
              | [] => eof
              | b2 :: l3 =>
                  if is_cont b2 then
                    match l3 with
                    | [] => eof
                    | b3 :: l4 => if is_cont b3 then utf8_check (i + 4) l4 else err 3
                    end
                  else err 2
              end
            else err 1
        end
      else err 1
  end.

Definition from_utf8 (l : list byte) : result utf8_error string :=
  match utf8_check 0 l with
  | None => Ok (bytes_str l)
  | Some e => Err e
  end.

Definition utf8_error_display (e : utf8_error) : string :=
  match error_len e with
  | Some n => "invalid utf-8 sequence of " ++ decn n ++ " bytes from index " ++ decn (valid_up_to e)
  | None => "incomplete utf-8 byte sequence from index " ++ decn (valid_up_to e)
  end.

(** A [str] is valid UTF-8 by construction; this says it of a model string. *)
Definition is_str (s : string) : bool := is_ok (from_utf8 (str_bytes s)).

(** Text whose bytes are all ASCII is valid UTF-8. *)
Definition is_ascii (s : string) : bool :=
  forallb (fun b => (b2n b <? 128)%N) (str_bytes s).

Lemma utf8_check_ascii i l :
  forallb (fun b => (b2n b <? 128)%N) l = true -> utf8_check i l = None.
Proof.
  revert i. induction l as [|b l IH]; intros i H; cbn in *; [done|].
  apply andb_true_iff in H as [-> Hl]. by apply IH.
Qed.

Lemma is_ascii_is_str s : is_ascii s = true -> is_str s = true.
Proof. intros H. unfold is_str, from_utf8. by rewrite utf8_check_ascii. Qed.

Lemma from_utf8_Ok l s : from_utf8 l = Ok s <-> str_bytes s = l /\ is_str s = true.
Proof.
  unfold is_str, from_utf8. split.
  - destruct (utf8_check 0 l) as [e|] eqn:E; intros [= <-].
    rewrite str_bytes_str. by rewrite E.
  - intros [<- H]. destruct (utf8_check 0 (str_bytes s)); [done|].
    by rewrite bytes_str_bytes.
Qed.

(** Numbers and IP addresses print as ASCII. *)
Lemma is_ascii_cons a s : is_ascii (String a s) = (N_of_ascii a <? 128)%N && is_ascii s.
Proof. unfold is_ascii, str_bytes. cbn. unfold b2n. f_equal. f_equal. by destruct a as [[] [] [] [] [] [] [] []]. Qed.

Lemma is_ascii_app s1 s2 : is_ascii (s1 ++ s2) = is_ascii s1 && is_ascii s2.
Proof.
  induction s1 as [|a s1 IH]; [done|]. change (String a s1 ++ s2) with (String a (s1 ++ s2)).
  by rewrite !is_ascii_cons, IH, andb_assoc.
Qed.

Lemma is_ascii_concat sep l :
  is_ascii sep = true -> Forall (fun s => is_ascii s = true) l -> is_ascii (String.concat sep l) = true.
Proof.
  intros Hsep. induction 1 as [|s l Hs Hl IH]; [done|]. cbn [String.concat]. destruct l; [done|].
  by rewrite !is_ascii_app, Hs, Hsep, IH.
Qed.

Lemma is_ascii_dec n : is_ascii (dec n) = true.
Proof.
  unfold dec, pretty, pretty_N. case_decide; [done|].
  assert (Hgo : forall s, is_ascii s = true -> is_ascii (pretty_N_go n s) = true); [|by apply Hgo].
  clear. induction (N.lt_wf_0 n) as [n _ IH]. intros s Hs.
  destruct (decide (0 < n)%N) as [Hn|Hn].
  - rewrite pretty_N_go_step by done. apply IH; [by apply N.div_lt|].
    rewrite is_ascii_cons, Hs, andb_true_r. unfold pretty_N_char. by repeat case_match.
  - assert (n = 0%N) as -> by lia. by rewrite pretty_N_go_0.
Qed.

Lemma is_ascii_hex n : is_ascii (hex n) = true.
Proof.
  unfold hex. assert (Hgo : forall f m s, is_ascii s = true -> is_ascii (hex_go f m s) = true); [|by apply Hgo].
  clear. induction f as [|f IH]; intros m s Hs; [done|]. cbn [hex_go].
  assert (is_ascii (String (hex_digit (m mod 16)) s) = true) as Hc.
  { rewrite is_ascii_cons, Hs, andb_true_r. unfold hex_digit.
    assert (m mod 16 < 16)%N by (by apply N.mod_lt).
    destruct (N.ltb_spec (m mod 16) 10); rewrite N_ascii_embedding by lia; apply N.ltb_lt; lia. }
  case_match; [done|]. by apply IH.
Qed.

Lemma is_ascii_ipv4 ip : is_ascii (ipv4_display ip) = true.
Proof. apply is_ascii_concat; [done|]. apply Forall_fmap, Forall_true. intros b. apply is_ascii_dec. Qed.

Lemma is_ascii_ipv6 ip : is_ascii (ipv6_display ip) = true.
Proof.
  assert (Hsub : forall l, is_ascii (String.concat ":" (hex <$> l)) = true).
  { intros l. apply is_ascii_concat; [done|]. apply Forall_fmap, Forall_true. intros b. apply is_ascii_hex. }
  unfold ipv6_display. case_match; [by rewrite is_ascii_app, is_ascii_ipv4|].
  case_match; [|apply Hsub]. by rewrite !is_ascii_app, !Hsub.
Qed.

(** ** Debug output of a string literal [{:?}]

    Exact for ASCII text; bytes above 127 are passed through, which is what
    the standard library prints for printable non-ASCII characters. *)
Definition debug_char (a : ascii) : string :=
  let n := N_of_ascii a in
  if (n =? 34)%N then "\" ++ String a EmptyString
  else if (n =? 92)%N then "\\"
  else if (n =? 0)%N then "\0"
  else if (n =? 9)%N then "\t"
  else if (n =? 10)%N then "\n"
  else if (n =? 13)%N then "\r"
  else if (n <? 32)%N || (n =? 127)%N then "\u{" ++ hex n ++ "}"
  else String a EmptyString.
Definition str_debug (s : string) : string :=
  let quote := String (ascii_of_N 34) EmptyString in
  quote ++ String.concat EmptyString (debug_char <$> String.list_ascii_of_string s) ++ quote.
