(* ===== verification/BTree.v ===== *)
(** * Ordered maps: the source's [BTreeMap]

    A [BTreeMap<K, V>] is stdpp's [gmap] (extensional, so two maps with the
    same bindings are equal) whose iteration order is recovered by sorting
    its bindings by key.  The order of a key type is its derived [Ord]: the
    lexicographic order of the key's components, given by [ord_key]. *)

From S2P Require Export Words.

(** ** Lexicographic order on lists of naturals *)

Fixpoint lex_le (a b : list N) : bool :=
  match a, b with
  | [], _ => true
  | _ :: _, [] => false
  | x :: a', y :: b' => (x <? y)%N || ((x =? y)%N && lex_le a' b')
  end.

Lemma lex_le_refl a : lex_le a a = true.
Proof. induction a as [|x a IH]; cbn; [done|]. by rewrite N.eqb_refl, IH, orb_true_r. Qed.

Lemma lex_le_cons x a y b :
  lex_le (x :: a) (y :: b) = true <-> (x < y)%N \/ (x = y /\ lex_le a b = true).
Proof.
  cbn. rewrite orb_true_iff, andb_true_iff, N.ltb_lt, N.eqb_eq. done.
Qed.

Lemma lex_le_trans a b c : lex_le a b = true -> lex_le b c = true -> lex_le a c = true.
Proof.
  revert b c. induction a as [|x a IH]; intros [|y b] [|z c]; try done.
  rewrite !lex_le_cons. intros [H1|[-> H1]] [H2|[-> H2]]; try (left; lia).
  right. split; [done|]. by eapply IH.
Qed.

Lemma lex_le_antisym a b : lex_le a b = true -> lex_le b a = true -> a = b.
Proof.
  revert b. induction a as [|x a IH]; intros [|y b]; try done.
  rewrite !lex_le_cons. intros [H1|[-> H1]] [H2|[Heq H2]]; try lia.
  f_equal. by apply IH.
Qed.

Lemma lex_le_total a b : lex_le a b = true \/ lex_le b a = true.
Proof.
  revert b. induction a as [|x a IH]; intros [|y b]; try (by left); try (by right).
  rewrite !lex_le_cons. destruct (N.lt_trichotomy x y) as [?|[->|?]]; [by auto| |by auto].
  destruct (IH b); auto.
Qed.

(** ** Key types: a derived [Ord] *)

Class RustOrd (K : Type) := {
  ord_key : K -> list N;
  ord_key_inj : Inj (=) (=) ord_key
}.
#[export] Existing Instance ord_key_inj.

Definition ord_le {K} `{RustOrd K} (a b : K) : bool := lex_le (ord_key a) (ord_key b).

Section ord.
Context {K : Type} `{RustOrd K}.
Implicit Types a b c : K.

Lemma ord_le_refl a : ord_le a a = true.
Proof. apply lex_le_refl. Qed.
Lemma ord_le_trans a b c : ord_le a b = true -> ord_le b c = true -> ord_le a c = true.
Proof. apply lex_le_trans. Qed.
Lemma ord_le_antisym a b : ord_le a b = true -> ord_le b a = true -> a = b.
Proof. intros H1 H2. apply (inj ord_key). by apply lex_le_antisym. Qed.
Lemma ord_le_total a b : ord_le a b = true \/ ord_le b a = true.
Proof. apply lex_le_total. Qed.

(** The order as a relation, for the sorting library. *)
Definition key_le {V} (p q : K * V) : Prop := ord_le p.1 q.1 = true.

#[export] Instance key_le_dec {V} : RelDecision (@key_le V).
Proof. intros p q. unfold key_le. apply _. Defined.
#[export] Instance key_le_trans {V} : Transitive (@key_le V).
Proof. intros p q r. apply ord_le_trans. Qed.
#[export] Instance key_le_total {V} : Total (@key_le V).
Proof. intros p q. apply ord_le_total. Qed.

End ord.

(** Arrays of bytes compare byte by byte. *)
#[export] Program Instance arr_ord {n} : RustOrd (arr n) :=
  {| ord_key a := b2n <$> arr_list a |}.
Next Obligation.
  intros n a b Hab. apply arr_eq. revert Hab. apply list_fmap_eq_inj.
  intros x y. apply b2n_inj.
Qed.

(** ** Iteration *)

Section btree.
Context {K V : Type} `{RustOrd K, EqDecision K, !Countable K}.
Implicit Types (m : gmap K V) (k : K) (v : V).

(** [map.iter()], [map.keys()], [map.values()]: ascending key order. *)
Definition bt_iter m : list (K * V) := merge_sort key_le (map_to_list m).
Definition bt_keys m : list K := (bt_iter m).*1.
Definition bt_values m : list V := (bt_iter m).*2.

Lemma bt_iter_perm m : bt_iter m ≡ₚ map_to_list m.
Proof. apply merge_sort_Permutation. Qed.

Lemma elem_of_bt_iter m k v : (k, v) ∈ bt_iter m <-> m !! k = Some v.
Proof. rewrite bt_iter_perm. apply elem_of_map_to_list. Qed.

Lemma elem_of_bt_keys m k : k ∈ bt_keys m <-> is_Some (m !! k).
Proof.
  unfold bt_keys. rewrite list_elem_of_fmap. split.
  - intros ([k' v] & -> & Hin). apply elem_of_bt_iter in Hin. by exists v.
  - intros [v Hv]. exists (k, v). split; [done|]. by apply elem_of_bt_iter.
Qed.

Lemma elem_of_bt_values m v : v ∈ bt_values m <-> exists k, m !! k = Some v.
Proof.
  unfold bt_values. rewrite list_elem_of_fmap. split.
  - intros ([k v'] & -> & Hin). apply elem_of_bt_iter in Hin. by exists k.
  - intros [k Hk]. exists (k, v). split; [done|]. by apply elem_of_bt_iter.
Qed.

Lemma length_bt_iter m : length (bt_iter m) = size m.
Proof. rewrite bt_iter_perm. apply length_map_to_list. Qed.

Lemma NoDup_bt_keys m : NoDup (bt_keys m).
Proof. unfold bt_keys. rewrite bt_iter_perm. apply NoDup_fst_map_to_list. Qed.

Lemma bt_iter_sorted m : StronglySorted key_le (bt_iter m).
Proof. apply StronglySorted_merge_sort; apply _. Qed.

(** [map.contains_key(&k)]. *)
Definition contains_key m k : bool := match m !! k with Some _ => true | None => false end.

Lemma contains_key_true m k : contains_key m k = true <-> is_Some (m !! k).
Proof.
  unfold contains_key. rewrite is_Some_alt. by destruct (m !! k).
Qed.
Lemma contains_key_false m k : contains_key m k = false <-> m !! k = None.
Proof. unfold contains_key. by destruct (m !! k). Qed.

(** [BTreeMap::from_iter]: later bindings of a key replace earlier ones. *)
Definition bt_collect (l : list (K * V)) : gmap K V :=
  foldl (fun m kv => <[kv.1 := kv.2]> m) ∅ l.

Lemma bt_collect_lookup l k v :
  bt_collect l !! k = Some v -> (k, v) ∈ l.
Proof.
  unfold bt_collect. enough (Hgen : forall m,
    foldl (fun m kv => <[kv.1 := kv.2]> m) m l !! k = Some v ->
    (k, v) ∈ l \/ m !! k = Some v).
  { intros [?|E]%Hgen; [done|]. by rewrite lookup_empty in E. }
  induction l as [|[k' v'] l IH]; cbn; intros m Hm; [by right|].
  apply IH in Hm as [Hm|Hm]; [left; by right|].
  apply lookup_insert_Some in Hm as [[-> ->]|[_ Hm]]; [left; by left|by right].
Qed.

Lemma bt_collect_is_Some l k :
  is_Some (bt_collect l !! k) <-> k ∈ l.*1.
Proof.
  unfold bt_collect. enough (Hgen : forall m,
    is_Some (foldl (fun m kv => <[kv.1 := kv.2]> m) m l !! k) <->
    k ∈ l.*1 \/ is_Some (m !! k)).
  { rewrite Hgen, lookup_empty. split; [intros [?|Hn]|]; [done| |by left].
    by apply is_Some_None in Hn. }
  induction l as [|[k' v'] l IH]; intros m; cbn.
  - split; [by right|]. intros [Hk%elem_of_nil|?]; done.
  - rewrite IH, elem_of_cons, lookup_insert_is_Some. destruct (decide (k' = k)); naive_solver.
Qed.

End btree.

(** ** [Iterator::min_by_key]: the first element of least key *)

Fixpoint min_by_key {A} (f : A -> N) (l : list A) : option A :=
  match l with
  | [] => None
  | x :: l' =>
      match min_by_key f l' with
      | None => Some x
      | Some y => if (f x <=? f y)%N then Some x else Some y
      end
  end.

Lemma min_by_key_None {A} (f : A -> N) l : min_by_key f l = None <-> l = [].
Proof.
  destruct l as [|x l]; cbn; [done|]. split; [|done].
  destruct (min_by_key f l); [|done]. by case_match.
Qed.

Lemma min_by_key_Some {A} (f : A -> N) l x :
  min_by_key f l = Some x -> x ∈ l /\ forall y, y ∈ l -> (f x <= f y)%N.
Proof.
  revert x. induction l as [|a l IH]; intros x; cbn; [done|].
  destruct (min_by_key f l) as [b|] eqn:E.
  - destruct (IH b eq_refl) as [Hb Hmin].
    destruct (N.leb_spec (f a) (f b)); intros [= <-].
    + split; [by left|]. intros y [->|Hy]%elem_of_cons; [done|].
      specialize (Hmin y Hy). lia.
    + split; [by right|]. intros y [->|Hy]%elem_of_cons; [lia|]. by apply Hmin.
  - apply min_by_key_None in E as ->. intros [= <-].
    split; [by left|]. intros y [->|Hy%elem_of_nil]%elem_of_cons; [lia|done].
Qed.

(** ** [slice::sort_by_key]: a stable sort *)

Section sort.
Context {A K : Type} `{RustOrd K} (key : A -> K).

(** Put [x] in front of the first element whose key is not smaller. *)
Fixpoint sort_insert (x : A) (l : list A) : list A :=
  match l with
  | [] => [x]
  | y :: l' => if ord_le (key x) (key y) then x :: l else y :: sort_insert x l'
  end.

Definition sort_by_key (l : list A) : list A := foldr sort_insert [] l.

Lemma sort_insert_perm x l : sort_insert x l ≡ₚ x :: l.
Proof.
  induction l as [|y l IH]; cbn; [done|]. destruct (ord_le (key x) (key y)); [done|].
  rewrite IH. apply Permutation_swap.
Qed.

Lemma sort_by_key_perm l : sort_by_key l ≡ₚ l.
Proof. induction l as [|x l IH]; cbn; [done|]. by rewrite sort_insert_perm, IH. Qed.

Definition key_sorted (l : list A) : Prop :=
  StronglySorted (fun x y => ord_le (key x) (key y) = true) l.

Lemma sort_insert_sorted x l : key_sorted l -> key_sorted (sort_insert x l).
Proof.
  unfold key_sorted. induction 1 as [|y l Hl IH Hy]; cbn; [by repeat constructor|].
  destruct (ord_le (key x) (key y)) eqn:E.
  - constructor; [by constructor|]. constructor; [done|].
    eapply Forall_impl; [done|]. intros z Hz. by eapply ord_le_trans.
  - constructor; [done|]. rewrite sort_insert_perm. constructor; [|done].
    destruct (ord_le_total (key x) (key y)); [congruence|done].
Qed.

Lemma sort_by_key_sorted l : key_sorted (sort_by_key l).
Proof. induction l as [|x l IH]; [constructor|]. by apply sort_insert_sorted. Qed.

(** Cutting a sorted list leaves the least elements. *)
Lemma key_sorted_take l n x y :
  key_sorted l -> x ∈ take n l -> y ∈ drop n l -> ord_le (key x) (key y) = true.
Proof.
  intros Hs. revert n. induction Hs as [|z l Hs IH Hz]; intros [|n] Hx Hy; cbn in *;
    try by apply elem_of_nil in Hx.
  apply elem_of_cons in Hx as [->|Hx]; [|by eapply IH].
  rewrite Forall_forall in Hz. apply Hz. rewrite <- (take_drop n l). apply elem_of_app. by right.
Qed.

End sort.

(** A sorted list without repeated names is sorted by the strict relation. *)
Lemma StronglySorted_strengthen {A B} (name : A -> B) (R R' : A -> A -> Prop) l :
  NoDup (name <$> l) -> StronglySorted R l ->
  (forall x y, R x y -> name x <> name y -> R' x y) -> StronglySorted R' l.
Proof.
  intros Hnd Hs HR. induction Hs as [|x l Hs IH Hx]; [constructor|].
  cbn in Hnd. apply NoDup_cons in Hnd as [Hni Hnd]. constructor; [by apply IH|].
  rewrite Forall_forall in *. intros y Hy. apply HR; [by apply Hx|].
  intros He. apply Hni. rewrite He. by apply list_elem_of_fmap_2.
Qed.

Lemma StronglySorted_fmap {A B} (f : A -> B) (R : A -> A -> Prop) (R' : B -> B -> Prop) l :
  StronglySorted R l -> (forall x y, x ∈ l -> y ∈ l -> R x y -> R' (f x) (f y)) ->
  StronglySorted R' (f <$> l).
Proof.
  induction 1 as [|x l Hs IH Hx]; intros Hf; cbn; [constructor|]. constructor.
  - apply IH. intros y z Hy Hz. apply Hf; by right.
  - apply Forall_forall. intros y (z & -> & Hz)%list_elem_of_fmap.
    apply Hf; [by left|by right|exact (proj1 (Forall_forall _ _) Hx z Hz)].
Qed.

(** Sorting is stable under a change of payload that keeps the keys. *)
Lemma sort_by_key_fmap {A B K} `{RustOrd K} (key : B -> K) (f : A -> B) l :
  sort_by_key key (f <$> l) = f <$> sort_by_key (key ∘ f) l.
Proof.
  assert (Hi : forall x l', sort_insert key (f x) (f <$> l') = f <$> sort_insert (key ∘ f) x l').
  { intros x l'. induction l' as [|y l' IH]; cbn; [done|]. destruct (ord_le _ _); [done|].
    cbn. by f_equal. }
  induction l as [|x l IH]; [done|]. cbn.
  change (list_fmap _ _ f l) with (f <$> l). fold (sort_by_key key (f <$> l)).
  by rewrite IH, Hi.
Qed.

(** Maps with the same keys list them in the same order. *)
Lemma bt_keys_eq {K V W} `{RustOrd K, EqDecision K, !Countable K} (m1 : gmap K V) (m2 : gmap K W) :
  (forall k, is_Some (m1 !! k) <-> is_Some (m2 !! k)) -> bt_keys m1 = bt_keys m2.
Proof.
  intros Hk. set (le := fun a b : K => ord_le a b = true).
  assert (Hs : forall {V'} (m : gmap K V'), StronglySorted le (bt_keys m)).
  { intros V' m. apply (StronglySorted_fmap fst key_le le); [apply bt_iter_sorted|done]. }
  assert (AntiSymm (=) le) by (intros a b; apply ord_le_antisym).
  apply (StronglySorted_unique le); [apply Hs..|].
  apply NoDup_Permutation; [apply NoDup_bt_keys..|]. intros k. by rewrite !elem_of_bt_keys.
Qed.

(** ** Sweeping idle entries

    The host and the gossip state age their entries in the same way: those
    whose activity is behind a cutoff are reported and dropped. *)

Section sweep.
Context {K V : Type} `{RustOrd K, EqDecision K, !Countable K} (activity : V -> u64).
Implicit Types (map : gmap K V).

Definition sweep_idle map (cutoff : u64) : gmap K V * list K :=
  let evicted :=
    fst <$> filter (fun kv => (uval (activity kv.2) < uval cutoff)%N) (bt_iter map) in
  let kept := filter (fun kv => (uval cutoff <= uval (activity kv.2))%N) map in
  (kept, evicted).

(** The sweep removes exactly the entries older than the cutoff. *)
Lemma sweep_idle_kept map cutoff k v :
  (sweep_idle map cutoff).1 !! k = Some v <->
  map !! k = Some v /\ (uval cutoff <= uval (activity v))%N.
Proof. cbn. by rewrite map_lookup_filter_Some. Qed.

Lemma sweep_idle_evicted map cutoff k :
  k ∈ (sweep_idle map cutoff).2 <->
  exists v, map !! k = Some v /\ (uval (activity v) < uval cutoff)%N.
Proof.
  cbn. rewrite list_elem_of_fmap. split.
  - intros ([k' v] & -> & Hin). apply list_elem_of_filter in Hin as [Hv Hin].
    apply elem_of_bt_iter in Hin. by exists v.
  - intros (v & Hv & Hlt). exists (k, v). split; [done|].
    apply list_elem_of_filter. split; [done|]. by apply elem_of_bt_iter.
Qed.

Lemma sweep_idle_size map cutoff : size (sweep_idle map cutoff).1 <= size map.
Proof. cbn. apply map_subseteq_size, map_filter_subseteq. Qed.

(** Every entry is kept as it was or reported. *)
Lemma sweep_idle_splits map cutoff k v :
  map !! k = Some v ->
  ((sweep_idle map cutoff).1 !! k = Some v /\ k ∉ (sweep_idle map cutoff).2) \/
  ((sweep_idle map cutoff).1 !! k = None /\ k ∈ (sweep_idle map cutoff).2).
Proof.
  intros Hv. destruct (N.le_gt_cases (uval cutoff) (uval (activity v))) as [Hle|Hlt].
  - left. split; [by apply sweep_idle_kept|]. rewrite sweep_idle_evicted. intros (v' & Hv' & Hlt).
    simplify_eq. lia.
  - right. split; [|apply sweep_idle_evicted; eauto]. apply eq_None_not_Some.
    intros [v' [Hv' Hle]%sweep_idle_kept]. simplify_eq. lia.
Qed.

End sweep.
