(* ===== verification/Types.v ===== *)
(** * The [libp2p-cat-types] crate: errors, addresses, peer and protocol ids

    Models [error.rs], [addr.rs], [peer_id.rs] and [protocol_id.rs] of
    src/crates/libp2p-cat-types/src. *)

From S2P Require Export Fmt BTree.

#[local] Open Scope string_scope.

(** ** The workspace error type *)

(** A [std::io::Error], known by the text its [Display] prints. *)
Record io_error : Type := IoError { io_text : string }.

Inductive Error : Type :=
| ErrorIo (e : io_error)
| InvalidProtocolId (input : string)
| InvalidPeerId (reason : string)
| DatagramTooLarge (attempted maximum : N)
| NoiseDecrypt
| NoiseProtocol (reason : string)
| NoiseReplay (nonce : u64)
| RlncLayer (reason : string)
| PubsubProtocol (reason : string)
| HostState (reason : string)
| IdentityVerify (reason : string).

(** [impl Display for Error]. *)
Definition error_display (e : Error) : string :=
  match e with
  | ErrorIo e => "I/O error: " ++ io_text e
  | InvalidProtocolId input => "invalid protocol id: " ++ str_debug input
  | InvalidPeerId reason => "invalid peer id: " ++ reason
  | DatagramTooLarge attempted maximum =>
      "datagram too large: attempted " ++ dec attempted ++ " bytes, maximum " ++ dec maximum
  | NoiseDecrypt => "noise decryption failed"
  | NoiseProtocol reason => "noise protocol violation: " ++ reason
  | NoiseReplay nonce => "noise replay or out-of-window datagram: nonce " ++ dec (uval nonce)
  | RlncLayer reason => "rlnc layer error: " ++ reason
  | PubsubProtocol reason => "pubsub protocol violation: " ++ reason
  | HostState reason => "host state violation: " ++ reason
  | IdentityVerify reason => "identity verification failed: " ++ reason
  end.

(** [impl std::error::Error for Error]: only [Io], here [ErrorIo], has a source. *)
Definition error_source (e : Error) : option io_error :=
  match e with
  | ErrorIo e => Some e
  | InvalidProtocolId _ | InvalidPeerId _ | DatagramTooLarge _ _ | NoiseDecrypt
  | NoiseProtocol _ | NoiseReplay _ | RlncLayer _ | PubsubProtocol _ | HostState _
  | IdentityVerify _ => None
  end.

(** [impl From<std::io::Error> for Error]. *)
Definition error_from_io (e : io_error) : Error := ErrorIo e.

(** ** UDP addresses *)

(** [std::net::SocketAddrV4] and [SocketAddrV6]. *)
Record SocketAddrV4 : Type := MkV4 { v4_ip : arr 4; v4_port : u16 }.
Record SocketAddrV6 : Type := MkV6 {
  v6_ip : arr 16; v6_port : u16; v6_flowinfo : u32; v6_scope_id : u32
}.
Inductive SocketAddr : Type :=
| SocketV4 (s : SocketAddrV4)
| SocketV6 (s : SocketAddrV6).

Inductive UdpAddr : Type :=
| V4 (s : SocketAddrV4)
| V6 (s : SocketAddrV6).

(** [impl From<SocketAddr> for UdpAddr] and back. *)
Definition udp_of_socket (a : SocketAddr) : UdpAddr :=
  match a with SocketV4 s => V4 s | SocketV6 s => V6 s end.
Definition socket_of_udp (a : UdpAddr) : SocketAddr :=
  match a with V4 s => SocketV4 s | V6 s => SocketV6 s end.

(** [impl Display for UdpAddr]: multiaddr style. *)
Definition udp_addr_display (a : UdpAddr) : string :=
  match a with
  | V4 s => "/ip4/" ++ ipv4_display (v4_ip s) ++ "/udp/" ++ dec (uval (v4_port s))
  | V6 s => "/ip6/" ++ ipv6_display (v6_ip s) ++ "/udp/" ++ dec (uval (v6_port s))
  end.

Lemma is_ascii_addr a : is_ascii (udp_addr_display a) = true.
Proof.
  destruct a; unfold udp_addr_display; rewrite !is_ascii_app, is_ascii_dec, ?is_ascii_ipv4, ?is_ascii_ipv6; done.
Qed.

#[export] Instance v4_eq_dec : EqDecision SocketAddrV4.
Proof. solve_decision. Defined.
#[export] Instance v6_eq_dec : EqDecision SocketAddrV6.
Proof. solve_decision. Defined.
#[export] Instance udp_addr_eq_dec : EqDecision UdpAddr.
Proof. solve_decision. Defined.

#[export] Program Instance udp_addr_countable : Countable UdpAddr :=
  inj_countable'
    (fun a => match a with
              | V4 s => inl (v4_ip s, v4_port s)
              | V6 s => inr (v6_ip s, v6_port s, v6_flowinfo s, v6_scope_id s)
              end)
    (fun x => match x with
              | inl (ip, port) => V4 (MkV4 ip port)
              | inr (ip, port, fl, sc) => V6 (MkV6 ip port fl sc)
              end) _.
Next Obligation. intros [[]|[]]; done. Qed.

(** The derived [Ord]: variant, then octets, port, flowinfo and scope. *)
#[export] Program Instance udp_addr_ord : RustOrd UdpAddr := {|
  ord_key a :=
    match a with
    | V4 s => 0%N :: (b2n <$> arr_list (v4_ip s)) ++ [uval (v4_port s)]
    | V6 s => 1%N :: (b2n <$> arr_list (v6_ip s)) ++
                [uval (v6_port s); uval (v6_flowinfo s); uval (v6_scope_id s)]
    end%list
|}.
Next Obligation.
  assert (Hinj : forall n (x y : arr n), b2n <$> arr_list x = b2n <$> arr_list y -> x = y).
  { intros n x y H. by apply (inj ord_key). }
  intros [[ip p]|[ip p f s]] [[ip' p']|[ip' p' f' s']] H; cbn in H; try done;
    injection H as H; apply app_inj_1 in H as [Hip Hrest];
    try (by rewrite !length_fmap, !length_arr);
    apply Hinj in Hip as ->; injection Hrest; intros;
    repeat match goal with E : uval _ = uval _ |- _ => apply uint_eq in E end; by subst.
Qed.

(** ** Peer identifiers *)

Definition MAX_INLINE_KEY_BYTES : nat := 42.
Definition KEY_TYPE_ED25519 : byte := x01.
Definition IDENTITY_MULTIHASH_CODE : byte := x00.
Definition ED25519_KEY_LEN : nat := 32.
Definition ED25519_PROTOBUF_LEN : nat := 4 + ED25519_KEY_LEN.
Definition ED25519_PEER_ID_LEN : nat := 2 + ED25519_PROTOBUF_LEN.

Record PeerId : Type := MkPeerId { peer_id_bytes : list byte }.
#[export] Instance peer_id_eq_dec : EqDecision PeerId.
Proof. solve_decision. Defined.

(** [u8::try_from(len).unwrap_or(0)]. *)
Definition u8_of_len (n : nat) : byte := if (n <? 256)%nat then n2b (N.of_nat n) else x00.

Definition ed25519_protobuf (key : arr ED25519_KEY_LEN) : arr ED25519_PROTOBUF_LEN :=
  let key_len := u8_of_len ED25519_KEY_LEN in
  arr_from_fn (fun i =>
    match i with
    | 0 => x08
    | 1 => KEY_TYPE_ED25519
    | 2 => x12
    | 3 => key_len
    | n => arr_get key (n - 4)
    end).

Definition identity_multihash_from_array (pb : arr ED25519_PROTOBUF_LEN)
    : arr ED25519_PEER_ID_LEN :=
  let len_byte := u8_of_len ED25519_PROTOBUF_LEN in
  arr_from_fn (fun i =>
    match i with
    | 0 => IDENTITY_MULTIHASH_CODE
    | 1 => len_byte
    | n => arr_get pb (n - 2)
    end).

(** [PeerId::from_ed25519]. *)
Definition from_ed25519 (key : arr ED25519_KEY_LEN) : PeerId :=
  let pb := ed25519_protobuf key in
  let mh := identity_multihash_from_array pb in
  MkPeerId (arr_list mh).

(** [PeerId::from_public_key_protobuf]. *)
Definition from_public_key_protobuf (pb : list byte) : result Error PeerId :=
  let len := length pb in
  if (len <? 256)%nat && ((len <=? MAX_INLINE_KEY_BYTES)%nat && (len <? 128)%nat)
  then Ok (MkPeerId ([IDENTITY_MULTIHASH_CODE; n2b (N.of_nat len)] ++ pb)%list)
  else Err (InvalidPeerId
    ("public-key protobuf of " ++ decn len ++ " bytes exceeds the inline-multihash limit of "
      ++ decn MAX_INLINE_KEY_BYTES ++ "; sha256-hashed PeerIds are not yet supported")).

(** [PeerId::len], [PeerId::is_empty] and [Display]. *)
Definition peer_id_len (p : PeerId) : nat := length (peer_id_bytes p).
Definition peer_id_is_empty (p : PeerId) : bool := (peer_id_len p =? 0)%nat.
Definition peer_id_display (p : PeerId) : string := "mh:" ++ hex_bytes (peer_id_bytes p).

Lemma ed25519_protobuf_list key :
  arr_list (ed25519_protobuf key) = ([x08; x01; x12; x20] ++ arr_list key)%list.
Proof.
  apply from_fn_list.
  - by rewrite length_app, length_arr.
  - intros i Hi. do 4 (destruct i as [|i]; [done|]). cbn.
    by rewrite Nat.sub_0_r.
Qed.

Lemma identity_multihash_list pb :
  arr_list (identity_multihash_from_array pb) = ([x00; x24] ++ arr_list pb)%list.
Proof.
  apply from_fn_list.
  - by rewrite length_app, length_arr.
  - intros i Hi. do 2 (destruct i as [|i]; [done|]). cbn. by rewrite Nat.sub_0_r.
Qed.

Lemma from_ed25519_bytes key :
  peer_id_bytes (from_ed25519 key) =
    ([x00; x24; x08; x01; x12; x20] ++ arr_list key)%list.
Proof.
  cbn [from_ed25519 peer_id_bytes].
  by rewrite identity_multihash_list, ed25519_protobuf_list.
Qed.

Lemma from_ed25519_inj key key' : from_ed25519 key = from_ed25519 key' -> key = key'.
Proof.
  intros H. apply (f_equal peer_id_bytes) in H. rewrite !from_ed25519_bytes in H.
  apply app_inv_head in H. by apply arr_eq.
Qed.

(** ** Protocol identifiers *)

Record ProtocolId : Type := MkProtocolId { protocol_name : string }.

Definition printable (b : byte) : bool := (33 <=? b2n b)%N && (b2n b <=? 126)%N.

(** [name.starts_with('/')]. *)
Definition starts_with_slash (name : string) : bool :=
  match str_bytes name with
  | b :: _ => bool_decide (b = x2f)
  | [] => false
  end.

(** [ProtocolId::new]; the [TryFrom] instances call it. *)
Definition protocol_id_new (name : string) : result Error ProtocolId :=
  let valid := starts_with_slash name && forallb printable (str_bytes name) in
  if valid then Ok (MkProtocolId name) else Err (InvalidProtocolId name).

(** ** Properties *)

(** The fast path [from_ed25519] and the general path
    [from_public_key_protobuf] agree on every Ed25519 key; the PeerId is the
    38-byte identity multihash, and distinct keys have distinct PeerIds. *)
Theorem from_ed25519_canonical (key : arr ED25519_KEY_LEN) :
  from_public_key_protobuf (arr_list (ed25519_protobuf key)) = Ok (from_ed25519 key) /\
  peer_id_bytes (from_ed25519 key) =
    ([x00; x24; x08; x01; x12; x20] ++ arr_list key)%list /\
  peer_id_len (from_ed25519 key) = ED25519_PEER_ID_LEN /\
  (forall key', from_ed25519 key' = from_ed25519 key <-> key' = key).
Proof.
  split_and!.
  - unfold from_public_key_protobuf. rewrite length_arr. cbn [andb].
    unfold from_ed25519. rewrite identity_multihash_list. done.
  - apply from_ed25519_bytes.
  - unfold peer_id_len. rewrite from_ed25519_bytes, length_app.
    cbn [length]. by rewrite length_arr.
  - intros key'. split; [apply from_ed25519_inj | by intros ->].
Qed.
