(* ===== verification/Io.v ===== *)
(** * Deferred effects and the socket world

    The crates describe every effect as a [comp_cat_rs::effect::io::Io] value
    and thread it with [flat_map] and [map].  That crate is not part of the
    repository: [IoRuntime] lists the operations the crates call and
    [IoLaws] their documented meaning, which is that running a description
    runs its parts in order and stops at the first error.

    A computation runs against a [World]: the operating system's side of one
    UDP socket, and the count of the calls made to the caller's entropy
    source.  A call may also block for ever, as [recv] does when nothing more
    arrives. *)

From S2P Require Export Types.

(** ** The world *)

(** [std::net::UdpSocket]: what the system answers to [local_addr]. *)
Record UdpSocket : Type := MkSocket { sock_local : result io_error SocketAddr }.

Record World : Type := MkWorld {
  w_bind : SocketAddr -> result io_error UdpSocket;  (* answers to [bind] *)
  w_inbox : list (result io_error (SocketAddr * list byte));  (* datagrams to come *)
  w_send_faults : list (option io_error);  (* failures of the next sends *)
  w_sent : list (SocketAddr * list byte);  (* datagrams sent, oldest first *)
  w_calls : nat  (* calls made to the entropy source *)
}.

(** A run returns a [Result], or blocks. *)
Inductive outcome (E A : Type) : Type :=
| Returned (r : result E A)
| Blocked.
Arguments Returned {E A} r.
Arguments Blocked {E A}.

(** An effectful Rust expression of type [Result<A, E>]. *)
Abbreviation effect E A := (World -> outcome E A * World).

(** ** The standard library's socket calls *)

(** [UdpSocket::bind]. *)
Definition std_bind (a : SocketAddr) : effect io_error UdpSocket := fun w =>
  (Returned (w_bind w a), w).

(** [UdpSocket::send_to]: one datagram leaves, or the call fails. *)
Definition std_send_to (sock : UdpSocket) (payload : list byte) (to : SocketAddr)
    : effect io_error nat := fun w =>
  let sent := MkWorld (w_bind w) (w_inbox w) (tail (w_send_faults w))
                (w_sent w ++ [(to, payload)]) (w_calls w) in
  match w_send_faults w with
  | Some e :: faults =>
      (Returned (Err e), MkWorld (w_bind w) (w_inbox w) faults (w_sent w) (w_calls w))
  | _ => (Returned (Ok (length payload)), sent)
  end.

(** [UdpSocket::recv_from]: the datagram is copied into [buf], truncated to
    its length; the call blocks while nothing has arrived. *)
Definition std_recv_from (sock : UdpSocket) (buf : list byte)
    : effect io_error (list byte * nat * SocketAddr) := fun w =>
  match w_inbox w with
  | [] => (Blocked, w)
  | m :: inbox =>
      let w' := MkWorld (w_bind w) inbox (w_send_faults w) (w_sent w) (w_calls w) in
      match m with
      | Err e => (Returned (Err e), w')
      | Ok (from, payload) =>
          let n := Nat.min (length payload) (length buf) in
          (Returned (Ok (take n payload ++ drop n buf, n, from)), w')
      end
  end.

(** One call of a caller-supplied [Fn() -> [u8; 32]]: its answers may depend
    on how often it was called. *)
Definition SeedFactory : Type := nat -> arr 32.
Definition call_seed (f : SeedFactory) (w : World) : arr 32 * World :=
  (f (w_calls w), MkWorld (w_bind w) (w_inbox w) (w_send_faults w) (w_sent w) (S (w_calls w))).

(** ** The effect library's interface *)

Class IoRuntime : Type := {
  Io : Type -> Type -> Type;
  io_run {E A} : Io E A -> World -> outcome E A * World;
  io_pure {E A} : A -> Io E A;
  io_suspend {E A} : effect E A -> Io E A;
  io_flat_map {E A B} : Io E A -> (A -> Io E B) -> Io E B;
  io_map {E A B} : Io E A -> (A -> B) -> Io E B;
  io_map_error {E F A} : Io E A -> (E -> F) -> Io F A
}.

Definition run_bind {E A B} (k : A -> effect E B) (o : outcome E A * World)
    : outcome E B * World :=
  match o with
  | (Returned (Ok a), w) => k a w
  | (Returned (Err e), w) => (Returned (Err e), w)
  | (Blocked, w) => (Blocked, w)
  end.

Class IoLaws (R : IoRuntime) : Prop := {
  run_pure {E A} (a : A) w : io_run (io_pure (E:=E) a) w = (Returned (Ok a), w);
  run_suspend {E A} (f : effect E A) w : io_run (io_suspend f) w = f w;
  run_flat_map {E A B} (m : Io E A) (k : A -> Io E B) w :
    io_run (io_flat_map m k) w = run_bind (fun a => io_run (k a)) (io_run m w);
  run_map {E A B} (m : Io E A) (f : A -> B) w :
    io_run (io_map m f) w = run_bind (fun a w' => (Returned (Ok (f a)), w')) (io_run m w);
  run_map_error {E F A} (m : Io E A) (f : E -> F) w :
    io_run (io_map_error m f) w =
      match io_run m w with
      | (Returned r, w') => (Returned (map_err f r), w')
      | (Blocked, w') => (Blocked, w')
      end
}.

#[export] Instance io_bind `{IoRuntime} {E} : MBind (Io E) :=
  fun A B f m => io_flat_map m f.
#[export] Instance io_fmap `{IoRuntime} {E} : FMap (Io E) :=
  fun A B f m => io_map m f.

(** [Io::suspend(move || r)] for an expression without effects. *)
Definition io_result `{IoRuntime} {E A} (r : result E A) : Io E A :=
  io_suspend (fun w => (Returned r, w)).

Section laws.
Context `{RT : IoRuntime, !IoLaws RT}.

Lemma run_bind_eq {E A B} (m : Io E A) (k : A -> Io E B) w :
  io_run (m ≫= k) w = run_bind (fun a => io_run (k a)) (io_run m w).
Proof. apply run_flat_map. Qed.
Lemma run_fmap_eq {E A B} (m : Io E A) (f : A -> B) w :
  io_run (f <$> m) w = run_bind (fun a w' => (Returned (Ok (f a)), w')) (io_run m w).
Proof. apply run_map. Qed.
Lemma run_result {E A} (r : result E A) w :
  io_run (io_result r) w = (Returned r, w).
Proof. apply run_suspend. Qed.

(** Inversion of a run that returned. *)
Lemma run_bind_Ok {E A B} (k : A -> effect E B) o b w' :
  run_bind k o = (Returned (Ok b), w') ->
  exists a w, o = (Returned (Ok a), w) /\ k a w = (Returned (Ok b), w').
Proof. destruct o as [[[a|e]|] w]; cbn; intros H; try done. by exists a, w. Qed.

Lemma run_bind_Err {E A B} (k : A -> effect E B) o e w' :
  run_bind k o = (Returned (Err e), w') ->
  o = (Returned (Err e), w') \/
  exists a w, o = (Returned (Ok a), w) /\ k a w = (Returned (Err e), w').
Proof.
  destruct o as [[[a|e']|] w]; cbn; intros H; try done.
  - right. by exists a, w.
  - left. by simplify_eq.
Qed.

(** Running is associative: a chain of [flat_map]s has one meaning. *)
Lemma run_flat_map_assoc {E A B C} (m : Io E A) (f : A -> Io E B) (g : B -> Io E C) w :
  io_run ((m ≫= f) ≫= g) w = io_run (m ≫= (fun a => f a ≫= g)) w.
Proof.
  rewrite !run_bind_eq. destruct (io_run m w) as [[[a|e]|] w']; cbn; try done.
  by rewrite run_bind_eq.
Qed.

Lemma run_map_error_Ok {E F A} (m : Io E A) (f : E -> F) w a w' :
  io_run (io_map_error m f) w = (Returned (Ok a), w') <-> io_run m w = (Returned (Ok a), w').
Proof.
  rewrite run_map_error. destruct (io_run m w) as [[[a'|e]|] w1]; cbn; split; intros H; by simplify_eq.
Qed.

(** A chain of effects built with [fold], one link at a time. *)
Lemma run_foldl {E A B} (f : A -> B -> Io E A) l : forall (m : Io E A) w,
  io_run (foldl (fun acc b => a ← acc; f a b) m l) w =
    run_bind (fun a => io_run (foldl (fun acc b => a ← acc; f a b) (io_pure a) l)) (io_run m w).
Proof.
  induction l as [|b l IH]; intros m w; cbn [foldl].
  - destruct (io_run m w) as [[[a|e]|] w1]; cbn; try done. by rewrite run_pure.
  - rewrite IH, run_bind_eq. destruct (io_run m w) as [[[a|e]|] w1]; cbn; try done.
    by rewrite (IH (_ ≫= _)), run_bind_eq, run_pure.
Qed.

End laws.

(** ** What every successful run returns *)

Section post.
Context `{RT : IoRuntime, !IoLaws RT} {E : Type}.

Definition io_post {A} (m : Io E A) (P : A -> Prop) : Prop :=
  forall w a w', io_run m w = (Returned (Ok a), w') -> P a.

Lemma io_post_pure {A} (a : A) (P : A -> Prop) : P a -> io_post (io_pure a) P.
Proof. intros Ha w a' w'. rewrite run_pure. by intros [= <- _]. Qed.

Lemma io_post_result {A} (r : result E A) (P : A -> Prop) :
  (forall a, r = Ok a -> P a) -> io_post (io_result r) P.
Proof. intros Hr w a w'. rewrite run_result. intros [= H _]. by apply Hr. Qed.

Lemma io_post_bind {A B} (m : Io E A) (k : A -> Io E B) (P : A -> Prop) (Q : B -> Prop) :
  io_post m P -> (forall a, P a -> io_post (k a) Q) -> io_post (m ≫= k) Q.
Proof.
  intros Hm Hk w b w'. rewrite run_bind_eq. intros (a & w1 & Ha & Hb)%run_bind_Ok.
  eapply Hk; [|exact Hb]. by eapply Hm.
Qed.

Lemma io_post_fmap {A B} (m : Io E A) (f : A -> B) (P : A -> Prop) (Q : B -> Prop) :
  io_post m P -> (forall a, P a -> Q (f a)) -> io_post (f <$> m) Q.
Proof.
  intros Hm Hf w b w'. rewrite run_fmap_eq. intros (a & w1 & Ha & [= <- _])%run_bind_Ok.
  apply Hf. by eapply Hm.
Qed.

Lemma io_post_weaken {A} (m : Io E A) (P Q : A -> Prop) :
  io_post m P -> (forall a, P a -> Q a) -> io_post m Q.
Proof. intros Hm HPQ w a w' Ha. apply HPQ. by eapply Hm. Qed.

End post.

(** ** What a successful run costs *)

(** At most [r] datagrams taken from the inbox, at most [s] seeds drawn. *)
Definition costs (r s : nat) (w w' : World) : Prop :=
  length (w_inbox w) <= length (w_inbox w') + r /\ w_calls w' <= w_calls w + s.

Section cost.
Context `{RT : IoRuntime, !IoLaws RT} {E : Type}.

Definition io_cost {A} (m : Io E A) (r s : nat) : Prop :=
  forall w a w', io_run m w = (Returned (Ok a), w') -> costs r s w w'.

Lemma costs_refl w r s : costs r s w w.
Proof. unfold costs. lia. Qed.

Lemma io_cost_weaken {A} (m : Io E A) r s r' s' :
  io_cost m r s -> r <= r' -> s <= s' -> io_cost m r' s'.
Proof. intros Hm Hr Hs w a w' Ha. specialize (Hm w a w' Ha). unfold costs in *. lia. Qed.

Lemma io_cost_pure {A} (a : A) r s : io_cost (io_pure (E:=E) a) r s.
Proof. intros w a' w'. rewrite run_pure. intros [= _ <-]. apply costs_refl. Qed.

Lemma io_cost_result {A} (x : result E A) r s : io_cost (io_result x) r s.
Proof. intros w a' w'. rewrite run_result. intros [= _ <-]. apply costs_refl. Qed.

Lemma io_cost_bind {A B} (m : Io E A) (k : A -> Io E B) r1 s1 r2 s2 :
  io_cost m r1 s1 -> (forall a, io_cost (k a) r2 s2) -> io_cost (m ≫= k) (r1 + r2) (s1 + s2).
Proof.
  intros Hm Hk w b w'. rewrite run_bind_eq. intros (a & w1 & Ha & Hb)%run_bind_Ok.
  specialize (Hm _ _ _ Ha). specialize (Hk _ _ _ _ Hb). unfold costs in *. lia.
Qed.

Lemma io_cost_fmap {A B} (m : Io E A) (f : A -> B) r s : io_cost m r s -> io_cost (f <$> m) r s.
Proof.
  intros Hm w b w'. rewrite run_fmap_eq. intros (a & w1 & Ha & [= _ <-])%run_bind_Ok.
  by eapply Hm.
Qed.

End cost.

(** Drawing one seed. *)
Definition next_seed `{IoRuntime} {E} (f : SeedFactory) : Io E (arr 32) :=
  io_suspend (fun w => let '(seed, w') := call_seed f w in (Returned (Ok seed), w')).

Lemma next_seed_cost `{RT : IoRuntime, !IoLaws RT} {E} (f : SeedFactory) :
  io_cost (next_seed (E:=E) f) 0 1.
Proof.
  intros w a w'. unfold next_seed. rewrite run_suspend. cbn. intros [= _ <-].
  unfold costs. cbn. lia.
Qed.

#[export] Hint Rewrite @run_pure @run_suspend @run_bind_eq @run_fmap_eq
  @run_result @run_map_error using apply _ : p2p.

(** Push [io_run] through the description at hand. *)
Ltac run_io := repeat (autorewrite with p2p; cbn [run_bind]).

(** ** A runtime that satisfies the laws *)

Definition direct_io : IoRuntime := {|
  Io E A := effect E A;
  io_run E A m w := m w;
  io_pure E A a w := (Returned (Ok a), w);
  io_suspend E A f := f;
  io_flat_map E A B m k w := run_bind k (m w);
  io_map E A B m f w := run_bind (fun a w' => (Returned (Ok (f a)), w')) (m w);
  io_map_error E F A m f w :=
    match m w with
    | (Returned r, w') => (Returned (map_err f r), w')
    | (Blocked, w') => (Blocked, w')
    end
|}.

Lemma direct_io_laws : IoLaws direct_io.
Proof. by split. Qed.

(** A quiet world: every send succeeds and binding answers the address. *)
Definition quiet_world (inbox : list (SocketAddr * list byte)) : World :=
  MkWorld (fun a => Ok (MkSocket (Ok a))) (Ok <$> inbox) [] [] 0.
