(* ===== verification/Udp.v ===== *)
(** * The [libp2p-cat-udp] crate: a linear UDP transport

    Models src/crates/libp2p-cat-udp/src/transport.rs.  The socket calls are
    those of [Io.v]; the transport adds the payload ceiling on sends and the
    scratch buffer on receives. *)

From S2P Require Export Io.

Definition DEFAULT_MAX_DATAGRAM : N := 1200.
Definition MAX_UDP_PAYLOAD : N := 65507.

Record UdpTransport : Type := MkUdpTransport {
  socket : UdpSocket;
  max_send_payload : N;
  recv_buf_size : N
}.

(** [map_err(Error::from)] on a socket call. *)
Definition io_err {A} (m : effect io_error A) : effect Error A := fun w =>
  match m w with
  | (Returned r, w') => (Returned (map_err error_from_io r), w')
  | (Blocked, w') => (Blocked, w')
  end.

(** The value of an effectful expression followed by a pure [map]. *)
Definition effect_map {E A B} (f : A -> B) (m : effect E A) : effect E B := fun w =>
  run_bind (fun a w' => (Returned (Ok (f a)), w')) (m w).

Section transport.
Context `{RT : IoRuntime}.

Definition bind_with_limits (addr : UdpAddr) (max_send recv_buf : N) : Io Error UdpTransport :=
  io_suspend (io_err
    (effect_map (fun sock => MkUdpTransport sock max_send recv_buf)
       (std_bind (socket_of_udp addr)))).

Definition udp_bind (addr : UdpAddr) : Io Error UdpTransport :=
  bind_with_limits addr DEFAULT_MAX_DATAGRAM MAX_UDP_PAYLOAD.

Definition udp_local_addr (t : UdpTransport) : result Error UdpAddr :=
  map_err error_from_io (udp_of_socket <$> sock_local (socket t)).

Definition udp_send (t : UdpTransport) (to : UdpAddr) (payload : list byte)
    : Io Error UdpTransport :=
  io_suspend (fun w =>
    let attempted := N.of_nat (length payload) in
    let maximum := max_send_payload t in
    if (maximum <? attempted)%N
    then (Returned (Err (DatagramTooLarge attempted maximum)), w)
    else io_err (effect_map (fun _ => t)
                   (std_send_to (socket t) payload (socket_of_udp to))) w).

Definition udp_recv (t : UdpTransport) : Io Error ((UdpAddr * list byte) * UdpTransport) :=
  io_suspend (fun w =>
    let buf := replicate (N.to_nat (recv_buf_size t)) x00 in
    run_bind (fun '(buf, n, from) w' =>
        let payload := default [] (get_to n buf) in
        (Returned (Ok ((udp_of_socket from, payload), t)), w'))
      (io_err (std_recv_from (socket t) buf) w)).

End transport.

Lemma udp_of_socket_of_udp a : udp_of_socket (socket_of_udp a) = a.
Proof. by destruct a. Qed.

(** The world after one more datagram was sent, and the world in which the
    pending send failed. *)
Definition world_sent (w : World) (to : UdpAddr) (payload : list byte) : World :=
  MkWorld (w_bind w) (w_inbox w) (tail (w_send_faults w))
    (w_sent w ++ [(socket_of_udp to, payload)]) (w_calls w).
Definition world_send_failed (w : World) : World :=
  MkWorld (w_bind w) (w_inbox w) (tail (w_send_faults w)) (w_sent w) (w_calls w).
(** The fault the next send meets. *)
Definition send_fault (w : World) : option io_error :=
  match w_send_faults w with Some e :: _ => Some e | _ => None end.
(** The world once [n] datagrams were taken from the inbox. *)
Definition world_received (w : World) : World :=
  MkWorld (w_bind w) (tail (w_inbox w)) (w_send_faults w) (w_sent w) (w_calls w).

Section lemmas.
Context `{RT : IoRuntime, !IoLaws RT}.

Lemma run_udp_send t to payload w :
  io_run (udp_send t to payload) w =
    if (max_send_payload t <? N.of_nat (length payload))%N
    then (Returned (Err (DatagramTooLarge (N.of_nat (length payload)) (max_send_payload t))), w)
    else match send_fault w with
         | Some e => (Returned (Err (ErrorIo e)), world_send_failed w)
         | None => (Returned (Ok t), world_sent w to payload)
         end.
Proof.
  unfold udp_send. rewrite run_suspend. cbn zeta. destruct (_ <? _)%N; [done|].
  unfold io_err, effect_map, std_send_to, send_fault, world_sent, world_send_failed.
  destruct (w_send_faults w) as [|[e|] l] eqn:E; done.
Qed.

Lemma run_udp_recv t w :
  io_run (udp_recv t) w =
    match w_inbox w with
    | [] => (Blocked, w)
    | Err e :: _ => (Returned (Err (ErrorIo e)), world_received w)
    | Ok (from, payload) :: _ =>
        (Returned (Ok ((udp_of_socket from,
                        take (N.to_nat (recv_buf_size t)) payload), t)), world_received w)
    end.
Proof.
  unfold udp_recv. rewrite run_suspend. cbn zeta.
  unfold io_err, std_recv_from, world_received.
  destruct (w_inbox w) as [|[[from payload]|e] l] eqn:E; try done.
  cbn [run_bind map_err tail]. do 6 f_equal.
  rewrite length_replicate. set (k := N.to_nat (recv_buf_size t)).
  set (n := Nat.min (length payload) k).
  assert (Hn : get_to n (take n payload ++ drop n (replicate k x00)) = Some (take k payload)).
  { apply get_to_Some. rewrite length_app, length_take, length_drop, length_replicate.
    split; [lia|].
    rewrite take_app_le by (rewrite length_take; lia). rewrite take_take, Nat.min_id.
    unfold n. destruct (Nat.le_gt_cases (length payload) k).
    - rewrite !take_ge; [done|lia|lia].
    - by rewrite Nat.min_r by lia. }
  by rewrite Hn.
Qed.

End lemmas.

(** ** Properties *)

Section properties.
Context `{RT : IoRuntime, !IoLaws RT}.

(** A send either refuses a payload above the ceiling without touching the
    socket, reports the system's error without emitting anything, or emits
    exactly one datagram; and a datagram so emitted is received whole, with
    its source address, by any transport whose scratch buffer is at least
    the sender's ceiling. *)
Theorem udp_send_recv_lossless (ts tr : UdpTransport) to from payload w :
  (max_send_payload ts <= recv_buf_size tr)%N ->
  match io_run (udp_send ts to payload) w with
  | (Returned (Ok ts'), w') =>
      ts' = ts /\ w_sent w' = w_sent w ++ [(socket_of_udp to, payload)] /\
      forall wr, w_inbox wr = [Ok (socket_of_udp from, payload)] ->
        io_run (udp_recv tr) wr = (Returned (Ok ((from, payload), tr)), world_received wr)
  | (Returned (Err (DatagramTooLarge n m)), w') =>
      w' = w /\ n = N.of_nat (length payload) /\ m = max_send_payload ts /\ (m < n)%N
  | (Returned (Err e), w') =>
      w_sent w' = w_sent w /\ exists e', send_fault w = Some e' /\ e = ErrorIo e'
  | (Blocked, _) => False
  end.
Proof.
  intros Hmax. rewrite run_udp_send.
  destruct (N.ltb_spec (max_send_payload ts) (N.of_nat (length payload))); [done|].
  destruct (send_fault w) as [e|] eqn:E; [by eauto|].
  split_and!; [done|done|]. intros wr Hwr. rewrite run_udp_recv, Hwr, udp_of_socket_of_udp.
  by rewrite take_ge by lia.
Qed.

End properties.

(** A transport with the default limits, bound to [port] on the loopback
    address: used to evaluate the development on concrete inputs. *)
Definition loopback (port : N) : UdpAddr :=
  V4 (MkV4 (Arr (n:=4) [x7f; x00; x00; x01] eq_refl) (uint_wrap port)).
Definition test_transport (port : N) : UdpTransport :=
  MkUdpTransport (MkSocket (Ok (socket_of_udp (loopback port))))
    DEFAULT_MAX_DATAGRAM MAX_UDP_PAYLOAD.

Lemma udp_send_recv_lossless_witness :
  let w := quiet_world [] in
  let t := test_transport 4001 in
  match io_run (IoRuntime:=direct_io) (udp_send t (loopback 4002) [x01; x02]) w with
  | (Returned (Ok t'), w') =>
      t' = t /\ w_sent w' = w_sent w ++ [(socket_of_udp (loopback 4002), [x01; x02])] /\
      forall wr, w_inbox wr = [Ok (socket_of_udp (loopback 4001), [x01; x02])] ->
        io_run (IoRuntime:=direct_io) (udp_recv t) wr =
          (Returned (Ok ((loopback 4001, [x01; x02]), t)), world_received wr)
  | (Returned (Err (DatagramTooLarge n m)), w') =>
      w' = w /\ n = 2%N /\ m = max_send_payload t /\ (m < n)%N
  | (Returned (Err e), w') =>
      w_sent w' = w_sent w /\ exists e', send_fault w = Some e' /\ e = ErrorIo e'
  | (Blocked, _) => False
  end.
Proof.
  intros w t. apply (udp_send_recv_lossless (RT:=direct_io) (IoLaws0:=direct_io_laws) t t).
  done.
Defined.
