(* ===== verification/Crypto.v ===== *)
(** * The cryptographic libraries

    The crates call BLAKE3, ChaCha20-Poly1305, X25519 and Ed25519 through
    third-party packages.  [Crypto] lists the calls they make; [CryptoLaws]
    their documented behaviour that the protocol relies on to work: opening
    undoes sealing, the tag is 16 bytes, Diffie-Hellman commutes, and a
    signature verifies under its own key.  None of them says that an attacker
    cannot forge: what the program itself guarantees about hostile input is
    stated without such an assumption. *)

From S2P Require Export Types.

Class Crypto : Type := {
  (** [blake3::Hasher::new().update(..).finalize()]: an update appends. *)
  blake3_hash : list byte -> arr 32;
  (** [blake3::keyed_hash]. *)
  blake3_keyed_hash : arr 32 -> list byte -> arr 32;
  (** [Hasher::new_keyed(key).update(input).finalize_xof()], 64 bytes of it. *)
  blake3_keyed_xof : arr 32 -> list byte -> arr 64;
  (** [ChaCha20Poly1305::new(key).encrypt(nonce, Payload { msg, aad })]. *)
  chacha_encrypt : arr 32 -> arr 12 -> list byte -> list byte -> option (list byte);
  chacha_decrypt : arr 32 -> arr 12 -> list byte -> list byte -> option (list byte);
  (** [PublicKey::from(&StaticSecret::from(bytes))]. *)
  x25519_public : arr 32 -> arr 32;
  (** [StaticSecret::from(a).diffie_hellman(&PublicKey::from(b))]. *)
  x25519_dh : arr 32 -> arr 32 -> arr 32;
  (** [SigningKey::from_bytes(seed)] and its public half. *)
  SigningKey : Type;
  signing_key_from_bytes : arr 32 -> SigningKey;
  signing_key_public : SigningKey -> arr 32;
  (** [try_sign]; an error is known by its [Display] text. *)
  ed25519_try_sign : SigningKey -> list byte -> result string (arr 64);
  VerifyingKey : Type;
  verifying_key_from_bytes : arr 32 -> result string VerifyingKey;
  ed25519_verify_strict : VerifyingKey -> list byte -> arr 64 -> result string ()
}.

(** A plaintext the AEAD is certain to accept (its own limit is larger). *)
Definition AEAD_SAFE_LEN : N := 2 ^ 32.

Class CryptoLaws (C : Crypto) : Prop := {
  chacha_encrypt_total key nonce aad msg :
    (N.of_nat (length msg) < AEAD_SAFE_LEN)%N ->
    is_Some (chacha_encrypt key nonce aad msg);
  chacha_decrypt_encrypt key nonce aad msg c :
    chacha_encrypt key nonce aad msg = Some c ->
    chacha_decrypt key nonce aad c = Some msg;
  chacha_encrypt_length key nonce aad msg c :
    chacha_encrypt key nonce aad msg = Some c -> length c = length msg + 16;
  chacha_decrypt_length key nonce aad c msg :
    chacha_decrypt key nonce aad c = Some msg -> length c = length msg + 16;
  x25519_dh_comm a b :
    x25519_dh a (x25519_public b) = x25519_dh b (x25519_public a);
  ed25519_sign_total seed msg :
    is_ok (ed25519_try_sign (signing_key_from_bytes seed) msg) = true;
  ed25519_verify_sign seed msg sig :
    ed25519_try_sign (signing_key_from_bytes seed) msg = Ok sig ->
    exists vk, verifying_key_from_bytes (signing_key_public (signing_key_from_bytes seed)) = Ok vk
      /\ ed25519_verify_strict vk msg sig = Ok tt
}.

(** ** A concrete instance

    Not secure, and only used to evaluate the development: the hash is a
    polynomial checksum, sealing appends a checksum tag that opening
    recomputes, the public key is the private one and the shared secret is
    the exclusive or of the two. *)

Module Toy.

Definition step (acc : N) (b : byte) : N := ((acc * 31 + b2n b + 7) mod 2 ^ 64)%N.
Definition checksum (l : list byte) : N := foldl step 5%N l.
Definition spread {n} (l : list byte) : arr n :=
  arr_from_fn (fun i => n2b (checksum (n2b (N.of_nat i) :: l) / 2 ^ 16)).

Definition tag (key : arr 32) (nonce : arr 12) (aad msg : list byte) : list byte :=
  arr_list (spread (n:=16) (arr_list key ++ arr_list nonce ++ aad ++ msg)).

Lemma length_tag key nonce aad msg : length (tag key nonce aad msg) = 16.
Proof. apply length_arr. Qed.

Definition encrypt key nonce aad (msg : list byte) : option (list byte) :=
  Some (msg ++ tag key nonce aad msg).
Definition decrypt key nonce aad (c : list byte) : option (list byte) :=
  let n := length c - 16 in
  let msg := take n c in
  if (16 <=? length c) && bool_decide (drop n c = tag key nonce aad msg)
  then Some msg else None.

Definition xor_arr {n} (a b : arr n) : arr n :=
  arr_from_fn (fun i => byte_xor (arr_get a i) (arr_get b i)).

Definition sign (seed : arr 32) (msg : list byte) : arr 64 := spread (arr_list seed ++ msg).

End Toy.

Definition toy_crypto : Crypto := {|
  blake3_hash := Toy.spread;
  blake3_keyed_hash key l := Toy.spread (arr_list key ++ l);
  blake3_keyed_xof key l := Toy.spread (arr_list key ++ l);
  chacha_encrypt := Toy.encrypt;
  chacha_decrypt := Toy.decrypt;
  x25519_public a := a;
  x25519_dh := Toy.xor_arr;
  SigningKey := arr 32;
  signing_key_from_bytes a := a;
  signing_key_public a := a;
  ed25519_try_sign k m := Ok (Toy.sign k m);
  VerifyingKey := arr 32;
  verifying_key_from_bytes a := Ok a;
  ed25519_verify_strict k m s :=
    if decide (s = Toy.sign k m) then Ok tt else Err "signature error"%string
|}.

Lemma toy_crypto_laws : CryptoLaws toy_crypto.
Proof.
  split; cbn.
  - intros. by eexists.
  - intros key nonce aad msg c [= <-]. unfold Toy.decrypt.
    rewrite length_app, Toy.length_tag, Nat.add_sub.
    rewrite take_app_length, drop_app_length.
    rewrite bool_decide_true by done.
    destruct (Nat.leb_spec 16 (length msg + 16)); [done|lia].
  - intros key nonce aad msg c [= <-]. by rewrite length_app, Toy.length_tag.
  - intros key nonce aad c msg. unfold Toy.decrypt. case_match eqn:E; [|done].
    intros [= <-]. bool_to_prop. rewrite length_take. lia.
  - intros a b. unfold Toy.xor_arr. apply arr_get_eq. intros i Hi.
    rewrite !arr_get_from_fn by done. apply byte_xor_comm.
  - done.
  - intros seed msg sig [= <-]. exists seed. by rewrite decide_True.
Qed.
