(* ===== verification/NoisePrimitives.v ===== *)
(** * Noise primitives

    Models src/crates/libp2p-cat-noise/src/primitives.rs: one type per role a
    32-byte value can have, so that the model, like the source, cannot pass
    an ephemeral key where a static one is due. *)

From S2P Require Export Crypto.

Definition KEY_LEN : nat := 32.

Record StaticPrivateKey : Type := MkStaticPrivateKey { static_private_bytes : arr KEY_LEN }.
Record StaticPublicKey : Type := MkStaticPublicKey { static_public_bytes : arr KEY_LEN }.
Record EphemeralPrivateKey : Type := MkEphemeralPrivateKey { eph_private_bytes : arr KEY_LEN }.
Record EphemeralPublicKey : Type := MkEphemeralPublicKey { eph_public_bytes : arr KEY_LEN }.
Record DhOutput : Type := MkDhOutput { dh_bytes : arr KEY_LEN }.

#[export] Instance static_public_eq_dec : EqDecision StaticPublicKey.
Proof. solve_decision. Defined.

Record StaticKeypair : Type := MkStaticKeypair {
  keypair_private : StaticPrivateKey;
  keypair_public : StaticPublicKey
}.

Section primitives.
Context `{C : Crypto}.

(** [StaticKeypair::from_private_bytes]. *)
Definition from_private_bytes (private_bytes : arr KEY_LEN) : StaticKeypair :=
  let public := x25519_public private_bytes in
  MkStaticKeypair (MkStaticPrivateKey private_bytes) (MkStaticPublicKey public).

(** [EphemeralPrivateKey::from_seed] and [EphemeralPrivateKey::public]. *)
Definition eph_from_seed (seed : arr KEY_LEN) : EphemeralPrivateKey :=
  MkEphemeralPrivateKey seed.
Definition eph_public (k : EphemeralPrivateKey) : EphemeralPublicKey :=
  MkEphemeralPublicKey (x25519_public (eph_private_bytes k)).

Definition dh_raw (private_bytes public_bytes : arr KEY_LEN) : arr KEY_LEN :=
  x25519_dh private_bytes public_bytes.

Definition dh_ee (private : EphemeralPrivateKey) (public : EphemeralPublicKey) : DhOutput :=
  MkDhOutput (dh_raw (eph_private_bytes private) (eph_public_bytes public)).
Definition dh_es (private : EphemeralPrivateKey) (public : StaticPublicKey) : DhOutput :=
  MkDhOutput (dh_raw (eph_private_bytes private) (static_public_bytes public)).
Definition dh_se (private : StaticPrivateKey) (public : EphemeralPublicKey) : DhOutput :=
  MkDhOutput (dh_raw (static_private_bytes private) (eph_public_bytes public)).

(** A keypair whose halves belong together: the only kind
    [from_private_bytes], its one constructor, builds. *)
Definition keypair_ok (k : StaticKeypair) : Prop :=
  keypair_public k =
    MkStaticPublicKey (x25519_public (static_private_bytes (keypair_private k))).

Lemma from_private_bytes_ok b : keypair_ok (from_private_bytes b).
Proof. done. Qed.

(** The two sides of each Noise token compute the same secret. *)
Lemma dh_ee_comm `{!CryptoLaws C} a b :
  dh_ee a (eph_public b) = dh_ee b (eph_public a).
Proof. unfold dh_ee, dh_raw. cbn. by rewrite x25519_dh_comm. Qed.

Lemma dh_es_se `{!CryptoLaws C} a k :
  keypair_ok k -> dh_es a (keypair_public k) = dh_se (keypair_private k) (eph_public a).
Proof. unfold dh_es, dh_se, dh_raw. intros ->. cbn. by rewrite x25519_dh_comm. Qed.

End primitives.
