(* ===== verification/NoiseSymmetric.v ===== *)
(** * The Noise symmetric state

    Models src/crates/libp2p-cat-noise/src/symmetric.rs. *)

From S2P Require Export NoisePrimitives.

Definition PROTOCOL_NAME : arr KEY_LEN :=
  Arr (n:=KEY_LEN) (str_bytes "Noise_XX_25519_ChaChaPoly_BLAKE3") eq_refl.

Definition AEAD_TAG_LEN : nat := 16.

Record SymmetricState : Type := MkSymmetric {
  chaining_key : arr KEY_LEN;
  sym_hash : arr KEY_LEN;
  cipher_key : option (arr KEY_LEN);
  sym_nonce : u64
}.

(** [SymmetricState::initialize]. *)
Definition sym_initialize : SymmetricState :=
  MkSymmetric PROTOCOL_NAME PROTOCOL_NAME None u64_zero.

(** The 12-byte nonce: four zero bytes, then the counter, little endian. *)
Definition chacha_nonce (counter : u64) : arr 12 :=
  let counter_bytes := le_bytes 8 counter in
  arr_from_fn (fun i => if i <=? 3 then x00 else default x00 (counter_bytes !! (i - 4))).

Section symmetric.
Context `{C : Crypto}.

(** BLAKE3 of [previous_hash || data]. *)
Definition blake3_hash_two (previous_hash : arr KEY_LEN) (data : list byte) : arr KEY_LEN :=
  blake3_hash (arr_list previous_hash ++ data).

(** Two keys from one keyed XOF read. *)
Definition kdf_two (key : arr KEY_LEN) (input : list byte) : arr KEY_LEN * arr KEY_LEN :=
  let out := blake3_keyed_xof key input in
  let first := arr_from_fn (fun i => arr_get out i) in
  let second := arr_from_fn (fun i => arr_get out (i + KEY_LEN)) in
  (first, second).

Definition aead_encrypt (key : arr KEY_LEN) (nonce : u64) (aad plaintext : list byte)
    : result Error (list byte) :=
  ok_or_else (chacha_encrypt key (chacha_nonce nonce) aad plaintext) NoiseDecrypt.

Definition aead_decrypt (key : arr KEY_LEN) (nonce : u64) (aad ciphertext : list byte)
    : result Error (list byte) :=
  ok_or_else (chacha_decrypt key (chacha_nonce nonce) aad ciphertext) NoiseDecrypt.

Definition mix_hash (s : SymmetricState) (data : list byte) : SymmetricState :=
  let next_hash := blake3_hash_two (sym_hash s) data in
  MkSymmetric (chaining_key s) next_hash (cipher_key s) (sym_nonce s).

Definition mix_key (s : SymmetricState) (input : DhOutput) : SymmetricState :=
  let '(next_chaining_key, next_cipher_key) :=
    kdf_two (chaining_key s) (arr_list (dh_bytes input)) in
  MkSymmetric next_chaining_key (sym_hash s) (Some next_cipher_key) u64_zero.

(** The counter never reaches its bound: [mix_key] resets it and each key
    seals at most two messages; [sym_next] is the machine's addition. *)
Definition sym_next (s : SymmetricState) (key : arr KEY_LEN) : SymmetricState :=
  MkSymmetric (chaining_key s) (sym_hash s) (Some key) (wrapping_add (sym_nonce s) 1).

Definition encrypt_and_hash (s : SymmetricState) (plaintext : list byte)
    : result Error (SymmetricState * list byte) :=
  match cipher_key s with
  | None =>
      let ciphertext := plaintext in
      let next := mix_hash s ciphertext in
      Ok (next, ciphertext)
  | Some key =>
      let aad := arr_list (sym_hash s) in
      ciphertext ← aead_encrypt key (sym_nonce s) aad plaintext;
      let next := mix_hash (sym_next s key) ciphertext in
      Ok (next, ciphertext)
  end.

Definition decrypt_and_hash (s : SymmetricState) (ciphertext : list byte)
    : result Error (SymmetricState * list byte) :=
  match cipher_key s with
  | None =>
      let plaintext := ciphertext in
      let next := mix_hash s ciphertext in
      Ok (next, plaintext)
  | Some key =>
      let aad := arr_list (sym_hash s) in
      plaintext ← aead_decrypt key (sym_nonce s) aad ciphertext;
      let next := mix_hash (sym_next s key) ciphertext in
      Ok (next, plaintext)
  end.

(** [SymmetricState::split]. *)
Definition sym_split (s : SymmetricState) : arr KEY_LEN * arr KEY_LEN :=
  kdf_two (chaining_key s) [].

(** ** Lemmas *)

(** The nonce a counter yields determines the counter. *)
Lemma chacha_nonce_list counter :
  arr_list (chacha_nonce counter) = replicate 4 x00 ++ le_bytes 8 counter.
Proof.
  apply from_fn_list; [by rewrite length_app, length_replicate, length_le_bytes|].
  intros i Hi. do 4 (destruct i as [|i]; [done|]).
  cbn -[le_bytes]. by rewrite Nat.sub_0_r.
Qed.

Lemma chacha_nonce_inj a b : chacha_nonce a = chacha_nonce b -> a = b.
Proof.
  intros H%(f_equal arr_list). rewrite !chacha_nonce_list in H.
  apply app_inv_head in H. apply uint_eq. unfold le_bytes in H.
  apply (f_equal le_decode) in H. rewrite !le_decode_encode in H.
  by rewrite !N.mod_small in H by apply uint_lt.
Qed.

Context `{!CryptoLaws C}.

Lemma aead_decrypt_encrypt key nonce aad m c :
  aead_encrypt key nonce aad m = Ok c -> aead_decrypt key nonce aad c = Ok m.
Proof.
  unfold aead_encrypt, aead_decrypt.
  destruct (chacha_encrypt _ _ _ _) as [c'|] eqn:E; intros [= <-].
  by rewrite (chacha_decrypt_encrypt _ _ _ _ _ E).
Qed.

Lemma aead_encrypt_length key nonce aad m c :
  aead_encrypt key nonce aad m = Ok c -> length c = length m + AEAD_TAG_LEN.
Proof.
  unfold aead_encrypt. destruct (chacha_encrypt _ _ _ _) eqn:E; intros [= <-].
  by eapply chacha_encrypt_length.
Qed.

Lemma aead_decrypt_length key nonce aad c m :
  aead_decrypt key nonce aad c = Ok m -> length c = length m + AEAD_TAG_LEN.
Proof.
  unfold aead_decrypt. destruct (chacha_decrypt _ _ _ _) eqn:E; intros [= <-].
  by eapply chacha_decrypt_length.
Qed.

Lemma aead_encrypt_total key nonce aad m :
  (N.of_nat (length m) < AEAD_SAFE_LEN)%N -> exists c, aead_encrypt key nonce aad m = Ok c.
Proof.
  intros H. unfold aead_encrypt.
  destruct (chacha_encrypt_total key (chacha_nonce nonce) aad m H) as [c ->]. by exists c.
Qed.

(** Two parties in the same state stay in the same state, and the reader
    recovers the writer's plaintext. *)
Lemma decrypt_encrypt_and_hash s m s' c :
  encrypt_and_hash s m = Ok (s', c) -> decrypt_and_hash s c = Ok (s', m).
Proof.
  unfold encrypt_and_hash, decrypt_and_hash. destruct (cipher_key s) as [key|].
  - destruct (aead_encrypt _ _ _ _) as [c'|e] eqn:E; cbn; intros [= <- <-].
    by rewrite (aead_decrypt_encrypt _ _ _ _ _ E).
  - by intros [= <- <-].
Qed.

Definition sym_overhead (s : SymmetricState) : nat :=
  match cipher_key s with Some _ => AEAD_TAG_LEN | None => 0 end.

Lemma encrypt_and_hash_length s m s' c :
  encrypt_and_hash s m = Ok (s', c) -> length c = length m + sym_overhead s.
Proof.
  unfold encrypt_and_hash, sym_overhead. destruct (cipher_key s) as [key|].
  - destruct (aead_encrypt _ _ _ _) as [c'|e] eqn:E; cbn; intros [= <- <-].
    by eapply aead_encrypt_length.
  - intros [= <- <-]. lia.
Qed.

Lemma decrypt_and_hash_length s c s' m :
  decrypt_and_hash s c = Ok (s', m) -> length c = length m + sym_overhead s.
Proof.
  unfold decrypt_and_hash, sym_overhead. destruct (cipher_key s) as [key|].
  - destruct (aead_decrypt _ _ _ _) as [m'|e] eqn:E; cbn; intros [= <- <-].
    by eapply aead_decrypt_length.
  - intros [= <- <-]. lia.
Qed.

Lemma encrypt_and_hash_total s m :
  (N.of_nat (length m) < AEAD_SAFE_LEN)%N -> exists s' c, encrypt_and_hash s m = Ok (s', c).
Proof.
  intros H. unfold encrypt_and_hash. destruct (cipher_key s) as [key|]; [|by eexists _, _].
  destruct (aead_encrypt_total key (sym_nonce s) (arr_list (sym_hash s)) m H) as [c ->].
  by eexists _, _.
Qed.

Lemma cipher_key_mix_key s d : is_Some (cipher_key (mix_key s d)).
Proof. unfold mix_key. destruct (kdf_two _ _). by eexists. Qed.

Lemma sym_overhead_mix_key s d : sym_overhead (mix_key s d) = AEAD_TAG_LEN.
Proof. unfold sym_overhead. by destruct (cipher_key_mix_key s d) as [k ->]. Qed.

Lemma sym_overhead_step s m s' c :
  encrypt_and_hash s m = Ok (s', c) -> sym_overhead s' = sym_overhead s.
Proof.
  unfold encrypt_and_hash, sym_overhead. destruct (cipher_key s) as [key|] eqn:Hk.
  - destruct (aead_encrypt _ _ _ _); cbn; intros [= <- <-]. done.
  - intros [= <- <-]. cbn. by rewrite Hk.
Qed.

End symmetric.
