(* ===== verification/NoiseTransport.v ===== *)
(** * The Noise transport: explicit nonces and the replay window

    Models src/crates/libp2p-cat-noise/src/transport.rs. *)

From S2P Require Export NoiseSymmetric.

#[local] Open Scope string_scope.

Definition TRANSPORT_NONCE_PREFIX_LEN : nat := 8.
Definition TRANSPORT_OVERHEAD : nat := TRANSPORT_NONCE_PREFIX_LEN + AEAD_TAG_LEN.
Definition REPLAY_WINDOW_BITS : N := 64.

Record TransportState : Type := MkTransport {
  send_key : arr KEY_LEN;
  send_nonce : u64;
  recv_key : arr KEY_LEN;
  recv_max_nonce : u64;
  recv_replay_window : u64
}.

(** [TransportState::new]. *)
Definition transport_new (send recv : arr KEY_LEN) : TransportState :=
  MkTransport send u64_zero recv u64_zero u64_zero.

(** [1u64 << d] and [window << d], for [d < 64]. *)
Definition u64_shl (a : u64) (d : N) : u64 := uint_wrap (N.shiftl (uval a) d).
Definition u64_one : u64 := UInt (w:=64) 1 eq_refl.
Definition u64_or (a b : u64) : u64 := uint_wrap (N.lor (uval a) (uval b)).
Definition u64_and (a b : u64) : u64 := uint_wrap (N.land (uval a) (uval b)).

(** Would [incoming] be a fresh, in-window nonce? *)
Definition nonce_acceptable (window max_nonce incoming : u64) : result Error () :=
  if (uval max_nonce <? uval incoming)%N then Ok tt
  else
    let distance := (uval max_nonce - uval incoming)%N in
    let too_old := (REPLAY_WINDOW_BITS <=? distance)%N in
    if too_old then Err (NoiseReplay incoming)
    else
      let bit := u64_shl u64_one distance in
      if negb (uval (u64_and window bit) =? 0)%N then Err (NoiseReplay incoming)
      else Ok tt.

(** The window after [incoming] was accepted. *)
Definition advance_window (window max_nonce incoming : u64) : u64 * u64 :=
  if (uval max_nonce <? uval incoming)%N then
    let shift := (uval incoming - uval max_nonce)%N in
    let new_window :=
      if (REPLAY_WINDOW_BITS <=? shift)%N then u64_one
      else u64_or (u64_shl window shift) u64_one in
    (new_window, incoming)
  else
    let distance := (uval max_nonce - uval incoming)%N in
    let bit := u64_shl u64_one distance in
    (u64_or window bit, max_nonce).

Section transport.
Context `{C : Crypto}.

(** [TransportState::encrypt]. *)
Definition transport_encrypt (t : TransportState) (plaintext : list byte)
    : result Error (TransportState * list byte) :=
  let nonce := send_nonce t in
  ciphertext ← aead_encrypt (send_key t) nonce [] plaintext;
  let datagram := (be_bytes 8 nonce ++ ciphertext)%list in
  next_nonce ← ok_or_else (checked_add nonce 1)
    (NoiseProtocol "send nonce counter exhausted");
  Ok (MkTransport (send_key t) next_nonce (recv_key t) (recv_max_nonce t)
        (recv_replay_window t), datagram).

Definition decrypt_checked (rkey : arr KEY_LEN) (window max_nonce : u64) (datagram : list byte)
    : result Error (u64 * list byte) :=
  let total := length datagram in
  if (total <? TRANSPORT_OVERHEAD)%nat then
    Err (NoiseProtocol ("transport datagram too short: " ++ decn total ++
           " bytes, need at least " ++ decn TRANSPORT_OVERHEAD))
  else
    nonce_slice ← ok_or_else (get_range 0 TRANSPORT_NONCE_PREFIX_LEN datagram)
      (NoiseProtocol "missing nonce prefix");
    ciphertext ← ok_or_else (get_from TRANSPORT_NONCE_PREFIX_LEN datagram)
      (NoiseProtocol "missing ciphertext");
    nonce_arr ← ok_or_else (arr_try (n:=TRANSPORT_NONCE_PREFIX_LEN) nonce_slice)
      (NoiseProtocol "nonce prefix wrong length");
    let nonce := from_be (arr_list nonce_arr) in
    _ ← nonce_acceptable window max_nonce nonce;
    plaintext ← aead_decrypt rkey nonce [] ciphertext;
    Ok (nonce, plaintext).

(** [TransportState::decrypt]: the state comes back with the outcome. *)
Definition transport_decrypt (t : TransportState) (datagram : list byte)
    : TransportState * result Error (list byte) :=
  let '(next_window, next_max, outcome) :=
    match decrypt_checked (recv_key t) (recv_replay_window t) (recv_max_nonce t) datagram with
    | Err e => (recv_replay_window t, recv_max_nonce t, Err e)
    | Ok (nonce, plaintext) =>
        let '(new_window, new_max) :=
          advance_window (recv_replay_window t) (recv_max_nonce t) nonce in
        (new_window, new_max, Ok plaintext)
    end in
  (MkTransport (send_key t) (send_nonce t) (recv_key t) next_max next_window, outcome).

End transport.

#[local] Close Scope string_scope.

(** ** The window as a bitmap *)

Lemma testbit_wrap (n i : N) : (i < 64)%N -> N.testbit (uval (uint_wrap (w:=64) n)) i = N.testbit n i.
Proof. intros Hi. rewrite uval_wrap. by apply N.mod_pow2_bits_low. Qed.

Lemma testbit_shl_one d i :
  (d < 64)%N -> N.testbit (uval (u64_shl u64_one d)) i = (i =? d)%N.
Proof.
  intros Hd. unfold u64_shl. cbn [uval u64_one]. rewrite N.shiftl_1_l.
  rewrite uint_wrap_small by (apply N.pow_lt_mono_r; lia).
  by rewrite N.pow2_bits_eqb, N.eqb_sym.
Qed.

Lemma window_bit_test (w : u64) d :
  (d < 64)%N ->
  negb (uval (u64_and w (u64_shl u64_one d)) =? 0)%N = N.testbit (uval w) d.
Proof.
  intros Hd. destruct (N.testbit (uval w) d) eqn:E.
  - apply negb_true_iff, N.eqb_neq. intros H0.
    apply (f_equal (fun n => N.testbit n d)) in H0. revert H0.
    unfold u64_and. rewrite testbit_wrap by done.
    by rewrite N.land_spec, testbit_shl_one, E, N.eqb_refl, N.bits_0.
  - apply negb_false_iff, N.eqb_eq. unfold u64_and.
    assert (N.land (uval w) (uval (u64_shl u64_one d)) = 0%N) as ->; [|done].
    apply N.bits_inj. intros i. rewrite N.land_spec, testbit_shl_one, N.bits_0 by done.
    destruct (N.eqb_spec i d) as [->|]; [by rewrite E|]. apply andb_false_r.
Qed.

(** ** The specification: the set of nonces accepted so far *)

Definition spec_max (seen : list u64) : N := foldr N.max 0%N (uval <$> seen).

(** Fresh, and less than a window behind the newest. *)
Definition spec_fresh (seen : list u64) (n : u64) : Prop :=
  (n ∉ seen) /\ (spec_max seen < uval n + REPLAY_WINDOW_BITS)%N.
#[export] Instance spec_fresh_dec seen n : Decision (spec_fresh seen n).
Proof. unfold spec_fresh. apply _. Defined.

(** Bit [i] of the window says whether the nonce [max - i] was accepted. *)
Record window_ok (window max_nonce : u64) (seen : list u64) : Prop := WindowOk {
  window_max : uval max_nonce = spec_max seen;
  window_bits : forall i, (i < 64)%N ->
    N.testbit (uval window) i = true <-> (exists n, n ∈ seen /\ (uval n + i)%N = uval max_nonce)
}.

Lemma spec_max_le seen n : n ∈ seen -> (uval n <= spec_max seen)%N.
Proof. induction 1 as [|n m seen Hin IH]; unfold spec_max in *; cbn; lia. Qed.

Lemma window_ok_new : window_ok u64_zero u64_zero [].
Proof.
  split; [done|]. intros i _. cbn [uval u64_zero]. rewrite N.bits_0. split; [done|].
  by intros (n & Hn%elem_of_nil & _).
Qed.

Section window.
Context (window max_nonce : u64) (seen : list u64).
Hypothesis Hok : window_ok window max_nonce seen.

Lemma window_distance_iff n :
  (uval n <= uval max_nonce)%N -> (uval max_nonce - uval n < 64)%N ->
  N.testbit (uval window) (uval max_nonce - uval n) = true <-> n ∈ seen.
Proof.
  intros Hle Hd. rewrite (window_bits _ _ _ Hok) by done. split.
  - intros (n' & Hin & Heq). assert (n' = n) as <-; [|done]. apply uint_eq. lia.
  - intros Hin. exists n. split; [done|lia].
Qed.

(** The bitmap check decides the specification. *)
Lemma nonce_acceptable_spec n :
  nonce_acceptable window max_nonce n =
    if decide (spec_fresh seen n) then Ok tt else Err (NoiseReplay n).
Proof.
  unfold nonce_acceptable, spec_fresh. pose proof (window_max _ _ _ Hok) as Hmax.
  destruct (N.ltb_spec (uval max_nonce) (uval n)) as [Hlt|Hle].
  - rewrite decide_True; [done|]. unfold REPLAY_WINDOW_BITS. split; [|lia].
    intros Hin%spec_max_le. lia.
  - unfold REPLAY_WINDOW_BITS. destruct (N.leb_spec 64 (uval max_nonce - uval n)) as [Hold|Hd].
    + rewrite decide_False; [done|]. intros [_ ?]. lia.
    + rewrite window_bit_test by done. pose proof (window_distance_iff n Hle Hd) as Hiff.
      destruct (N.testbit _ _).
      * rewrite decide_False; [done|]. intros [Hn _]. apply Hn, Hiff. done.
      * rewrite decide_True; [done|]. split; [|lia]. intros Hin. by apply Hiff in Hin.
Qed.

(** Advancing the bitmap adds the nonce to the set. *)
Lemma advance_window_ok n w' m' :
  spec_fresh seen n -> advance_window window max_nonce n = (w', m') ->
  window_ok w' m' (n :: seen).
Proof.
  intros [Hnew Hwin] Hadv. pose proof (window_max _ _ _ Hok) as Hmax.
  unfold advance_window, REPLAY_WINDOW_BITS in *.
  destruct (N.ltb_spec (uval max_nonce) (uval n)) as [Hlt|Hle]; simplify_eq.
  - split; [unfold spec_max in *; cbn; lia|]. intros i Hi.
    assert (Hone : N.testbit 1 i = (i =? 0)%N) by (by destruct i).
    destruct (N.leb_spec 64 (uval m' - uval max_nonce)) as [Hfar|Hnear].
    + cbn [uval u64_one]. rewrite Hone, N.eqb_eq. split.
      * intros ->. exists m'. split; [by left|lia].
      * intros (n' & [->|Hin]%elem_of_cons & Heq); [lia|].
        apply spec_max_le in Hin. lia.
    + unfold u64_or, u64_shl. rewrite testbit_wrap, N.lor_spec, orb_true_iff by done.
      rewrite testbit_wrap by done. cbn [uval u64_one]. rewrite Hone, N.eqb_eq.
      destruct (N.ltb_spec i (uval m' - uval max_nonce)) as [Hlow|Hhigh].
      * rewrite N.shiftl_spec_low by done. split.
        -- intros [?| ->]; [done|]. exists m'. split; [by left|lia].
        -- intros (n' & [->|Hin]%elem_of_cons & Heq); [right; lia|].
           apply spec_max_le in Hin. lia.
      * rewrite N.shiftl_spec_high' by done. rewrite (window_bits _ _ _ Hok) by lia. split.
        -- intros [(n' & Hin & Heq)| ->]; [|lia]. exists n'. split; [by right|lia].
        -- intros (n' & [->|Hin]%elem_of_cons & Heq); [lia|].
           left. exists n'. split; [done|lia].
  - split; [unfold spec_max in *; cbn; lia|]. intros i Hi. unfold u64_or.
    rewrite testbit_wrap, N.lor_spec, testbit_shl_one, orb_true_iff, N.eqb_eq by lia.
    rewrite (window_bits _ _ _ Hok) by done. split.
    + intros [(n' & Hin & Heq)| ->]; [exists n'; split; [by right|done]|].
      exists n. split; [by left|lia].
    + intros (n' & [->|Hin]%elem_of_cons & Heq); [right; lia|]. left. by exists n'.
Qed.

End window.

(** ** Streams of datagrams *)

Definition datagram_nonce (d : list byte) : u64 := from_be (take TRANSPORT_NONCE_PREFIX_LEN d).

Section streams.
Context `{C : Crypto}.

(** What a receiver that remembers every accepted nonce would answer. *)
Definition spec_decrypt (rkey : arr KEY_LEN) (seen : list u64) (d : list byte)
    : result Error (list byte) :=
  if (length d <? TRANSPORT_OVERHEAD)%nat then
    Err (NoiseProtocol ("transport datagram too short: " ++ decn (length d) ++
           " bytes, need at least " ++ decn TRANSPORT_OVERHEAD)%string)
  else if decide (spec_fresh seen (datagram_nonce d))
  then aead_decrypt rkey (datagram_nonce d) [] (drop TRANSPORT_NONCE_PREFIX_LEN d)
  else Err (NoiseReplay (datagram_nonce d)).

Definition spec_accept (rkey : arr KEY_LEN) (seen : list u64) (d : list byte) : list u64 :=
  if is_ok (spec_decrypt rkey seen d) then datagram_nonce d :: seen else seen.

Fixpoint spec_receive_all rkey seen ds : list u64 * list (result Error (list byte)) :=
  match ds with
  | [] => (seen, [])
  | d :: ds' =>
      let '(seen', outs) := spec_receive_all rkey (spec_accept rkey seen d) ds' in
      (seen', spec_decrypt rkey seen d :: outs)
  end.

(** The code's receiver and sender on a stream. *)
Fixpoint receive_all (t : TransportState) ds : TransportState * list (result Error (list byte)) :=
  match ds with
  | [] => (t, [])
  | d :: ds' =>
      let '(t1, out) := transport_decrypt t d in
      let '(t2, outs) := receive_all t1 ds' in
      (t2, out :: outs)
  end.

Fixpoint send_all (t : TransportState) ps : result Error (TransportState * list (list byte)) :=
  match ps with
  | [] => Ok (t, [])
  | p :: ps' =>
      '(t1, d) ← transport_encrypt t p;
      '(t2, ds) ← send_all t1 ps';
      Ok (t2, d :: ds)
  end.

(** A transport whose receive side has accepted exactly [seen]. *)
Definition transport_seen (t : TransportState) (seen : list u64) : Prop :=
  window_ok (recv_replay_window t) (recv_max_nonce t) seen.

Lemma decrypt_checked_spec t seen d :
  transport_seen t seen ->
  decrypt_checked (recv_key t) (recv_replay_window t) (recv_max_nonce t) d =
    ((datagram_nonce d,.) <$> spec_decrypt (recv_key t) seen d).
Proof.
  intros Hok. unfold decrypt_checked, spec_decrypt.
  destruct (Nat.ltb_spec (length d) TRANSPORT_OVERHEAD) as [|Hlen]; [done|].
  assert (8 <= length d) by (unfold TRANSPORT_OVERHEAD, TRANSPORT_NONCE_PREFIX_LEN in *; lia).
  unfold get_range, get_from, TRANSPORT_NONCE_PREFIX_LEN.
  rewrite (proj2 (Nat.leb_le 8 (length d))) by done. cbn [andb Nat.leb ok_or_else mbind result_bind].
  destruct (arr_try_length (n:=8) (take (8 - 0) (drop 0 d))) as (a & -> & Ha);
    [rewrite length_take, length_drop; lia|].
  cbn [ok_or_else mbind result_bind]. rewrite Ha.
  change (from_be (take (8 - 0) (drop 0 d))) with (datagram_nonce d). rewrite (nonce_acceptable_spec _ _ _ Hok).
  case_decide; [|done]. cbn [mbind result_bind].
  by destruct (aead_decrypt _ _ _ _).
Qed.

(** One step: the outcome is the specification's and the state tracks it. *)
Lemma transport_decrypt_spec t seen d :
  transport_seen t seen ->
  let '(t', out) := transport_decrypt t d in
  out = spec_decrypt (recv_key t) seen d /\
  transport_seen t' (spec_accept (recv_key t) seen d) /\
  recv_key t' = recv_key t.
Proof.
  intros Hok. unfold transport_decrypt, spec_accept.
  rewrite (decrypt_checked_spec _ _ _ Hok).
  destruct (spec_decrypt (recv_key t) seen d) as [p|e] eqn:E; cbn; [|by split_and!].
  destruct (advance_window _ _ _) as [w' m'] eqn:Ea. split_and!; try done.
  eapply advance_window_ok; [exact Hok| |exact Ea].
  unfold spec_decrypt in E. destruct (_ <? _)%nat; [done|].
  by destruct (decide (spec_fresh seen (datagram_nonce d))).
Qed.

Lemma transport_seen_new k1 k2 : transport_seen (transport_new k1 k2) [].
Proof. apply window_ok_new. Qed.

Lemma receive_all_spec ds : forall t seen,
  transport_seen t seen ->
  let '(t', outs) := receive_all t ds in
  let '(seen', outs') := spec_receive_all (recv_key t) seen ds in
  outs = outs' /\ transport_seen t' seen'.
Proof.
  induction ds as [|d ds IH]; intros t seen Hok; cbn; [done|].
  pose proof (transport_decrypt_spec t seen d Hok) as Hd.
  destruct (transport_decrypt t d) as [t1 out]. destruct Hd as (-> & Hok1 & Hk).
  specialize (IH t1 _ Hok1). rewrite Hk in IH.
  destruct (receive_all t1 ds) as [t2 outs].
  destruct (spec_receive_all (recv_key t) (spec_accept (recv_key t) seen d) ds) as [seen' outs'].
  by destruct IH as [-> IH].
Qed.

Lemma spec_accept_NoDup rkey seen d : NoDup seen -> NoDup (spec_accept rkey seen d).
Proof.
  intros Hnd. unfold spec_accept. destruct (spec_decrypt rkey seen d) eqn:E; cbn; [|done].
  apply NoDup_cons. split; [|done]. unfold spec_decrypt in E.
  destruct (_ <? _)%nat; [done|]. case_decide as Hf; [apply Hf|done].
Qed.

Lemma spec_receive_all_NoDup rkey ds : forall seen,
  NoDup seen -> NoDup (spec_receive_all rkey seen ds).1.
Proof.
  induction ds as [|d ds IH]; intros seen Hnd; cbn; [done|].
  specialize (IH _ (spec_accept_NoDup rkey seen d Hnd)).
  by destruct (spec_receive_all rkey (spec_accept rkey seen d) ds).
Qed.

(** The nonces accepted along a stream, newest first. *)
Lemma spec_receive_all_seen rkey ds : forall seen,
  let '(seen', outs) := spec_receive_all rkey seen ds in
  seen' = rev (datagram_nonce <$> (filter (fun dr => is_ok dr.2 = true) (zip ds outs)).*1) ++ seen.
Proof.
  induction ds as [|d ds IH]; intros seen; cbn; [done|].
  specialize (IH (spec_accept rkey seen d)).
  destruct (spec_receive_all rkey (spec_accept rkey seen d) ds) as [seen' outs].
  rewrite IH. unfold spec_accept. cbn [zip_with]. rewrite filter_cons. cbn.
  destruct (is_ok (spec_decrypt rkey seen d)) eqn:E.
  - rewrite decide_True by done. cbn. by rewrite <- app_assoc.
  - by rewrite decide_False by done.
Qed.

End streams.

(** A failed decryption returns the state it was given. *)
Lemma transport_decrypt_Err `{C : Crypto} t d t' e :
  transport_decrypt t d = (t', Err e) -> t' = t.
Proof.
  unfold transport_decrypt. destruct (decrypt_checked _ _ _ _) as [[n p]|e'].
  - by destruct (advance_window _ _ _).
  - intros [= <- _]. by destruct t.
Qed.

(** ** Sending *)

Section sending.
Context `{C : Crypto, !CryptoLaws C}.

Lemma transport_encrypt_Ok t p t' d :
  transport_encrypt t p = Ok (t', d) ->
  exists c, aead_encrypt (send_key t) (send_nonce t) [] p = Ok c /\
    d = be_bytes 8 (send_nonce t) ++ c /\
    uval (send_nonce t') = (uval (send_nonce t) + 1)%N /\
    send_key t' = send_key t /\ recv_key t' = recv_key t /\
    recv_max_nonce t' = recv_max_nonce t /\ recv_replay_window t' = recv_replay_window t.
Proof.
  unfold transport_encrypt. destruct (aead_encrypt _ _ _ _) as [c|e] eqn:E; [|done].
  unfold checked_add. cbn [mbind result_bind].
  destruct (uint_try _) as [n|] eqn:En; [|done].
  apply uint_try_Some in En. intros [= <- <-]. exists c. by split_and!.
Qed.

(** A datagram's prefix is its nonce. *)
Lemma datagram_nonce_app n c : datagram_nonce (be_bytes 8 n ++ c) = n.
Proof.
  unfold datagram_nonce, TRANSPORT_NONCE_PREFIX_LEN.
  rewrite take_app_length' by (by rewrite length_be_bytes). by apply from_be_bytes.
Qed.

(** What a receiver holding the sender's key makes of a genuine datagram. *)
Lemma spec_decrypt_genuine key nonce p c seen :
  aead_encrypt key nonce [] p = Ok c ->
  spec_decrypt key seen (be_bytes 8 nonce ++ c) =
    if decide (spec_fresh seen nonce) then Ok p else Err (NoiseReplay nonce).
Proof.
  intros E. unfold spec_decrypt. pose proof (aead_encrypt_length _ _ _ _ _ E) as Hlen.
  rewrite length_app, length_be_bytes, Hlen, datagram_nonce_app.
  destruct (Nat.ltb_spec (8 + (length p + AEAD_TAG_LEN)) TRANSPORT_OVERHEAD) as [Hs|_].
  { unfold TRANSPORT_OVERHEAD, TRANSPORT_NONCE_PREFIX_LEN in Hs. lia. }
  case_decide; [|done]. unfold TRANSPORT_NONCE_PREFIX_LEN.
  rewrite drop_app_length' by (by rewrite length_be_bytes).
  by apply aead_decrypt_encrypt.
Qed.

(** The datagrams of a stream carry consecutive nonces, and each is genuine. *)
Lemma send_all_Ok ps : forall t t' ds,
  send_all t ps = Ok (t', ds) ->
  length ds = length ps /\
  forall i d, ds !! i = Some d -> exists p c n,
    ps !! i = Some p /\ uval n = (uval (send_nonce t) + N.of_nat i)%N /\
    d = be_bytes 8 n ++ c /\ aead_encrypt (send_key t) n [] p = Ok c.
Proof.
  induction ps as [|p ps IH]; intros t t' ds; cbn.
  { intros [= <- <-]. split; [done|]. by intros [|i] d. }
  destruct (transport_encrypt t p) as [[t1 d]|e] eqn:E; [|done]. cbn.
  destruct (send_all t1 ps) as [[t2 ds2]|e] eqn:Es; [|done]. intros [= <- <-].
  apply transport_encrypt_Ok in E as (c & Hc & -> & Hn & Hk & _).
  destruct (IH _ _ _ Es) as [Hlen Hall]. split; [cbn; by rewrite Hlen|].
  intros [|i] d' Hd; cbn in Hd.
  - simplify_eq. exists p, c, (send_nonce t). split_and!; try done. lia.
  - destruct (Hall i d' Hd) as (p' & c' & n & Hp & Hn' & -> & Hc').
    exists p', c', n. rewrite Hk in Hc'. split_and!; try done. lia.
Qed.

Lemma transport_encrypt_length t p t' d :
  transport_encrypt t p = Ok (t', d) -> length d = length p + TRANSPORT_OVERHEAD.
Proof.
  intros (c & Hc & -> & _)%transport_encrypt_Ok.
  rewrite length_app, length_be_bytes, (aead_encrypt_length _ _ _ _ _ Hc).
  unfold TRANSPORT_OVERHEAD, TRANSPORT_NONCE_PREFIX_LEN. lia.
Qed.

(** A payload and a datagram that carries it, sealed under [key]. *)
Definition genuine (key : arr KEY_LEN) (pd : list byte * list byte) : Prop :=
  exists n c, pd.2 = be_bytes 8 n ++ c /\ aead_encrypt key n [] pd.1 = Ok c.

Lemma spec_max_lt seen b :
  (0 < b)%N -> (forall n, n ∈ seen -> (uval n < b)%N) -> (spec_max seen < b)%N.
Proof.
  intros Hb. induction seen as [|n seen IH]; intros H; [done|].
  pose proof (H n (list_elem_of_here _ _)). unfold spec_max in *. cbn.
  apply N.max_lub_lt; [done|]. apply IH. intros m Hm. apply H. by right.
Qed.

(** Delivering genuine datagrams of distinct nonces to a receiver that finds
    each of them inside the window yields their payloads, in the order of
    delivery. *)
Lemma spec_receive_genuine key pds : forall seen,
  Forall (genuine key) pds ->
  NoDup ((datagram_nonce <$> pds.*2) ++ seen) ->
  (forall k n, (datagram_nonce <$> pds.*2) !! k = Some n ->
    (spec_max (rev (take k (datagram_nonce <$> pds.*2)) ++ seen) < uval n + 64)%N) ->
  (spec_receive_all key seen pds.*2).2 = Ok <$> pds.*1.
Proof.
  induction pds as [|[p d] pds IH]; intros seen; [done|].
  rewrite Forall_cons. intros [(n & c & Hd & Hc) Hg]. cbn [fst snd] in Hd, Hc. subst d.
  cbn [fmap list_fmap fst snd spec_receive_all]. rewrite datagram_nonce_app.
  change (list_fmap _ _ datagram_nonce) with (fmap (M:=list) datagram_nonce).
  change (list_fmap _ _ snd) with (fmap (M:=list) (@snd (list byte) (list byte))).
  intros Hnd Hwin.
  assert (Hnin : (n ∉ (datagram_nonce <$> pds.*2) ++ seen) /\
                 NoDup ((datagram_nonce <$> pds.*2) ++ seen)) by (by apply NoDup_cons).
  destruct Hnin as [Hnin Hnd'].
  assert (Hdec : spec_decrypt key seen (be_bytes 8 n ++ c) = Ok p).
  { rewrite (spec_decrypt_genuine _ _ _ _ _ Hc). rewrite decide_True; [done|].
    split; [set_solver|]. apply (Hwin 0 n eq_refl). }
  assert (Hacc : spec_accept key seen (be_bytes 8 n ++ c) = n :: seen).
  { unfold spec_accept. by rewrite Hdec, datagram_nonce_app. }
  rewrite Hacc, Hdec. specialize (IH (n :: seen) Hg).
  destruct (spec_receive_all key (n :: seen) pds.*2) as [s outs].
  cbn [snd] in *. f_equal. apply IH.
  - rewrite <- Permutation_middle. by apply NoDup_cons.
  - intros k m Hk. specialize (Hwin (S k) m Hk).
    by rewrite firstn_cons in Hwin; cbn [rev] in Hwin; rewrite <- app_assoc in Hwin.
Qed.

Lemma send_all_genuine t ps t' ds :
  send_all t ps = Ok (t', ds) ->
  Forall (genuine (send_key t)) (zip ps ds) /\
  (forall i d, ds !! i = Some d ->
     uval (datagram_nonce d) = (uval (send_nonce t) + N.of_nat i)%N) /\
  NoDup (datagram_nonce <$> ds) /\ length ds = length ps.
Proof.
  intros [Hlen Hall]%send_all_Ok.
  assert (Hn : forall i d, ds !! i = Some d ->
     uval (datagram_nonce d) = (uval (send_nonce t) + N.of_nat i)%N).
  { intros i d Hd. destruct (Hall i d Hd) as (p & c & n & _ & Hn & -> & _).
    by rewrite datagram_nonce_app. }
  split_and!; [|done| |done].
  - apply Forall_lookup. intros i [p d] Hpd. apply lookup_zip_Some in Hpd as [Hp Hd].
    destruct (Hall i d Hd) as (p' & c & n & Hp' & _ & -> & Hc). simplify_eq.
    by exists n, c.
  - apply NoDup_alt. intros i j n Hi Hj.
    rewrite list_lookup_fmap in Hi, Hj.
    destruct (ds !! i) as [di|] eqn:Ei, (ds !! j) as [dj|] eqn:Ej; try done.
    cbn in Hi, Hj. assert (He : datagram_nonce di = datagram_nonce dj) by congruence.
    apply Hn in Ei, Ej. rewrite He in Ei. lia.
Qed.

Lemma snd_zip_eq {A B} (l : list A) (k : list B) :
  length k = length l -> (zip l k).*2 = k /\ (zip l k).*1 = l.
Proof. intros H. split; [apply snd_zip | apply fst_zip]; lia. Qed.

End sending.

(** ** Properties *)

Section properties.
Context `{C : Crypto}.

(** C11: whatever datagrams arrive, the 64-bit window with its running maximum
    answers exactly like a receiver that remembers every nonce it ever
    accepted and refuses the repeated ones and those 64 or more behind the
    newest; so no nonce is accepted twice. *)
Theorem receive_all_refines_seen_set (k1 k2 : arr KEY_LEN) (ds : list (list byte)) :
  let '(t, outs) := receive_all (transport_new k1 k2) ds in
  let '(seen, outs') := spec_receive_all k2 [] ds in
  outs = outs' /\
  seen = rev (datagram_nonce <$> (filter (fun dr => is_ok dr.2 = true) (zip ds outs)).*1) /\
  NoDup seen /\ uval (recv_max_nonce t) = spec_max seen.
Proof.
  pose proof (receive_all_spec ds _ _ (transport_seen_new k1 k2)) as H.
  pose proof (spec_receive_all_seen k2 ds []) as Hs.
  pose proof (spec_receive_all_NoDup k2 ds [] (NoDup_nil_2)) as Hnd.
  destruct (receive_all (transport_new k1 k2) ds) as [t outs]. cbn [recv_key transport_new] in H.
  destruct (spec_receive_all k2 [] ds) as [seen outs']. destruct H as [-> Hok].
  rewrite app_nil_r in Hs. split_and!; [done|done|done|]. by apply window_max in Hok.
Qed.

(** A datagram that fails to decrypt for any reason leaves the whole
    transport state as it was; one that decrypts touches only the receive
    window, whose maximum never decreases. *)
Theorem transport_decrypt_frame (t : TransportState) (d : list byte) :
  match transport_decrypt t d with
  | (t', Err _) => t' = t
  | (t', Ok _) =>
      send_key t' = send_key t /\ send_nonce t' = send_nonce t /\
      recv_key t' = recv_key t /\ (uval (recv_max_nonce t) <= uval (recv_max_nonce t'))%N
  end.
Proof.
  destruct (transport_decrypt t d) as [t' [p|e]] eqn:Ed;
    [|by apply transport_decrypt_Err in Ed].
  unfold transport_decrypt in Ed. destruct (decrypt_checked _ _ _ _) as [[n p']|e]; [|done].
  - destruct (advance_window _ _ _) as [w m] eqn:E. simplify_eq/=. split_and!; try done.
    unfold advance_window in E. destruct (N.ltb_spec (uval (recv_max_nonce t)) (uval n));
      simplify_eq; lia.
Qed.

(** On the sending side the nonces are consecutive from the counter, so
    no nonce is used twice under a key, and the counter's exhaustion is an
    error instead of a wrap-around. *)
Theorem send_all_nonces (t : TransportState) (ps : list (list byte)) :
  match send_all t ps with
  | Ok (t', ds) =>
      length ds = length ps /\ NoDup (datagram_nonce <$> ds) /\
      (forall i d, ds !! i = Some d ->
         uval (datagram_nonce d) = (uval (send_nonce t) + N.of_nat i)%N) /\
      uval (send_nonce t') = (uval (send_nonce t) + N.of_nat (length ps))%N
  | Err e =>
      e = NoiseDecrypt \/
      (e = NoiseProtocol "send nonce counter exhausted" /\
       (2 ^ 64 <= uval (send_nonce t) + N.of_nat (length ps))%N)
  end.
Proof.
  destruct (send_all t ps) as [[t' ds]|e] eqn:E.
  - pose proof (send_all_genuine _ _ _ _ E) as (_ & Hn & Hnd & Hlen). split_and!; try done.
    revert t t' ds E Hn Hnd Hlen. induction ps as [|p ps IH]; intros t t' ds; cbn.
    { intros [= <- <-] *. lia. }
    destruct (transport_encrypt t p) as [[t1 d]|] eqn:Et; [|done]. cbn.
    destruct (send_all t1 ps) as [[t2 ds2]|] eqn:Es; [|done]. intros [= <- <-] _ _ _.
    pose proof (send_all_genuine _ _ _ _ Es) as (_ & Hn & Hnd & Hlen).
    apply transport_encrypt_Ok in Et as (_ & _ & _ & Hn1 & _).
    specialize (IH _ _ _ Es Hn Hnd Hlen). lia.
  - revert t e E. induction ps as [|p ps IH]; intros t e; cbn; [done|].
    destruct (transport_encrypt t p) as [[t1 d]|e'] eqn:Et; cbn.
    + destruct (send_all t1 ps) as [[t2 ds2]|e'] eqn:Es; cbn; [done|]. intros [= <-].
      apply transport_encrypt_Ok in Et as (_ & _ & _ & Hn1 & _).
      destruct (IH _ _ Es) as [->|[-> Hb]]; [by left|]. right. split; [done|lia].
    + intros [= <-]. unfold transport_encrypt, aead_encrypt in Et.
      destruct (chacha_encrypt _ _ _ _); cbn in Et; [|left; by simplify_eq].
      unfold checked_add in Et. destruct (uint_try _) eqn:En; [done|].
      apply uint_try_None in En. right. split; [by simplify_eq/=|lia].
Qed.

Context `{!CryptoLaws C}.

(** C13: between two transports with mirrored keys, a stream of any length
    delivered in order, and one of at most 64 datagrams delivered in any
    order at all, is decrypted completely: every payload comes out of the
    datagram that carries it. *)
Theorem transport_delivery (k1 k2 : arr KEY_LEN) ps t ds pds :
  send_all (transport_new k1 k2) ps = Ok (t, ds) ->
  pds = zip ps ds \/ (pds ≡ₚ zip ps ds /\ length ps <= 64) ->
  (receive_all (transport_new k2 k1) pds.*2).2 = Ok <$> pds.*1.
Proof.
  intros (Hg & Hn & Hnd & Hlen)%send_all_genuine Hpds.
  destruct (snd_zip_eq ps ds Hlen) as [Hds _].
  assert (Hp : pds ≡ₚ zip ps ds) by (by destruct Hpds as [->|[? _]]).
  pose proof (receive_all_spec pds.*2 _ _ (transport_seen_new k2 k1)) as H.
  assert (Hspec : (spec_receive_all k1 [] pds.*2).2 = Ok <$> pds.*1).
  { apply spec_receive_genuine.
    - by rewrite Hp.
    - by rewrite app_nil_r, Hp, Hds.
    - intros k n Hk. rewrite app_nil_r. apply spec_max_lt; [lia|].
      intros m Hm. rewrite list_elem_of_In, <- in_rev, <- list_elem_of_In in Hm.
      destruct Hpds as [->|[_ H64]].
      + rewrite Hds in Hk, Hm. apply list_lookup_fmap_Some in Hk as (d & -> & Hk).
        apply elem_of_take in Hm as (j & Hj & Hlt).
        apply list_lookup_fmap_Some in Hj as (dj & -> & Hj).
        rewrite (Hn _ _ Hk), (Hn _ _ Hj). lia.
      + assert (Hin : m ∈ datagram_nonce <$> ds).
        { rewrite <- Hds, <- Hp. by apply elem_of_take in Hm as (j & ?%list_elem_of_lookup_2 & _). }
        apply list_elem_of_fmap in Hin as (d & -> & [j Hj]%list_elem_of_lookup_1).
        pose proof (lookup_lt_Some _ _ _ Hj). rewrite (Hn _ _ Hj). cbn. lia. }
  destruct (receive_all (transport_new k2 k1) pds.*2) as [t' outs].
  cbn [recv_key transport_new] in H.
  destruct (spec_receive_all k1 [] pds.*2) as [seen outs']. by destruct H as [-> _].
Qed.

End properties.

(** Two payloads, delivered in the opposite order. *)
Lemma transport_delivery_witness :
  let k1 := arr_repeat 32 x01 in
  let k2 := arr_repeat 32 x02 in
  let ps := [[x0a]; [x0b; x0c]] in
  exists t d1 d2,
    send_all (C:=toy_crypto) (transport_new k1 k2) ps = Ok (t, [d1; d2]) /\
    (receive_all (C:=toy_crypto) (transport_new k2 k1) [d2; d1]).2 = [Ok [x0b; x0c]; Ok [x0a]].
Proof.
  intros k1 k2 ps.
  assert (E : exists t d1 d2,
    send_all (C:=toy_crypto) (transport_new k1 k2) ps = Ok (t, [d1; d2])).
  { eexists _, _, _. vm_compute. reflexivity. }
  destruct E as (t & d1 & d2 & E).
  exists t, d1, d2. split; [done|].
  refine (transport_delivery (C:=toy_crypto) (CryptoLaws0:=toy_crypto_laws)
    k1 k2 ps t [d1; d2] [([x0b; x0c], d2); ([x0a], d1)] E _).
  right. split; [apply Permutation_swap | cbn; lia].
Defined.
