(* ===== verification/NoiseHandshake.v ===== *)
(** * The Noise XX handshake as a type-state machine

    Models src/crates/libp2p-cat-noise/src/handshake.rs: one type per phase,
    and one transition per method.  A transition consumes the phase it is
    called on; the model's functions are pure, so the same phase value can be
    given to a transition twice, which is how the host's retained copies are
    modelled. *)

From S2P Require Export NoiseTransport.

#[local] Open Scope string_scope.

Definition EPH_PUBLIC_LEN : nat := KEY_LEN.
Definition ENC_STATIC_LEN : nat := KEY_LEN + AEAD_TAG_LEN.
Definition MESSAGE_1_LEN : nat := EPH_PUBLIC_LEN.
Definition MESSAGE_2_OVERHEAD_LEN : nat := EPH_PUBLIC_LEN + ENC_STATIC_LEN + AEAD_TAG_LEN.
Definition MESSAGE_3_OVERHEAD_LEN : nat := ENC_STATIC_LEN + AEAD_TAG_LEN.

Record Initiator : Type := MkInitiator {
  init_keypair : StaticKeypair;
  init_sym : SymmetricState
}.
Record InitiatorAfterE : Type := MkInitiatorAfterE {
  iae_keypair : StaticKeypair;
  iae_eph : EphemeralPrivateKey;
  iae_sym : SymmetricState
}.
Record InitiatorAfterResponse : Type := MkInitiatorAfterResponse {
  iar_keypair : StaticKeypair;
  iar_remote_eph : EphemeralPublicKey;
  iar_remote_static : StaticPublicKey;
  iar_sym : SymmetricState
}.
Record Responder : Type := MkResponder {
  resp_keypair : StaticKeypair;
  resp_sym : SymmetricState
}.
Record ResponderAfterE : Type := MkResponderAfterE {
  rae_keypair : StaticKeypair;
  rae_remote_eph : EphemeralPublicKey;
  rae_sym : SymmetricState
}.
Record ResponderAfterResponse : Type := MkResponderAfterResponse {
  rar_eph : EphemeralPrivateKey;
  rar_sym : SymmetricState
}.

Definition protocol_error (reason : string) : Error := NoiseProtocol reason.

Definition parse_32 (slice : list byte) : result Error (arr KEY_LEN) :=
  ok_or_else (arr_try slice)
    (NoiseProtocol ("expected " ++ decn KEY_LEN ++ " bytes, got " ++ decn (length slice))).

(** [Initiator::new] and [Responder::new]. *)
Definition initiator_new (k : StaticKeypair) : Initiator := MkInitiator k sym_initialize.
Definition responder_new (k : StaticKeypair) : Responder := MkResponder k sym_initialize.

Section handshake.
Context `{C : Crypto}.

Definition write_e (i : Initiator) (ephemeral_seed : arr KEY_LEN)
    : result Error (InitiatorAfterE * list byte) :=
  let eph_private := eph_from_seed ephemeral_seed in
  let eph_pub := eph_public eph_private in
  let sym := mix_hash (init_sym i) (arr_list (eph_public_bytes eph_pub)) in
  '(sym, trailing) ← encrypt_and_hash sym [];
  let msg := (arr_list (eph_public_bytes eph_pub) ++ trailing)%list in
  Ok (MkInitiatorAfterE (init_keypair i) eph_private sym, msg).

Definition read_response (i : InitiatorAfterE) (msg : list byte)
    : result Error (InitiatorAfterResponse * list byte) :=
  let total_len := length msg in
  if (total_len <? MESSAGE_2_OVERHEAD_LEN)%nat then
    Err (NoiseProtocol ("expected at least " ++ decn MESSAGE_2_OVERHEAD_LEN ++
           "-byte handshake message 2, got " ++ decn total_len))
  else
    e_slice ← ok_or_else (get_range 0 EPH_PUBLIC_LEN msg)
      (protocol_error "missing remote ephemeral");
    enc_static_slice ← ok_or_else
      (get_range EPH_PUBLIC_LEN (EPH_PUBLIC_LEN + ENC_STATIC_LEN) msg)
      (protocol_error "missing encrypted static");
    enc_payload_slice ← ok_or_else (get_from (EPH_PUBLIC_LEN + ENC_STATIC_LEN) msg)
      (protocol_error "missing trailing payload");
    e_arr ← parse_32 e_slice;
    let remote_eph := MkEphemeralPublicKey e_arr in
    let sym := mix_hash (iae_sym i) (arr_list (eph_public_bytes remote_eph)) in
    let sym := mix_key sym (dh_ee (iae_eph i) remote_eph) in
    '(sym, remote_static_plain) ← decrypt_and_hash sym enc_static_slice;
    s_arr ← parse_32 remote_static_plain;
    let remote_static := MkStaticPublicKey s_arr in
    let sym := mix_key sym (dh_es (iae_eph i) remote_static) in
    '(sym, payload) ← decrypt_and_hash sym enc_payload_slice;
    Ok (MkInitiatorAfterResponse (iae_keypair i) remote_eph remote_static sym, payload).

Definition write_s (i : InitiatorAfterResponse) (payload : list byte)
    : result Error (TransportState * list byte * StaticPublicKey) :=
  '(sym, enc_static) ←
    encrypt_and_hash (iar_sym i) (arr_list (static_public_bytes (keypair_public (iar_keypair i))));
  let sym := mix_key sym (dh_se (keypair_private (iar_keypair i)) (iar_remote_eph i)) in
  '(sym, enc_payload) ← encrypt_and_hash sym payload;
  let '(initiator_to_responder, responder_to_initiator) := sym_split sym in
  let transport := transport_new initiator_to_responder responder_to_initiator in
  let msg := (enc_static ++ enc_payload)%list in
  Ok (transport, msg, iar_remote_static i).

Definition read_e (r : Responder) (msg : list byte) : result Error ResponderAfterE :=
  let total_len := length msg in
  if (total_len =? MESSAGE_1_LEN)%nat then
    e_slice ← ok_or_else (get_range 0 EPH_PUBLIC_LEN msg)
      (protocol_error "missing remote ephemeral");
    e_arr ← parse_32 e_slice;
    let remote_eph := MkEphemeralPublicKey e_arr in
    let sym := mix_hash (resp_sym r) (arr_list (eph_public_bytes remote_eph)) in
    '(sym, _) ← decrypt_and_hash sym [];
    Ok (MkResponderAfterE (resp_keypair r) remote_eph sym)
  else
    Err (NoiseProtocol ("expected " ++ decn MESSAGE_1_LEN ++
           "-byte handshake message 1, got " ++ decn total_len)).

Definition write_response (r : ResponderAfterE) (ephemeral_seed : arr KEY_LEN)
    (payload : list byte) : result Error (ResponderAfterResponse * list byte) :=
  let eph_private := eph_from_seed ephemeral_seed in
  let eph_pub := eph_public eph_private in
  let sym := mix_hash (rae_sym r) (arr_list (eph_public_bytes eph_pub)) in
  let sym := mix_key sym (dh_ee eph_private (rae_remote_eph r)) in
  '(sym, enc_static) ←
    encrypt_and_hash sym (arr_list (static_public_bytes (keypair_public (rae_keypair r))));
  let sym := mix_key sym (dh_se (keypair_private (rae_keypair r)) (rae_remote_eph r)) in
  '(sym, enc_payload) ← encrypt_and_hash sym payload;
  let msg := (arr_list (eph_public_bytes eph_pub) ++ enc_static ++ enc_payload)%list in
  Ok (MkResponderAfterResponse eph_private sym, msg).

Definition read_s (r : ResponderAfterResponse) (msg : list byte)
    : result Error (TransportState * StaticPublicKey * list byte) :=
  let total_len := length msg in
  if (total_len <? MESSAGE_3_OVERHEAD_LEN)%nat then
    Err (NoiseProtocol ("expected at least " ++ decn MESSAGE_3_OVERHEAD_LEN ++
           "-byte handshake message 3, got " ++ decn total_len))
  else
    enc_static_slice ← ok_or_else (get_range 0 ENC_STATIC_LEN msg)
      (protocol_error "missing encrypted static");
    enc_payload_slice ← ok_or_else (get_from ENC_STATIC_LEN msg)
      (protocol_error "missing trailing payload");
    '(sym, remote_static_plain) ← decrypt_and_hash (rar_sym r) enc_static_slice;
    s_arr ← parse_32 remote_static_plain;
    let remote_static := MkStaticPublicKey s_arr in
    let sym := mix_key sym (dh_es (rar_eph r) remote_static) in
    '(sym, payload) ← decrypt_and_hash sym enc_payload_slice;
    let '(initiator_to_responder, responder_to_initiator) := sym_split sym in
    let transport := transport_new responder_to_initiator initiator_to_responder in
    Ok (transport, remote_static, payload).

End handshake.

#[local] Close Scope string_scope.

(** ** Each reader inverts the matching writer *)

Lemma parse_32_arr (a : arr KEY_LEN) : parse_32 (arr_list a) = Ok a.
Proof. unfold parse_32. by rewrite arr_try_arr. Qed.

Lemma parse_32_Ok l a : parse_32 l = Ok a -> l = arr_list a.
Proof.
  unfold parse_32. destruct (arr_try l) eqn:E; intros [= <-].
  by apply arr_try_Some in E.
Qed.

Section readers.
Context `{C : Crypto}.

Lemma write_e_eq k seed :
  let pub := arr_list (eph_public_bytes (eph_public (eph_from_seed seed))) in
  write_e (initiator_new k) seed =
    Ok (MkInitiatorAfterE k (eph_from_seed seed) (mix_hash (mix_hash sym_initialize pub) []), pub).
Proof. cbn zeta. unfold write_e. cbn. by rewrite app_nil_r. Qed.

Lemma read_e_eq k (e : arr KEY_LEN) :
  read_e (responder_new k) (arr_list e) =
    Ok (MkResponderAfterE k (MkEphemeralPublicKey e)
          (mix_hash (mix_hash sym_initialize (arr_list e)) [])).
Proof.
  unfold read_e, MESSAGE_1_LEN, EPH_PUBLIC_LEN.
  rewrite length_arr, Nat.eqb_refl.
  rewrite get_range_all by apply length_arr.
  cbn [ok_or_else mbind result_bind]. rewrite parse_32_arr. done.
Qed.

(** A message-1 reader is total on messages of the right length only. *)
Lemma read_e_Ok k msg r :
  read_e (responder_new k) msg = Ok r <->
  exists e, msg = arr_list e /\
    r = MkResponderAfterE k (MkEphemeralPublicKey e)
          (mix_hash (mix_hash sym_initialize (arr_list e)) []).
Proof.
  split.
  - intros H. destruct (decide (length msg = KEY_LEN)) as [Hl|Hl].
    + destruct (arr_try_length msg Hl) as (e & _ & <-). exists e. split; [done|].
      rewrite read_e_eq in H. by simplify_eq.
    + unfold read_e, MESSAGE_1_LEN, EPH_PUBLIC_LEN in H.
      destruct (Nat.eqb_spec (length msg) KEY_LEN); done.
  - intros (e & -> & ->). apply read_e_eq.
Qed.

Context `{!CryptoLaws C}.

Lemma read_response_written ki kr ei sym seed p rar msg :
  keypair_ok kr ->
  write_response (MkResponderAfterE kr (eph_public ei) sym) seed p = Ok (rar, msg) ->
  rar_eph rar = eph_from_seed seed /\
  length msg = MESSAGE_2_OVERHEAD_LEN + length p /\
  read_response (MkInitiatorAfterE ki ei sym) msg =
    Ok (MkInitiatorAfterResponse ki (eph_public (eph_from_seed seed)) (keypair_public kr)
          (rar_sym rar), p).
Proof.
  intros Hkr. unfold write_response. cbn [rae_sym rae_remote_eph rae_keypair].
  set (er := eph_from_seed seed). set (e_arr := eph_public_bytes (eph_public er)).
  set (s1 := mix_key _ _).
  destruct (encrypt_and_hash s1 _) as [[s2 c1]|] eqn:E1; [|done]. cbn [mbind result_bind].
  set (s3 := mix_key s2 _).
  destruct (encrypt_and_hash s3 p) as [[s4 c2]|] eqn:E2; [|done]. cbn [mbind result_bind].
  intros [= <- <-]. cbn [rar_eph rar_sym].
  pose proof (encrypt_and_hash_length _ _ _ _ E1) as L1.
  pose proof (encrypt_and_hash_length _ _ _ _ E2) as L2.
  unfold s1, s3 in L1, L2. rewrite sym_overhead_mix_key in L1, L2.
  rewrite length_arr in L1.
  assert (Hlen : length (arr_list e_arr ++ c1 ++ c2) = MESSAGE_2_OVERHEAD_LEN + length p).
  { rewrite !length_app, length_arr, L1, L2.
    unfold MESSAGE_2_OVERHEAD_LEN, EPH_PUBLIC_LEN, ENC_STATIC_LEN. lia. }
  split_and!; [done|done|]. unfold read_response. cbn [iae_sym iae_eph iae_keypair].
  rewrite Hlen. destruct (Nat.ltb_spec (MESSAGE_2_OVERHEAD_LEN + length p) MESSAGE_2_OVERHEAD_LEN);
    [lia|].
  rewrite (get_range_0_app EPH_PUBLIC_LEN (arr_list e_arr)) by apply length_arr.
  rewrite (get_range_app EPH_PUBLIC_LEN _ (arr_list e_arr) c1 c2)
    by (by rewrite ?length_arr, ?L1).
  rewrite (app_assoc (arr_list e_arr) c1 c2), get_from_app
    by (by rewrite length_app, length_arr, L1).
  cbn [ok_or_else mbind result_bind]. rewrite parse_32_arr. cbn [mbind result_bind eph_public_bytes].
  change (MkEphemeralPublicKey e_arr) with (eph_public er).
  rewrite (dh_ee_comm ei er). fold e_arr s1.
  rewrite (decrypt_encrypt_and_hash _ _ _ _ E1). cbn [mbind result_bind].
  rewrite parse_32_arr. cbn [mbind result_bind].
  replace (MkStaticPublicKey (static_public_bytes (keypair_public kr)))
    with (keypair_public kr) by (by destruct (keypair_public kr)).
  rewrite (dh_es_se ei kr Hkr). fold s3.
  by rewrite (decrypt_encrypt_and_hash _ _ _ _ E2).
Qed.

Lemma read_s_written ki er sym rs p t msg st :
  is_Some (cipher_key sym) -> keypair_ok ki ->
  write_s (MkInitiatorAfterResponse ki (eph_public er) rs sym) p = Ok (t, msg, st) ->
  st = rs /\ length msg = MESSAGE_3_OVERHEAD_LEN + length p /\
  exists k1 k2, t = transport_new k1 k2 /\
    read_s (MkResponderAfterResponse er sym) msg =
      Ok (transport_new k2 k1, keypair_public ki, p).
Proof.
  intros [ck Hck] Hki. unfold write_s.
  cbn [iar_sym iar_keypair iar_remote_eph iar_remote_static].
  destruct (encrypt_and_hash sym _) as [[s2 c1]|] eqn:E1; [|done]. cbn [mbind result_bind].
  set (s3 := mix_key s2 _).
  destruct (encrypt_and_hash s3 p) as [[s4 c2]|] eqn:E2; [|done]. cbn [mbind result_bind].
  destruct (sym_split s4) as [k1 k2] eqn:Esp. intros [= <- <- <-].
  pose proof (encrypt_and_hash_length _ _ _ _ E1) as L1.
  pose proof (encrypt_and_hash_length _ _ _ _ E2) as L2.
  unfold s3 in L2. rewrite sym_overhead_mix_key in L2.
  unfold sym_overhead in L1. rewrite Hck, length_arr in L1.
  assert (Hlen : length (c1 ++ c2) = MESSAGE_3_OVERHEAD_LEN + length p).
  { rewrite length_app, L1, L2. unfold MESSAGE_3_OVERHEAD_LEN, ENC_STATIC_LEN. lia. }
  split_and!; [done|done|]. exists k1, k2. split; [done|].
  unfold read_s. cbn [rar_sym rar_eph]. rewrite Hlen.
  destruct (Nat.ltb_spec (MESSAGE_3_OVERHEAD_LEN + length p) MESSAGE_3_OVERHEAD_LEN); [lia|].
  rewrite (get_range_0_app ENC_STATIC_LEN c1 c2) by done.
  rewrite get_from_app by done.
  cbn [ok_or_else mbind result_bind].
  rewrite (decrypt_encrypt_and_hash _ _ _ _ E1). cbn [mbind result_bind].
  rewrite parse_32_arr. cbn [mbind result_bind].
  replace (MkStaticPublicKey (static_public_bytes (keypair_public ki)))
    with (keypair_public ki) by (by destruct (keypair_public ki)).
  rewrite (dh_es_se er ki Hki). fold s3.
  rewrite (decrypt_encrypt_and_hash _ _ _ _ E2). cbn [mbind result_bind].
  by rewrite Esp.
Qed.

(** Writers succeed on every payload the AEAD accepts. *)
Lemma write_response_total r seed p :
  (N.of_nat (length p) < AEAD_SAFE_LEN)%N ->
  exists rar msg, write_response r seed p = Ok (rar, msg) /\ is_Some (cipher_key (rar_sym rar)).
Proof.
  intros Hp. unfold write_response. set (s1 := mix_key _ _).
  destruct (encrypt_and_hash_total s1
    (arr_list (static_public_bytes (keypair_public (rae_keypair r))))) as (s2 & c1 & ->);
    [by rewrite length_arr|].
  cbn [mbind result_bind]. set (s3 := mix_key s2 _).
  destruct (encrypt_and_hash_total s3 p Hp) as (s4 & c2 & E). rewrite E.
  eexists _, _. split; [done|]. cbn. apply sym_overhead_step in E. unfold s3 in E.
  rewrite sym_overhead_mix_key in E. unfold sym_overhead in E.
  destruct (cipher_key s4) as [k|]; [by exists k | done].
Qed.

Lemma write_s_total i p :
  (N.of_nat (length p) < AEAD_SAFE_LEN)%N -> exists t msg st, write_s i p = Ok (t, msg, st).
Proof.
  intros Hp. unfold write_s.
  destruct (encrypt_and_hash_total (iar_sym i)
    (arr_list (static_public_bytes (keypair_public (iar_keypair i))))) as (s2 & c1 & ->);
    [by rewrite length_arr|].
  cbn [mbind result_bind]. set (s3 := mix_key s2 _).
  destruct (encrypt_and_hash_total s3 p Hp) as (s4 & c2 & ->).
  cbn [mbind result_bind]. destruct (sym_split s4). by eexists _, _, _.
Qed.

End readers.

(** ** The whole exchange *)

(** Both parties' view of one run, and the three messages. *)
Record xx_result : Type := MkXx {
  xx_initiator : TransportState * StaticPublicKey * list byte;
  xx_responder : TransportState * StaticPublicKey * list byte;
  xx_messages : list (list byte)
}.

Section exchange.
Context `{C : Crypto}.

Definition xx_run (ki kr : StaticKeypair) (si sr : arr KEY_LEN) (p2 p3 : list byte)
    : result Error xx_result :=
  '(iae, m1) ← write_e (initiator_new ki) si;
  rae ← read_e (responder_new kr) m1;
  '(rar, m2) ← write_response rae sr p2;
  '(iar, got2) ← read_response iae m2;
  '(ti, m3, static_r) ← write_s iar p3;
  '(tr, static_i, got3) ← read_s rar m3;
  Ok (MkXx (ti, static_r, got2) (tr, static_i, got3) [m1; m2; m3]).

Context `{!CryptoLaws C}.

(** Once a key is set, opening either authenticates or is [NoiseDecrypt]. *)
Lemma decrypt_keyed s c :
  is_Some (cipher_key s) ->
  (exists s' m, decrypt_and_hash s c = Ok (s', m) /\ length c = length m + AEAD_TAG_LEN) \/
  decrypt_and_hash s c = Err NoiseDecrypt.
Proof.
  intros [k Hk]. destruct (decrypt_and_hash s c) as [[s' m]|e] eqn:E.
  - left. exists s', m. split; [done|]. apply decrypt_and_hash_length in E.
    unfold sym_overhead in E. by rewrite Hk in E.
  - right. unfold decrypt_and_hash, aead_decrypt in E. rewrite Hk in E.
    by destruct (chacha_decrypt _ _ _ _); cbn in E; simplify_eq.
Qed.

Lemma parse_32_total l : length l = KEY_LEN -> exists a, parse_32 l = Ok a.
Proof.
  intros (a & Ha & _)%arr_try_length. exists a. unfold parse_32. by rewrite Ha.
Qed.

(** What each reader answers on a message long enough to be parsed. *)
Lemma read_response_shape i msg :
  MESSAGE_2_OVERHEAD_LEN <= length msg ->
  (exists iar p, read_response i msg = Ok (iar, p) /\
     length msg = MESSAGE_2_OVERHEAD_LEN + length p) \/
  read_response i msg = Err NoiseDecrypt.
Proof.
  intros Hlen. unfold read_response.
  destruct (Nat.ltb_spec (length msg) MESSAGE_2_OVERHEAD_LEN); [lia|].
  destruct (split_list EPH_PUBLIC_LEN ENC_STATIC_LEN msg) as (e & es & ep & -> & He & Hes);
    [unfold MESSAGE_2_OVERHEAD_LEN in Hlen; lia|].
  rewrite (get_range_0_app EPH_PUBLIC_LEN e) by done.
  rewrite (get_range_app EPH_PUBLIC_LEN _ e es ep) by lia.
  rewrite (app_assoc e es ep), get_from_app by (rewrite length_app; lia).
  cbn [ok_or_else mbind result_bind].
  destruct (parse_32_total e He) as [ea ->]. cbn [mbind result_bind].
  destruct (decrypt_keyed _ es (cipher_key_mix_key
    (mix_hash (iae_sym i) (arr_list (eph_public_bytes (MkEphemeralPublicKey ea))))
    (dh_ee (iae_eph i) (MkEphemeralPublicKey ea)))) as [(s2 & sp & -> & L1)| ->]; [|by right].
  cbn [mbind result_bind].
  destruct (parse_32_total sp) as [sa ->]; [unfold ENC_STATIC_LEN in Hes; lia|].
  cbn [mbind result_bind].
  destruct (decrypt_keyed _ ep (cipher_key_mix_key s2
    (dh_es (iae_eph i) (MkStaticPublicKey sa)))) as [(s4 & p & -> & L2)| ->]; [|by right].
  left. eexists _, _. split; [done|].
  rewrite !length_app, He, Hes, L2. unfold MESSAGE_2_OVERHEAD_LEN. lia.
Qed.

Lemma read_s_shape r msg :
  is_Some (cipher_key (rar_sym r)) -> MESSAGE_3_OVERHEAD_LEN <= length msg ->
  (exists t st p, read_s r msg = Ok (t, st, p) /\
     length msg = MESSAGE_3_OVERHEAD_LEN + length p) \/
  read_s r msg = Err NoiseDecrypt.
Proof.
  intros Hk Hlen. unfold read_s.
  destruct (Nat.ltb_spec (length msg) MESSAGE_3_OVERHEAD_LEN); [lia|].
  destruct (split_list 0 ENC_STATIC_LEN msg) as ([|] & es & ep & -> & He & Hes);
    [unfold MESSAGE_3_OVERHEAD_LEN in Hlen; lia| |done]. cbn [app] in *.
  rewrite (get_range_0_app ENC_STATIC_LEN es), get_from_app by done.
  cbn [ok_or_else mbind result_bind].
  destruct (decrypt_keyed _ es Hk) as [(s2 & sp & -> & L1)| ->]; [|by right].
  cbn [mbind result_bind].
  destruct (parse_32_total sp) as [sa ->]; [unfold ENC_STATIC_LEN in Hes; lia|].
  cbn [mbind result_bind].
  destruct (decrypt_keyed _ ep (cipher_key_mix_key s2
    (dh_es (rar_eph r) (MkStaticPublicKey sa)))) as [(s4 & p & -> & L2)| ->]; [|by right].
  left. cbn [mbind result_bind]. destruct (sym_split s4). eexists _, _, _. split; [done|].
  rewrite !length_app, Hes, L2. unfold MESSAGE_3_OVERHEAD_LEN. lia.
Qed.

(** C12: the XX handshake is complete and correct: for any two well-formed static
    keypairs, ephemeral seeds and payloads the AEAD accepts, the six
    transitions all succeed, each side learns the other's static key and
    payload, the two transports hold mirrored keys with fresh counters and
    windows, and the messages have the advertised lengths. *)
Theorem xx_handshake_completes ki kr si sr p2 p3 :
  keypair_ok ki -> keypair_ok kr ->
  (N.of_nat (length p2) < AEAD_SAFE_LEN)%N -> (N.of_nat (length p3) < AEAD_SAFE_LEN)%N ->
  exists k1 k2 m1 m2 m3,
    xx_run ki kr si sr p2 p3 =
      Ok (MkXx (transport_new k1 k2, keypair_public kr, p2)
               (transport_new k2 k1, keypair_public ki, p3) [m1; m2; m3]) /\
    length m1 = MESSAGE_1_LEN /\
    length m2 = MESSAGE_2_OVERHEAD_LEN + length p2 /\
    length m3 = MESSAGE_3_OVERHEAD_LEN + length p3.
Proof.
  intros Hki Hkr Hp2 Hp3. unfold xx_run. rewrite write_e_eq. cbn [mbind result_bind].
  rewrite read_e_eq. cbn [mbind result_bind].
  set (e := eph_from_seed si). set (sym := mix_hash _ []).
  destruct (write_response_total
    (MkResponderAfterE kr (eph_public e) sym) sr p2 Hp2) as (rar & m2 & Ew & Hck).
  change (MkEphemeralPublicKey (eph_public_bytes (eph_public e))) with (eph_public e).
  rewrite Ew. cbn [mbind result_bind].
  destruct (read_response_written ki kr e sym sr p2 rar m2 Hkr Ew) as (Heph & L2 & ->).
  cbn [mbind result_bind]. set (iar := MkInitiatorAfterResponse _ _ _ _).
  destruct (write_s_total iar p3 Hp3) as (t & m3 & st & Es). rewrite Es.
  destruct (read_s_written _ _ _ _ _ _ _ _ Hck Hki Es) as (-> & L3 & k1 & k2 & -> & Er).
  cbn [mbind result_bind]. rewrite <- Heph in Er.
  replace rar with (MkResponderAfterResponse (rar_eph rar) (rar_sym rar)) by (by destruct rar).
  rewrite Er. cbn [mbind result_bind].
  exists k1, k2, (arr_list (eph_public_bytes (eph_public e))), m2, m3.
  split_and!; try done. apply length_arr.
Qed.

(** On arbitrary input, message 1 is accepted exactly when it is 32 bytes
    long; a message 2 or 3 below its overhead is a protocol error; one that
    is long enough either authenticates, and then yields a payload of
    exactly the remaining length, or is [NoiseDecrypt].  The parse errors
    behind the length checks are unreachable. *)
Theorem handshake_readers_total k (i : InitiatorAfterE) (r : ResponderAfterResponse) msg :
  is_Some (cipher_key (rar_sym r)) ->
  (is_ok (read_e (responder_new k) msg) = true <-> length msg = MESSAGE_1_LEN) /\
  match read_response i msg with
  | Ok (_, p) => length msg = MESSAGE_2_OVERHEAD_LEN + length p
  | Err NoiseDecrypt => MESSAGE_2_OVERHEAD_LEN <= length msg
  | Err (NoiseProtocol _) => length msg < MESSAGE_2_OVERHEAD_LEN
  | Err _ => False
  end /\
  match read_s r msg with
  | Ok (_, _, p) => length msg = MESSAGE_3_OVERHEAD_LEN + length p
  | Err NoiseDecrypt => MESSAGE_3_OVERHEAD_LEN <= length msg
  | Err (NoiseProtocol _) => length msg < MESSAGE_3_OVERHEAD_LEN
  | Err _ => False
  end.
Proof.
  intros Hk. split_and!.
  - split.
    + destruct (read_e (responder_new k) msg) eqn:E; [|done]. intros _.
      apply read_e_Ok in E as (e & -> & _). apply length_arr.
    + intros Hl. destruct (arr_try_length msg Hl) as (e & _ & <-). by rewrite read_e_eq.
  - destruct (Nat.lt_ge_cases (length msg) MESSAGE_2_OVERHEAD_LEN) as [Hs|Hl].
    + unfold read_response. rewrite (proj2 (Nat.ltb_lt _ _) Hs). done.
    + destruct (read_response_shape i msg Hl) as [(iar & p & -> & Hlen)| ->]; done.
  - destruct (Nat.lt_ge_cases (length msg) MESSAGE_3_OVERHEAD_LEN) as [Hs|Hl].
    + unfold read_s. rewrite (proj2 (Nat.ltb_lt _ _) Hs). done.
    + destruct (read_s_shape r msg Hk Hl) as [(t & st & p & -> & Hlen)| ->]; done.
Qed.

End exchange.

Definition toy_keypair (b : byte) : StaticKeypair :=
  from_private_bytes (C:=toy_crypto) (arr_repeat 32 b).

Lemma xx_handshake_completes_witness :
  exists k1 k2 m1 m2 m3,
    xx_run (C:=toy_crypto) (toy_keypair x01) (toy_keypair x02)
      (arr_repeat 32 x03) (arr_repeat 32 x04) [x0a] [x0b; x0c] =
      Ok (MkXx (transport_new k1 k2, keypair_public (toy_keypair x02), [x0a])
               (transport_new k2 k1, keypair_public (toy_keypair x01), [x0b; x0c])
               [m1; m2; m3]) /\
    length m1 = 32 /\ length m2 = 97 /\ length m3 = 66.
Proof.
  apply (xx_handshake_completes (CryptoLaws0:=toy_crypto_laws)); done.
Defined.

Lemma handshake_readers_total_witness :
  let r := MkResponderAfterResponse (eph_from_seed (arr_repeat 32 x01))
    (MkSymmetric PROTOCOL_NAME PROTOCOL_NAME (Some (arr_repeat 32 x02)) u64_zero) in
  let i := MkInitiatorAfterE (toy_keypair x01) (eph_from_seed (arr_repeat 32 x03)) sym_initialize in
  (is_ok (read_e (C:=toy_crypto) (responder_new (toy_keypair x02)) [x00]) = true <->
    length [x00] = MESSAGE_1_LEN) /\
  match read_response (C:=toy_crypto) i [x00] with
  | Ok (_, p) => length [x00] = MESSAGE_2_OVERHEAD_LEN + length p
  | Err NoiseDecrypt => MESSAGE_2_OVERHEAD_LEN <= length [x00]
  | Err (NoiseProtocol _) => length [x00] < MESSAGE_2_OVERHEAD_LEN
  | Err _ => False
  end /\
  match read_s (C:=toy_crypto) r [x00] with
  | Ok (_, _, p) => length [x00] = MESSAGE_3_OVERHEAD_LEN + length p
  | Err NoiseDecrypt => MESSAGE_3_OVERHEAD_LEN <= length [x00]
  | Err (NoiseProtocol _) => length [x00] < MESSAGE_3_OVERHEAD_LEN
  | Err _ => False
  end.
Proof.
  intros r i. apply (handshake_readers_total (CryptoLaws0:=toy_crypto_laws)
    (toy_keypair x02) i r [x00]). by eexists.
Defined.
