(* ===== verification/Identity.v ===== *)
(** * The [libp2p-cat-identity] crate

    Models src/crates/libp2p-cat-identity/src: keypair.rs (Ed25519 keys and
    signatures) and signed_static_key.rs (the domain-separated binding of a
    Noise static key to an Ed25519 identity). *)

From S2P Require Export NoiseHandshake.

#[local] Open Scope string_scope.

(** ** [keypair.rs] *)

Definition DOMAIN_TAG : list byte := str_bytes "libp2p-cat-identity-static-key:".
Definition ED25519_PUBLIC_KEY_LEN : nat := 32.
Definition ED25519_SIGNATURE_LEN : nat := 64.

Record Ed25519PublicKey : Type := MkEd25519PublicKey { ed_public_bytes : arr ED25519_PUBLIC_KEY_LEN }.
Record Ed25519Signature : Type := MkEd25519Signature { ed_sig_bytes : arr ED25519_SIGNATURE_LEN }.

#[export] Instance ed_public_eq_dec : EqDecision Ed25519PublicKey.
Proof. solve_decision. Defined.
#[export] Instance ed_sig_eq_dec : EqDecision Ed25519Signature.
Proof. solve_decision. Defined.

(** [Ed25519PublicKey::peer_id]. *)
Definition ed_peer_id (k : Ed25519PublicKey) : PeerId := from_ed25519 (ed_public_bytes k).

Section keypair.
Context `{C : Crypto}.

Record Ed25519Keypair : Type := MkEd25519Keypair {
  signing_key : SigningKey;
  ed_public : Ed25519PublicKey
}.

(** [Ed25519PublicKey::verifying_key]. *)
Definition verifying_key (k : Ed25519PublicKey) : result Error VerifyingKey :=
  map_err (fun e => IdentityVerify
      ("ed25519 public key bytes are not a valid curve point: " ++ e))
    (verifying_key_from_bytes (ed_public_bytes k)).

(** [Ed25519Keypair::from_seed]. *)
Definition ed_from_seed (seed : arr 32) : Ed25519Keypair :=
  let sk := signing_key_from_bytes seed in
  let public_key := MkEd25519PublicKey (signing_key_public sk) in
  MkEd25519Keypair sk public_key.

(** [Ed25519Keypair::peer_id]. *)
Definition keypair_peer_id (k : Ed25519Keypair) : PeerId := ed_peer_id (ed_public k).

Definition try_sign (k : Ed25519Keypair) (message : list byte) : result Error Ed25519Signature :=
  map_err (fun e => IdentityVerify ("ed25519 try_sign failed: " ++ e))
    (MkEd25519Signature <$> ed25519_try_sign (signing_key k) message).

End keypair.

(** ** [signed_static_key.rs] *)

Definition X25519_KEY_LEN : nat := 32.
Definition DOMAIN_TAG_LEN : nat := length DOMAIN_TAG.
Definition SIGNED_STATIC_KEY_LEN : nat := ED25519_PUBLIC_KEY_LEN + ED25519_SIGNATURE_LEN.
Definition SIGNED_INPUT_LEN : nat := DOMAIN_TAG_LEN + X25519_KEY_LEN.

Definition signed_input (static_pub : StaticPublicKey) : arr SIGNED_INPUT_LEN :=
  let static_bytes := static_public_bytes static_pub in
  arr_from_fn (fun j =>
    if (j <? DOMAIN_TAG_LEN)%nat then default x00 (DOMAIN_TAG !! j)
    else arr_get static_bytes (j - DOMAIN_TAG_LEN)).

Record SignedStaticKey : Type := MkSigned {
  signed_public_key : Ed25519PublicKey;
  signed_signature : Ed25519Signature
}.

(** [SignedStaticKey::to_bytes]. *)
Definition signed_to_bytes (s : SignedStaticKey) : arr SIGNED_STATIC_KEY_LEN :=
  let pk := ed_public_bytes (signed_public_key s) in
  let sig := ed_sig_bytes (signed_signature s) in
  arr_from_fn (fun j =>
    if (j <? ED25519_PUBLIC_KEY_LEN)%nat then arr_get pk j
    else arr_get sig (j - ED25519_PUBLIC_KEY_LEN)).

(** [SignedStaticKey::from_bytes]. *)
Definition signed_from_bytes (bytes : list byte) : result Error SignedStaticKey :=
  let needs := IdentityVerify ("SignedStaticKey wire payload needs " ++
    decn SIGNED_STATIC_KEY_LEN ++ " bytes, got " ++ decn (length bytes)) in
  pk_slice ← ok_or_else (get_to ED25519_PUBLIC_KEY_LEN bytes) needs;
  sig_slice ← ok_or_else (get_range ED25519_PUBLIC_KEY_LEN SIGNED_STATIC_KEY_LEN bytes) needs;
  pk_arr ← ok_or_else (arr_try pk_slice) (IdentityVerify
    ("SignedStaticKey public-key slice not " ++ decn ED25519_PUBLIC_KEY_LEN ++ " bytes wide"));
  sig_arr ← ok_or_else (arr_try sig_slice) (IdentityVerify
    ("SignedStaticKey signature slice not " ++ decn ED25519_SIGNATURE_LEN ++ " bytes wide"));
  Ok (MkSigned (MkEd25519PublicKey pk_arr) (MkEd25519Signature sig_arr)).

Section signed.
Context `{C : Crypto}.

(** [SignedStaticKey::create]. *)
Definition signed_create (keypair : Ed25519Keypair) (static_pub : StaticPublicKey)
    : result Error SignedStaticKey :=
  let input := signed_input static_pub in
  signature ← try_sign keypair (arr_list input);
  Ok (MkSigned (ed_public keypair) signature).

(** [SignedStaticKey::verify]. *)
Definition signed_verify (s : SignedStaticKey) (static_pub : StaticPublicKey)
    : result Error (Ed25519PublicKey * PeerId) :=
  vk ← verifying_key (signed_public_key s);
  let input := signed_input static_pub in
  _ ← map_err (fun e => IdentityVerify ("ed25519 signature did not verify: " ++ e))
    (ed25519_verify_strict vk (arr_list input) (ed_sig_bytes (signed_signature s)));
  Ok (signed_public_key s, ed_peer_id (signed_public_key s)).

End signed.

#[local] Close Scope string_scope.

(** ** Lemmas *)

Lemma signed_input_list k :
  arr_list (signed_input k) = DOMAIN_TAG ++ arr_list (static_public_bytes k).
Proof.
  apply from_fn_list; [by rewrite length_app, length_arr|].
  intros i Hi. destruct (Nat.ltb_spec i DOMAIN_TAG_LEN).
  - by rewrite lookup_app_l.
  - by rewrite lookup_app_r.
Qed.

Lemma signed_to_bytes_list s :
  arr_list (signed_to_bytes s) =
    arr_list (ed_public_bytes (signed_public_key s)) ++
    arr_list (ed_sig_bytes (signed_signature s)).
Proof.
  apply from_fn_list; [by rewrite length_app, !length_arr|].
  intros i Hi. destruct (Nat.ltb_spec i ED25519_PUBLIC_KEY_LEN).
  - by rewrite lookup_app_l by (by rewrite length_arr).
  - by rewrite lookup_app_r, length_arr by (by rewrite length_arr).
Qed.

(** The decoder reads the first 96 bytes, whatever follows them. *)
Lemma signed_from_bytes_app s rest :
  signed_from_bytes (arr_list (signed_to_bytes s) ++ rest) = Ok s.
Proof.
  rewrite signed_to_bytes_list, <- app_assoc. unfold signed_from_bytes.
  rewrite get_to_app by apply length_arr.
  rewrite (get_range_app ED25519_PUBLIC_KEY_LEN) by (by rewrite ?length_arr).
  cbn [ok_or_else mbind result_bind]. rewrite !arr_try_arr.
  cbn [ok_or_else mbind result_bind]. by destruct s as [[pk] [sig]].
Qed.

(** Any 96 bytes are the wire form of some binding. *)
Lemma signed_prefix l :
  SIGNED_STATIC_KEY_LEN <= length l ->
  exists s rest, l = arr_list (signed_to_bytes s) ++ rest.
Proof.
  intros Hl.
  destruct (split_list ED25519_PUBLIC_KEY_LEN ED25519_SIGNATURE_LEN l)
    as (pk & sig & rest & -> & Hpk & Hsig); [unfold SIGNED_STATIC_KEY_LEN in Hl; lia|].
  destruct (arr_try_length pk Hpk) as (pk' & _ & <-).
  destruct (arr_try_length sig Hsig) as (sig' & _ & <-).
  exists (MkSigned (MkEd25519PublicKey pk') (MkEd25519Signature sig')), rest.
  by rewrite signed_to_bytes_list, <- app_assoc.
Qed.

Lemma signed_from_bytes_short l :
  length l < SIGNED_STATIC_KEY_LEN -> is_ok (signed_from_bytes l) = false.
Proof.
  intros Hs. unfold signed_from_bytes.
  assert (Hr : get_range ED25519_PUBLIC_KEY_LEN SIGNED_STATIC_KEY_LEN l = None).
  { unfold get_range. rewrite (proj2 (Nat.leb_gt _ (length l)) Hs). by rewrite andb_false_r. }
  rewrite Hr. by destruct (get_to ED25519_PUBLIC_KEY_LEN l).
Qed.

Lemma signed_from_bytes_Ok l s :
  signed_from_bytes l = Ok s <-> exists rest, l = arr_list (signed_to_bytes s) ++ rest.
Proof.
  split; [|intros [rest ->]; apply signed_from_bytes_app].
  intros H. destruct (Nat.lt_ge_cases (length l) SIGNED_STATIC_KEY_LEN) as [Hs|Hl].
  - apply signed_from_bytes_short in Hs. by rewrite H in Hs.
  - destruct (signed_prefix l Hl) as (s' & rest & ->).
    rewrite signed_from_bytes_app in H. simplify_eq. by exists rest.
Qed.

Section laws.
Context `{C : Crypto, !CryptoLaws C}.

Lemma signed_create_total seed pub :
  exists s, signed_create (ed_from_seed seed) pub = Ok s.
Proof.
  unfold signed_create, try_sign. cbn [signing_key ed_from_seed].
  pose proof (ed25519_sign_total seed (arr_list (signed_input pub))) as H.
  destruct (ed25519_try_sign _ _); [by eexists | done].
Qed.

Lemma signed_create_verify seed pub s :
  signed_create (ed_from_seed seed) pub = Ok s ->
  signed_verify s pub = Ok (ed_public (ed_from_seed seed), keypair_peer_id (ed_from_seed seed)).
Proof.
  unfold signed_create, try_sign, signed_verify, verifying_key.
  cbn [signing_key ed_from_seed].
  destruct (ed25519_try_sign _ _) as [sig|e] eqn:E; [|done]. intros [= <-].
  apply ed25519_verify_sign in E as (vk & Hvk & Hv).
  cbn [signed_public_key signed_signature ed_public ed_public_bytes ed_sig_bytes].
  rewrite Hvk. cbn [map_err mbind result_bind]. by rewrite Hv.
Qed.

End laws.

(** ** Properties *)

(** The wire form of a binding is the 96 bytes of key and signature; every
    binding survives encoding and decoding, and decoding succeeds exactly on
    the byte strings that start with a binding's wire form, bytes beyond the
    96 being ignored. *)
Theorem signed_static_key_wire (s : SignedStaticKey) (l : list byte) :
  length (arr_list (signed_to_bytes s)) = 96 /\
  signed_from_bytes (arr_list (signed_to_bytes s)) = Ok s /\
  (signed_from_bytes l = Ok s <-> exists rest, l = arr_list (signed_to_bytes s) ++ rest) /\
  (is_ok (signed_from_bytes l) = true <-> 96 <= length l).
Proof.
  split_and!.
  - apply length_arr.
  - rewrite <- (app_nil_r (arr_list _)). apply signed_from_bytes_app.
  - apply signed_from_bytes_Ok.
  - split.
    + destruct (signed_from_bytes l) eqn:E; [|done]. intros _.
      apply signed_from_bytes_Ok in E as [rest ->]. rewrite length_app, length_arr.
      unfold SIGNED_STATIC_KEY_LEN, ED25519_PUBLIC_KEY_LEN, ED25519_SIGNATURE_LEN. lia.
    + intros Hl. destruct (signed_prefix l Hl) as (s' & rest & ->).
      by rewrite signed_from_bytes_app.
Qed.

Section properties.
Context `{C : Crypto, !CryptoLaws C}.

(** A binding created by the holder of a seed for a static key verifies for
    that static key, after a trip over the wire with anything appended, and
    yields that holder's public key and PeerId. *)
Theorem signed_binding_verifies (seed : arr 32) (pub : StaticPublicKey) (rest : list byte) :
  exists s s',
    signed_create (ed_from_seed seed) pub = Ok s /\
    signed_from_bytes (arr_list (signed_to_bytes s) ++ rest) = Ok s' /\
    signed_verify s' pub =
      Ok (ed_public (ed_from_seed seed), from_ed25519 (ed_public_bytes (ed_public (ed_from_seed seed)))).
Proof.
  destruct (signed_create_total seed pub) as [s Hs]. exists s, s.
  split_and!; [done|apply signed_from_bytes_app|].
  exact (signed_create_verify _ _ _ Hs).
Qed.

End properties.

Lemma signed_binding_verifies_witness :
  let seed := arr_repeat 32 x05 in
  let pub := MkStaticPublicKey (arr_repeat 32 x06) in
  exists s s',
    signed_create (C:=toy_crypto) (ed_from_seed (C:=toy_crypto) seed) pub = Ok s /\
    signed_from_bytes (arr_list (signed_to_bytes s) ++ [xff]) = Ok s' /\
    signed_verify (C:=toy_crypto) s' pub =
      Ok (ed_public (C:=toy_crypto) (ed_from_seed (C:=toy_crypto) seed), from_ed25519 (ed_public_bytes (ed_public (C:=toy_crypto) (ed_from_seed (C:=toy_crypto) seed)))).
Proof.
  intros seed pub. apply (signed_binding_verifies (CryptoLaws0:=toy_crypto_laws)).
Defined.
