(* ===== verification/Cookie.v ===== *)
(** * Stateless source-address cookies

    Models src/crates/libp2p-cat-host/src/cookie.rs. *)

From S2P Require Export NoiseHandshake.

#[local] Open Scope string_scope.

Definition COOKIE_MAC_LEN : nat := 16.
Definition COOKIE_REPLY_MARKER : byte := xc0.
Definition COOKIE_REPLY_LEN : nat := 1 + COOKIE_MAC_LEN.
Definition MSG1_WITH_COOKIE_LEN : nat := MESSAGE_1_LEN + COOKIE_MAC_LEN.
Definition COOKIE_DOMAIN : list byte := str_bytes "libp2p-cat-host cookie v1".

#[local] Close Scope string_scope.

(** [SocketAddr::port] and the canonical address of [to_canonical]. *)
Definition socket_port (a : SocketAddr) : u16 :=
  match a with SocketV4 s => v4_port s | SocketV6 s => v6_port s end.
Inductive IpAddr : Type :=
| IpV4 (ip : arr 4)
| IpV6 (ip : arr 16).
Definition to_canonical (ip : arr 16) : IpAddr :=
  match to_ipv4_mapped ip with Some v4 => IpV4 v4 | None => IpV6 ip end.
Definition canonical_ip (a : SocketAddr) : IpAddr :=
  match a with
  | SocketV4 s => IpV4 (v4_ip s)
  | SocketV6 s => to_canonical (v6_ip s)
  end.

(** The address bytes the MAC covers. *)
Definition addr_bytes (addr : UdpAddr) : list byte :=
  let tag_v4 := x04 in
  let tag_v6 := x06 in
  let sock := socket_of_udp addr in
  let port := socket_port sock in
  match canonical_ip sock with
  | IpV4 v4 => [tag_v4] ++ arr_list v4 ++ be_bytes 2 port
  | IpV6 v6 => [tag_v6] ++ arr_list v6 ++ be_bytes 2 port
  end.

Section cookie.
Context `{C : Crypto}.

Definition mint_input (from : UdpAddr) (e : list byte) : list byte :=
  COOKIE_DOMAIN ++ addr_bytes from ++ e.

Definition mint (secret : arr 32) (from : UdpAddr) (e : list byte) : arr COOKIE_MAC_LEN :=
  let input := mint_input from e in
  let full := blake3_keyed_hash secret input in
  arr_from_fn (fun i => arr_get full i).

Definition challenge (secret : arr 32) (from : UdpAddr) (e : list byte) : list byte :=
  [COOKIE_REPLY_MARKER] ++ arr_list (mint secret from e).

(** XOR-accumulate every byte, then compare the difference with zero. *)
Definition verify (secret : arr 32) (from : UdpAddr) (e mac : list byte) : bool :=
  match arr_try (n:=COOKIE_MAC_LEN) mac with
  | None => false
  | Some echoed =>
      let expected := mint secret from e in
      let diff := foldl (fun acc xy => byte_or acc (byte_xor xy.1 xy.2)) x00
        (zip (arr_list expected) (arr_list echoed)) in
      bool_decide (diff = x00)
  end.

End cookie.

Definition is_challenge (datagram : list byte) : bool :=
  (length datagram =? COOKIE_REPLY_LEN) && bool_decide (head datagram = Some COOKIE_REPLY_MARKER).

(** ** Lemmas *)

(** The accumulated difference is zero exactly when the bytes agree. *)
Lemma xor_fold_zero (a b : list byte) acc :
  length a = length b ->
  foldl (fun acc xy => byte_or acc (byte_xor xy.1 xy.2)) acc (zip a b) = x00 <->
  acc = x00 /\ a = b.
Proof.
  revert b acc. induction a as [|x a IH]; intros [|y b] acc Hlen; try done.
  - cbn. naive_solver.
  - cbn [zip zip_with foldl fst snd]. rewrite IH by (cbn in Hlen; lia).
    rewrite byte_or_zero_iff, byte_xor_zero_iff. naive_solver.
Qed.

Section lemmas.
Context `{C : Crypto}.

Lemma verify_iff secret from e mac :
  verify secret from e mac = true <-> mac = arr_list (mint secret from e).
Proof.
  unfold verify. destruct (arr_try mac) as [echoed|] eqn:E.
  - apply arr_try_Some in E. subst mac. rewrite bool_decide_eq_true, xor_fold_zero.
    + split; [intros [_ H]; done | intros H; split; [done|by symmetry]].
    + by rewrite !length_arr.
  - split; [done|]. intros ->. by rewrite arr_try_arr in E.
Qed.

Lemma length_challenge secret from e : length (challenge secret from e) = COOKIE_REPLY_LEN.
Proof. unfold challenge. by rewrite length_app, length_arr. Qed.

Lemma is_challenge_challenge secret from e : is_challenge (challenge secret from e) = true.
Proof. unfold is_challenge. by rewrite length_challenge. Qed.

End lemmas.

(** Two sources are the same to the cookie: equal canonical IP and port. *)
Definition same_source (a b : UdpAddr) : Prop :=
  canonical_ip (socket_of_udp a) = canonical_ip (socket_of_udp b) /\
  socket_port (socket_of_udp a) = socket_port (socket_of_udp b).

Lemma be_bytes_inj2 (p q : u16) : be_bytes 2 p = be_bytes 2 q -> p = q.
Proof.
  intros H. rewrite <- (from_be_bytes 2 p), <- (from_be_bytes 2 q) by done. by rewrite H.
Qed.

(** The encoding with anything appended determines source and suffix: the
    family tag fixes the length. *)
Lemma addr_bytes_app_inj a b e e' :
  addr_bytes a ++ e = addr_bytes b ++ e' <-> same_source a b /\ e = e'.
Proof.
  unfold addr_bytes, same_source. split.
  - destruct (canonical_ip (socket_of_udp a)) as [x|x],
      (canonical_ip (socket_of_udp b)) as [y|y]; try (intros H; discriminate H);
      rewrite <- !app_assoc; intros H; apply (f_equal tail) in H; cbn [tail app] in H;
      apply app_inj_1 in H as [Hx H]; try (by rewrite !length_arr);
      apply app_inj_1 in H as [Hp ->]; try (by rewrite !length_be_bytes);
      apply arr_eq in Hx as ->; apply be_bytes_inj2 in Hp as ->; done.
  - intros [[-> ->] ->]. done.
Qed.

(** ** Properties *)

Section properties.
Context `{C : Crypto}.

(** A cookie is accepted exactly when it is the MAC this host would mint for
    the same source and ephemeral key: the challenge a host sends verifies
    when echoed, its reply is recognised as a challenge and is shorter than
    the message that elicited it, and the MAC input separates any two
    sources that differ in canonical address or port and any two keys,
    while scope and flow labels and the IPv4-mapped form do not matter. *)
Theorem cookie_verify_iff_minted (secret : arr 32) (from from' : UdpAddr) (e e' mac : list byte) :
  (verify secret from e mac = true <-> challenge secret from e = COOKIE_REPLY_MARKER :: mac) /\
  is_challenge (challenge secret from e) = true /\
  length (challenge secret from e) < MESSAGE_1_LEN /\
  (mint_input from e = mint_input from' e' <-> same_source from from' /\ e = e').
Proof.
  split_and!.
  - rewrite verify_iff. unfold challenge. cbn. naive_solver.
  - apply is_challenge_challenge.
  - rewrite length_challenge. unfold COOKIE_REPLY_LEN, COOKIE_MAC_LEN, MESSAGE_1_LEN, EPH_PUBLIC_LEN, KEY_LEN. lia.
  - unfold mint_input. rewrite <- addr_bytes_app_inj. split; [|by intros ->].
    apply app_inv_head.
Qed.

End properties.
