(* ===== verification/HostState.v ===== *)
(** * The host's tables: entries, capacity, least-recently-used eviction

    Models src/crates/libp2p-cat-host/src/{state,event,capacity}.rs and the
    table operations at the end of host.rs. *)

From S2P Require Export Identity Cookie Udp.

(** ** [capacity.rs] *)

Record Capacity : Type := MkCapacity {
  max_handshakes_in_flight : nat;
  max_established : nat
}.

Definition DEFAULT_MAX_HANDSHAKES_IN_FLIGHT : nat := 256.
Definition DEFAULT_MAX_ESTABLISHED : nat := 1024.

(** [Capacity::new] and [Capacity::default]. *)
Definition capacity_new (max_handshakes max_est : nat) : option Capacity :=
  match max_handshakes, max_est with
  | 0, _ | _, 0 => None
  | h, e => Some (MkCapacity h e)
  end.
Definition capacity_default : Capacity :=
  MkCapacity DEFAULT_MAX_HANDSHAKES_IN_FLIGHT DEFAULT_MAX_ESTABLISHED.

(** ** [state.rs] *)

Inductive HandshakeState : Type :=
| InitiatorAwaitingResponse (after_e : InitiatorAfterE) (msg1 : list byte)
| ResponderAwaitingFinalize (after_resp : ResponderAfterResponse).

Record InFlightHandshake : Type := MkInFlight {
  ifh_state : HandshakeState;
  ifh_last_activity : u64
}.

Record EstablishedConnection : Type := MkEstablished {
  conn_transport : TransportState;
  conn_remote_static : StaticPublicKey;
  conn_remote_peer_id : PeerId;
  conn_last_activity : u64
}.

(** ** [event.rs] *)

Inductive HostEvent : Type :=
| HandshakeProgress (addr : UdpAddr)
| HandshakeComplete (addr : UdpAddr) (remote_static : StaticPublicKey) (remote_peer_id : PeerId)
| DatagramDelivered (addr : UdpAddr) (plaintext : list byte)
| Rejected (addr : UdpAddr) (reason : string).

(** ** Tables bounded by a capacity

    The source writes each of these operations twice, for handshakes and for
    connections, with the same body; here the body is written once, over the
    entry's activity tick. *)

Section lru.
Context {V : Type} (activity : V -> u64).
Implicit Types (map : gmap UdpAddr V) (addr : UdpAddr).

Definition lru_addr map : option UdpAddr :=
  fst <$> min_by_key (fun kv => uval (activity kv.2)) (bt_iter map).

Definition insert_with_lru map addr (entry : V) (cap : nat) : gmap UdpAddr V :=
  let map :=
    if negb (contains_key map addr) && (cap <=? size map) then
      match lru_addr map with
      | Some victim => delete victim map
      | None => map
      end
    else map in
  <[addr := entry]> map.

(** *** Lemmas *)

(** What one insertion does: either the table had room or the key, and
    nothing else changes, or exactly a least recently used entry goes. *)
Lemma insert_with_lru_cases map addr entry cap :
  (insert_with_lru map addr entry cap = <[addr := entry]> map /\
   (is_Some (map !! addr) \/ size map < cap \/ map = ∅)) \/
  (exists victim v, map !! addr = None /\ map !! victim = Some v /\ cap <= size map /\
     (forall k v', map !! k = Some v' -> (uval (activity v) <= uval (activity v'))%N) /\
     insert_with_lru map addr entry cap = <[addr := entry]> (delete victim map)).
Proof.
  unfold insert_with_lru, contains_key. destruct (map !! addr) as [v0|] eqn:Ha.
  - left. split; [done|]. left. by exists v0.
  - cbn [negb andb]. destruct (Nat.leb_spec cap (size map)) as [Hcap|Hcap].
    + unfold lru_addr. destruct (min_by_key _ (bt_iter map)) as [[victim v]|] eqn:Em; cbn.
      * right. apply min_by_key_Some in Em as [Hin Hmin].
        apply elem_of_bt_iter in Hin. exists victim, v. split_and!; try done.
        intros k v' Hk. apply elem_of_bt_iter in Hk. apply (Hmin _ Hk).
      * left. split; [done|]. apply min_by_key_None in Em.
        right; right. apply map_size_empty_iff. by rewrite <- length_bt_iter, Em.
    + left. split; [done|]. by right; left.
Qed.

Lemma insert_with_lru_lookup map addr entry cap :
  insert_with_lru map addr entry cap !! addr = Some entry.
Proof.
  destruct (insert_with_lru_cases map addr entry cap) as [[-> _]|(? & ? & _ & _ & _ & _ & ->)];
    apply lookup_insert_eq.
Qed.

(** Other entries are never changed, only evicted. *)
Lemma insert_with_lru_inv map addr entry cap k v :
  insert_with_lru map addr entry cap !! k = Some v ->
  (k = addr /\ v = entry) \/ (k <> addr /\ map !! k = Some v).
Proof.
  destruct (insert_with_lru_cases map addr entry cap)
    as [[-> _]|(victim & v0 & _ & _ & _ & _ & ->)];
    intros [[-> ->]|[Hne Hk]]%lookup_insert_Some; auto.
  apply lookup_delete_Some in Hk as [_ Hk]. auto.
Qed.

Lemma insert_with_lru_size map addr entry cap :
  0 < cap -> size map <= cap -> size (insert_with_lru map addr entry cap) <= cap.
Proof.
  intros Hcap Hsz.
  destruct (insert_with_lru_cases map addr entry cap)
    as [[-> [[v0 Ha]|[Hlt| ->]]]|(victim & v0 & Ha & Hv & _ & _ & ->)].
  - by rewrite map_size_insert_Some by done.
  - destruct (map !! addr) eqn:Ha; [by rewrite map_size_insert_Some by done|].
    rewrite map_size_insert_None by done. lia.
  - rewrite map_size_insert_None by apply lookup_empty. rewrite map_size_empty. lia.
  - assert (Hne : victim <> addr) by congruence.
    rewrite map_size_insert_None by (by rewrite lookup_delete_ne).
    rewrite map_size_delete_Some by by exists v0.
    assert (size map <> 0); [|lia].
    intros H0%map_size_empty_inv. subst map. by rewrite lookup_empty in Hv.
Qed.

(** An entry just removed goes back in without evicting another. *)
Lemma insert_with_lru_back map addr v entry cap :
  map !! addr = Some v -> size map <= cap ->
  insert_with_lru (delete addr map) addr entry cap = <[addr := entry]> map.
Proof.
  intros Ha Hsz.
  assert (Hpos : size map <> 0).
  { intros H0%map_size_empty_inv. subst map. by rewrite lookup_empty in Ha. }
  destruct (insert_with_lru_cases (delete addr map) addr entry cap)
    as [[-> _]|(victim & v0 & _ & _ & Hcap & _)].
  - by rewrite insert_delete_eq.
  - rewrite map_size_delete_Some in Hcap by by exists v. lia.
Qed.

End lru.

Definition insert_handshake_with_lru := insert_with_lru ifh_last_activity.
Definition insert_established_with_lru := insert_with_lru conn_last_activity.
Definition lru_handshake_addr := lru_addr ifh_last_activity.
Definition lru_established_addr := lru_addr conn_last_activity.
Definition sweep_idle_handshakes := sweep_idle ifh_last_activity.
Definition sweep_idle_established := sweep_idle conn_last_activity.

(** ** Properties *)

(** Inserting into a table within its (non-zero) cap stores the entry, stays
    within the cap and changes no other entry's value; an entry disappears
    only when the table was full and the address new, and then it is the
    only one and no entry was less recently active. *)
Theorem lru_insert_evicts_least {V} (activity : V -> u64) (map : gmap UdpAddr V) addr entry cap :
  0 < cap -> size map <= cap ->
  let map' := insert_with_lru activity map addr entry cap in
  map' !! addr = Some entry /\ size map' <= cap /\
  (forall k v, k <> addr -> map' !! k = Some v -> map !! k = Some v) /\
  (forall k v, k <> addr -> map !! k = Some v -> map' !! k = None ->
     map !! addr = None /\ size map = cap /\
     (forall k' v', map !! k' = Some v' -> (uval (activity v) <= uval (activity v'))%N) /\
     (forall k', k' <> k -> k' <> addr -> map' !! k' = map !! k')).
Proof.
  intros Hcap Hsz map'. split_and!.
  - apply insert_with_lru_lookup.
  - by apply insert_with_lru_size.
  - intros k v Hne [[? _]|[_ Hk]]%insert_with_lru_inv; done.
  - intros k v Hne Hk Hgone. unfold map' in *.
    destruct (insert_with_lru_cases activity map addr entry cap)
      as [[E _]|(victim & v0 & Ha & Hv & Hfull & Hmin & E)]; rewrite E in *.
    + by rewrite lookup_insert_ne, Hk in Hgone.
    + assert (victim = k) as ->.
      { destruct (decide (victim = k)); [done|].
        by rewrite lookup_insert_ne, lookup_delete_ne, Hk in Hgone. }
      simplify_eq. split_and!; [done|lia|done|]. intros k' Hk' Hk''.
      by rewrite lookup_insert_ne, lookup_delete_ne.
Qed.

Lemma lru_insert_evicts_least_witness :
  let map : gmap UdpAddr u64 := {[ loopback 1 := u64_zero ]} in
  let map' := insert_with_lru (fun t => t) map (loopback 2) u64_zero 1 in
  map' !! loopback 2 = Some u64_zero /\ size map' <= 1 /\
  (forall k v, k <> loopback 2 -> map' !! k = Some v -> map !! k = Some v) /\
  (forall k v, k <> loopback 2 -> map !! k = Some v -> map' !! k = None ->
     map !! loopback 2 = None /\ size map = 1 /\
     (forall k' v', map !! k' = Some v' -> (uval v <= uval v')%N) /\
     (forall k', k' <> k -> k' <> loopback 2 -> map' !! k' = map !! k')).
Proof.
  intros map. apply (lru_insert_evicts_least (fun t => t) map (loopback 2) u64_zero 1); [lia|].
  unfold map. by rewrite map_size_singleton.
Defined.
