(* ===== verification/Host.v ===== *)
(** * The connection-managing host

    Models src/crates/libp2p-cat-host/src/host.rs: every operation of [Host]
    and the dispatch of one received datagram.  The source passes the host's
    six fields between its functions as separate arguments; so does the
    model. *)

From S2P Require Export HostState Udp.

#[local] Open Scope string_scope.

Record HostIdentity : Type := MkHostIdentity {
  id_static_keypair : StaticKeypair;
  id_signed_static_key : SignedStaticKey;
  id_peer_id : PeerId;
  id_cookie_secret : arr 32
}.

Abbreviation Handshakes := (gmap UdpAddr InFlightHandshake).
Abbreviation Established := (gmap UdpAddr EstablishedConnection).

Record Host : Type := MkHost {
  host_socket : UdpTransport;
  host_identity : HostIdentity;
  host_handshakes : Handshakes;
  host_established : Established;
  host_capacity : Capacity;
  host_tick : u64
}.

Section host.
Context `{C : Crypto, RT : IoRuntime}.

(** [Host::with_capacity] and [Host::new]. *)
Definition with_capacity (sock : UdpTransport) (static_keypair : StaticKeypair)
    (identity : Ed25519Keypair) (cookie_secret : arr 32) (capacity : Capacity)
    : result Error Host :=
  signed_static_key ← signed_create identity (keypair_public static_keypair);
  let peer_id := keypair_peer_id identity in
  Ok (MkHost sock (MkHostIdentity static_keypair signed_static_key peer_id cookie_secret)
        ∅ ∅ capacity u64_zero).

Definition host_new (sock : UdpTransport) (static_keypair : StaticKeypair)
    (identity : Ed25519Keypair) (cookie_secret : arr 32) : result Error Host :=
  with_capacity sock static_keypair identity cookie_secret capacity_default.

(** ** Accessors *)

Definition host_local_addr (h : Host) : result Error UdpAddr := udp_local_addr (host_socket h).
Definition handshakes_in_flight (h : Host) : nat := size (host_handshakes h).
Definition established_connections (h : Host) : nat := size (host_established h).
Definition is_established (h : Host) (addr : UdpAddr) : bool :=
  contains_key (host_established h) addr.
Definition remote_static_of (h : Host) (addr : UdpAddr) : option StaticPublicKey :=
  conn_remote_static <$> host_established h !! addr.
Definition remote_peer_id_of (h : Host) (addr : UdpAddr) : option PeerId :=
  conn_remote_peer_id <$> host_established h !! addr.
Definition established_addrs (h : Host) : list UdpAddr := bt_keys (host_established h).

(** ** Dialling and sending *)

(** The host's fields travel with the new handshake state; [dp_host] holds
    all six of them. *)
Record DialPrepared : Type := MkDialPrepared {
  dp_host : Host;
  dp_after_e : InitiatorAfterE;
  dp_msg1 : list byte
}.

Definition prepare_dial (host : Host) (addr : UdpAddr) (ephemeral_seed : arr 32)
    : result Error DialPrepared :=
  if contains_key (host_handshakes host) addr || contains_key (host_established host) addr then
    Err (HostState ("dial: address " ++ udp_addr_display addr ++ " already known to host"))
  else
    let initiator := initiator_new (id_static_keypair (host_identity host)) in
    '(after_e, msg1) ← write_e initiator ephemeral_seed;
    Ok (MkDialPrepared host after_e msg1).

Definition dial (h : Host) (addr : UdpAddr) (ephemeral_seed : arr 32) : Io Error Host :=
  prepared ← io_result (prepare_dial h addr ephemeral_seed);
  let '(MkDialPrepared (MkHost sock identity handshakes established capacity tick)
          after_e msg1) := prepared in
  let msg1_retained := msg1 in
  (fun sock =>
     let next_tick := wrapping_add tick 1 in
     let entry := MkInFlight (InitiatorAwaitingResponse after_e msg1_retained) next_tick in
     let handshakes :=
       insert_handshake_with_lru handshakes addr entry (max_handshakes_in_flight capacity) in
     MkHost sock identity handshakes established capacity next_tick)
  <$> udp_send sock addr msg1.

(** [sp_host] is the host with the connection taken out of its table. *)
Record SendPrepared : Type := MkSendPrepared {
  sp_host : Host;
  sp_conn : EstablishedConnection;
  sp_datagram : list byte
}.

Definition prepare_send (host : Host) (addr : UdpAddr) (plaintext : list byte)
    : result Error SendPrepared :=
  let '(MkHost sock identity handshakes established capacity tick) := host in
  conn ← ok_or_else (established !! addr)
    (HostState ("send: no established connection for " ++ udp_addr_display addr));
  let established := delete addr established in
  '(transport, datagram) ← transport_encrypt (conn_transport conn) plaintext;
  let next_conn := MkEstablished transport (conn_remote_static conn)
                     (conn_remote_peer_id conn) (conn_last_activity conn) in
  Ok (MkSendPrepared (MkHost sock identity handshakes established capacity tick)
        next_conn datagram).

Definition host_send (h : Host) (addr : UdpAddr) (plaintext : list byte) : Io Error Host :=
  prepared ← io_result (prepare_send h addr plaintext);
  let '(MkSendPrepared (MkHost sock identity handshakes established capacity tick)
          conn datagram) := prepared in
  let next_tick := wrapping_add tick 1 in
  let next_conn := MkEstablished (conn_transport conn) (conn_remote_static conn)
                     (conn_remote_peer_id conn) next_tick in
  let established := <[addr := next_conn]> established in
  (fun sock => MkHost sock identity handshakes established capacity next_tick)
  <$> udp_send sock addr datagram.

Definition send_raw (h : Host) (addr : UdpAddr) (bytes : list byte) : Io Error Host :=
  let '(MkHost sock identity handshakes established capacity tick) := h in
  (fun sock => MkHost sock identity handshakes established capacity (wrapping_add tick 1))
  <$> udp_send sock addr bytes.

(** ** Receiving *)

Definition rebuild_host (sock : UdpTransport) (identity : HostIdentity)
    (handshakes : Handshakes) (established : Established) (capacity : Capacity) (tick : u64)
    : Host :=
  MkHost sock identity handshakes established capacity tick.

(** Parse a handshake trailer and check it binds the authenticated key. *)
Definition verify_binding (payload : list byte) (remote_static : StaticPublicKey)
    : result Error PeerId :=
  signed ← signed_from_bytes payload;
  '(_, peer_id) ← signed_verify signed remote_static;
  Ok peer_id.

Definition decrypt_established (sock : UdpTransport) (identity : HostIdentity)
    (handshakes : Handshakes) (established : Established) (capacity : Capacity) (tick : u64)
    (from : UdpAddr) (datagram : list byte) : Io Error (Host * HostEvent) :=
  let conn := ok_or_else (established !! from)
    (HostState "established entry vanished mid-dispatch") in
  let established := delete from established in
  (fun conn =>
     let '(MkEstablished transport remote_static remote_peer_id last_activity) := conn in
     let '(transport, outcome) := transport_decrypt transport datagram in
     let next_tick := wrapping_add tick 1 in
     let '(entry_activity, host_tick, event) :=
       match outcome with
       | Err e =>
           (last_activity, tick,
            Rejected from ("transport decrypt failed: " ++ error_display e ++
                           "; datagram dropped, connection kept"))
       | Ok plaintext => (next_tick, next_tick, DatagramDelivered from plaintext)
       end in
     let established :=
       <[from := MkEstablished transport remote_static remote_peer_id entry_activity]>
         established in
     (rebuild_host sock identity handshakes established capacity host_tick, event))
  <$> io_result conn.

Definition answer_cookie_challenge (sock : UdpTransport) (identity : HostIdentity)
    (handshakes : Handshakes) (established : Established) (capacity : Capacity) (tick : u64)
    (from : UdpAddr) (after_e : InitiatorAfterE) (msg1 : list byte) (last_activity : u64)
    (datagram : list byte) : Io Error (Host * HostEvent) :=
  let mac := default [] (get_from 1 datagram) in
  let msg1_with_cookie := (msg1 ++ mac)%list in
  (fun sock =>
     let entry := MkInFlight (InitiatorAwaitingResponse after_e msg1) last_activity in
     let handshakes :=
       insert_handshake_with_lru handshakes from entry (max_handshakes_in_flight capacity) in
     (rebuild_host sock identity handshakes established capacity tick, HandshakeProgress from))
  <$> udp_send sock from msg1_with_cookie.

Definition initiator_consume_msg2 (sock : UdpTransport) (identity : HostIdentity)
    (handshakes : Handshakes) (established : Established) (capacity : Capacity) (tick : u64)
    (from : UdpAddr) (after_e : InitiatorAfterE) (msg1 : list byte) (last_activity : u64)
    (datagram : list byte) : Io Error (Host * HostEvent) :=
  let retained := after_e in
  let outcome :=
    '(after_resp, msg2_payload) ← read_response after_e datagram;
    remote_peer_id ← verify_binding msg2_payload (iar_remote_static after_resp);
    '(transport, msg3, remote_static) ←
      write_s after_resp (arr_list (signed_to_bytes (id_signed_static_key identity)));
    Ok (transport, msg3, remote_static, remote_peer_id) in
  let next_tick := wrapping_add tick 1 in
  match outcome with
  | Ok (transport, msg3, remote_static, remote_peer_id) =>
      (fun sock =>
         let conn := MkEstablished transport remote_static remote_peer_id next_tick in
         let established :=
           insert_established_with_lru established from conn (max_established capacity) in
         (rebuild_host sock identity handshakes established capacity next_tick,
          HandshakeComplete from remote_static remote_peer_id))
      <$> udp_send sock from msg3
  | Err e =>
      let entry := MkInFlight (InitiatorAwaitingResponse retained msg1) last_activity in
      let handshakes :=
        insert_handshake_with_lru handshakes from entry (max_handshakes_in_flight capacity) in
      io_pure
        (rebuild_host sock identity handshakes established capacity next_tick,
         Rejected from ("initiator: failed to advance on msg2: " ++ error_display e ++
                        "; handshake kept"))
  end.

Definition responder_consume_msg3 (sock : UdpTransport) (identity : HostIdentity)
    (handshakes : Handshakes) (established : Established) (capacity : Capacity) (tick : u64)
    (from : UdpAddr) (after_resp : ResponderAfterResponse) (last_activity : u64)
    (datagram : list byte) : Io Error (Host * HostEvent) :=
  let retained := after_resp in
  let outcome :=
    '(transport, remote_static, msg3_payload) ← read_s after_resp datagram;
    remote_peer_id ← verify_binding msg3_payload remote_static;
    Ok (transport, remote_static, remote_peer_id) in
  let next_tick := wrapping_add tick 1 in
  match outcome with
  | Ok (transport, remote_static, remote_peer_id) =>
      let conn := MkEstablished transport remote_static remote_peer_id next_tick in
      let established :=
        insert_established_with_lru established from conn (max_established capacity) in
      io_pure
        (rebuild_host sock identity handshakes established capacity next_tick,
         HandshakeComplete from remote_static remote_peer_id)
  | Err e =>
      let entry := MkInFlight (ResponderAwaitingFinalize retained) last_activity in
      let handshakes :=
        insert_handshake_with_lru handshakes from entry (max_handshakes_in_flight capacity) in
      io_pure
        (rebuild_host sock identity handshakes established capacity next_tick,
         Rejected from ("responder: failed to finalize on msg3: " ++ error_display e ++
                        "; handshake kept"))
  end.

Definition advance_in_flight (sock : UdpTransport) (identity : HostIdentity)
    (handshakes : Handshakes) (established : Established) (capacity : Capacity) (tick : u64)
    (from : UdpAddr) (datagram : list byte) : Io Error (Host * HostEvent) :=
  let removed := ok_or_else (handshakes !! from)
    (HostState "in-flight entry vanished mid-dispatch") in
  let handshakes := delete from handshakes in
  entry ← io_result removed;
  let '(MkInFlight state last_activity) := entry in
  match state with
  | InitiatorAwaitingResponse after_e msg1 =>
      if is_challenge datagram then
        answer_cookie_challenge sock identity handshakes established capacity tick
          from after_e msg1 last_activity datagram
      else
        initiator_consume_msg2 sock identity handshakes established capacity tick
          from after_e msg1 last_activity datagram
  | ResponderAwaitingFinalize after_resp =>
      responder_consume_msg3 sock identity handshakes established capacity tick
        from after_resp last_activity datagram
  end.

Definition respond_to_validated_msg1 (sock : UdpTransport) (identity : HostIdentity)
    (handshakes : Handshakes) (established : Established) (capacity : Capacity) (tick : u64)
    (from : UdpAddr) (e_bytes : list byte) (ephemeral_seed : arr 32)
    : Io Error (Host * HostEvent) :=
  let next_tick := wrapping_add tick 1 in
  let responder := responder_new (id_static_keypair identity) in
  let trailer := arr_list (signed_to_bytes (id_signed_static_key identity)) in
  match
    after_e ← read_e responder e_bytes;
    write_response after_e ephemeral_seed trailer
  with
  | Ok (after_resp, msg2) =>
      (fun sock =>
         let entry := MkInFlight (ResponderAwaitingFinalize after_resp) next_tick in
         let handshakes :=
           insert_handshake_with_lru handshakes from entry (max_handshakes_in_flight capacity) in
         (rebuild_host sock identity handshakes established capacity next_tick,
          HandshakeProgress from))
      <$> udp_send sock from msg2
  | Err e =>
      io_pure
        (rebuild_host sock identity handshakes established capacity next_tick,
         Rejected from ("responder: failed to start handshake: " ++ error_display e))
  end.

Definition try_responder_msg1 (sock : UdpTransport) (identity : HostIdentity)
    (handshakes : Handshakes) (established : Established) (capacity : Capacity) (tick : u64)
    (from : UdpAddr) (datagram : list byte) (ephemeral_seed : arr 32)
    : Io Error (Host * HostEvent) :=
  let next_tick := wrapping_add tick 1 in
  if (length datagram =? MESSAGE_1_LEN)%nat then
    let reply := challenge (id_cookie_secret identity) from datagram in
    (fun sock =>
       (rebuild_host sock identity handshakes established capacity next_tick,
        HandshakeProgress from))
    <$> udp_send sock from reply
  else if (length datagram =? MSG1_WITH_COOKIE_LEN)%nat then
    let e_bytes := default [] (get_to MESSAGE_1_LEN datagram) in
    let mac := default [] (get_from MESSAGE_1_LEN datagram) in
    if verify (id_cookie_secret identity) from e_bytes mac then
      respond_to_validated_msg1 sock identity handshakes established capacity tick
        from e_bytes ephemeral_seed
    else
      io_pure
        (rebuild_host sock identity handshakes established capacity next_tick,
         Rejected from "msg1 cookie failed verification")
  else
    io_pure
      (rebuild_host sock identity handshakes established capacity next_tick,
       Rejected from ("datagram from new peer is neither a " ++ decn MESSAGE_1_LEN ++
         "-byte bare msg1 nor a " ++ decn MSG1_WITH_COOKIE_LEN ++
         "-byte msg1-with-cookie: " ++ decn (length datagram) ++ " bytes")).

Definition dispatch_inbound (sock : UdpTransport) (identity : HostIdentity)
    (handshakes : Handshakes) (established : Established) (capacity : Capacity) (tick : u64)
    (from : UdpAddr) (datagram : list byte) (ephemeral_seed : arr 32)
    : Io Error (Host * HostEvent) :=
  if contains_key established from then
    decrypt_established sock identity handshakes established capacity tick from datagram
  else if contains_key handshakes from then
    advance_in_flight sock identity handshakes established capacity tick from datagram
  else
    try_responder_msg1 sock identity handshakes established capacity tick
      from datagram ephemeral_seed.

Definition recv_one (h : Host) (ephemeral_seed : arr 32) : Io Error (Host * HostEvent) :=
  let '(MkHost sock identity handshakes established capacity tick) := h in
  '((from, datagram), sock) ← udp_recv sock;
  dispatch_inbound sock identity handshakes established capacity tick
    from datagram ephemeral_seed.

(** ** Eviction *)

Definition evict (h : Host) (addr : UdpAddr) : Host :=
  let '(MkHost sock identity handshakes established capacity tick) := h in
  MkHost sock identity (delete addr handshakes) (delete addr established) capacity tick.

Definition evict_idle (h : Host) (max_idle_ticks : u64) : Host * list UdpAddr :=
  let '(MkHost sock identity handshakes established capacity tick) := h in
  let cutoff := saturating_sub tick max_idle_ticks in
  let '(handshakes, evicted_h) := sweep_idle_handshakes handshakes cutoff in
  let '(established, evicted_e) := sweep_idle_established established cutoff in
  let evicted := (evicted_h ++ evicted_e)%list in
  (MkHost sock identity handshakes established capacity tick, evicted).

End host.

#[local] Close Scope string_scope.
