(* ===== verification/HostSpec.v ===== *)
(** * The host as a state machine

    [recv_step] says, case by case, what one received datagram may do to a
    host: the next state, the event and the datagram sent in reply.
    [recv_one_sound] and [recv_one_complete] tie it to [Host.recv_one]; the
    host's invariants are then proved by cases on the relation. *)

From S2P Require Export Host.

Section spec.
Context `{C : Crypto}.

(** The host with new tables and tick. *)
Definition host_with (h : Host) (hs : Handshakes) (es : Established) (tick : u64) : Host :=
  MkHost (host_socket h) (host_identity h) hs es (host_capacity h) tick.

Definition next_tick (h : Host) : u64 := wrapping_add (host_tick h) 1.

Definition trailer_of (h : Host) : list byte :=
  arr_list (signed_to_bytes (id_signed_static_key (host_identity h))).

Definition put_handshake (h : Host) from entry : Handshakes :=
  insert_handshake_with_lru (delete from (host_handshakes h)) from entry
    (max_handshakes_in_flight (host_capacity h)).

Definition put_established (h : Host) from conn : Established :=
  insert_established_with_lru (host_established h) from conn (max_established (host_capacity h)).

(** The three handshake transitions the host attempts. *)
Definition msg2_outcome (h : Host) (after_e : InitiatorAfterE) (d : list byte)
    : result Error (TransportState * list byte * StaticPublicKey * PeerId) :=
  '(after_resp, msg2_payload) ← read_response after_e d;
  remote_peer_id ← verify_binding msg2_payload (iar_remote_static after_resp);
  '(transport, msg3, remote_static) ← write_s after_resp (trailer_of h);
  Ok (transport, msg3, remote_static, remote_peer_id).

Definition msg3_outcome (after_resp : ResponderAfterResponse) (d : list byte)
    : result Error (TransportState * StaticPublicKey * PeerId) :=
  '(transport, remote_static, msg3_payload) ← read_s after_resp d;
  remote_peer_id ← verify_binding msg3_payload remote_static;
  Ok (transport, remote_static, remote_peer_id).

Definition msg1_outcome (h : Host) (e : list byte) (seed : arr 32)
    : result Error (ResponderAfterResponse * list byte) :=
  after_e ← read_e (responder_new (id_static_keypair (host_identity h))) e;
  write_response after_e seed (trailer_of h).

(** A message 1 followed by the cookie minted for its source. *)
Definition validated_msg1 (h : Host) from (d e : list byte) : Prop :=
  length e = MESSAGE_1_LEN /\
  d = e ++ arr_list (mint (id_cookie_secret (host_identity h)) from e).

Inductive recv_step (h : Host) (from : UdpAddr) (d : list byte) (seed : arr 32) :
    Host -> HostEvent -> option (list byte) -> Prop :=
| step_delivered conn t' p :
    host_established h !! from = Some conn ->
    transport_decrypt (conn_transport conn) d = (t', Ok p) ->
    recv_step h from d seed
      (host_with h (host_handshakes h)
         (<[from := MkEstablished t' (conn_remote_static conn) (conn_remote_peer_id conn)
                      (next_tick h)]> (host_established h)) (next_tick h))
      (DatagramDelivered from p) None
| step_undecryptable conn t' e :
    host_established h !! from = Some conn ->
    transport_decrypt (conn_transport conn) d = (t', Err e) ->
    recv_step h from d seed h
      (Rejected from ("transport decrypt failed: " ++ error_display e ++
                      "; datagram dropped, connection kept")%string) None
| step_challenged after_e msg1 la :
    host_established h !! from = None ->
    host_handshakes h !! from = Some (MkInFlight (InitiatorAwaitingResponse after_e msg1) la) ->
    is_challenge d = true ->
    recv_step h from d seed
      (host_with h (put_handshake h from (MkInFlight (InitiatorAwaitingResponse after_e msg1) la))
         (host_established h) (host_tick h))
      (HandshakeProgress from) (Some (msg1 ++ drop 1 d))
| step_msg2 after_e msg1 la t msg3 rs pid :
    host_established h !! from = None ->
    host_handshakes h !! from = Some (MkInFlight (InitiatorAwaitingResponse after_e msg1) la) ->
    is_challenge d = false ->
    msg2_outcome h after_e d = Ok (t, msg3, rs, pid) ->
    recv_step h from d seed
      (host_with h (delete from (host_handshakes h))
         (put_established h from (MkEstablished t rs pid (next_tick h))) (next_tick h))
      (HandshakeComplete from rs pid) (Some msg3)
| step_msg2_failed after_e msg1 la e :
    host_established h !! from = None ->
    host_handshakes h !! from = Some (MkInFlight (InitiatorAwaitingResponse after_e msg1) la) ->
    is_challenge d = false ->
    msg2_outcome h after_e d = Err e ->
    recv_step h from d seed
      (host_with h (put_handshake h from (MkInFlight (InitiatorAwaitingResponse after_e msg1) la))
         (host_established h) (next_tick h))
      (Rejected from ("initiator: failed to advance on msg2: " ++ error_display e ++
                      "; handshake kept")%string) None
| step_msg3 after_resp la t rs pid :
    host_established h !! from = None ->
    host_handshakes h !! from = Some (MkInFlight (ResponderAwaitingFinalize after_resp) la) ->
    msg3_outcome after_resp d = Ok (t, rs, pid) ->
    recv_step h from d seed
      (host_with h (delete from (host_handshakes h))
         (put_established h from (MkEstablished t rs pid (next_tick h))) (next_tick h))
      (HandshakeComplete from rs pid) None
| step_msg3_failed after_resp la e :
    host_established h !! from = None ->
    host_handshakes h !! from = Some (MkInFlight (ResponderAwaitingFinalize after_resp) la) ->
    msg3_outcome after_resp d = Err e ->
    recv_step h from d seed
      (host_with h (put_handshake h from (MkInFlight (ResponderAwaitingFinalize after_resp) la))
         (host_established h) (next_tick h))
      (Rejected from ("responder: failed to finalize on msg3: " ++ error_display e ++
                      "; handshake kept")%string) None
| step_bare_msg1 :
    host_established h !! from = None -> host_handshakes h !! from = None ->
    length d = MESSAGE_1_LEN ->
    recv_step h from d seed
      (host_with h (host_handshakes h) (host_established h) (next_tick h))
      (HandshakeProgress from)
      (Some (challenge (id_cookie_secret (host_identity h)) from d))
| step_validated_msg1 e after_resp msg2 :
    host_established h !! from = None -> host_handshakes h !! from = None ->
    validated_msg1 h from d e ->
    msg1_outcome h e seed = Ok (after_resp, msg2) ->
    recv_step h from d seed
      (host_with h
         (insert_handshake_with_lru (host_handshakes h) from
            (MkInFlight (ResponderAwaitingFinalize after_resp) (next_tick h))
            (max_handshakes_in_flight (host_capacity h)))
         (host_established h) (next_tick h))
      (HandshakeProgress from) (Some msg2)
| step_unstarted e er :
    host_established h !! from = None -> host_handshakes h !! from = None ->
    validated_msg1 h from d e ->
    msg1_outcome h e seed = Err er ->
    recv_step h from d seed
      (host_with h (host_handshakes h) (host_established h) (next_tick h))
      (Rejected from ("responder: failed to start handshake: " ++ error_display er)%string) None
| step_unknown reason :
    host_established h !! from = None -> host_handshakes h !! from = None ->
    length d <> MESSAGE_1_LEN -> (forall e, ~ validated_msg1 h from d e) ->
    recv_step h from d seed
      (host_with h (host_handshakes h) (host_established h) (next_tick h))
      (Rejected from reason) None.

(** Delivering a datagram replies nothing and keeps the set of peers. *)
Lemma recv_step_delivered h from d seed h' a p reply :
  recv_step h from d seed h' (DatagramDelivered a p) reply ->
  a = from /\ reply = None /\ established_addrs h' = established_addrs h.
Proof.
  inversion 1 as [conn t' p' He Hd| | | | | | | | | |]; subst. split_and!; [done..|].
  apply bt_keys_eq. intros k. cbn. destruct (decide (a = k)) as [<-|Hne].
  - rewrite lookup_insert_eq, He. by split.
  - by rewrite lookup_insert_ne.
Qed.

(** An event speaks of the address the datagram came from. *)
Definition event_addr (ev : HostEvent) : UdpAddr :=
  match ev with
  | HandshakeProgress a | HandshakeComplete a _ _ | DatagramDelivered a _ | Rejected a _ => a
  end.

Lemma recv_step_addr h from d seed h' ev reply :
  recv_step h from d seed h' ev reply -> event_addr ev = from.
Proof. by destruct 1. Qed.

(** The world after the step's reply, if it has one. *)
Definition world_reply (w : World) (to : UdpAddr) (reply : option (list byte)) : World :=
  match reply with None => w | Some d => world_sent w to d end.

(** How a run that ends by sending the step's reply can end. *)
Definition after_reply {A} (sock : UdpTransport) (to : UdpAddr) (reply : option (list byte))
    (a : A) (w : World) : outcome Error A * World :=
  match reply with
  | None => (Returned (Ok a), w)
  | Some d =>
      if (max_send_payload sock <? N.of_nat (length d))%N
      then (Returned (Err (DatagramTooLarge (N.of_nat (length d)) (max_send_payload sock))), w)
      else match send_fault w with
           | Some e => (Returned (Err (ErrorIo e)), world_send_failed w)
           | None => (Returned (Ok a), world_sent w to d)
           end
  end.

Lemma after_reply_Ok {A} sock to reply (a b : A) w w' :
  after_reply sock to reply a w = (Returned (Ok b), w') ->
  b = a /\ w' = world_reply w to reply.
Proof.
  unfold after_reply. destruct reply as [d|]; [|by intros [= <- <-]].
  destruct (_ <? _)%N; [done|]. destruct (send_fault w); [done|]. by intros [= <- <-].
Qed.

End spec.

#[global] Arguments next_tick : simpl never.

Section tie.
Context `{C : Crypto, RT : IoRuntime, !IoLaws RT}.

Lemma run_send_map {A} (f : UdpTransport -> A) sock to d w :
  io_run (f <$> udp_send sock to d) w = after_reply sock to (Some d) (f sock) w.
Proof.
  rewrite run_fmap_eq, run_udp_send. unfold after_reply. destruct (_ <? _)%N; [done|].
  by destruct (send_fault w).
Qed.

Lemma run_send_map_Ok {A} (f : UdpTransport -> A) sock to d w r w' :
  io_run (f <$> udp_send sock to d) w = (Returned (Ok r), w') ->
  r = f sock /\ w' = world_sent w to d.
Proof. rewrite run_send_map. by intros [-> ->]%after_reply_Ok. Qed.

Lemma delete_insert_same {V} (m : gmap UdpAddr V) k v :
  m !! k = Some v -> <[k := v]> (delete k m) = m.
Proof. intros H. by rewrite insert_delete_eq, insert_id. Qed.

(** An established source. *)
Lemma run_decrypt_established h from d seed w conn :
  host_established h !! from = Some conn ->
  exists h' ev, recv_step h from d seed h' ev None /\
    io_run (decrypt_established (host_socket h) (host_identity h) (host_handshakes h)
      (host_established h) (host_capacity h) (host_tick h) from d) w = (Returned (Ok (h', ev)), w).
Proof.
  intros Hes. unfold decrypt_established. rewrite Hes, run_fmap_eq, run_result.
  cbn [ok_or_else run_bind]. destruct conn as [t rs pid la].
  destruct (transport_decrypt t d) as [t' [p|e]] eqn:Ed.
  - eexists _, _. split; [by eapply step_delivered|].
    cbn [conn_remote_static conn_remote_peer_id]. by rewrite insert_delete_eq.
  - eexists _, _. split; [by eapply step_undecryptable|].
    pose proof (transport_decrypt_Err _ _ _ _ Ed) as ->.
    rewrite delete_insert_same by done. by destruct h.
Qed.

(** A source with a handshake in flight. *)
Lemma run_advance_in_flight h from d seed w entry :
  host_established h !! from = None -> host_handshakes h !! from = Some entry ->
  exists h' ev reply, recv_step h from d seed h' ev reply /\
    io_run (advance_in_flight (host_socket h) (host_identity h) (host_handshakes h)
      (host_established h) (host_capacity h) (host_tick h) from d) w =
      after_reply (host_socket h) from reply (h', ev) w.
Proof.
  intros Hes Hhs. unfold advance_in_flight. rewrite Hhs, run_bind_eq, run_result.
  cbn [ok_or_else run_bind]. destruct entry as [[after_e msg1|after_resp] la].
  - destruct (is_challenge d) eqn:Hch.
    + unfold answer_cookie_challenge. rewrite get_from_unwrap_or, run_send_map.
      eexists _, _, (Some _). split; [by eapply step_challenged|done].
    + unfold initiator_consume_msg2.
      change (arr_list (signed_to_bytes (id_signed_static_key (host_identity h))))
        with (trailer_of h).
      fold (msg2_outcome h after_e d).
      destruct (msg2_outcome h after_e d) as [[[[t msg3] rs] pid]|e] eqn:Eo.
      * rewrite run_send_map. eexists _, _, (Some _). split; [by eapply step_msg2|done].
      * rewrite run_pure. eexists _, _, None. split; [by eapply step_msg2_failed|done].
  - unfold responder_consume_msg3. fold (msg3_outcome after_resp d).
    destruct (msg3_outcome after_resp d) as [[[t rs] pid]|e] eqn:Eo; rewrite run_pure;
      eexists _, _, None; (split; [|done]).
    + by eapply step_msg3.
    + by eapply step_msg3_failed.
Qed.

(** The bytes of a datagram with the length of an echoed cookie. *)
Lemma validated_msg1_iff h from d :
  length d = MSG1_WITH_COOKIE_LEN ->
  exists e mac, default [] (get_to MESSAGE_1_LEN d) = e /\
    default [] (get_from MESSAGE_1_LEN d) = mac /\ length e = MESSAGE_1_LEN /\
    (verify (id_cookie_secret (host_identity h)) from e mac = true -> validated_msg1 h from d e) /\
    (forall e', validated_msg1 h from d e' ->
       e' = e /\ verify (id_cookie_secret (host_identity h)) from e mac = true).
Proof.
  intros Hl. destruct (split_list MESSAGE_1_LEN COOKIE_MAC_LEN d)
    as (e & mac & rest & -> & He & Hm); [unfold MSG1_WITH_COOKIE_LEN in Hl; lia|].
  exists e, (mac ++ rest).
  rewrite get_to_app, get_from_app by done. cbn [default from_option Datatypes.id].
  split_and!; try done.
  - intros Hv%verify_iff. split; [done|]. by rewrite <- Hv.
  - intros e' [He' Hd]. apply app_inj_1 in Hd as [-> Hmac]; [|by rewrite He'].
    split; [done|]. by apply verify_iff.
Qed.

(** A source the host knows nothing of. *)
Lemma run_try_responder_msg1 h from d seed w :
  host_established h !! from = None -> host_handshakes h !! from = None ->
  exists h' ev reply, recv_step h from d seed h' ev reply /\
    io_run (try_responder_msg1 (host_socket h) (host_identity h) (host_handshakes h)
      (host_established h) (host_capacity h) (host_tick h) from d seed) w =
      after_reply (host_socket h) from reply (h', ev) w.
Proof.
  intros Hes Hhs. unfold try_responder_msg1.
  destruct (Nat.eqb_spec (length d) MESSAGE_1_LEN) as [Hl|Hl].
  { rewrite run_send_map. eexists _, _, (Some _). split; [by apply step_bare_msg1|done]. }
  destruct (Nat.eqb_spec (length d) MSG1_WITH_COOKIE_LEN) as [Hlc|Hlc].
  2:{ rewrite run_pure. eexists _, _, None. split; [|done]. apply step_unknown; try done.
      intros e [He Hd]. apply Hlc. rewrite Hd, length_app, He, length_arr. done. }
  destruct (validated_msg1_iff h from d Hlc) as (e & mac & -> & -> & He & Hv1 & Hv2).
  destruct (verify _ from e mac) eqn:Hv.
  2:{ rewrite run_pure. eexists _, _, None. split; [|done]. apply step_unknown; try done.
      intros e' [_ ?]%Hv2. done. }
  unfold respond_to_validated_msg1.
  change (arr_list (signed_to_bytes (id_signed_static_key (host_identity h))))
    with (trailer_of h).
  fold (msg1_outcome h e seed). destruct (msg1_outcome h e seed) as [[ar msg2]|er] eqn:Eo.
  - rewrite run_send_map. eexists _, _, (Some _).
    split; [by eapply step_validated_msg1; auto|done].
  - rewrite run_pure. eexists _, _, None. split; [by eapply step_unstarted; auto|done].
Qed.

(** Dispatching a datagram is one step of the relation, followed by sending
    the step's reply. *)
Lemma run_dispatch h from d seed w :
  exists h' ev reply, recv_step h from d seed h' ev reply /\
    io_run (dispatch_inbound (host_socket h) (host_identity h) (host_handshakes h)
      (host_established h) (host_capacity h) (host_tick h) from d seed) w =
      after_reply (host_socket h) from reply (h', ev) w.
Proof.
  unfold dispatch_inbound, contains_key. destruct (host_established h !! from) eqn:Hes.
  - destruct (run_decrypt_established h from d seed w e Hes) as (h' & ev & Hs & Hr).
    by exists h', ev, None.
  - destruct (host_handshakes h !! from) eqn:Hhs.
    + by eapply run_advance_in_flight.
    + by apply run_try_responder_msg1.
Qed.

Lemma run_recv_one h seed w from d inbox :
  w_inbox w = Ok (socket_of_udp from, d) :: inbox ->
  io_run (recv_one h seed) w =
    io_run (dispatch_inbound (host_socket h) (host_identity h) (host_handshakes h)
      (host_established h) (host_capacity h) (host_tick h) from
      (take (N.to_nat (recv_buf_size (host_socket h))) d) seed) (world_received w).
Proof.
  intros Hin. destruct h as [sock ident hs es cap tick]. unfold recv_one.
  rewrite run_bind_eq, run_udp_recv, Hin. cbn [run_bind].
  by rewrite udp_of_socket_of_udp.
Qed.

(** One receive: the oldest datagram is taken and dispatched. *)
Lemma recv_one_sound h seed w h' ev w' :
  io_run (recv_one h seed) w = (Returned (Ok (h', ev)), w') ->
  exists from d inbox reply,
    w_inbox w = Ok (socket_of_udp from, d) :: inbox /\
    recv_step h from (take (N.to_nat (recv_buf_size (host_socket h))) d) seed h' ev reply /\
    w' = world_reply (world_received w) from reply.
Proof.
  destruct (w_inbox w) as [|[[a d]|e] inbox] eqn:Ei.
  1, 3: destruct h as [sock ident hs es cap tick]; unfold recv_one;
    by rewrite run_bind_eq, run_udp_recv, Ei.
  assert (Hin : w_inbox w = Ok (socket_of_udp (udp_of_socket a), d) :: inbox)
    by (by destruct a).
  rewrite (run_recv_one _ _ _ _ _ _ Hin).
  edestruct run_dispatch as (h1 & ev1 & reply & Hs & ->).
  intros [[= -> ->] ->]%after_reply_Ok.
  exists (udp_of_socket a), d, inbox, reply. split_and!; [by destruct a|done|done].
Qed.

(** The relation is deterministic but for the text of a refusal, so a step
    established by its constructor is the one the code takes. *)
Lemma recv_step_det h from d seed h1 ev1 r1 h2 ev2 r2 :
  recv_step h from d seed h1 ev1 r1 -> recv_step h from d seed h2 ev2 r2 ->
  h1 = h2 /\ r1 = r2 /\ (ev1 = ev2 \/ exists x y, ev1 = Rejected from x /\ ev2 = Rejected from y).
Proof.
  assert (Hv : forall e e', validated_msg1 h from d e -> validated_msg1 h from d e' -> e = e').
  { intros e e' [He ->] [He' Hd]. apply app_inj_1 in Hd as [-> _]; [done|]. by rewrite He. }
  assert (Hl : forall e, validated_msg1 h from d e -> length d <> MESSAGE_1_LEN).
  { intros e [He ->]. rewrite length_app, He, length_arr. by vm_compute. }
  intros H1 H2. destruct H1; inversion H2; subst; same_lhs;
    repeat match goal with
    | A : validated_msg1 _ _ _ ?x, B : validated_msg1 _ _ _ ?y |- _ =>
        pose proof (Hv _ _ A B); clear B; subst
    | A : validated_msg1 _ _ _ ?x, B : forall e, ~ validated_msg1 _ _ _ e |- _ => by destruct (B _ A)
    | A : validated_msg1 _ _ _ ?x, B : length _ = _ |- _ => by destruct (Hl _ A)
    end; same_lhs; by split_and!; eauto 10.
Qed.

Lemma run_recv_step h seed w from d inbox h' ev reply :
  w_inbox w = Ok (socket_of_udp from, d) :: inbox ->
  length d <= N.to_nat (recv_buf_size (host_socket h)) ->
  recv_step h from d seed h' ev reply -> (forall r, ev <> Rejected from r) ->
  io_run (recv_one h seed) w = after_reply (host_socket h) from reply (h', ev) (world_received w).
Proof.
  intros Hin Hlen Hs Hev. rewrite (run_recv_one _ _ _ _ _ _ Hin), take_ge by done.
  destruct (run_dispatch h from d seed (world_received w)) as (h1 & ev1 & r1 & Hs1 & ->).
  destruct (recv_step_det _ _ _ _ _ _ _ _ _ _ Hs Hs1) as (<- & <- & [<-|(x & y & -> & _)]);
    [done|]. by destruct (Hev x).
Qed.

End tie.
