(* ===== verification/HostInv.v ===== *)
(** * The host's invariants

    A host built with a valid capacity keeps its two tables disjoint and
    within their caps, its activity ticks behind its clock, and in the
    established table only peers whose identity binding verified, whatever
    sequence of operations and datagrams it goes through. *)

From S2P Require Export HostSpec.

Section inv.
Context `{C : Crypto, RT : IoRuntime, !IoLaws RT}.

(** ** What the sending operations do *)

Lemma dial_sound h a seed w h' w' :
  io_run (dial h a seed) w = (Returned (Ok h'), w') ->
  exists after_e msg1,
    host_handshakes h !! a = None /\ host_established h !! a = None /\
    write_e (initiator_new (id_static_keypair (host_identity h))) seed = Ok (after_e, msg1) /\
    h' = host_with h
           (insert_handshake_with_lru (host_handshakes h) a
              (MkInFlight (InitiatorAwaitingResponse after_e msg1) (next_tick h))
              (max_handshakes_in_flight (host_capacity h)))
           (host_established h) (next_tick h) /\
    w' = world_sent w a msg1.
Proof.
  unfold dial, prepare_dial. rewrite run_bind_eq, run_result.
  destruct (contains_key (host_handshakes h) a) eqn:Eh; [done|].
  destruct (contains_key (host_established h) a) eqn:Ee; [done|]. cbn [orb].
  apply contains_key_false in Eh, Ee.
  destruct (write_e _ seed) as [[after_e msg1]|] eqn:Ew; [|done].
  cbn [mbind result_bind run_bind]. destruct h as [sock ident hs es cap tick].
  intros [-> ->]%run_send_map_Ok. by exists after_e, msg1.
Qed.

(** Dialling an unknown address sends message 1 and stores the handshake. *)
Lemma run_dial h a seed w :
  host_handshakes h !! a = None -> host_established h !! a = None ->
  exists after_e msg1,
    write_e (initiator_new (id_static_keypair (host_identity h))) seed = Ok (after_e, msg1) /\
    io_run (dial h a seed) w =
      after_reply (host_socket h) a (Some msg1)
        (host_with h
          (insert_handshake_with_lru (host_handshakes h) a
             (MkInFlight (InitiatorAwaitingResponse after_e msg1) (next_tick h))
             (max_handshakes_in_flight (host_capacity h)))
          (host_established h) (next_tick h)) w.
Proof.
  intros Hh He. eexists _, _. split; [apply write_e_eq|].
  unfold dial, prepare_dial. rewrite run_bind_eq, run_result.
  unfold contains_key. rewrite Hh, He. cbn [orb]. rewrite write_e_eq.
  cbn [mbind result_bind run_bind]. destruct h as [sock ident hs es cap tick].
  by rewrite run_send_map.
Qed.

Lemma send_sound h a p w h' w' :
  io_run (host_send h a p) w = (Returned (Ok h'), w') ->
  exists conn t d,
    host_established h !! a = Some conn /\
    transport_encrypt (conn_transport conn) p = Ok (t, d) /\
    h' = host_with h (host_handshakes h)
           (<[a := MkEstablished t (conn_remote_static conn) (conn_remote_peer_id conn)
                     (next_tick h)]> (host_established h)) (next_tick h) /\
    w' = world_sent w a d.
Proof.
  unfold host_send, prepare_send. destruct h as [sock ident hs es cap tick].
  rewrite run_bind_eq, run_result.
  destruct (es !! a) as [conn|] eqn:Ee; [|done]. cbn [ok_or_else mbind result_bind].
  destruct (transport_encrypt _ p) as [[t d]|] eqn:Et; [|done]. cbn [mbind result_bind run_bind].
  intros [-> ->]%run_send_map_Ok. exists conn, t, d. split_and!; try done.
  unfold host_with. cbn. by rewrite insert_delete_eq.
Qed.

Lemma send_raw_sound h a p w h' w' :
  io_run (send_raw h a p) w = (Returned (Ok h'), w') ->
  h' = host_with h (host_handshakes h) (host_established h) (next_tick h) /\
  w' = world_sent w a p.
Proof.
  unfold send_raw. destruct h as [sock ident hs es cap tick].
  by intros [-> ->]%run_send_map_Ok.
Qed.

(** A connection after a datagram was sent over it. *)
Definition host_sent (h : Host) (a : UdpAddr) (conn : EstablishedConnection) (t : TransportState)
    : Host :=
  host_with h (host_handshakes h)
    (<[a := MkEstablished t (conn_remote_static conn) (conn_remote_peer_id conn) (next_tick h)]>
       (host_established h)) (next_tick h).

Lemma run_host_send h a p w :
  io_run (host_send h a p) w =
    match host_established h !! a with
    | None => (Returned (Err (HostState
        ("send: no established connection for " ++ udp_addr_display a)%string)), w)
    | Some conn =>
        match transport_encrypt (conn_transport conn) p with
        | Err e => (Returned (Err e), w)
        | Ok (t, d) => after_reply (host_socket h) a (Some d) (host_sent h a conn t) w
        end
    end.
Proof.
  unfold host_send, prepare_send. destruct h as [sock ident hs es cap tick].
  rewrite run_bind_eq, run_result. cbn [host_established host_socket].
  destruct (es !! a) as [conn|] eqn:Ee; [|done]. cbn [ok_or_else mbind result_bind].
  destruct (transport_encrypt _ p) as [[t d]|] eqn:Et; [|done]. cbn [mbind result_bind run_bind].
  rewrite run_send_map. unfold host_sent, host_with. cbn. by rewrite insert_delete_eq.
Qed.

(** ** Steps and reachability *)

Inductive host_step (h : Host) : Host -> Prop :=
| op_dial a seed w h' w' :
    io_run (dial h a seed) w = (Returned (Ok h'), w') -> host_step h h'
| op_send a p w h' w' :
    io_run (host_send h a p) w = (Returned (Ok h'), w') -> host_step h h'
| op_send_raw a p w h' w' :
    io_run (send_raw h a p) w = (Returned (Ok h'), w') -> host_step h h'
| op_recv seed w h' ev w' :
    io_run (recv_one h seed) w = (Returned (Ok (h', ev)), w') -> host_step h h'
| op_evict a : host_step h (evict h a)
| op_evict_idle n : host_step h (evict_idle h n).1.

Inductive host_steps (h : Host) : nat -> Host -> Prop :=
| steps_refl : host_steps h 0 h
| steps_step n h1 h2 : host_steps h n h1 -> host_step h1 h2 -> host_steps h (S n) h2.

(** ** The invariant *)

(** The peer's identity was proved: a signature by the key behind the PeerId
    over the domain tag and the static key the Noise session runs with. *)
Definition conn_bound (c : EstablishedConnection) : Prop :=
  exists pk sig vk,
    verifying_key_from_bytes (ed_public_bytes pk) = Ok vk /\
    ed25519_verify_strict vk
      (DOMAIN_TAG ++ arr_list (static_public_bytes (conn_remote_static c))) sig = Ok tt /\
    conn_remote_peer_id c = from_ed25519 (ed_public_bytes pk).

(** A stored handshake is one its constructor could have stored. *)
Definition handshake_ok (e : InFlightHandshake) : Prop :=
  match ifh_state e with
  | InitiatorAwaitingResponse _ msg1 => length msg1 = MESSAGE_1_LEN
  | ResponderAwaitingFinalize r => is_Some (cipher_key (rar_sym r))
  end.

Record host_ok (h : Host) : Prop := HostOk {
  ok_disjoint a : is_Some (host_handshakes h !! a) -> host_established h !! a = None;
  ok_cap_hs : size (host_handshakes h) <= max_handshakes_in_flight (host_capacity h);
  ok_cap_es : size (host_established h) <= max_established (host_capacity h);
  ok_pos_hs : 0 < max_handshakes_in_flight (host_capacity h);
  ok_pos_es : 0 < max_established (host_capacity h);
  ok_handshake a e : host_handshakes h !! a = Some e -> handshake_ok e;
  ok_bound a c : host_established h !! a = Some c -> conn_bound c
}.

Definition activities_le (h : Host) : Prop :=
  (forall a e, host_handshakes h !! a = Some e ->
     (uval (ifh_last_activity e) <= uval (host_tick h))%N) /\
  (forall a c, host_established h !! a = Some c ->
     (uval (conn_last_activity c) <= uval (host_tick h))%N).

Lemma next_tick_le h : (uval (next_tick h) <= uval (host_tick h) + 1)%N.
Proof.
  unfold next_tick, wrapping_add. rewrite uval_wrap. apply N.Div0.mod_le.
Qed.

Lemma next_tick_eq h :
  (uval (host_tick h) + 1 < 2 ^ 64)%N -> uval (next_tick h) = (uval (host_tick h) + 1)%N.
Proof. intros H. unfold next_tick, wrapping_add. by apply uint_wrap_small. Qed.

(** A verified trailer is a binding. *)
Lemma verify_binding_bound payload rs pid t la :
  verify_binding payload rs = Ok pid -> conn_bound (MkEstablished t rs pid la).
Proof.
  unfold verify_binding. destruct (signed_from_bytes payload) as [s|]; [|done].
  cbn [mbind result_bind]. unfold signed_verify, verifying_key.
  destruct (verifying_key_from_bytes _) as [vk|] eqn:Evk; [|done].
  cbn [map_err mbind result_bind].
  destruct (ed25519_verify_strict _ _ _) as [[]|] eqn:Ev; [|done].
  cbn [map_err mbind result_bind]. intros [= <-].
  exists (signed_public_key s), (ed_sig_bytes (signed_signature s)), vk.
  by rewrite <- signed_input_list.
Qed.

(** ** Preservation, table by table *)

Lemma host_ok_tables h t :
  host_ok h -> host_ok (host_with h (host_handshakes h) (host_established h) t).
Proof. by intros []. Qed.

Lemma host_ok_shrink h hs es t :
  host_ok h -> hs ⊆ host_handshakes h -> es ⊆ host_established h ->
  host_ok (host_with h hs es t).
Proof.
  intros [Hd Hc1 Hc2 Hp1 Hp2 Hh Hb] Hhs Hes. split; cbn; try done.
  - intros a [e He]. pose proof (lookup_weaken _ _ _ _ He Hhs) as He'.
    apply (lookup_weaken_None _ (host_established h)); [|done]. apply Hd. by exists e.
  - etrans; [by apply map_subseteq_size|done].
  - etrans; [by apply map_subseteq_size|done].
  - intros a e He. eapply Hh, lookup_weaken; done.
  - intros a c Hc. eapply Hb, lookup_weaken; done.
Qed.

Lemma host_ok_insert_handshake h a e t :
  host_ok h -> host_established h !! a = None -> handshake_ok e ->
  host_ok (host_with h
    (insert_handshake_with_lru (host_handshakes h) a e (max_handshakes_in_flight (host_capacity h)))
    (host_established h) t).
Proof.
  intros [Hd Hc1 Hc2 Hp1 Hp2 Hh Hb] Ha He. split; cbn; try done.
  - intros k [v [[-> _]|[_ Hk]]%insert_with_lru_inv]; [done|]. apply Hd. by exists v.
  - by apply insert_with_lru_size.
  - intros k v [[_ ->]|[_ Hk]]%insert_with_lru_inv; [done|]. by eapply Hh.
Qed.

(** Re-storing a handshake leaves the tables as they were. *)
Lemma put_handshake_same h a e :
  host_ok h -> host_handshakes h !! a = Some e -> put_handshake h a e = host_handshakes h.
Proof.
  intros Hok Ha. unfold put_handshake, insert_handshake_with_lru.
  rewrite (insert_with_lru_back _ _ _ e); [by apply insert_id|done|apply Hok].
Qed.

Lemma host_ok_update_conn h a c c' t :
  host_ok h -> host_established h !! a = Some c -> conn_bound c' ->
  host_ok (host_with h (host_handshakes h) (<[a := c']> (host_established h)) t).
Proof.
  intros [Hd Hc1 Hc2 Hp1 Hp2 Hh Hb] Ha Hc'. split; cbn; try done.
  - intros k Hk. destruct (decide (a = k)) as [->|Hne].
    + apply Hd in Hk. congruence.
    + rewrite lookup_insert_ne by done. by apply Hd.
  - by rewrite map_size_insert_Some by by exists c.
  - intros k v [[_ <-]|[_ Hk]]%lookup_insert_Some; [done|]. by eapply Hb.
Qed.

Lemma host_ok_establish h a c t :
  host_ok h -> conn_bound c ->
  host_ok (host_with h (delete a (host_handshakes h)) (put_established h a c) t).
Proof.
  intros [Hd Hc1 Hc2 Hp1 Hp2 Hh Hb] Hc. split; cbn; try done.
  - intros k [v Hv]. apply lookup_delete_Some in Hv as [Hne Hv].
    destruct (put_established h a c !! k) as [v'|] eqn:E; [|done].
    apply insert_with_lru_inv in E as [[-> _]|[_ E]]; [done|].
    rewrite Hd in E; [done|by exists v].
  - etrans; [apply map_subseteq_size, delete_subseteq|done].
  - by apply insert_with_lru_size.
  - intros k v [_ Hv]%lookup_delete_Some. by eapply Hh.
  - intros k v [[_ ->]|[_ Hk]]%insert_with_lru_inv; [done|]. by eapply Hb.
Qed.

(** The states a handshake is stored in. *)
Lemma write_e_handshake_ok k seed after_e msg1 t :
  write_e (initiator_new k) seed = Ok (after_e, msg1) ->
  handshake_ok (MkInFlight (InitiatorAwaitingResponse after_e msg1) t).
Proof. rewrite write_e_eq. intros [= <- <-]. apply length_arr. Qed.

Lemma write_response_handshake_ok r seed p rar msg t :
  write_response r seed p = Ok (rar, msg) ->
  handshake_ok (MkInFlight (ResponderAwaitingFinalize rar) t).
Proof.
  unfold write_response. set (s1 := mix_key _ _).
  destruct (encrypt_and_hash s1 _) as [[s2 c1]|]; [|done]. cbn [mbind result_bind].
  set (s3 := mix_key s2 _).
  destruct (encrypt_and_hash s3 p) as [[s4 c2]|] eqn:E; [|done]. intros [= <- _].
  unfold handshake_ok. cbn. apply sym_overhead_step in E. unfold s3 in E.
  rewrite sym_overhead_mix_key in E. unfold sym_overhead in E.
  destruct (cipher_key s4) as [k|]; [by exists k | done].
Qed.

Lemma write_s_static i p t msg st :
  write_s i p = Ok (t, msg, st) -> st = iar_remote_static i.
Proof.
  unfold write_s. destruct (encrypt_and_hash _ _) as [[s1 c1]|]; [|done]. cbn [mbind result_bind].
  destruct (encrypt_and_hash _ p) as [[s2 c2]|]; [|done]. cbn [mbind result_bind].
  destruct (sym_split s2). by intros [= _ _ <-].
Qed.

Lemma msg2_outcome_Ok h ae d t msg3 rs pid :
  msg2_outcome h ae d = Ok (t, msg3, rs, pid) ->
  (forall la, conn_bound (MkEstablished t rs pid la)) /\
  exists ar payload, read_response ae d = Ok (ar, payload) /\
    write_s ar (trailer_of h) = Ok (t, msg3, rs).
Proof.
  unfold msg2_outcome. destruct (read_response ae d) as [[ar payload]|] eqn:Er; [|done].
  cbn [mbind result_bind].
  destruct (verify_binding payload _) as [pid'|] eqn:Ev; [|done]. cbn [mbind result_bind].
  destruct (write_s ar _) as [[[t' m'] rs']|] eqn:Ew; [|done]. cbn [mbind result_bind].
  intros [= <- <- <- <-]. split; [|by exists ar, payload].
  intros la. apply write_s_static in Ew as ->. by eapply verify_binding_bound.
Qed.

Lemma msg3_outcome_Ok r d t rs pid :
  msg3_outcome r d = Ok (t, rs, pid) -> forall la, conn_bound (MkEstablished t rs pid la).
Proof.
  unfold msg3_outcome. destruct (read_s r d) as [[[t' rs'] payload]|]; [|done].
  cbn [mbind result_bind].
  destruct (verify_binding payload _) as [pid'|] eqn:Ev; [|done]. cbn [mbind result_bind].
  intros [= <- <- <-] la. by eapply verify_binding_bound.
Qed.

Lemma msg1_outcome_Ok h e seed rar msg :
  msg1_outcome h e seed = Ok (rar, msg) ->
  exists ae, write_response ae seed (trailer_of h) = Ok (rar, msg).
Proof.
  unfold msg1_outcome. destruct (read_e _ e) as [ae|]; [|done]. intros H. by exists ae.
Qed.

(** ** Preservation, operation by operation *)

Lemma recv_step_ok h from d seed h' ev reply :
  host_ok h -> recv_step h from d seed h' ev reply -> host_ok h'.
Proof.
  intros Hok Hstep. destruct Hstep;
    try (rewrite put_handshake_same by done); try by apply host_ok_tables.
  - eapply host_ok_update_conn; [done|done|].
    destruct (ok_bound _ Hok _ _ H) as (pk & sig & vk & Hb). by exists pk, sig, vk.
  - done.
  - apply host_ok_establish; [done|]. by eapply msg2_outcome_Ok.
  - apply host_ok_establish; [done|]. by eapply msg3_outcome_Ok.
  - apply host_ok_insert_handshake; [done|done|].
    destruct (msg1_outcome_Ok _ _ _ _ _ H2) as [ae Hw]. by eapply write_response_handshake_ok.
Qed.

Lemma host_step_ok h h' : host_ok h -> host_step h h' -> host_ok h'.
Proof.
  intros Hok Hstep. destruct Hstep.
  - apply dial_sound in H as (ae & m1 & _ & He & Hw & -> & _).
    apply host_ok_insert_handshake; [done|done|]. by eapply write_e_handshake_ok.
  - apply send_sound in H as (c & t & d & Hc & _ & -> & _).
    eapply host_ok_update_conn; [done|done|].
    destruct (ok_bound _ Hok _ _ Hc) as (pk & sig & vk & Hb). by exists pk, sig, vk.
  - apply send_raw_sound in H as [-> _]. by apply host_ok_tables.
  - apply recv_one_sound in H as (from & d & inbox & reply & _ & Hs & _).
    by eapply recv_step_ok.
  - destruct h as [sock ident hs es cap tick].
    apply (host_ok_shrink (MkHost sock ident hs es cap tick)); [done| |]; apply delete_subseteq.
  - destruct h as [sock ident hs es cap tick].
    apply (host_ok_shrink (MkHost sock ident hs es cap tick)); [done| |];
      apply map_filter_subseteq.
Qed.

(** The clock and the activity ticks. *)
Lemma recv_step_ticks h from d seed h' ev reply :
  host_ok h -> recv_step h from d seed h' ev reply ->
  (uval (host_tick h') <= uval (host_tick h) + 1)%N /\
  ((uval (host_tick h) + 1 < 2 ^ 64)%N -> activities_le h -> activities_le h').
Proof.
  intros Hok Hstep. pose proof (next_tick_le h) as Hle.
  split; [destruct Hstep; cbn [host_tick host_with]; lia|]. intros Hlt [Hh He].
  pose proof (next_tick_eq h Hlt) as Heq.
  assert (Hh' : forall a e, host_handshakes h !! a = Some e ->
    (uval (ifh_last_activity e) <= uval (next_tick h))%N) by (intros a e Ha; apply Hh in Ha; lia).
  assert (He' : forall a c, host_established h !! a = Some c ->
    (uval (conn_last_activity c) <= uval (next_tick h))%N) by (intros a c Ha; apply He in Ha; lia).
  destruct Hstep; try (rewrite put_handshake_same by done); (split; cbn; [intros k v|intros k v]);
    try done; try apply Hh; try apply He; try apply Hh'; try apply He'.
  - intros [[_ <-]|[_ Hk]]%lookup_insert_Some; [done|]. by eapply He'.
  - intros [_ Hk]%lookup_delete_Some. by eapply Hh'.
  - intros [[_ ->]|[_ Hk]]%insert_with_lru_inv; [done|]. by eapply He'.
  - intros [_ Hk]%lookup_delete_Some. by eapply Hh'.
  - intros [[_ ->]|[_ Hk]]%insert_with_lru_inv; [done|]. by eapply He'.
  - intros [[_ ->]|[_ Hk]]%insert_with_lru_inv; [done|]. by eapply Hh'.
Qed.

Lemma host_step_ticks h h' :
  host_ok h -> host_step h h' ->
  (uval (host_tick h') <= uval (host_tick h) + 1)%N /\
  ((uval (host_tick h) + 1 < 2 ^ 64)%N -> activities_le h -> activities_le h').
Proof.
  intros Hok Hstep. pose proof (next_tick_le h) as Hle.
  destruct Hstep.
  - apply dial_sound in H as (ae & m1 & _ & _ & _ & -> & _). split; [done|].
    intros Hlt [Hh He]. pose proof (next_tick_eq h Hlt) as Heq. split; cbn; intros k v.
    + intros [[_ ->]|[_ Hk]]%insert_with_lru_inv; [done|]. apply Hh in Hk. lia.
    + intros Hk%He. lia.
  - apply send_sound in H as (c & t & d & Hc & _ & -> & _). split; [done|].
    intros Hlt [Hh He]. pose proof (next_tick_eq h Hlt) as Heq. split; cbn; intros k v.
    + intros Hk%Hh. lia.
    + intros [[_ <-]|[_ Hk]]%lookup_insert_Some; [done|]. apply He in Hk. lia.
  - apply send_raw_sound in H as [-> _]. split; [done|].
    intros Hlt [Hh He]. pose proof (next_tick_eq h Hlt) as Heq. split; cbn; intros k v.
    + intros Hk%Hh. lia.
    + intros Hk%He. lia.
  - apply recv_one_sound in H as (from & d & inbox & reply & _ & Hs & _).
    by eapply recv_step_ticks.
  - destruct h as [sock ident hs es cap tick]. split; [cbn; lia|]. intros _ [Hh He].
    split; cbn; intros k v [_ Hk]%lookup_delete_Some; [by eapply Hh|by eapply He].
  - destruct h as [sock ident hs es cap tick]. split; [cbn; lia|]. intros _ [Hh He].
    split; cbn; intros k v [Hk _]%map_lookup_filter_Some; [by eapply Hh|by eapply He].
Qed.

(** No operation changes the socket, the identity or the capacity. *)
Definition host_frame (h h' : Host) : Prop :=
  host_socket h' = host_socket h /\ host_identity h' = host_identity h /\
  host_capacity h' = host_capacity h.

Lemma host_step_frame h h' : host_step h h' -> host_frame h h'.
Proof.
  intros []; unfold host_frame.
  - by apply dial_sound in H as (? & ? & _ & _ & _ & -> & _).
  - by apply send_sound in H as (? & ? & ? & _ & _ & -> & _).
  - by apply send_raw_sound in H as [-> _].
  - by apply recv_one_sound in H as (from & d & inbox & reply & _ & [] & _).
  - by destruct h.
  - by destruct h.
Qed.

Lemma host_steps_ok h h' : rtc host_step h h' -> host_ok h -> host_ok h' /\ host_frame h h'.
Proof.
  induction 1 as [h|h h1 h' Hs Hr IH]; intros Hok; [done|].
  destruct (IH (host_step_ok _ _ Hok Hs)) as [Hok' (E1 & E2 & E3)].
  destruct (host_step_frame _ _ Hs) as (F1 & F2 & F3). split; [done|].
  unfold host_frame. split_and!; congruence.
Qed.

Lemma with_capacity_ok sock kp ident secret a b cap h :
  capacity_new a b = Some cap -> with_capacity sock kp ident secret cap = Ok h ->
  host_ok h /\ activities_le h /\ uval (host_tick h) = 0%N.
Proof.
  intros Hcap. unfold with_capacity. destruct (signed_create _ _); [|done].
  cbn [mbind result_bind]. intros [= <-].
  destruct a as [|a], b as [|b]; try done. injection Hcap as <-.
  split_and!; [|split|done]; [split|..]; cbn; try done; try lia;
    rewrite map_size_empty; lia.
Qed.

End inv.
