(* ===== verification/HostProps.v ===== *)
(** * What the host guarantees *)

From S2P Require Export HostInv.

(** The largest datagram the handshake sends: message 2 with its trailer. *)
Definition HANDSHAKE_MAX : nat := MESSAGE_2_OVERHEAD_LEN + SIGNED_STATIC_KEY_LEN.

(** Arithmetic on the wire lengths. *)
Ltac wire_lia :=
  unfold HANDSHAKE_MAX, MSG1_WITH_COOKIE_LEN, COOKIE_REPLY_LEN, COOKIE_MAC_LEN,
    MESSAGE_1_LEN, MESSAGE_2_OVERHEAD_LEN, MESSAGE_3_OVERHEAD_LEN, SIGNED_STATIC_KEY_LEN,
    EPH_PUBLIC_LEN, ENC_STATIC_LEN, KEY_LEN, AEAD_TAG_LEN, ED25519_PUBLIC_KEY_LEN,
    ED25519_SIGNATURE_LEN in *; lia.

Section lemmas.
Context `{C : Crypto, RT : IoRuntime, !IoLaws RT}.

Lemma length_trailer h : length (trailer_of h) = SIGNED_STATIC_KEY_LEN.
Proof. apply length_arr. Qed.

Context `{!CryptoLaws C}.

Lemma sym_overhead_le s : sym_overhead s <= AEAD_TAG_LEN.
Proof. unfold sym_overhead. destruct (cipher_key s); lia. Qed.

Lemma write_s_length i p t msg st :
  write_s i p = Ok (t, msg, st) -> length msg <= MESSAGE_3_OVERHEAD_LEN + length p.
Proof.
  unfold write_s. destruct (encrypt_and_hash _ _) as [[s1 c1]|] eqn:E1; [|done].
  cbn [mbind result_bind].
  destruct (encrypt_and_hash _ p) as [[s2 c2]|] eqn:E2; [|done]. cbn [mbind result_bind].
  destruct (sym_split s2). intros [= _ <- _].
  apply encrypt_and_hash_length in E1, E2. rewrite length_app, E1, E2, length_arr.
  pose proof (sym_overhead_le (iar_sym i)).
  match goal with |- context [sym_overhead (mix_key ?a ?b)] => pose proof (sym_overhead_le (mix_key a b)) end.
  wire_lia.
Qed.

Lemma write_response_length r seed p rar msg :
  write_response r seed p = Ok (rar, msg) -> length msg = MESSAGE_2_OVERHEAD_LEN + length p.
Proof.
  unfold write_response. set (s1 := mix_key _ _).
  destruct (encrypt_and_hash s1 _) as [[s2 c1]|] eqn:E1; [|done]. cbn [mbind result_bind].
  set (s3 := mix_key s2 _).
  destruct (encrypt_and_hash s3 p) as [[s4 c2]|] eqn:E2; [|done]. intros [= _ <-].
  apply encrypt_and_hash_length in E1, E2. unfold s1, s3 in E1, E2.
  rewrite sym_overhead_mix_key in E1, E2. rewrite !length_app, E1, E2, !length_arr.
  wire_lia.
Qed.

(** Every reply fits a socket whose ceiling is [HANDSHAKE_MAX]. *)
Lemma recv_step_reply_length h from d seed h' ev reply :
  host_ok h -> recv_step h from d seed h' ev (Some reply) -> length reply <= HANDSHAKE_MAX.
Proof.
  intros Hok Hstep. inversion Hstep; subst.
  - match goal with Hh : host_handshakes h !! _ = Some _ |- _ =>
      apply (ok_handshake _ Hok) in Hh; unfold handshake_ok in Hh; cbn [ifh_state] in Hh end.
    match goal with Hc : is_challenge _ = true |- _ => unfold is_challenge in Hc end.
    bool_to_prop. rewrite length_app, length_drop. wire_lia.
  - match goal with Hw : msg2_outcome _ _ _ = Ok _ |- _ =>
      apply msg2_outcome_Ok in Hw as (_ & ar & pl & _ & Hw); apply write_s_length in Hw end.
    rewrite length_trailer in *. wire_lia.
  - rewrite length_challenge. wire_lia.
  - match goal with Hw : msg1_outcome _ _ _ = Ok _ |- _ =>
      apply msg1_outcome_Ok in Hw as [ae Hw]; apply write_response_length in Hw end.
    rewrite length_trailer in *. wire_lia.
Qed.

End lemmas.

(** Receive [n] datagrams, as an event loop does. *)
Fixpoint receive_n `{C : Crypto, RT : IoRuntime} (n : nat) (h : Host) (seed : arr 32)
    : Io Error Host :=
  match n with
  | 0 => io_pure h
  | S n' => '(h', _) ← recv_one h seed; receive_n n' h' seed
  end.

Section more_lemmas.
Context `{C : Crypto, RT : IoRuntime, !IoLaws RT}.

(** A datagram of no handshake length from a source the host does not know. *)
Lemma recv_one_unknown h from d seed w inbox :
  w_inbox w = Ok (socket_of_udp from, d) :: inbox ->
  length d <= N.to_nat (recv_buf_size (host_socket h)) ->
  host_handshakes h !! from = None -> host_established h !! from = None ->
  length d <> MESSAGE_1_LEN -> length d <> MSG1_WITH_COOKIE_LEN ->
  exists reason, io_run (recv_one h seed) w =
    (Returned (Ok (host_with h (host_handshakes h) (host_established h) (next_tick h),
                   Rejected from reason)), world_received w).
Proof.
  intros Hin Hlen Hh He H1 H2. rewrite (run_recv_one _ _ _ _ _ _ Hin), take_ge by done.
  unfold dispatch_inbound, contains_key. rewrite He, Hh. unfold try_responder_msg1.
  destruct (Nat.eqb_spec (length d) MESSAGE_1_LEN); [done|].
  destruct (Nat.eqb_spec (length d) MSG1_WITH_COOKIE_LEN); [done|].
  eexists. by rewrite run_pure.
Qed.

Lemma host_with_id h : host_with h (host_handshakes h) (host_established h) (host_tick h) = h.
Proof. by destruct h. Qed.

Lemma wrapping_add_add (t : u64) n m :
  wrapping_add (wrapping_add t n) m = wrapping_add t (n + m).
Proof.
  apply uint_eq. unfold wrapping_add. rewrite !uval_wrap.
  rewrite N.Div0.add_mod_idemp_l. f_equal. lia.
Qed.

Lemma receive_n_unknown n : forall h from d seed w rest,
  w_inbox w = replicate n (Ok (socket_of_udp from, d)) ++ rest ->
  length d <= N.to_nat (recv_buf_size (host_socket h)) ->
  host_handshakes h !! from = None -> host_established h !! from = None ->
  length d <> MESSAGE_1_LEN -> length d <> MSG1_WITH_COOKIE_LEN ->
  exists w', io_run (receive_n n h seed) w =
    (Returned (Ok (host_with h (host_handshakes h) (host_established h)
       (wrapping_add (host_tick h) (N.of_nat n)))), w').
Proof.
  induction n as [|n IH]; intros h from d seed w rest Hin Hlen Hh He H1 H2.
  - exists w. cbn [receive_n]. rewrite run_pure. unfold wrapping_add.
    rewrite N.add_0_r, uint_wrap_uval. by rewrite host_with_id.
  - cbn [replicate app] in Hin.
    destruct (recv_one_unknown h from d seed w _ Hin Hlen Hh He H1 H2) as [reason Hr].
    destruct (IH (host_with h (host_handshakes h) (host_established h) (next_tick h))
      from d seed (world_received w) rest) as [w' Hw]; try done.
    { unfold world_received. cbn [w_inbox]. by rewrite Hin. }
    exists w'. cbn [receive_n]. rewrite run_bind_eq, Hr. cbn [run_bind]. rewrite Hw.
    unfold host_with, next_tick. cbn. rewrite wrapping_add_add.
    by replace (1 + N.of_nat n)%N with (N.of_nat (S n)) by lia.
Qed.

End more_lemmas.

(** ** Properties *)

Section properties.
Context `{C : Crypto, RT : IoRuntime, !IoLaws RT}.

(** C2: a host built with a valid capacity, after any number of operations and
    received datagrams, holds each address in at most one table, keeps both
    tables within their caps, stores only well-formed handshakes, and lists
    as established only peers whose PeerId was proved by a signature over
    the static key of their session.  Within 2^64 operations the clock does
    not wrap and no entry is newer than the clock. *)
Theorem host_invariant sock kp ident secret nh ne cap h0 n h :
  capacity_new nh ne = Some cap ->
  with_capacity sock kp ident secret cap = Ok h0 ->
  host_steps h0 n h ->
  host_ok h /\ (uval (host_tick h) <= N.of_nat n)%N /\
  ((N.of_nat n < 2 ^ 64)%N -> activities_le h).
Proof.
  intros Hcap Hnew Hsteps.
  destruct (with_capacity_ok _ _ _ _ _ _ _ _ Hcap Hnew) as (Hok0 & Hact0 & Ht0).
  induction Hsteps as [|n h1 h2 Hsteps IH Hstep].
  - split_and!; [done|lia|done].
  - destruct IH as (Hok & Htick & Hact).
    destruct (host_step_ticks _ _ Hok Hstep) as [Hle Hact'].
    split_and!; [by eapply host_step_ok|lia|].
    intros Hn. apply Hact'; [lia|]. apply Hact. lia.
Qed.

(** C5: a datagram from an established peer's address that does not decrypt is
    dropped with a [Rejected] event and changes nothing: not the session's
    keys, nonces or window, not the activity ticks, not the clock, not the
    network. *)
Theorem junk_keeps_connection h from d seed w inbox conn e :
  w_inbox w = Ok (socket_of_udp from, d) :: inbox ->
  length d <= N.to_nat (recv_buf_size (host_socket h)) ->
  host_established h !! from = Some conn ->
  (transport_decrypt (conn_transport conn) d).2 = Err e ->
  io_run (recv_one h seed) w =
    (Returned (Ok (h, Rejected from ("transport decrypt failed: " ++ error_display e ++
       "; datagram dropped, connection kept")%string)), world_received w).
Proof.
  intros Hin Hlen Hes Hd. rewrite (run_recv_one _ _ _ _ _ _ Hin), take_ge by done.
  unfold dispatch_inbound, contains_key. rewrite Hes. unfold decrypt_established.
  rewrite Hes, run_fmap_eq, run_result. cbn [ok_or_else run_bind].
  destruct conn as [t rs pid la]. cbn [conn_transport] in Hd.
  destruct (transport_decrypt t d) as [t' out] eqn:Ed. cbn [snd] in Hd. subst out.
  pose proof (transport_decrypt_Err _ _ _ _ Ed) as ->.
  rewrite delete_insert_same by done. by destruct h.
Qed.

(** C3: a datagram from a source in neither table creates connection state only if
    it is a message 1 followed by the cookie this host mints for that very
    source and key; any other leaves both tables alone and elicits at most
    one reply, to that source, strictly shorter than the datagram itself.  The
    source's comments say "barely larger" of that reply: the challenge is 17
    bytes, for a message 1 of 32. *)
Theorem unvalidated_source_creates_no_state h from d seed w inbox h' ev w' :
  w_inbox w = Ok (socket_of_udp from, d) :: inbox ->
  length d <= N.to_nat (recv_buf_size (host_socket h)) ->
  host_handshakes h !! from = None -> host_established h !! from = None ->
  io_run (recv_one h seed) w = (Returned (Ok (h', ev)), w') ->
  (exists e, length e = MESSAGE_1_LEN /\
     d = e ++ arr_list (mint (id_cookie_secret (host_identity h)) from e)) \/
  (host_handshakes h' = host_handshakes h /\ host_established h' = host_established h /\
   (w_sent w' = w_sent w \/
    exists reply, w_sent w' = w_sent w ++ [(socket_of_udp from, reply)] /\
      length reply < length d)).
Proof.
  intros Hin Hlen Hh He Hrun. rewrite (run_recv_one _ _ _ _ _ _ Hin), take_ge in Hrun by done.
  destruct (run_dispatch h from d seed (world_received w)) as (h1 & ev1 & reply & Hs & Hr).
  rewrite Hr in Hrun. apply after_reply_Ok in Hrun as [[= -> ->] ->].
  inversion Hs; subst; simplify_eq; try (left; by eexists); right;
    (split_and!; [done|done|]); try (by left).
  right. eexists. split; [done|]. rewrite length_challenge. wire_lia.
Qed.

(** What the receive path does not promise: [n] datagrams of no handshake
    length from an unknown, possibly spoofed, source advance the clock by
    [n], after which [evict_idle] sweeps every connection that was quiet
    meanwhile. *)
Theorem unknown_junk_ages_connections h from d seed w rest n (m : u64) :
  w_inbox w = replicate n (Ok (socket_of_udp from, d)) ++ rest ->
  length d <= N.to_nat (recv_buf_size (host_socket h)) ->
  host_handshakes h !! from = None -> host_established h !! from = None ->
  length d <> MESSAGE_1_LEN -> length d <> MSG1_WITH_COOKIE_LEN ->
  (uval (host_tick h) + N.of_nat n < 2 ^ 64)%N ->
  exists h' w', io_run (receive_n n h seed) w = (Returned (Ok h'), w') /\
    host_established h' = host_established h /\
    forall a c, host_established h !! a = Some c ->
      (uval (conn_last_activity c) + uval m < uval (host_tick h) + N.of_nat n)%N ->
      a ∈ (evict_idle h' m).2 /\ host_established (evict_idle h' m).1 !! a = None.
Proof.
  intros Hin Hlen Hh He H1 H2 Hn.
  destruct (receive_n_unknown n h from d seed w rest Hin Hlen Hh He H1 H2) as [w' Hw].
  eexists _, w'. split_and!; [exact Hw|done|]. intros a c Hc Hold.
  unfold evict_idle, host_with.
  set (cutoff := saturating_sub (wrapping_add (host_tick h) (N.of_nat n)) m).
  assert (Hcut : (uval (conn_last_activity c) < uval cutoff)%N).
  { unfold cutoff, saturating_sub, wrapping_add. cbn [uval].
    rewrite uint_wrap_small by done. lia. }
  destruct (sweep_idle_handshakes (host_handshakes h) cutoff) as [hs' ev1] eqn:E1.
  destruct (sweep_idle_established (host_established h) cutoff) as [es' ev2] eqn:E2.
  cbn [fst snd host_established]. split.
  - apply elem_of_app. right. replace ev2 with (sweep_idle_established (host_established h) cutoff).2
      by (by rewrite E2). apply sweep_idle_evicted. by exists c.
  - replace es' with (sweep_idle_established (host_established h) cutoff).1 by (by rewrite E2).
    apply eq_None_not_Some. intros [c' [Ea Hge]%sweep_idle_kept]. simplify_eq. lia.
Qed.

(** [evict_idle] removes exactly the entries more than the given number of
    ticks behind the clock, from both tables, reports exactly their
    addresses, and changes nothing else. *)
Theorem evict_idle_exact (h : Host) (max_idle : u64) :
  let '(h', evicted) := evict_idle h max_idle in
  let old (t : u64) := (uval t + uval max_idle < uval (host_tick h))%N in
  (forall a e, host_handshakes h' !! a = Some e <->
     host_handshakes h !! a = Some e /\ ~ old (ifh_last_activity e)) /\
  (forall a c, host_established h' !! a = Some c <->
     host_established h !! a = Some c /\ ~ old (conn_last_activity c)) /\
  (forall a, a ∈ evicted <->
     (exists e, host_handshakes h !! a = Some e /\ old (ifh_last_activity e)) \/
     (exists c, host_established h !! a = Some c /\ old (conn_last_activity c))) /\
  host_socket h' = host_socket h /\ host_identity h' = host_identity h /\
  host_capacity h' = host_capacity h /\ host_tick h' = host_tick h.
Proof.
  destruct h as [sock ident hs es cap tick]. unfold evict_idle.
  set (cutoff := saturating_sub tick max_idle).
  assert (Hcut : forall t : u64, (uval t < uval cutoff <-> uval t + uval max_idle < uval tick)%N).
  { intros t. unfold cutoff, saturating_sub. cbn [uval]. lia. }
  destruct (sweep_idle_handshakes hs cutoff) as [hs' ev1] eqn:E1.
  destruct (sweep_idle_established es cutoff) as [es' ev2] eqn:E2.
  cbn [host_handshakes host_established host_tick host_socket host_identity host_capacity].
  assert (H1 : (hs', ev1) = sweep_idle ifh_last_activity hs cutoff) by done.
  assert (H2 : (es', ev2) = sweep_idle conn_last_activity es cutoff) by done.
  split_and!; try done.
  - intros a e. replace hs' with (sweep_idle ifh_last_activity hs cutoff).1 by (by rewrite <- H1).
    rewrite sweep_idle_kept, <- Hcut, N.nlt_ge. done.
  - intros a c. replace es' with (sweep_idle conn_last_activity es cutoff).1 by (by rewrite <- H2).
    rewrite sweep_idle_kept, <- Hcut, N.nlt_ge. done.
  - intros a. replace ev1 with (sweep_idle ifh_last_activity hs cutoff).2 by (by rewrite <- H1).
    replace ev2 with (sweep_idle conn_last_activity es cutoff).2 by (by rewrite <- H2).
    rewrite elem_of_app, !sweep_idle_evicted. by setoid_rewrite Hcut.
Qed.

Context `{!CryptoLaws C}.

(** Whatever arrives, a step of the host reports it. *)
Lemma recv_one_total h seed w from d inbox :
  host_ok h -> (N.of_nat HANDSHAKE_MAX <= max_send_payload (host_socket h))%N ->
  w_inbox w = Ok (socket_of_udp from, d) :: inbox -> send_fault w = None ->
  exists h' ev reply,
    recv_step h from (take (N.to_nat (recv_buf_size (host_socket h))) d) seed h' ev reply /\
    io_run (recv_one h seed) w = (Returned (Ok (h', ev)), world_reply (world_received w) from reply).
Proof.
  intros Hok Hmax Hin Hf. rewrite (run_recv_one _ _ _ _ _ _ Hin).
  destruct (run_dispatch h from (take (N.to_nat (recv_buf_size (host_socket h))) d) seed
    (world_received w)) as (h' & ev & reply & Hs & ->).
  exists h', ev, reply. split; [done|]. unfold after_reply. destruct reply as [r|]; [|done].
  pose proof (recv_step_reply_length _ _ _ _ _ _ _ Hok Hs).
  destruct (N.ltb_spec (max_send_payload (host_socket h)) (N.of_nat (length r))); [lia|].
  change (send_fault (world_received w)) with (send_fault w). by rewrite Hf.
Qed.

(** C4: no datagram, whatever its bytes and source, makes [recv_one] fail: on a
    host in its invariant whose socket can carry the handshake, receiving
    any datagram while the socket works yields a host again in its
    invariant, and an event. *)
Theorem recv_one_survives h seed w from d inbox :
  host_ok h -> (N.of_nat HANDSHAKE_MAX <= max_send_payload (host_socket h))%N ->
  w_inbox w = Ok (socket_of_udp from, d) :: inbox -> send_fault w = None ->
  exists h' ev w', io_run (recv_one h seed) w = (Returned (Ok (h', ev)), w') /\ host_ok h'.
Proof.
  intros Hok Hmax Hin Hf.
  destruct (recv_one_total h seed w from d inbox Hok Hmax Hin Hf) as (h' & ev & reply & Hs & Hr).
  eexists h', ev, _. split; [exact Hr|]. by eapply recv_step_ok.
Qed.

End properties.

(** ** Concrete hosts *)

Definition toy_signed (key seed : byte) : SignedStaticKey :=
  MkSigned (MkEd25519PublicKey (arr_repeat 32 seed))
    (MkEd25519Signature (Toy.sign (arr_repeat 32 seed)
      (arr_list (signed_input (keypair_public (toy_keypair key)))))).

Definition toy_host (port : N) (key seed : byte) : Host :=
  MkHost (test_transport port)
    (MkHostIdentity (toy_keypair key) (toy_signed key seed)
       (from_ed25519 (arr_repeat 32 seed)) (arr_repeat 32 x07))
    ∅ ∅ capacity_default u64_zero.

Lemma toy_host_new port key seed :
  with_capacity (C:=toy_crypto) (test_transport port) (toy_keypair key)
    (ed_from_seed (C:=toy_crypto) (arr_repeat 32 seed)) (arr_repeat 32 x07) capacity_default
  = Ok (toy_host port key seed).
Proof. with_strategy opaque [Toy.sign from_ed25519 signed_input] reflexivity. Qed.

Lemma toy_host_ok port key seed :
  host_ok (C:=toy_crypto) (toy_host port key seed).
Proof.
  apply (with_capacity_ok (C:=toy_crypto) _ _ _ _ 256 1024 _ _ eq_refl
    (toy_host_new port key seed)).
Qed.

(** A toy host with one established connection, to the loopback [port']. *)
Definition toy_connected (port : N) (key seed : byte) (port' : N) : Host :=
  host_with (toy_host port key seed) ∅
    {[ loopback port' := MkEstablished (transport_new (arr_repeat 32 x01) (arr_repeat 32 x02))
         (keypair_public (toy_keypair key)) (from_ed25519 (arr_repeat 32 seed)) u64_zero ]}
    u64_zero.

Lemma host_invariant_witness :
  exists h,
    host_steps (C:=toy_crypto) (RT:=direct_io) (toy_host 4001 x01 x02) 1 h /\
    host_ok (C:=toy_crypto) h /\ (uval (host_tick h) <= N.of_nat 1)%N /\
    ((N.of_nat 1 < 2 ^ 64)%N -> activities_le h).
Proof.
  assert (E : exists h w, io_run (IoRuntime:=direct_io)
    (dial (C:=toy_crypto) (RT:=direct_io) (toy_host 4001 x01 x02) (loopback 4002) (arr_repeat 32 x03))
    (quiet_world []) = (Returned (Ok h), w)).
  { destruct (run_dial (C:=toy_crypto) (RT:=direct_io) (IoLaws0:=direct_io_laws)
      (toy_host 4001 x01 x02) (loopback 4002) (arr_repeat 32 x03) (quiet_world []))
      as (ae & m1 & Hw & ->); [done|done|].
    rewrite write_e_eq in Hw. injection Hw as <- <-. by eexists _, _. }
  destruct E as (h & w & E).
  assert (Hs : host_steps (C:=toy_crypto) (RT:=direct_io) (toy_host 4001 x01 x02) 1 h).
  { eapply steps_step; [apply steps_refl|]. eapply op_dial. exact E. }
  exists h. split; [exact Hs|].
  exact (host_invariant (RT:=direct_io) (IoLaws0:=direct_io_laws) _ _ _ _ 256 1024 _ _ _ _
    eq_refl (toy_host_new 4001 x01 x02) Hs).
Defined.

Lemma junk_keeps_connection_witness :
  let h := toy_connected 4001 x01 x02 4002 in
  let w := quiet_world [(socket_of_udp (loopback 4002), [x00; x01])] in
  exists e,
    io_run (IoRuntime:=direct_io)
      (recv_one (C:=toy_crypto) (RT:=direct_io) h (arr_repeat 32 x03)) w =
    (Returned (Ok (h, Rejected (loopback 4002) ("transport decrypt failed: " ++ error_display e ++
       "; datagram dropped, connection kept")%string)), world_received w).
Proof.
  intros h w.
  assert (Hconn : exists conn, host_established h !! loopback 4002 = Some conn /\
    conn_transport conn = transport_new (arr_repeat 32 x01) (arr_repeat 32 x02)).
  { eexists. split; [apply lookup_singleton_eq|done]. }
  destruct Hconn as (conn & Hconn & Ht).
  assert (He : exists e,
    (transport_decrypt (C:=toy_crypto) (conn_transport conn) [x00; x01]).2 = Err e).
  { rewrite Ht. eexists. reflexivity. }
  destruct He as [e He]. exists e.
  apply (junk_keeps_connection (C:=toy_crypto) (RT:=direct_io) (IoLaws0:=direct_io_laws)
    h (loopback 4002) [x00; x01] _ w [] conn e); [done| |done|done].
  change (2 <= N.to_nat 65507). lia.
Defined.

Lemma unvalidated_source_creates_no_state_witness :
  let h := toy_host 4001 x01 x02 in
  let d := replicate 32 x09 in
  let w := quiet_world [(socket_of_udp (loopback 4002), d)] in
  exists h' ev w',
    io_run (IoRuntime:=direct_io)
      (recv_one (C:=toy_crypto) (RT:=direct_io) h (arr_repeat 32 x03)) w =
      (Returned (Ok (h', ev)), w') /\
    ((exists e, length e = MESSAGE_1_LEN /\
       d = e ++ arr_list (mint (C:=toy_crypto) (id_cookie_secret (host_identity h)) (loopback 4002) e)) \/
     (host_handshakes h' = host_handshakes h /\ host_established h' = host_established h /\
      (w_sent w' = w_sent w \/
       exists reply, w_sent w' = w_sent w ++ [(socket_of_udp (loopback 4002), reply)] /\
         length reply < length d))).
Proof.
  intros h d w.
  assert (E : exists h' ev w', io_run (IoRuntime:=direct_io)
    (recv_one (C:=toy_crypto) (RT:=direct_io) h (arr_repeat 32 x03)) w =
    (Returned (Ok (h', ev)), w')).
  { eexists _, _, _. etrans.
    - eapply (run_recv_step (C:=toy_crypto) (RT:=direct_io) (IoLaws0:=direct_io_laws)
        h _ w (loopback 4002) d []); [done| |by apply step_bare_msg1|done].
      change (32 <= N.to_nat 65507). lia.
    - by reflexivity. }
  destruct E as (h' & ev & w' & E). exists h', ev, w'. split; [exact E|].
  refine (unvalidated_source_creates_no_state (C:=toy_crypto) (RT:=direct_io)
    (IoLaws0:=direct_io_laws) h (loopback 4002) d _ w [] h' ev w' eq_refl _ eq_refl eq_refl E).
  change (32 <= N.to_nat 65507). lia.
Defined.

Lemma unknown_junk_ages_connections_witness :
  let h := toy_connected 4001 x01 x02 4002 in
  let w := quiet_world (replicate 3 (socket_of_udp (loopback 4003), [x00])) in
  exists h' w', io_run (IoRuntime:=direct_io)
      (receive_n (C:=toy_crypto) (RT:=direct_io) 3 h (arr_repeat 32 x03)) w = (Returned (Ok h'), w') /\
    host_established h' = host_established h /\
    forall a c, host_established h !! a = Some c ->
      (uval (conn_last_activity c) + uval (uint_wrap (w:=64) 1) <
        uval (host_tick h) + N.of_nat 3)%N ->
      a ∈ (evict_idle h' (uint_wrap 1)).2 /\
      host_established (evict_idle h' (uint_wrap 1)).1 !! a = None.
Proof.
  intros h w.
  apply (unknown_junk_ages_connections (C:=toy_crypto) (RT:=direct_io) (IoLaws0:=direct_io_laws)
    h (loopback 4003) [x00] _ w [] 3); try done.
  change (1 <= N.to_nat 65507). lia.
Defined.

Lemma recv_one_survives_witness :
  let h := toy_host 4001 x01 x02 in
  let w := quiet_world [(socket_of_udp (loopback 4002), [x00])] in
  exists h' ev w', io_run (IoRuntime:=direct_io)
    (recv_one (C:=toy_crypto) (RT:=direct_io) h (arr_repeat 32 x03)) w =
    (Returned (Ok (h', ev)), w') /\ host_ok (C:=toy_crypto) h'.
Proof.
  intros h w.
  apply (recv_one_survives (C:=toy_crypto) (RT:=direct_io) (IoLaws0:=direct_io_laws)
    (CryptoLaws0:=toy_crypto_laws) h _ w (loopback 4002) [x00] []); try done.
  apply toy_host_ok.
Defined.
