(* ===== verification/HostE2E.v ===== *)
(** * Two hosts connect and talk

    The whole life of a connection between two hosts: dial, cookie
    challenge, cookie echo, message 2, message 3, and then a payload in each
    direction, each datagram handed from one host's socket to the other's. *)

From S2P Require Export HostProps.

Section scenario.
Context `{C : Crypto, RT : IoRuntime}.

(** Run [recv_one] on one datagram and read off what was sent. *)
Definition deliver (h : Host) (seed : arr 32) (from : UdpAddr) (d : list byte)
    : option (Host * HostEvent * list (list byte)) :=
  match io_run (recv_one h seed) (quiet_world [(socket_of_udp from, d)]) with
  | (Returned (Ok (h', ev)), w) => Some (h', ev, (w_sent w).*2)
  | _ => None
  end.

(** Run an operation that only sends. *)
Definition sending (m : Io Error Host) : option (Host * list (list byte)) :=
  match io_run m (quiet_world []) with
  | (Returned (Ok h'), w) => Some (h', (w_sent w).*2)
  | _ => None
  end.

(** The same two in any world in which the next send works. *)
Definition receives (h : Host) (seed : arr 32) (from : UdpAddr) (d : list byte)
    (h' : Host) (ev : HostEvent) (reply : option (list byte)) : Prop :=
  forall w inbox, w_inbox w = Ok (socket_of_udp from, d) :: inbox -> send_fault w = None ->
    io_run (recv_one h seed) w =
      (Returned (Ok (h', ev)), world_reply (world_received w) from reply).
Definition sends (m : Io Error Host) (to : UdpAddr) (d : list byte) (h' : Host) : Prop :=
  forall w, send_fault w = None -> io_run m w = (Returned (Ok h'), world_sent w to d).

(** An identity whose parts belong together, as [with_capacity] builds it. *)
Definition identity_ok (i : HostIdentity) : Prop :=
  keypair_ok (id_static_keypair i) /\
  exists pk, signed_verify (id_signed_static_key i) (keypair_public (id_static_keypair i))
    = Ok (pk, id_peer_id i).

(** A socket that carries the handshake. *)
Definition socket_ok (t : UdpTransport) : Prop :=
  (N.of_nat HANDSHAKE_MAX <= max_send_payload t)%N /\
  (max_send_payload t <= recv_buf_size t)%N.

Definition unknown_to (h : Host) (a : UdpAddr) : Prop :=
  host_handshakes h !! a = None /\ host_established h !! a = None.

End scenario.

Section lemmas.
Context `{C : Crypto, RT : IoRuntime, !IoLaws RT, !CryptoLaws C}.

Lemma with_capacity_identity_ok sock key seed secret cap h :
  with_capacity sock (from_private_bytes key) (ed_from_seed seed) secret cap = Ok h ->
  identity_ok (host_identity h) /\ host_socket h = sock /\ (forall a, unknown_to h a) /\
  id_peer_id (host_identity h) = keypair_peer_id (ed_from_seed seed) /\
  id_static_keypair (host_identity h) = from_private_bytes key.
Proof.
  unfold with_capacity. destruct (signed_create _ _) as [s|] eqn:E; [|done].
  intros [= <-]. cbn [host_identity host_socket id_peer_id id_static_keypair].
  split_and!; [|done| |done|done].
  - split; [apply from_private_bytes_ok|]. apply signed_create_verify in E. eexists. exact E.
  - intros a. split; apply lookup_empty.
Qed.

Lemma verify_trailer i pk :
  signed_verify (id_signed_static_key i) (keypair_public (id_static_keypair i))
    = Ok (pk, id_peer_id i) ->
  verify_binding (arr_list (signed_to_bytes (id_signed_static_key i)))
    (keypair_public (id_static_keypair i)) = Ok (id_peer_id i).
Proof.
  intros Hv. unfold verify_binding. rewrite <- (app_nil_r (arr_list _)), signed_from_bytes_app.
  cbn [mbind result_bind]. by rewrite Hv.
Qed.

Lemma receives_step h seed from d h' ev reply :
  recv_step h from d seed h' ev reply -> (forall r, ev <> Rejected from r) ->
  length d <= N.to_nat (recv_buf_size (host_socket h)) ->
  (forall r, reply = Some r -> (N.of_nat (length r) <= max_send_payload (host_socket h))%N) ->
  receives h seed from d h' ev reply.
Proof.
  intros Hs Hev Hd Hr w inbox Hin Hf.
  rewrite (run_recv_step h seed w from d inbox h' ev reply Hin Hd Hs Hev).
  unfold after_reply. destruct reply as [r|]; [|done].
  destruct (N.ltb_spec (max_send_payload (host_socket h)) (N.of_nat (length r))) as [Hlt|_].
  { specialize (Hr r eq_refl). lia. }
  change (send_fault (world_received w)) with (send_fault w). by rewrite Hf.
Qed.

Lemma deliver_receives h seed from d h' ev reply :
  receives h seed from d h' ev reply -> deliver h seed from d = Some (h', ev, option_list reply).
Proof. intros Hr. unfold deliver. rewrite (Hr (quiet_world [(socket_of_udp from, d)]) [] eq_refl eq_refl). by destruct reply. Qed.

Lemma sending_sends m to d h' : sends m to d h' -> sending m = Some (h', [d]).
Proof. intros Hs. unfold sending. by rewrite (Hs (quiet_world []) eq_refl). Qed.

Lemma dial_sends h a seed :
  unknown_to h a -> socket_ok (host_socket h) ->
  exists after_e msg1,
    write_e (initiator_new (id_static_keypair (host_identity h))) seed = Ok (after_e, msg1) /\
    sends (dial h a seed) a msg1
      (host_with h
        (insert_handshake_with_lru (host_handshakes h) a
           (MkInFlight (InitiatorAwaitingResponse after_e msg1) (next_tick h))
           (max_handshakes_in_flight (host_capacity h)))
        (host_established h) (next_tick h)).
Proof.
  intros [Hh He] [Hs _]. destruct (run_dial h a seed (quiet_world []) Hh He) as (ae & m1 & Hw & _).
  exists ae, m1. split; [done|]. intros w Hf.
  destruct (run_dial h a seed w Hh He) as (ae' & m1' & Hw' & Hrun).
  rewrite Hw in Hw'. injection Hw' as <- <-. rewrite Hrun. unfold after_reply. rewrite Hf.
  rewrite write_e_eq in Hw. injection Hw as _ <-. rewrite length_arr.
  destruct (N.ltb_spec (max_send_payload (host_socket h)) (N.of_nat KEY_LEN)); [wire_lia|done].
Qed.

(** A fresh pair of mirrored transports carries a payload. *)
Lemma fresh_transport_roundtrip k1 k2 p :
  (N.of_nat (length p) < AEAD_SAFE_LEN)%N ->
  exists t d t', transport_encrypt (transport_new k1 k2) p = Ok (t, d) /\
    length d = length p + TRANSPORT_OVERHEAD /\
    transport_decrypt (transport_new k2 k1) d = (t', Ok p).
Proof.
  intros Hp. destruct (aead_encrypt_total k1 u64_zero [] p Hp) as [c Hc].
  assert (Henc : transport_encrypt (transport_new k1 k2) p =
    Ok (MkTransport k1 (uint_wrap 1) k2 u64_zero u64_zero, be_bytes 8 u64_zero ++ c)).
  { unfold transport_encrypt. cbn [send_key send_nonce transport_new]. rewrite Hc.
    cbn [mbind result_bind]. unfold checked_add. cbn [uval u64_zero].
    assert (uint_try (w:=64) (0 + 1) = Some (uint_wrap 1)) as ->; [|done].
    by apply uint_try_Some. }
  pose proof (transport_encrypt_length _ _ _ _ Henc) as Hlen.
  pose proof (transport_decrypt_spec _ _ (be_bytes 8 u64_zero ++ c) (transport_seen_new k2 k1)) as H.
  destruct (transport_decrypt (transport_new k2 k1) (be_bytes 8 u64_zero ++ c)) as [t' out] eqn:Ed.
  destruct H as (-> & _ & _). change (recv_key (transport_new k2 k1)) with k1 in Ed.
  rewrite (spec_decrypt_genuine _ _ _ _ _ Hc), decide_True in Ed
    by (split; [apply not_elem_of_nil|done]).
  by eexists _, _, t'.
Qed.

(** Sending over an established connection with a fresh transport. *)
Lemma send_deliver h1 h2 a b seed k1 k2 p c1 c2 :
  host_established h1 !! b = Some c1 -> conn_transport c1 = transport_new k1 k2 ->
  host_established h2 !! a = Some c2 -> conn_transport c2 = transport_new k2 k1 ->
  (N.of_nat (length p) < AEAD_SAFE_LEN)%N ->
  (N.of_nat (length p + TRANSPORT_OVERHEAD) <= max_send_payload (host_socket h1))%N ->
  (max_send_payload (host_socket h1) <= recv_buf_size (host_socket h2))%N ->
  exists h1' d h2', sending (host_send h1 b p) = Some (h1', [d]) /\
    deliver h2 seed a d = Some (h2', DatagramDelivered a p, []).
Proof.
  intros Hc1 Ht1 Hc2 Ht2 Hp Hmax Hbuf.
  destruct (fresh_transport_roundtrip k1 k2 p Hp) as (t & d & t' & He & Hlen & Hd).
  assert (Hsend : exists h1', sending (host_send h1 b p) = Some (h1', [d])).
  { unfold sending, host_send, prepare_send. destruct h1 as [sock ident hs es cap tick].
    rewrite run_bind_eq, run_result. cbn [host_established] in Hc1. rewrite Hc1.
    cbn [ok_or_else mbind result_bind]. rewrite Ht1, He. cbn [mbind result_bind run_bind].
    rewrite run_send_map. unfold after_reply. cbn [host_socket] in Hmax.
    destruct (N.ltb_spec (max_send_payload sock) (N.of_nat (length d))) as [?|_]; [lia|].
    by eexists. }
  destruct Hsend as [h1' Hsend]. eexists h1', d, _. split; [done|].
  apply (deliver_receives _ _ _ _ _ _ None).
  eapply (receives_step _ _ _ _ _ _ None); [|done| |done].
  - eapply step_delivered; [exact Hc2|]. by rewrite Ht2.
  - lia.
Qed.

End lemmas.

(** ** The handshake, one datagram at a time

    What each datagram does to the two hosts, whatever else their tables
    hold: [h] at [a] dials [g] at [b]. *)

(** Room for connections to all of [bs]: nothing is evicted for them. *)
Definition map_room {V} (m : gmap UdpAddr V) (bs : list UdpAddr) (cap : nat) : Prop :=
  size (dom m ∪ list_to_set bs) <= cap.

Lemma map_room_insert {V} (activity : V -> u64) m bs cap b e :
  map_room m bs cap -> b ∈ bs ->
  insert_with_lru activity m b e cap = <[b := e]> m /\ map_room (<[b := e]> m) bs cap.
Proof.
  intros Hm Hb. unfold map_room in *. split.
  - destruct (insert_with_lru_cases activity m b e cap) as [[-> _]|(v & x & Hn & _ & Hcap & _)]; [done|].
    assert (size m < size (dom m ∪ list_to_set bs)); [|lia].
    rewrite <- size_dom. apply subset_size. split; [set_solver|]. intros Hsub.
    assert (b ∈ dom m) as []%elem_of_dom; [set_solver|congruence].
  - rewrite dom_insert_L. by replace ({[b]} ∪ dom m ∪ list_to_set bs) with (dom m ∪ list_to_set bs) by set_solver.
Qed.

Lemma map_room_delete {V} (m : gmap UdpAddr V) bs cap b : map_room m bs cap -> map_room (delete b m) bs cap.
Proof.
  unfold map_room. intros Hm. etransitivity; [|exact Hm]. apply subseteq_size. rewrite dom_delete_L. set_solver.
Qed.

Definition has_room (h : Host) (bs : list UdpAddr) : Prop :=
  map_room (host_handshakes h) bs (max_handshakes_in_flight (host_capacity h)) /\
  map_room (host_established h) bs (max_established (host_capacity h)).

(** [h'] is [h] up to what concerns [b]. *)
Definition elsewhere (b : UdpAddr) (h h' : Host) : Prop :=
  host_frame h h' /\ forall x, x <> b ->
    host_handshakes h' !! x = host_handshakes h !! x /\ host_established h' !! x = host_established h !! x.

(** With room for [bs], only [b] of them is concerned, and the room is kept. *)
Definition only_with_room (b : UdpAddr) (h h' : Host) : Prop :=
  forall bs, has_room h bs -> b ∈ bs -> elsewhere b h h' /\ has_room h' bs.

Lemma put_handshake_room h bs b e :
  has_room h bs -> b ∈ bs ->
  put_handshake h b e = <[b := e]> (host_handshakes h) /\
  map_room (<[b := e]> (host_handshakes h)) bs (max_handshakes_in_flight (host_capacity h)).
Proof.
  intros [Hh _] Hb. unfold put_handshake, insert_handshake_with_lru.
  destruct (map_room_insert ifh_last_activity _ _ _ b e (map_room_delete _ _ _ b Hh) Hb) as [-> _].
  rewrite insert_delete_eq. split; [done|]. by apply (map_room_insert ifh_last_activity).
Qed.

Section steps.
Context `{C : Crypto, RT : IoRuntime, !IoLaws RT, !CryptoLaws C}.

(** [h] has dialed [b] with message 1 [m1]. *)
Definition dialing_to (h : Host) (b : UdpAddr) (s : arr 32) (m1 : list byte) : Prop :=
  exists ae la, write_e (initiator_new (id_static_keypair (host_identity h))) s = Ok (ae, m1) /\
    host_handshakes h !! b = Some (MkInFlight (InitiatorAwaitingResponse ae m1) la) /\
    host_established h !! b = None.

(** [g] has answered the message 1 [m1] from [a] with [m2]. *)
Definition responding_to (g : Host) (a : UdpAddr) (s : arr 32) (m1 m2 : list byte) : Prop :=
  exists rar la, msg1_outcome g m1 s = Ok (rar, m2) /\
    host_handshakes g !! a = Some (MkInFlight (ResponderAwaitingFinalize rar) la) /\
    host_established g !! a = None.

(** The noise of the handshake: what the responder's [msg1_outcome] and the
    initiator's [msg2_outcome] and the responder's [msg3_outcome] yield. *)
Lemma handshake_outcomes h g sh sg after_e msg1 :
  identity_ok (host_identity h) -> identity_ok (host_identity g) ->
  write_e (initiator_new (id_static_keypair (host_identity h))) sh = Ok (after_e, msg1) ->
  exists rar msg2 msg3 k1 k2,
    msg1_outcome g msg1 sg = Ok (rar, msg2) /\
    length msg2 = HANDSHAKE_MAX /\ length msg3 <= HANDSHAKE_MAX /\
    msg2_outcome h after_e msg2 =
      Ok (transport_new k1 k2, msg3, keypair_public (id_static_keypair (host_identity g)),
          id_peer_id (host_identity g)) /\
    msg3_outcome rar msg3 =
      Ok (transport_new k2 k1, keypair_public (id_static_keypair (host_identity h)),
          id_peer_id (host_identity h)).
Proof.
  intros [HkA [pkA HvA]] [HkB [pkB HvB]]. rewrite write_e_eq. intros [= <- <-].
  pose proof (verify_trailer _ _ HvA) as VA. pose proof (verify_trailer _ _ HvB) as VB.
  set (kA := id_static_keypair (host_identity h)) in *.
  set (kB := id_static_keypair (host_identity g)) in *.
  set (e := eph_from_seed sh). set (sym := mix_hash _ []).
  assert (Htr : forall h, (N.of_nat (length (trailer_of h)) < AEAD_SAFE_LEN)%N).
  { intros x. rewrite length_trailer. done. }
  destruct (write_response_total (MkResponderAfterE kB (eph_public e) sym) sg
    (trailer_of g) (Htr _)) as (rar & msg2 & Ew & Hck).
  destruct (read_response_written kA kB e sym sg _ rar msg2 HkB Ew) as (Heph & L2 & Er).
  set (iar := MkInitiatorAfterResponse _ _ _ _) in Er.
  destruct (write_s_total iar (trailer_of h) (Htr _)) as (t & msg3 & st & Es).
  destruct (read_s_written _ _ _ _ _ _ _ _ Hck HkA Es) as (-> & L3 & k1 & k2 & -> & Ers).
  rewrite <- Heph in Ers.
  replace (MkResponderAfterResponse (rar_eph rar) (rar_sym rar)) with rar in Ers by (by destruct rar).
  exists rar, msg2, msg3, k1, k2. rewrite length_trailer in L2, L3. split_and!.
  - unfold msg1_outcome. fold kB. rewrite read_e_eq. cbn [mbind result_bind]. exact Ew.
  - by rewrite L2.
  - rewrite L3. wire_lia.
  - unfold msg2_outcome. rewrite Er. cbn [mbind result_bind].
    cbn [iar_remote_static iar]. fold (trailer_of g) in VB. rewrite VB. cbn [mbind result_bind].
    rewrite Es. done.
  - unfold msg3_outcome. rewrite Ers. cbn [mbind result_bind].
    unfold trailer_of. by rewrite VA.
Qed.

(** Message 1 and its challenge. *)
Lemma dial_step h g a b s :
  unknown_to h b -> unknown_to g a -> socket_ok (host_socket h) -> socket_ok (host_socket g) ->
  exists h' m1 g',
    sends (dial h b s) b m1 h' /\
    (forall s', receives g s' a m1 g' (HandshakeProgress a)
       (Some (challenge (id_cookie_secret (host_identity g)) a m1))) /\
    dialing_to h' b s m1 /\ unknown_to g' a /\ host_frame h h' /\ host_frame g g' /\ only_with_room b h h'.
Proof.
  intros Hh [Hg1 Hg2] Hs [HmB HrB]. destruct (dial_sends h b s Hh Hs) as (ae & m1 & He & Hdial).
  destruct Hh as [Hh1 Hh2].
  assert (L1 : length m1 = MESSAGE_1_LEN).
  { rewrite write_e_eq in He. injection He as _ <-. apply length_arr. }
  eexists _, m1, (host_with g (host_handshakes g) (host_established g) (next_tick g)).
  split_and!; [exact Hdial| | |done|done|done|].
  - intros s'. apply (receives_step _ _ _ _ _ _ (Some _)); [by apply step_bare_msg1|done|wire_lia|].
    intros r [= <-]. pose proof (length_challenge (id_cookie_secret (host_identity g)) a m1). wire_lia.
  - exists ae, (next_tick h). split_and!; [done|apply insert_with_lru_lookup|done].
  - intros bs [R1 R2] Hb.
    destruct (map_room_insert ifh_last_activity _ _ _ b
      (MkInFlight (InitiatorAwaitingResponse ae m1) (next_tick h)) R1 Hb) as [E R].
    unfold insert_handshake_with_lru. rewrite E. split; [|by split].
    split; [done|]. intros x Hx. cbn. by rewrite lookup_insert_ne.
Qed.

(** The echoed cookie and message 2. *)
Lemma challenge_step h g a b s sg m1 :
  identity_ok (host_identity h) -> identity_ok (host_identity g) ->
  dialing_to h b s m1 -> unknown_to g a -> socket_ok (host_socket h) -> socket_ok (host_socket g) ->
  exists h' d g' m2,
    (forall s', receives h s' b (challenge (id_cookie_secret (host_identity g)) a m1) h'
       (HandshakeProgress b) (Some d)) /\
    receives g sg a d g' (HandshakeProgress a) (Some m2) /\
    dialing_to h' b s m1 /\ responding_to g' a sg m1 m2 /\
    host_frame h h' /\ host_frame g g' /\ only_with_room b h h'.
Proof.
  intros HiA HiB (ae & la & He & Hh1 & Hh2) [Hg1 Hg2] [HmA HrA] [HmB HrB].
  destruct (handshake_outcomes h g s sg ae m1 HiA HiB He) as (rar & m2 & m3 & k1 & k2 & O1 & L2 & _).
  assert (L1 : length m1 = MESSAGE_1_LEN).
  { rewrite write_e_eq in He. injection He as _ <-. apply length_arr. }
  set (c := challenge (id_cookie_secret (host_identity g)) a m1).
  set (mac := arr_list (mint (id_cookie_secret (host_identity g)) a m1)).
  assert (Hc : length c = COOKIE_REPLY_LEN) by apply length_challenge.
  assert (Hmac : length mac = COOKIE_MAC_LEN) by apply length_arr.
  set (h' := host_with h (put_handshake h b (MkInFlight (InitiatorAwaitingResponse ae m1) la))
    (host_established h) (host_tick h)).
  set (g' := host_with g (insert_handshake_with_lru (host_handshakes g) a
    (MkInFlight (ResponderAwaitingFinalize rar) (next_tick g)) (max_handshakes_in_flight (host_capacity g)))
    (host_established g) (next_tick g)).
  exists h', (m1 ++ mac), g', m2. split_and!; [| | | |done|done|].
  - intros s'. apply (receives_step _ _ _ _ _ _ (Some (m1 ++ mac))); [|done|wire_lia|].
    + eapply (step_challenged h b c s' ae m1); [done|done|apply is_challenge_challenge].
    + intros r [= <-]. rewrite length_app. wire_lia.
  - apply (receives_step _ _ _ _ _ _ (Some m2)); [|done| |].
    + by apply (step_validated_msg1 g a _ sg m1).
    + rewrite length_app. wire_lia.
    + intros r [= <-]. wire_lia.
  - exists ae, la. split_and!; [done|apply insert_with_lru_lookup|done].
  - exists rar, (next_tick g). split_and!; [done|apply insert_with_lru_lookup|done].
  - intros bs HR Hb. destruct (put_handshake_room h bs b (MkInFlight (InitiatorAwaitingResponse ae m1) la) HR Hb)
      as [E R]. unfold h'. rewrite E. split; [|split; [exact R|apply HR]].
    split; [done|]. intros x Hx. cbn. by rewrite lookup_insert_ne.
Qed.

(** Message 2, message 3 and the sessions. *)
Lemma msg2_step h g a b s sg m1 m2 :
  identity_ok (host_identity h) -> identity_ok (host_identity g) ->
  dialing_to h b s m1 -> responding_to g a sg m1 m2 -> socket_ok (host_socket h) -> socket_ok (host_socket g) ->
  exists h' m3 g' cA cB k1 k2,
    (forall s', receives h s' b m2 h'
       (HandshakeComplete b (keypair_public (id_static_keypair (host_identity g)))
          (id_peer_id (host_identity g))) (Some m3)) /\
    (forall s', receives g s' a m3 g'
       (HandshakeComplete a (keypair_public (id_static_keypair (host_identity h)))
          (id_peer_id (host_identity h))) None) /\
    host_established h' !! b = Some cA /\ conn_transport cA = transport_new k1 k2 /\
    host_established g' !! a = Some cB /\ conn_transport cB = transport_new k2 k1 /\
    conn_remote_peer_id cB = id_peer_id (host_identity h) /\
    host_frame h h' /\ host_frame g g' /\ only_with_room b h h'.
Proof.
  intros HiA HiB (ae & la & He & Hh1 & Hh2) (rar & lb & Hm1 & Hg1 & Hg2) [HmA HrA] [HmB HrB].
  destruct (handshake_outcomes h g s sg ae m1 HiA HiB He) as (rar' & m2' & m3 & k1 & k2 & O1 & L2 & L3 & O2 & O3).
  rewrite O1 in Hm1. injection Hm1 as -> ->.
  set (cA := MkEstablished (transport_new k1 k2) (keypair_public (id_static_keypair (host_identity g)))
    (id_peer_id (host_identity g)) (next_tick h)).
  set (cB := MkEstablished (transport_new k2 k1) (keypair_public (id_static_keypair (host_identity h)))
    (id_peer_id (host_identity h)) (next_tick g)).
  exists (host_with h (delete b (host_handshakes h)) (put_established h b cA) (next_tick h)), m3,
    (host_with g (delete a (host_handshakes g)) (put_established g a cB) (next_tick g)), cA, cB, k1, k2.
  split_and!; try done; try apply insert_with_lru_lookup.
  - intros s'. apply (receives_step _ _ _ _ _ _ (Some m3)); [|done| |].
    + eapply (step_msg2 h b m2 s' ae m1); [done|done| |exact O2].
      unfold is_challenge. destruct (Nat.eqb_spec (length m2) COOKIE_REPLY_LEN); [wire_lia|done].
    + wire_lia.
    + intros r [= <-]. wire_lia.
  - intros s'. apply (receives_step _ _ _ _ _ _ None); [|done|wire_lia|done].
    eapply (step_msg3 g a m3 s' rar); [done|done|exact O3].
  - intros bs [R1 R2] Hb. destruct (map_room_insert conn_last_activity _ _ _ b cA R2 Hb) as [E R].
    unfold put_established, insert_established_with_lru. rewrite E.
    split; [|split; [by apply map_room_delete|exact R]]. split; [done|]. intros x Hx. cbn.
    by rewrite lookup_delete_ne, lookup_insert_ne.
Qed.

End steps.

Section connect.
Context `{C : Crypto, RT : IoRuntime, !IoLaws RT, !CryptoLaws C}.
Context (hA hB : Host) (a b : UdpAddr) (sA sB : arr 32).
Hypothesis (HiA : identity_ok (host_identity hA)) (HiB : identity_ok (host_identity hB)).
Hypothesis (HsA : socket_ok (host_socket hA)) (HsB : socket_ok (host_socket hB)).
Hypothesis (HuA : unknown_to hA b) (HuB : unknown_to hB a).

(** The whole handshake; only the two seeds that become ephemeral keys matter. *)
Lemma handshake_runs :
  exists A1 A2 A3 B1 B2 B3 m1 c m1c m2 m3 cA cB k1 k2,
    sends (dial hA b sA) b m1 A1 /\
    (forall s, receives hB s a m1 B1 (HandshakeProgress a) (Some c)) /\
    (forall s, receives A1 s b c A2 (HandshakeProgress b) (Some m1c)) /\
    receives B1 sB a m1c B2 (HandshakeProgress a) (Some m2) /\
    (forall s, receives A2 s b m2 A3
       (HandshakeComplete b (keypair_public (id_static_keypair (host_identity hB)))
          (id_peer_id (host_identity hB))) (Some m3)) /\
    (forall s, receives B2 s a m3 B3
       (HandshakeComplete a (keypair_public (id_static_keypair (host_identity hA)))
          (id_peer_id (host_identity hA))) None) /\
    host_socket A3 = host_socket hA /\ host_socket B3 = host_socket hB /\
    host_established A3 !! b = Some cA /\ conn_transport cA = transport_new k1 k2 /\
    host_established B3 !! a = Some cB /\ conn_transport cB = transport_new k2 k1.
Proof.
  destruct (dial_step hA hB a b sA HuA HuB HsA HsB)
    as (A1 & m1 & B1 & E1 & E2 & D1 & U1 & (FA1 & IA1 & _) & (FB1 & IB1 & _) & _).
  destruct (challenge_step A1 B1 a b sA sB m1) as (A2 & m1c & B2 & m2 & E3 & E4 & D2 & R2 &
    (FA2 & IA2 & _) & (FB2 & IB2 & _) & _); rewrite ?IA1, ?IB1, ?FA1, ?FB1; try done.
  destruct (msg2_step A2 B2 a b sA sB m1 m2) as (A3 & m3 & B3 & cA & cB & k1 & k2 & E5 & E6 & LA & TA & LB & TB & _ &
    (FA3 & _) & (FB3 & _) & _); rewrite ?IA2, ?IB2, ?FA2, ?FB2, ?IA1, ?IB1, ?FA1, ?FB1; try done.
  rewrite IA2, IA1 in E6. rewrite IB2, IB1 in E5.
  exists A1, A2, A3, B1, B2, B3, m1, (challenge (id_cookie_secret (host_identity hB)) a m1), m1c, m2, m3, cA, cB, k1, k2.
  rewrite IB1 in E3. split_and!; try done; congruence.
Qed.

Lemma hosts_handshake :
  exists A1 A2 A3 B1 B2 B3 m1 c m1c m2 m3 cA cB k1 k2,
    sending (dial hA b sA) = Some (A1, [m1]) /\
    deliver hB sB a m1 = Some (B1, HandshakeProgress a, [c]) /\
    deliver A1 sA b c = Some (A2, HandshakeProgress b, [m1c]) /\
    deliver B1 sB a m1c = Some (B2, HandshakeProgress a, [m2]) /\
    deliver A2 sA b m2 =
      Some (A3, HandshakeComplete b (keypair_public (id_static_keypair (host_identity hB)))
                  (id_peer_id (host_identity hB)), [m3]) /\
    deliver B2 sB a m3 =
      Some (B3, HandshakeComplete a (keypair_public (id_static_keypair (host_identity hA)))
                  (id_peer_id (host_identity hA)), []) /\
    host_socket A3 = host_socket hA /\ host_socket B3 = host_socket hB /\
    host_established A3 !! b = Some cA /\ conn_transport cA = transport_new k1 k2 /\
    host_established B3 !! a = Some cB /\ conn_transport cB = transport_new k2 k1.
Proof.
  destruct handshake_runs
    as (A1 & A2 & A3 & B1 & B2 & B3 & m1 & c & m1c & m2 & m3 & cA & cB & k1 & k2 &
        E1 & E2 & E3 & E4 & E5 & E6 & Hrest).
  exists A1, A2, A3, B1, B2, B3, m1, c, m1c, m2, m3, cA, cB, k1, k2.
  split_and!; try apply Hrest; [by apply sending_sends in E1|..].
  - apply (deliver_receives _ _ _ _ _ _ _ (E2 _)).
  - apply (deliver_receives _ _ _ _ _ _ _ (E3 _)).
  - apply (deliver_receives _ _ _ _ _ _ _ E4).
  - apply (deliver_receives _ _ _ _ _ _ _ (E5 _)).
  - apply (deliver_receives _ _ _ _ _ _ _ (E6 _)).
Qed.

End connect.

(** ** Properties *)

Section properties.
Context `{C : Crypto, RT : IoRuntime, !IoLaws RT, !CryptoLaws C}.

(** C1: two hosts with consistent identities, adequate sockets and no prior
    knowledge of each other connect: dial, cookie challenge, cookie echo,
    message 2 and message 3, delivered in order, complete the handshake on
    both sides, each side learning the other's static key and PeerId; after
    that a payload sent by either is delivered by the other. *)
Theorem hosts_connect_and_talk (hA hB : Host) (a b : UdpAddr) (sA sB : arr 32) (p q : list byte) :
  identity_ok (host_identity hA) -> identity_ok (host_identity hB) ->
  socket_ok (host_socket hA) -> socket_ok (host_socket hB) ->
  unknown_to hA b -> unknown_to hB a ->
  (N.of_nat (length p + TRANSPORT_OVERHEAD) <= max_send_payload (host_socket hA))%N ->
  (N.of_nat (length q + TRANSPORT_OVERHEAD) <= max_send_payload (host_socket hB))%N ->
  (max_send_payload (host_socket hA) <= recv_buf_size (host_socket hB))%N ->
  (max_send_payload (host_socket hB) <= recv_buf_size (host_socket hA))%N ->
  (max_send_payload (host_socket hA) < AEAD_SAFE_LEN)%N ->
  (max_send_payload (host_socket hB) < AEAD_SAFE_LEN)%N ->
  exists A1 A2 A3 B1 B2 B3 m1 c m1c m2 m3,
    sending (dial hA b sA) = Some (A1, [m1]) /\
    deliver hB sB a m1 = Some (B1, HandshakeProgress a, [c]) /\
    deliver A1 sA b c = Some (A2, HandshakeProgress b, [m1c]) /\
    deliver B1 sB a m1c = Some (B2, HandshakeProgress a, [m2]) /\
    deliver A2 sA b m2 =
      Some (A3, HandshakeComplete b (keypair_public (id_static_keypair (host_identity hB)))
                  (id_peer_id (host_identity hB)), [m3]) /\
    deliver B2 sB a m3 =
      Some (B3, HandshakeComplete a (keypair_public (id_static_keypair (host_identity hA)))
                  (id_peer_id (host_identity hA)), []) /\
    (exists A4 d B4, sending (host_send A3 b p) = Some (A4, [d]) /\
       deliver B3 sB a d = Some (B4, DatagramDelivered a p, [])) /\
    (exists B4 d A4, sending (host_send B3 a q) = Some (B4, [d]) /\
       deliver A3 sA b d = Some (A4, DatagramDelivered b q, [])).
Proof.
  intros HiA HiB HsA HsB HuA HuB Hp Hq HbAB HbBA HaA HaB.
  destruct (hosts_handshake hA hB a b sA sB HiA HiB HsA HsB HuA HuB)
    as (A1 & A2 & A3 & B1 & B2 & B3 & m1 & c & m1c & m2 & m3 & cA & cB & k1 & k2 &
        E1 & E2 & E3 & E4 & E5 & E6 & SA & SB & LA & TA & LB & TB).
  exists A1, A2, A3, B1, B2, B3, m1, c, m1c, m2, m3.
  split_and!; try done.
  - apply (send_deliver A3 B3 a b sB k1 k2 p cA cB); rewrite ?SA, ?SB; try done; lia.
  - apply (send_deliver B3 A3 b a sA k2 k1 q cB cA); rewrite ?SA, ?SB; try done; lia.
Qed.

End properties.

Lemma toy_identity_ok port key seed :
  identity_ok (C:=toy_crypto) (host_identity (toy_host port key seed)).
Proof.
  apply (with_capacity_identity_ok (C:=toy_crypto) (CryptoLaws0:=toy_crypto_laws)
    _ _ _ _ _ _ (toy_host_new port key seed)).
Qed.

Lemma hosts_connect_and_talk_witness :
  let hA := toy_host 4001 x01 x02 in
  let hB := toy_host 4002 x03 x04 in
  let a := loopback 4001 in
  let b := loopback 4002 in
  let sA := arr_repeat 32 x05 in
  let sB := arr_repeat 32 x06 in
  exists A1 A2 A3 B1 B2 B3 m1 c m1c m2 m3,
    sending (RT:=direct_io) (dial (C:=toy_crypto) (RT:=direct_io) hA b sA) = Some (A1, [m1]) /\
    deliver (C:=toy_crypto) (RT:=direct_io) hB sB a m1 = Some (B1, HandshakeProgress a, [c]) /\
    deliver (C:=toy_crypto) (RT:=direct_io) A1 sA b c = Some (A2, HandshakeProgress b, [m1c]) /\
    deliver (C:=toy_crypto) (RT:=direct_io) B1 sB a m1c = Some (B2, HandshakeProgress a, [m2]) /\
    deliver (C:=toy_crypto) (RT:=direct_io) A2 sA b m2 =
      Some (A3, HandshakeComplete b (keypair_public (id_static_keypair (host_identity hB)))
                  (id_peer_id (host_identity hB)), [m3]) /\
    deliver (C:=toy_crypto) (RT:=direct_io) B2 sB a m3 =
      Some (B3, HandshakeComplete a (keypair_public (id_static_keypair (host_identity hA)))
                  (id_peer_id (host_identity hA)), []) /\
    (exists A4 d B4, sending (RT:=direct_io) (host_send (C:=toy_crypto) (RT:=direct_io) A3 b [x0a]) =
         Some (A4, [d]) /\
       deliver (C:=toy_crypto) (RT:=direct_io) B3 sB a d = Some (B4, DatagramDelivered a [x0a], [])) /\
    (exists B4 d A4, sending (RT:=direct_io) (host_send (C:=toy_crypto) (RT:=direct_io) B3 a [x0b]) =
         Some (B4, [d]) /\
       deliver (C:=toy_crypto) (RT:=direct_io) A3 sA b d = Some (A4, DatagramDelivered b [x0b], [])).
Proof.
  intros hA hB a b sA sB.
  apply (hosts_connect_and_talk (C:=toy_crypto) (RT:=direct_io) (IoLaws0:=direct_io_laws)
    (CryptoLaws0:=toy_crypto_laws) hA hB a b sA sB [x0a] [x0b]); try done;
    apply toy_identity_ok.
Defined.
