(* ===== verification/HostLink.v ===== *)
(** * Two hosts with an established session

    [linked] says that the sessions two hosts hold for each other fit
    together: each side can still open everything the other side seals next.
    Sending over such a session, and receiving what was sent, keeps it; the
    exchanges of the protocols above the host are proved against this file. *)

From S2P Require Export HostE2E.

Section transports.
Context `{C : Crypto}.

(** What [tS] seals next, [tR] has not seen. *)
Record hears (tS tR : TransportState) : Prop := Hears {
  hears_key : recv_key tR = send_key tS;
  hears_seen : exists seen, transport_seen tR seen /\
    forall n, n ∈ seen -> (uval n < uval (send_nonce tS))%N
}.

(** Nonces left: the next [k] datagrams can be sent. *)
Definition nonces_left (t : TransportState) (k : N) : Prop := (uval (send_nonce t) + k < 2 ^ 64)%N.

Lemma hears_new k1 k2 : hears (transport_new k1 k2) (transport_new k2 k1).
Proof.
  split; [done|]. exists []. split; [apply transport_seen_new|]. by intros n Hn%elem_of_nil.
Qed.

Context `{!CryptoLaws C}.

(** With a nonce left, a payload the AEAD carries is sealed. *)
Lemma transport_encrypt_total t p :
  nonces_left t 1 -> (N.of_nat (length p) < AEAD_SAFE_LEN)%N ->
  exists t' d, transport_encrypt t p = Ok (t', d).
Proof.
  intros Hn Hp. destruct (aead_encrypt_total (send_key t) (send_nonce t) [] p Hp) as [c Hc].
  unfold transport_encrypt. rewrite Hc. cbn [mbind result_bind]. unfold checked_add.
  destruct (uint_try _) as [n|] eqn:En; [by eexists _, _|].
  apply uint_try_None in En. unfold nonces_left in Hn. lia.
Qed.

(** One datagram from [tS] to [tR]. *)
Lemma hears_transfer tS tR p :
  hears tS tR -> nonces_left tS 1 -> (N.of_nat (length p) < AEAD_SAFE_LEN)%N ->
  exists tS' d tR', transport_encrypt tS p = Ok (tS', d) /\
    length d = length p + TRANSPORT_OVERHEAD /\
    transport_decrypt tR d = (tR', Ok p) /\
    hears tS' tR' /\ (forall t, hears t tS -> hears t tS') /\ (forall t, hears tR t -> hears tR' t) /\
    uval (send_nonce tS') = (uval (send_nonce tS) + 1)%N /\ send_nonce tR' = send_nonce tR.
Proof.
  intros [Hkey (seen & Hseen & Hlt)] Hn Hp.
  pose proof (transport_encrypt_total tS p Hn Hp) as Henc.
  destruct Henc as (tS' & d & Henc). pose proof (transport_encrypt_length _ _ _ _ Henc) as Hlen.
  destruct (transport_encrypt_Ok _ _ _ _ Henc) as (c' & Hc' & -> & Hn' & Hk1 & Hk2 & Hm & Hw).
  set (d := be_bytes 8 (send_nonce tS) ++ c') in *.
  assert (Hfresh : spec_fresh seen (send_nonce tS)).
  { split; [intros Hin%Hlt; lia|]. apply spec_max_lt; [unfold REPLAY_WINDOW_BITS; lia|].
    intros n Hin%Hlt. unfold REPLAY_WINDOW_BITS. lia. }
  pose proof (transport_decrypt_spec tR seen d Hseen) as Hd.
  destruct (transport_decrypt tR d) as [tR' out] eqn:Ed. destruct Hd as (Hout & Hseen' & Hrk).
  assert (Hspec : spec_decrypt (recv_key tR) seen d = Ok p).
  { rewrite Hkey. unfold d. rewrite (spec_decrypt_genuine _ _ _ _ _ Hc'). by rewrite decide_True. }
  rewrite Hspec in Hout. subst out. unfold spec_accept in Hseen'. rewrite Hspec in Hseen'.
  cbn [is_ok] in Hseen'. unfold d in Hseen'. rewrite datagram_nonce_app in Hseen'.
  assert (Hsend : send_key tR' = send_key tR /\ send_nonce tR' = send_nonce tR).
  { unfold transport_decrypt in Ed.
    destruct (match decrypt_checked _ _ _ _ with Ok _ => _ | Err _ => _ end) as [[? ?] ?].
    by injection Ed as <- _. }
  exists tS', d, tR'. split_and!; try done.
  - split; [congruence|]. exists (send_nonce tS :: seen). split; [done|].
    intros n [->|Hin%Hlt]%elem_of_cons; lia.
  - intros t [Hkt (seen0 & Hs0 & Hlt0)]. split; [congruence|]. exists seen0. split; [|done].
    unfold transport_seen in *. by rewrite Hm, Hw.
  - intros t [Hkt (seen0 & Hs0 & Hlt0)]. destruct Hsend as [Hs1 Hs2].
    split; [congruence|]. exists seen0. by rewrite Hs2.
  - by destruct Hsend.
Qed.

End transports.

Section links.
Context `{C : Crypto, RT : IoRuntime, !IoLaws RT, !CryptoLaws C}.

(** [hA] at [a] and [hB] at [b] hold sessions that fit, with [k] nonces left
    on either side. *)
Record linked (hA : Host) (a : UdpAddr) (hB : Host) (b : UdpAddr) (k : N) : Prop := Linked {
  lkd_conn : exists cA cB,
    host_established hA !! b = Some cA /\ host_established hB !! a = Some cB /\
    hears (conn_transport cA) (conn_transport cB) /\
    hears (conn_transport cB) (conn_transport cA) /\
    nonces_left (conn_transport cA) k /\ nonces_left (conn_transport cB) k;
  lkd_buf_ab : (max_send_payload (host_socket hA) <= recv_buf_size (host_socket hB))%N;
  lkd_buf_ba : (max_send_payload (host_socket hB) <= recv_buf_size (host_socket hA))%N
}.

(** Fresh mirrored transports make a link. *)
Lemma linked_fresh hA a hB b cA cB k1 k2 :
  host_established hA !! b = Some cA -> conn_transport cA = transport_new k1 k2 ->
  host_established hB !! a = Some cB -> conn_transport cB = transport_new k2 k1 ->
  (max_send_payload (host_socket hA) <= recv_buf_size (host_socket hB))%N ->
  (max_send_payload (host_socket hB) <= recv_buf_size (host_socket hA))%N ->
  linked hA a hB b (2 ^ 64 - 1).
Proof.
  intros HA TA HB TB Hb1 Hb2. split; [|done..]. exists cA, cB.
  rewrite TA, TB. split_and!; try done; apply hears_new.
Qed.

Lemma linked_weaken hA a hB b k k' : linked hA a hB b k -> (k' <= k)%N -> linked hA a hB b k'.
Proof.
  intros [(cA & cB & HA & HB & HAB & HBA & NA & NB) Hb1 Hb2] Hk. split; [|done..].
  exists cA, cB. split_and!; try done; unfold nonces_left in *; lia.
Qed.

Lemma linked_sym hA a hB b k : linked hA a hB b k -> linked hB b hA a k.
Proof. intros [(cA & cB & ?) ? ?]. split; [|done..]. exists cB, cA. naive_solver. Qed.

(** A payload the sender's socket and the AEAD carry. *)
Definition payload_fits (h : Host) (p : list byte) : Prop :=
  (N.of_nat (length p + TRANSPORT_OVERHEAD) <= max_send_payload (host_socket h))%N /\
  (N.of_nat (length p) < AEAD_SAFE_LEN)%N.

(** Sending and receiving over a link: what the two hosts do, and the link
    they are left with.  PeerIds and every other connection stay. *)
Lemma linked_transfer hA a hB b k p :
  linked hA a hB b (k + 1) -> payload_fits hA p ->
  exists hA' d hB',
    (forall w, send_fault w = None ->
       io_run (host_send hA b p) w = (Returned (Ok hA'), world_sent w b d)) /\
    (forall seed w inbox, w_inbox w = Ok (socket_of_udp a, d) :: inbox ->
       io_run (recv_one hB seed) w = (Returned (Ok (hB', DatagramDelivered a p)), world_received w)) /\
    linked hA' a hB' b k /\
    host_frame hA hA' /\ host_frame hB hB' /\
    (forall x, remote_peer_id_of hA' x = remote_peer_id_of hA x) /\
    (forall x, remote_peer_id_of hB' x = remote_peer_id_of hB x) /\
    (forall x, x <> b -> host_established hA' !! x = host_established hA !! x) /\
    (forall x, x <> a -> host_established hB' !! x = host_established hB !! x).
Proof.
  intros [(cA & cB & HA & HB & HAB & HBA & NA & NB) Hb1 Hb2] [Hmax Hsafe].
  destruct (hears_transfer _ _ p HAB ltac:(unfold nonces_left in *; lia) Hsafe)
    as (tA & d & tB & He & Hlen & Hd & H1 & H2 & H3 & H4 & H5).
  exists (host_sent hA b cA tA), d,
    (host_with hB (host_handshakes hB)
      (<[a := MkEstablished tB (conn_remote_static cB) (conn_remote_peer_id cB) (next_tick hB)]>
         (host_established hB)) (next_tick hB)).
  split_and!.
  - intros w Hf. rewrite run_host_send, HA, He. unfold after_reply. rewrite Hf.
    destruct (N.ltb_spec (max_send_payload (host_socket hA)) (N.of_nat (length d))); [lia|done].
  - intros seed w inbox Hin.
    refine (run_recv_step hB seed w a d inbox _ _ None Hin _ _ _); [lia| |done].
    by apply step_delivered.
  - split; [|done..].
    eexists (MkEstablished tA _ _ _), (MkEstablished tB _ _ _).
    split_and!; try apply lookup_insert_eq; cbn [conn_transport]; try done.
    + by apply H3, H2.
    + unfold nonces_left in *. lia.
    + unfold nonces_left in *. rewrite H5. lia.
  - done.
  - done.
  - intros x. unfold remote_peer_id_of, host_sent. cbn [host_established host_with].
    destruct (decide (b = x)) as [<-|Hne]; [by rewrite lookup_insert_eq, HA|].
    by rewrite lookup_insert_ne.
  - intros x. unfold remote_peer_id_of. cbn [host_established host_with].
    destruct (decide (a = x)) as [<-|Hne]; [by rewrite lookup_insert_eq, HB|].
    by rewrite lookup_insert_ne.
  - intros x Hx. unfold host_sent. cbn [host_established host_with]. by rewrite lookup_insert_ne.
  - intros x Hx. cbn [host_established host_with]. by rewrite lookup_insert_ne.
Qed.

(** A request and its reply: what either side sends and receives. *)
Lemma linked_exchange hA a hB b k p q :
  linked hA a hB b (k + 2) -> payload_fits hA p -> payload_fits hB q ->
  exists hA1 d hB1 hB2 d' hA2,
    (forall w, send_fault w = None ->
       io_run (host_send hA b p) w = (Returned (Ok hA1), world_sent w b d)) /\
    (forall seed w inbox, w_inbox w = Ok (socket_of_udp a, d) :: inbox ->
       io_run (recv_one hB seed) w = (Returned (Ok (hB1, DatagramDelivered a p)), world_received w)) /\
    (forall w, send_fault w = None ->
       io_run (host_send hB1 a q) w = (Returned (Ok hB2), world_sent w a d')) /\
    (forall seed w inbox, w_inbox w = Ok (socket_of_udp b, d') :: inbox ->
       io_run (recv_one hA1 seed) w = (Returned (Ok (hA2, DatagramDelivered b q)), world_received w)) /\
    linked hA2 a hB2 b k /\
    (forall x, remote_peer_id_of hB1 x = remote_peer_id_of hB x).
Proof.
  intros Hl Hp Hq. replace (k + 2)%N with (k + 1 + 1)%N in Hl by lia.
  destruct (linked_transfer hA a hB b (k + 1) p Hl Hp)
    as (hA1 & d & hB1 & Hs & Hr & Hl1 & _ & (FB & _) & _ & PB & _).
  assert (Hq1 : payload_fits hB1 q) by (unfold payload_fits in *; by rewrite FB).
  destruct (linked_transfer hB1 b hA1 a k q (linked_sym _ _ _ _ _ Hl1) Hq1)
    as (hB2 & d' & hA2 & Hs' & Hr' & Hl2 & _).
  exists hA1, d, hB1, hB2, d', hA2. split_and!; try done. by apply linked_sym.
Qed.

(** A link does not depend on the rest of a host. *)
Lemma linked_frame hA hA' a hB b k :
  linked hA a hB b k -> host_frame hA hA' ->
  host_established hA' !! b = host_established hA !! b -> linked hA' a hB b k.
Proof.
  intros [(cA & cB & HA & HB & H) Hb1 Hb2] (Hs & _ & _) He.
  split; [exists cA, cB; split_and!; [by rewrite He|done|apply H..]|by rewrite Hs|by rewrite Hs].
Qed.

Lemma linked_established hA a hB b k : linked hA a hB b k -> is_established hA b = true.
Proof.
  intros [(cA & cB & HA & _) _ _]. unfold is_established. apply contains_key_true. by exists cA.
Qed.

(** ** Streams over a link *)

(** The receiver at the end of a stream from [a]: each datagram delivers its
    payload. *)
Inductive recv_chain (a : UdpAddr) : Host -> list (list byte * list byte) -> Host -> Prop :=
| recv_chain_nil h : recv_chain a h [] h
| recv_chain_cons h d p h1 l h2 :
    (forall seed w inbox, w_inbox w = Ok (socket_of_udp a, d) :: inbox ->
       io_run (recv_one h seed) w = (Returned (Ok (h1, DatagramDelivered a p)), world_received w)) ->
    recv_chain a h1 l h2 -> recv_chain a h ((d, p) :: l) h2.

End links.

(** ** Two concrete hosts with a session *)

(** The toy host at [port] with a session to the one at [port'], sealing with
    [k1] and opening with [k2]. *)
Definition toy_session (port : N) (key seed : byte) (port' : N) (key' seed' k1 k2 : byte) : Host :=
  host_with (toy_host port key seed) ∅
    {[ loopback port' := MkEstablished (transport_new (arr_repeat 32 k1) (arr_repeat 32 k2))
         (keypair_public (toy_keypair key')) (from_ed25519 (arr_repeat 32 seed')) u64_zero ]}
    u64_zero.

(** A connection proved by the toy signature. *)
Lemma toy_conn_bound key seed' t tick :
  conn_bound (C:=toy_crypto) (MkEstablished t (keypair_public (toy_keypair key))
    (from_ed25519 (arr_repeat 32 seed')) tick).
Proof.
  eexists (MkEd25519PublicKey (arr_repeat 32 seed')), (Toy.sign (arr_repeat 32 seed') _), _.
  split; [reflexivity|]. split; [|reflexivity]. cbn. by rewrite decide_True.
Qed.

Lemma toy_session_ok port key seed port' key' seed' k1 k2 :
  host_ok (C:=toy_crypto) (toy_session port key seed port' key' seed' k1 k2).
Proof.
  assert (Hcap : host_capacity (toy_session port key seed port' key' seed' k1 k2) = capacity_default)
    by reflexivity.
  split; rewrite ?Hcap; cbn [toy_session host_with host_handshakes host_established].
  - by intros a [? ?].
  - rewrite map_size_empty. apply Nat.le_0_l.
  - rewrite map_size_singleton. apply Nat.leb_le. reflexivity.
  - apply Nat.ltb_lt. reflexivity.
  - apply Nat.ltb_lt. reflexivity.
  - done.
  - intros a c Hc. apply lookup_singleton_Some in Hc as [_ <-]. apply toy_conn_bound.
Qed.

Definition toy_A : Host := toy_session 4001 x01 x02 4002 x03 x04 x0a x0b.
Definition toy_B : Host := toy_session 4002 x03 x04 4001 x01 x02 x0b x0a.

Lemma toy_linked k : (k < 2 ^ 64)%N -> linked toy_A (loopback 4001) toy_B (loopback 4002) k.
Proof.
  intros Hk. split; [|done..]. eexists _, _.
  split_and!; try apply lookup_singleton_eq; try apply hears_new; unfold nonces_left;
    cbn [conn_transport transport_new send_nonce uval u64_zero]; lia.
Qed.

(** A server at port 4003 with sessions to clients at 4001 and 4002. *)
Definition toy_conn (key seed k1 k2 : byte) : EstablishedConnection :=
  MkEstablished (transport_new (arr_repeat 32 k1) (arr_repeat 32 k2))
    (keypair_public (toy_keypair key))
    (from_ed25519 (arr_repeat 32 seed)) u64_zero.

Definition toy_client1 : Host := toy_session 4001 x01 x02 4003 x05 x06 x0a x0b.
Definition toy_client2 : Host := toy_session 4002 x03 x04 4003 x05 x06 x0c x0d.
Definition toy_server : Host :=
  host_with (toy_host 4003 x05 x06) ∅
    (<[loopback 4001 := toy_conn x01 x02 x0b x0a]> {[loopback 4002 := toy_conn x03 x04 x0d x0c]})
    u64_zero.

Lemma toy_server_ok : host_ok (C:=toy_crypto) toy_server.
Proof.
  assert (Hcap : host_capacity toy_server = capacity_default) by reflexivity.
  split; rewrite ?Hcap; cbn [toy_server host_with host_handshakes host_established].
  - by intros a [? ?].
  - rewrite map_size_empty. apply Nat.le_0_l.
  - etransitivity; [|apply (Nat.leb_le 2); reflexivity]. rewrite map_size_insert, map_size_singleton.
    case_match; unfold id; lia.
  - apply Nat.ltb_lt. reflexivity.
  - apply Nat.ltb_lt. reflexivity.
  - done.
  - intros a c [[_ <-]|[_ Hc]]%lookup_insert_Some; [|apply lookup_singleton_Some in Hc as [_ <-]];
      apply toy_conn_bound.
Qed.

Lemma toy_server_1 : host_established toy_server !! loopback 4001 = Some (toy_conn x01 x02 x0b x0a).
Proof. apply lookup_insert_eq. Qed.

Lemma toy_server_2 : host_established toy_server !! loopback 4002 = Some (toy_conn x03 x04 x0d x0c).
Proof. cbn [toy_server host_with host_established]. rewrite lookup_insert_ne by done. apply lookup_singleton_eq. Qed.

Lemma toy_linked_1 k : (k < 2 ^ 64)%N -> linked toy_client1 (loopback 4001) toy_server (loopback 4003) k.
Proof.
  intros Hk. split; [|done..]. eexists _, _.
  split_and!; [apply lookup_singleton_eq|apply toy_server_1|apply hears_new|apply hears_new|..];
    unfold nonces_left; cbn; lia.
Qed.

Lemma toy_linked_2 k : (k < 2 ^ 64)%N -> linked toy_server (loopback 4003) toy_client2 (loopback 4002) k.
Proof.
  intros Hk. split; [|done..]. eexists _, _.
  split_and!; [apply toy_server_2|apply lookup_singleton_eq|apply hears_new|apply hears_new|..];
    unfold nonces_left; cbn; lia.
Qed.
