(* ===== verification/HostFlight.v ===== *)
(** * Datagrams on the way

    [linked] hosts take turns; here one side sends on while the other has not
    received yet, and the network may lose datagrams and change their order.
    [in_flight] is a session with the datagrams sent over it and still to
    come; [arrives] says what a network may make of them; [arriving_at] is a
    session whose receiver will open what arrives.  The fan-outs of the
    gossip layer are proved against this file. *)

From S2P Require Export HostLink.

(** A datagram and the payload it carries. *)
Notation parcel := (list byte * list byte)%type.

(** What a network makes of the datagrams sent: it may lose any of them, and
    if they are no more than the replay window is wide, change their order. *)
Definition arrives {X} (sent got : list X) : Prop :=
  got `sublist_of` sent \/ (length sent <= 64 /\ got ⊆+ sent).

Lemma arrives_all {X} (l : list X) : arrives l l.
Proof. by left. Qed.

Lemma arrives_fmap {X Y} (f : X -> Y) l got : arrives l got -> arrives (f <$> l) (f <$> got).
Proof.
  intros [Hs|[H64 Hs]]; [left|right; rewrite length_fmap; split; [done|]].
  - by apply fmap_sublist.
  - by apply fmap_submseteq.
Qed.

Lemma arrives_submseteq {X} (l got : list X) : arrives l got -> got ⊆+ l.
Proof. intros [Hs%sublist_submseteq|[_ Hs]]; done. Qed.

(** Datagrams that carry [f x] for each [x]: what arrives of them, as parcels. *)
Lemma arrives_parcels {X} (f : X -> list byte) (ds : list (list byte)) (xs : list X) got :
  arrives (zip ds xs) got ->
  exists l : list parcel, arrives (zip ds (f <$> xs)) l /\ l.*1 = got.*1 /\
    l.*2 = f <$> got.*2 /\ length l = length got.
Proof.
  intros Ha. apply (arrives_fmap (fun x => (x.1, f x.2))) in Ha. eexists. split_and!.
  - rewrite zip_with_fmap_r, zip_with_zip. erewrite (list_fmap_ext (uncurry _)); [exact Ha|].
    by intros i [].
  - by rewrite <- list_fmap_compose.
  - by rewrite <- !list_fmap_compose.
  - apply length_fmap.
Qed.

Lemma arrives_snd {X} (ds : list (list byte)) (xs : list X) got (P : X -> Prop) :
  arrives (zip ds xs) got -> Forall P xs -> Forall P got.*2.
Proof.
  intros Ha HP. rewrite Forall_forall in *. intros x ([d y] & -> & Hy)%list_elem_of_fmap.
  apply HP. eapply elem_of_submseteq in Hy; [|by apply arrives_submseteq]. by apply elem_of_zip_r in Hy.
Qed.

Definition nonces (l : list parcel) : list u64 := (fun x => datagram_nonce x.1) <$> l.

(** The replay window accepts [ns] in this order after it accepted [seen]. *)
Fixpoint acceptable (seen ns : list u64) : Prop :=
  match ns with
  | [] => True
  | n :: ns => spec_fresh seen n /\ acceptable (n :: seen) ns
  end.

Lemma acceptable_sorted ns : forall seen,
  StronglySorted (fun n m => (uval n < uval m)%N) ns ->
  (forall m n, m ∈ seen -> n ∈ ns -> (uval m < uval n)%N) -> acceptable seen ns.
Proof.
  induction ns as [|n ns IH]; intros seen Hs Hlt; [done|].
  apply StronglySorted_inv in Hs as [Hs Hn]. rewrite Forall_forall in Hn. split.
  - split.
    + intros Hin. pose proof (Hlt n n Hin (list_elem_of_here _ _)). lia.
    + apply spec_max_lt; [unfold REPLAY_WINDOW_BITS; lia|]. intros m Hin.
      pose proof (Hlt m n Hin (list_elem_of_here _ _)). unfold REPLAY_WINDOW_BITS. lia.
  - apply IH; [done|]. intros m n' [->|Hm]%elem_of_cons Hn'; [by apply Hn|].
    apply Hlt; [done|]. by apply list_elem_of_further.
Qed.

Lemma acceptable_window ns : forall seen,
  NoDup ns -> (forall n, n ∈ ns -> n ∉ seen) ->
  (forall m n, m ∈ seen ++ ns -> n ∈ ns -> (uval m < uval n + 64)%N) -> acceptable seen ns.
Proof.
  induction ns as [|n ns IH]; intros seen Hnd Hd Hw; [done|]. apply NoDup_cons in Hnd as [Hn Hnd]. split.
  - split; [by apply Hd, list_elem_of_here|]. apply spec_max_lt; [unfold REPLAY_WINDOW_BITS; lia|].
    intros m Hm. apply Hw; [|apply list_elem_of_here]. apply elem_of_app. by left.
  - apply IH; [done|..].
    + intros n' Hn' [->|Hs]%elem_of_cons; [done|]. by eapply Hd; [by apply list_elem_of_further|].
    + intros m n' Hm Hn'. apply Hw; [|by apply list_elem_of_further]. set_solver.
Qed.

Lemma StronglySorted_sublist {X} (P : X -> X -> Prop) l1 l2 :
  l1 `sublist_of` l2 -> StronglySorted P l2 -> StronglySorted P l1.
Proof.
  induction 1 as [|x l1 l2 Hsub IH|x l1 l2 Hsub IH]; [done|..];
    intros [Hs Hx]%StronglySorted_inv; [|by apply IH].
  constructor; [by apply IH|]. rewrite Forall_forall in *. intros y Hy. apply Hx.
  by eapply sublist_subseteq.
Qed.

Lemma sorted_NoDup ns : StronglySorted (fun n m : u64 => (uval n < uval m)%N) ns -> NoDup ns.
Proof.
  induction 1 as [|n ns Hs IH Hn]; constructor; [|done].
  rewrite Forall_forall in Hn. intros Hin%Hn. lia.
Qed.

Lemma submseteq_NoDup {X} (l1 l2 : list X) : l1 ⊆+ l2 -> NoDup l2 -> NoDup l1.
Proof. intros [l ->]%submseteq_Permutation Hd. by apply NoDup_app in Hd as (? & _). Qed.

Section transports.
Context `{C : Crypto}.

Definition sealed (key : arr KEY_LEN) (x : parcel) : Prop :=
  exists c, aead_encrypt key (datagram_nonce x.1) [] x.2 = Ok c /\
    x.1 = be_bytes 8 (datagram_nonce x.1) ++ c.

(** [tS] sent [l], in this order, and [tR] has received none of it. *)
Record flying (tS tR : TransportState) (l : list parcel) : Prop := Flying {
  fly_key : recv_key tR = send_key tS;
  fly_sealed : Forall (sealed (send_key tS)) l;
  fly_nonces i n : nonces l !! i = Some n ->
    (uval n + N.of_nat (length l) = uval (send_nonce tS) + N.of_nat i)%N;
  fly_seen : exists seen, transport_seen tR seen /\
    forall m, m ∈ seen -> (uval m + N.of_nat (length l) < uval (send_nonce tS))%N
}.

(** [tR] will open [got], in this order. *)
Record arriving (tS tR : TransportState) (got : list parcel) : Prop := Arriving {
  arr_key : recv_key tR = send_key tS;
  arr_sealed : Forall (sealed (send_key tS)) got;
  arr_seen : exists seen, transport_seen tR seen /\ acceptable seen (nonces got) /\
    forall m, m ∈ seen ++ nonces got -> (uval m < uval (send_nonce tS))%N
}.

Lemma flying_nil tS tR : hears tS tR -> flying tS tR [].
Proof.
  intros [Hk (seen & Hs & Hlt)]. split; [done|done|done|]. exists seen. split; [done|].
  intros m Hm%Hlt. cbn. lia.
Qed.

Lemma arriving_nil tS tR : arriving tS tR [] -> hears tS tR.
Proof.
  intros [Hk _ (seen & Hs & _ & Hlt)]. split; [done|]. exists seen. split; [done|].
  intros m Hm. apply Hlt. by rewrite app_nil_r.
Qed.

Lemma flying_nonce_bounds tS tR l n :
  flying tS tR l -> n ∈ nonces l ->
  (uval n < uval (send_nonce tS) /\ uval (send_nonce tS) <= uval n + N.of_nat (length l))%N.
Proof.
  intros Hf [i Hi]%list_elem_of_lookup_1. pose proof (fly_nonces _ _ _ Hf i n Hi).
  apply lookup_lt_Some in Hi. unfold nonces in Hi. rewrite length_fmap in Hi. lia.
Qed.

Lemma flying_sorted tS tR l :
  flying tS tR l -> StronglySorted (fun n m => (uval n < uval m)%N) (nonces l).
Proof.
  intros Hf. pose proof (fly_nonces _ _ _ Hf) as Hn. clear Hf.
  generalize (uval (send_nonce tS)), (N.of_nat (length l)), Hn. clear Hn.
  intros s len. induction (nonces l) as [|n ns IH] in s |- *; intros Hn; constructor.
  - apply (IH (s + 1)%N). intros i m Hi. rewrite (Hn (S i) m) by done. lia.
  - apply Forall_forall. intros m [i Hi]%list_elem_of_lookup_1.
    pose proof (Hn 0 n eq_refl). pose proof (Hn (S i) m Hi). lia.
Qed.

(** Whatever the network does, what arrives will be opened. *)
Lemma flying_arrives tS tR l got : flying tS tR l -> arrives l got -> arriving tS tR got.
Proof.
  intros Hf Ha. pose proof (arrives_submseteq _ _ Ha) as Hsub.
  assert (Hin : forall n, n ∈ nonces got -> n ∈ nonces l).
  { intros n. unfold nonces. rewrite !list_elem_of_fmap. intros (x & -> & Hx). exists x.
    split; [done|]. by eapply elem_of_submseteq. }
  pose proof (flying_sorted _ _ _ Hf) as Hsort. destruct (fly_seen _ _ _ Hf) as (seen & Hs & Hlt).
  split; [apply Hf| |].
  { rewrite Forall_forall. pose proof (fly_sealed _ _ _ Hf) as Hall. rewrite Forall_forall in Hall.
    intros x Hx. apply Hall. by eapply elem_of_submseteq. }
  exists seen. split_and!; [done|..].
  - destruct Ha as [Hl|[H64 _]].
    + apply acceptable_sorted.
      * eapply StronglySorted_sublist; [|exact Hsort]. by apply fmap_sublist.
      * intros m n Hm%Hlt Hn%Hin%(flying_nonce_bounds _ _ _ _ Hf). lia.
    + apply acceptable_window.
      * eapply submseteq_NoDup; [|by apply sorted_NoDup]. by apply fmap_submseteq.
      * intros n Hn%Hin%(flying_nonce_bounds _ _ _ _ Hf) Hm%Hlt. lia.
      * intros m n [Hm%Hlt|Hm%Hin%(flying_nonce_bounds _ _ _ _ Hf)]%elem_of_app
          Hn%Hin%(flying_nonce_bounds _ _ _ _ Hf); lia.
  - intros m [Hm%Hlt|Hm%Hin%(flying_nonce_bounds _ _ _ _ Hf)]%elem_of_app; lia.
Qed.

Context `{!CryptoLaws C}.

(** Sending one more. *)
Lemma flying_send tS tR l p :
  flying tS tR l -> nonces_left tS 1 -> (N.of_nat (length p) < AEAD_SAFE_LEN)%N ->
  exists tS' d, transport_encrypt tS p = Ok (tS', d) /\ length d = length p + TRANSPORT_OVERHEAD /\
    flying tS' tR (l ++ [(d, p)]) /\ (forall t, hears t tS -> hears t tS') /\
    uval (send_nonce tS') = (uval (send_nonce tS) + 1)%N.
Proof.
  intros [Hk Hl Hn (seen & Hs & Hlt)] H1 Hp.
  destruct (transport_encrypt_total tS p H1 Hp) as (tS' & d & He).
  pose proof (transport_encrypt_length _ _ _ _ He) as Hlen.
  destruct (transport_encrypt_Ok _ _ _ _ He) as (c & Hc & Hd & Hn' & Hk1 & Hk2 & Hm & Hw).
  assert (Hdn : datagram_nonce d = send_nonce tS) by (rewrite Hd; apply datagram_nonce_app).
  exists tS', d. split_and!; [done|done| | |done].
  - split; [by rewrite Hk1|..].
    + rewrite Hk1. apply Forall_app_2; [done|]. constructor; [|done]. exists c. cbn [fst snd]. by rewrite Hdn.
    + rewrite Hn', length_app. cbn [length]. unfold nonces. rewrite fmap_app. intros i n Hi.
      apply lookup_app_Some in Hi as [Hi|[Hge Hi]]; [specialize (Hn i n Hi); lia|].
      rewrite length_fmap in Hge, Hi. apply list_lookup_singleton_Some in Hi as [Hi <-].
      cbn. rewrite Hdn. lia.
    + exists seen. split; [done|]. rewrite Hn', length_app. cbn [length]. intros m Hm'%Hlt. lia.
  - intros t [Hkt (seen0 & Hs0 & Hlt0)]. split; [congruence|]. exists seen0. split; [|done].
    unfold transport_seen in *. by rewrite Hm, Hw.
Qed.

(** Receiving the next. *)
Lemma arriving_recv tS tR d p got :
  arriving tS tR ((d, p) :: got) ->
  exists tR', transport_decrypt tR d = (tR', Ok p) /\ arriving tS tR' got /\
    (forall t, hears tR t -> hears tR' t) /\ send_nonce tR' = send_nonce tR.
Proof.
  intros [Hk Hl (seen & Hs & [Hf Hacc] & Hlt)]. apply Forall_cons in Hl as [(c & Hc & Hd) Hl].
  cbn [fst snd] in Hc, Hd, Hf, Hacc. set (n := datagram_nonce d) in *.
  pose proof (transport_decrypt_spec tR seen d Hs) as Hspec.
  pose proof (transport_decrypt_frame tR d) as Hframe.
  destruct (transport_decrypt tR d) as [tR' out] eqn:Ed. destruct Hspec as (Hout & Hseen' & Hrk).
  assert (Hok : spec_decrypt (recv_key tR) seen d = Ok p).
  { rewrite Hk, Hd, (spec_decrypt_genuine _ _ _ _ _ Hc). by rewrite decide_True. }
  rewrite Hok in Hout. subst out. destruct Hframe as (Hsk & Hsn & _).
  unfold spec_accept in Hseen'. rewrite Hok in Hseen'. cbn [is_ok] in Hseen'.
  exists tR'. split_and!; [done| | |done].
  - split; [congruence|done|]. exists (n :: seen). split_and!; [done|done|].
    intros m Hm. apply Hlt. unfold nonces in *. cbn. set_solver.
  - intros t [Hkt (seen0 & Hs0 & Hlt0)]. split; [congruence|]. exists seen0. by rewrite Hsn.
Qed.

End transports.

(** ** Hosts *)

Section hosts.
Context `{C : Crypto, RT : IoRuntime, !IoLaws RT, !CryptoLaws C}.

(** What was sent from [hA] at [a] to [hB] at [b] and has not arrived. *)
Record in_flight (hA : Host) (a : UdpAddr) (hB : Host) (b : UdpAddr) (l : list parcel) (k : N) : Prop := InFlight {
  inf_conn : exists cA cB,
    host_established hA !! b = Some cA /\ host_established hB !! a = Some cB /\
    flying (conn_transport cA) (conn_transport cB) l /\
    hears (conn_transport cB) (conn_transport cA) /\
    nonces_left (conn_transport cA) k /\ nonces_left (conn_transport cB) k;
  inf_buf : Forall (fun x => (N.of_nat (length x.1) <= recv_buf_size (host_socket hB))%N) l;
  inf_buf_ab : (max_send_payload (host_socket hA) <= recv_buf_size (host_socket hB))%N;
  inf_buf_ba : (max_send_payload (host_socket hB) <= recv_buf_size (host_socket hA))%N
}.

(** What arrives at [hB] from [a], in this order. *)
Record arriving_at (hA : Host) (a : UdpAddr) (hB : Host) (b : UdpAddr) (got : list parcel) (k : N) : Prop := ArrivingAt {
  arv_conn : exists cA cB,
    host_established hA !! b = Some cA /\ host_established hB !! a = Some cB /\
    arriving (conn_transport cA) (conn_transport cB) got /\
    hears (conn_transport cB) (conn_transport cA) /\
    nonces_left (conn_transport cA) k /\ nonces_left (conn_transport cB) k;
  arv_buf : Forall (fun x => (N.of_nat (length x.1) <= recv_buf_size (host_socket hB))%N) got;
  arv_buf_ab : (max_send_payload (host_socket hA) <= recv_buf_size (host_socket hB))%N;
  arv_buf_ba : (max_send_payload (host_socket hB) <= recv_buf_size (host_socket hA))%N
}.

Lemma linked_in_flight hA a hB b k : linked hA a hB b k -> in_flight hA a hB b [] k.
Proof.
  intros [(cA & cB & HA & HB & HAB & HBA & N1 & N2) Hb1 Hb2]. split; [|done..].
  exists cA, cB. split_and!; try done. by apply flying_nil.
Qed.

Lemma arriving_at_linked hA a hB b k : arriving_at hA a hB b [] k -> linked hA a hB b k.
Proof.
  intros [(cA & cB & HA & HB & HAB & HBA & N1 & N2) _ Hb1 Hb2]. split; [|done..].
  exists cA, cB. split_and!; try done. by apply arriving_nil.
Qed.

Lemma in_flight_arrives hA a hB b l got k :
  in_flight hA a hB b l k -> arrives l got -> arriving_at hA a hB b got k.
Proof.
  intros [(cA & cB & HA & HB & HAB & HBA & N1 & N2) Hbuf Hb1 Hb2] Hgot. split; [| |done..].
  - exists cA, cB. split_and!; try done. by eapply flying_arrives.
  - rewrite Forall_forall in *. intros x Hx. apply Hbuf.
    eapply elem_of_submseteq; [exact Hx|by apply arrives_submseteq].
Qed.

(** Neither depends on what the hosts do elsewhere. *)
Lemma in_flight_frame hA hA' a hB b l k :
  in_flight hA a hB b l k -> host_frame hA hA' ->
  host_established hA' !! b = host_established hA !! b -> in_flight hA' a hB b l k.
Proof.
  intros [(cA & cB & HA & HB & H) Hb Hb1 Hb2] (Hs & _ & _) He.
  split; [exists cA, cB; split_and!; [by rewrite He|done|apply H..]|done|by rewrite Hs|by rewrite Hs].
Qed.

Lemma arriving_at_frame hA a hB hB' b got k :
  arriving_at hA a hB b got k -> host_frame hB hB' ->
  host_established hB' !! a = host_established hB !! a -> arriving_at hA a hB' b got k.
Proof.
  intros [(cA & cB & HA & HB & H) Hb Hb1 Hb2] (Hs & _ & _) He.
  split; [exists cA, cB; split_and!; [done|by rewrite He|apply H..]|by rewrite Hs..].
Qed.

Lemma in_flight_weaken hA a hB b l k k' :
  in_flight hA a hB b l k -> (k' <= k)%N -> in_flight hA a hB b l k'.
Proof.
  intros [(cA & cB & HA & HB & HAB & HBA & N1 & N2) ? ? ?] Hk. split; [|done..].
  exists cA, cB. split_and!; try done; unfold nonces_left in *; lia.
Qed.

(** What a host keeps of itself when it sends to or hears from [b]. *)
Record only_at (b : UdpAddr) (h h' : Host) : Prop := OnlyAt {
  oa_frame : host_frame h h';
  oa_handshakes : host_handshakes h' = host_handshakes h;
  oa_peer_ids x : remote_peer_id_of h' x = remote_peer_id_of h x;
  oa_other x : x <> b -> host_established h' !! x = host_established h !! x
}.

Lemma only_at_insert b h c t tick :
  host_established h !! b = Some c ->
  only_at b h (host_with h (host_handshakes h)
    (<[b := MkEstablished t (conn_remote_static c) (conn_remote_peer_id c) tick]> (host_established h)) tick).
Proof.
  intros Hc. split; [done|done|intros x; unfold remote_peer_id_of|intros x Hx]; cbn.
  - destruct (decide (b = x)) as [<-|Hne]; [by rewrite lookup_insert_eq, Hc|by rewrite lookup_insert_ne].
  - by rewrite lookup_insert_ne.
Qed.

Lemma only_at_dom b h h' : only_at b h h' -> dom (host_established h') = dom (host_established h).
Proof.
  intros Ho. apply set_eq. intros x. rewrite !elem_of_dom.
  rewrite <- (fmap_is_Some conn_remote_peer_id), <- (fmap_is_Some conn_remote_peer_id (host_established h !! x)).
  fold (remote_peer_id_of h' x) (remote_peer_id_of h x). by rewrite (oa_peer_ids _ _ _ Ho).
Qed.

Lemma only_at_addrs b h h' : only_at b h h' -> established_addrs h' = established_addrs h.
Proof.
  intros Ho%only_at_dom. apply bt_keys_eq. intros x.
  by rewrite <- (elem_of_dom (D:=gset UdpAddr)), Ho, elem_of_dom.
Qed.

(** So there is room for as many connections as before. *)
Lemma only_at_room b h h' : only_at b h h' -> only_with_room b h h'.
Proof.
  intros Ho bs [R1 R2] _. pose proof (only_at_dom _ _ _ Ho) as Hd. destruct Ho as [Hf Hh _ Ho].
  split; [split; [done|]; intros x Hx; rewrite Hh; auto|].
  destruct Hf as (_ & _ & Hc). unfold has_room, map_room in *. by rewrite Hh, Hc, Hd.
Qed.

Lemma in_flight_send hA a hB b l k p :
  in_flight hA a hB b l (k + 1) -> payload_fits hA p ->
  exists hA' d,
    (forall w, send_fault w = None -> io_run (host_send hA b p) w = (Returned (Ok hA'), world_sent w b d)) /\
    in_flight hA' a hB b (l ++ [(d, p)]) k /\ only_at b hA hA'.
Proof.
  intros [(cA & cB & HA & HB & HAB & HBA & NA & NB) Hbuf Hb1 Hb2] [Hmax Hsafe].
  destruct (flying_send _ _ _ p HAB ltac:(unfold nonces_left in *; lia) Hsafe)
    as (tA & d & He & Hlen & Hfly & Hh & Hn).
  exists (host_sent hA b cA tA), d. split_and!; [| |by eapply only_at_insert].
  - intros w Hf. rewrite run_host_send, HA, He. unfold after_reply. rewrite Hf.
    destruct (N.ltb_spec (max_send_payload (host_socket hA)) (N.of_nat (length d))); [lia|done].
  - split; [|apply Forall_app_2; [done|]; constructor; [cbn; lia|done]|done..].
    eexists (MkEstablished tA _ _ _), cB. split_and!; [apply lookup_insert_eq|done|done|by apply Hh|..];
      unfold nonces_left in *; cbn [conn_transport]; rewrite ?Hn; lia.
Qed.

Lemma arriving_at_recv hA a hB b d p got k :
  arriving_at hA a hB b ((d, p) :: got) k ->
  exists hB',
    (forall seed w inbox, w_inbox w = Ok (socket_of_udp a, d) :: inbox ->
       io_run (recv_one hB seed) w = (Returned (Ok (hB', DatagramDelivered a p)), world_received w)) /\
    arriving_at hA a hB' b got k /\ only_at a hB hB'.
Proof.
  intros [(cA & cB & HA & HB & HAB & HBA & NA & NB) Hbuf Hb1 Hb2].
  destruct (arriving_recv _ _ _ _ _ HAB) as (tB & Hd & Har & Hh & Hn).
  apply Forall_cons in Hbuf as [Hlen Hbuf]. cbn in Hlen.
  eexists. split_and!.
  - intros seed w inbox Hin. refine (run_recv_step hB seed w a d inbox _ _ None Hin _ _ _); [lia| |done].
    by apply step_delivered.
  - split; [|done..]. eexists cA, (MkEstablished tB _ _ _).
    split_and!; [done|apply lookup_insert_eq|done|by apply Hh|done|].
    unfold nonces_left in *. cbn [conn_transport]. by rewrite Hn.
  - by eapply only_at_insert.
Qed.

(** All that arrives is delivered, and the session is at rest again. *)
Lemma arriving_at_chain a hA b got : forall hB k,
  arriving_at hA a hB b got k -> exists hB', recv_chain a hB got hB' /\ linked hA a hB' b k.
Proof.
  induction got as [|[d p] got IH]; intros hB k Har.
  { exists hB. split; [constructor|]. by apply arriving_at_linked. }
  destruct (arriving_at_recv _ _ _ _ _ _ _ _ Har) as (hB1 & Hr & Har1 & _).
  destruct (IH hB1 k Har1) as (hB' & Hc & Hl). exists hB'. split; [by econstructor|done].
Qed.

End hosts.
