(* ===== verification/KadId.v ===== *)
(** * Kademlia identifiers and the XOR metric

    Models src/crates/libp2p-cat-kad/src/{node_id,distance}.rs. *)

From S2P Require Export BTree Crypto Udp.

#[local] Open Scope string_scope.

Definition NODE_ID_LEN : nat := 32.
Definition NODE_ID_BITS : nat := NODE_ID_LEN * 8.

Record Distance : Type := MkDistance { distance_bytes : arr NODE_ID_LEN }.
Record NodeId : Type := MkNodeId { node_id_bytes : arr NODE_ID_LEN }.

#[export] Instance distance_eq_dec : EqDecision Distance.
Proof. solve_decision. Defined.
#[export] Instance node_id_eq_dec : EqDecision NodeId.
Proof. solve_decision. Defined.

#[export] Program Instance distance_countable : Countable Distance :=
  inj_countable' distance_bytes MkDistance _.
Next Obligation. by intros []. Qed.

(** The derived [Ord]: byte by byte. *)
#[export] Program Instance distance_ord : RustOrd Distance :=
  {| ord_key d := ord_key (distance_bytes d) |}.
Next Obligation. intros [a] [b] H. apply (inj ord_key) in H. by f_equal. Qed.

(** [NodeId::from_peer_id]. *)
Definition from_peer_id `{C : Crypto} (peer_id : PeerId) : NodeId :=
  MkNodeId (blake3_hash (peer_id_bytes peer_id)).

(** [NodeId::distance]. *)
Definition distance (a b : NodeId) : Distance :=
  MkDistance (arr_from_fn (fun i =>
    byte_xor (arr_get (node_id_bytes a) i) (arr_get (node_id_bytes b) i))).

Definition distance_zero : Distance := MkDistance (arr_repeat NODE_ID_LEN x00).

Definition is_zero (d : Distance) : bool :=
  forallb (fun b => bool_decide (b = x00)) (arr_list (distance_bytes d)).

(** [iter().enumerate().find(|(_, byte)| byte != 0)]. *)
Fixpoint find_nonzero (i : nat) (l : list byte) : option (nat * byte) :=
  match l with
  | [] => None
  | b :: l' => if bool_decide (b = x00) then find_nonzero (S i) l' else Some (i, b)
  end.

Definition leading_zeros (d : Distance) : nat :=
  match find_nonzero 0 (arr_list (distance_bytes d)) with
  | None => NODE_ID_BITS
  | Some (byte_idx, b) => byte_idx * 8 + byte_leading_zeros b
  end.

Definition bucket_index (d : Distance) : option nat :=
  if negb (is_zero d) then Some (NODE_ID_BITS - 1 - leading_zeros d) else None.

(** [Display]. *)
Definition distance_display (d : Distance) : string := "xor:" ++ hex_bytes (arr_list (distance_bytes d)).
Definition node_id_display (n : NodeId) : string := "kad:" ++ hex_bytes (arr_list (node_id_bytes n)).

#[local] Close Scope string_scope.

(** ** A distance as a 256-bit big-endian integer *)

Fixpoint be_val (l : list byte) : N :=
  match l with
  | [] => 0
  | b :: l' => (b2n b * 2 ^ (8 * N.of_nat (length l')) + be_val l')%N
  end.

Definition dval (d : Distance) : N := be_val (arr_list (distance_bytes d)).

Lemma be_val_lt l : (be_val l < 2 ^ (8 * N.of_nat (length l)))%N.
Proof.
  induction l as [|b l IH]; cbn [be_val length]; [done|].
  replace (8 * N.of_nat (S (length l)))%N with (8 + 8 * N.of_nat (length l))%N by lia.
  rewrite N.pow_add_r. change (2 ^ 8)%N with 256%N. pose proof (b2n_lt b). nia.
Qed.

Lemma testbit_concat a x k i :
  (x < 2 ^ k)%N ->
  N.testbit (a * 2 ^ k + x) i = if (i <? k)%N then N.testbit x i else N.testbit a (i - k).
Proof.
  intros Hx. assert (2 ^ k <> 0)%N by (by apply N.pow_nonzero).
  destruct (N.ltb_spec i k) as [Hi|Hi].
  - rewrite <- (N.mod_pow2_bits_low _ k) by done.
    rewrite N.add_comm, N.Div0.mod_add, N.mod_small by done. done.
  - replace i with (i - k + k)%N at 1 by lia. rewrite <- N.div_pow2_bits.
    by rewrite N.div_add_l, (N.div_small x), N.add_0_r by done.
Qed.

Lemma lxor_concat a b x y k :
  (x < 2 ^ k -> y < 2 ^ k ->
   N.lxor (a * 2 ^ k + x) (b * 2 ^ k + y) = N.lxor a b * 2 ^ k + N.lxor x y)%N.
Proof.
  intros Hx Hy. apply N.bits_inj. intros i. rewrite N.lxor_spec.
  rewrite !testbit_concat by (done || by apply lxor_lt).
  destruct (i <? k)%N; by rewrite N.lxor_spec.
Qed.

Lemma be_val_xor l k :
  length l = length k ->
  be_val (zip_with byte_xor l k) = N.lxor (be_val l) (be_val k).
Proof.
  revert k. induction l as [|a l IH]; intros [|b k] Hlen; try done. cbn in Hlen.
  cbn [be_val zip_with]. rewrite IH, length_zip_with, b2n_xor by lia.
  replace (Nat.min (length l) (length k)) with (length l) by lia.
  replace (length k) with (length l) by lia.
  rewrite lxor_concat; [done|apply be_val_lt|].
  replace (length l) with (length k) by lia. apply be_val_lt.
Qed.

Lemma be_val_zero l : be_val l = 0%N <-> Forall (fun b => b = x00) l.
Proof.
  induction l as [|b l IH]; cbn [be_val]; [done|]. rewrite Forall_cons, <- IH.
  assert (2 ^ (8 * N.of_nat (length l)) <> 0)%N by (by apply N.pow_nonzero).
  split.
  - intros H0. split; [|lia]. apply b2n_inj. change (b2n x00) with 0%N. nia.
  - intros [-> ->]. done.
Qed.

(** The derived order is the order of the integers. *)
Lemma lex_le_be_val l k :
  length l = length k ->
  lex_le (b2n <$> l) (b2n <$> k) = true <-> (be_val l <= be_val k)%N.
Proof.
  revert k. induction l as [|a l IH]; intros [|b k] Hlen; try done. cbn in Hlen.
  cbn [fmap list_fmap be_val]. rewrite lex_le_cons.
  change (list_fmap _ _ b2n l) with (b2n <$> l). change (list_fmap _ _ b2n k) with (b2n <$> k).
  rewrite IH by lia. replace (length k) with (length l) by lia.
  pose proof (be_val_lt l) as Hl. pose proof (be_val_lt k) as Hk.
  replace (length k) with (length l) in Hk by lia.
  set (m := (2 ^ (8 * N.of_nat (length l)))%N) in *.
  split.
  - intros [?|[-> ?]]; nia.
  - intros H. destruct (N.lt_trichotomy (b2n a) (b2n b)) as [?|[He|?]]; [by left| |nia].
    right. split; [done|]. rewrite He in H. lia.
Qed.

Lemma distance_list a b :
  arr_list (distance_bytes (distance a b)) =
    zip_with byte_xor (arr_list (node_id_bytes a)) (arr_list (node_id_bytes b)).
Proof.
  apply from_fn_list.
  - by rewrite length_zip_with, !length_arr.
  - intros i Hi. by rewrite lookup_zip_with, !lookup_arr by done.
Qed.

Definition nval (n : NodeId) : N := be_val (arr_list (node_id_bytes n)).

Lemma dval_distance a b : dval (distance a b) = N.lxor (nval a) (nval b).
Proof. unfold dval. rewrite distance_list. apply be_val_xor. by rewrite !length_arr. Qed.

Lemma be_val_inj l k : length l = length k -> be_val l = be_val k -> l = k.
Proof.
  intros Hlen H. apply (list_fmap_eq_inj b2n b2n_inj).
  apply lex_le_antisym; apply lex_le_be_val; lia.
Qed.

Lemma nval_inj a b : nval a = nval b -> a = b.
Proof.
  destruct a as [a], b as [b]. unfold nval. cbn. intros H. f_equal.
  apply arr_eq, be_val_inj; [by rewrite !length_arr|done].
Qed.

Lemma dval_inj d e : dval d = dval e -> d = e.
Proof.
  destruct d as [a], e as [b]. unfold dval. cbn. intros H. f_equal.
  apply arr_eq, be_val_inj; [by rewrite !length_arr|done].
Qed.

Lemma distance_sym a b : distance a b = distance b a.
Proof. apply dval_inj. by rewrite !dval_distance, N.lxor_comm. Qed.

Lemma distance_inj_l t a b : distance a t = distance b t -> a = b.
Proof.
  intros H%(f_equal dval). rewrite !dval_distance in H. apply nval_inj.
  apply (f_equal (fun x => N.lxor x (nval t))) in H.
  by rewrite !N.lxor_assoc, N.lxor_nilpotent, !N.lxor_0_r in H.
Qed.

Lemma distance_le_val d e : ord_le d e = true <-> (dval d <= dval e)%N.
Proof. apply lex_le_be_val. by rewrite !length_arr. Qed.

Lemma is_zero_dval d : is_zero d = true <-> dval d = 0%N.
Proof.
  unfold is_zero, dval. rewrite be_val_zero, forallb_forall, Forall_forall.
  setoid_rewrite bool_decide_eq_true. by setoid_rewrite list_elem_of_In.
Qed.

Lemma distance_zero_iff a b : is_zero (distance a b) = true <-> a = b.
Proof.
  rewrite is_zero_dval, dval_distance, N.lxor_eq_0_iff. split; [apply nval_inj|by intros ->].
Qed.

Lemma lxor_le_add x y : (N.lxor x y <= x + y)%N.
Proof.
  pose proof (Z.add_lxor_2land (Z.of_N x) (Z.of_N y)) as H.
  rewrite <- N2Z.inj_lxor, <- N2Z.inj_land in H. lia.
Qed.

Lemma distance_triangle a b c :
  (dval (distance a c) <= dval (distance a b) + dval (distance b c))%N.
Proof.
  rewrite !dval_distance.
  replace (N.lxor (nval a) (nval c))
    with (N.lxor (N.lxor (nval a) (nval b)) (N.lxor (nval b) (nval c))).
  - apply lxor_le_add.
  - by rewrite N.lxor_assoc, <- (N.lxor_assoc (nval b)), N.lxor_nilpotent, N.lxor_0_l.
Qed.

(** ** The bucket index is the position of the highest set bit *)

Lemma find_nonzero_log2 l : forall i,
  match find_nonzero i l with
  | None => be_val l = 0%N
  | Some (j, b) => b <> x00 /\ i <= j < i + length l /\
      N.log2 (be_val l) = (N.log2 (b2n b) + 8 * N.of_nat (i + length l - 1 - j))%N /\
      be_val l <> 0%N
  end.
Proof.
  induction l as [|b l IH]; intros i; cbn [find_nonzero be_val length]; [done|].
  case_bool_decide as Hb.
  - subst b. change (b2n x00) with 0%N. rewrite N.mul_0_l, N.add_0_l.
    specialize (IH (S i)). destruct (find_nonzero (S i) l) as [[j b]|]; [|done].
    destruct IH as (Hb & Hj & Hlog & Hnz). split_and!; [done|lia|lia| |done].
    rewrite Hlog. do 2 f_equal. lia.
  - assert (Hnz : b2n b <> 0%N) by (intros H0; by apply Hb, b2n_inj).
    pose proof (be_val_lt l) as Hl. split_and!; [done|lia|lia| |].
    + rewrite (N.log2_unique' _ (N.log2 (b2n b) + 8 * N.of_nat (length l))
        ((b2n b - 2 ^ N.log2 (b2n b)) * 2 ^ (8 * N.of_nat (length l)) + be_val l)).
      * do 2 f_equal. lia.
      * lia.
      * pose proof (N.log2_spec (b2n b) ltac:(lia)) as [Hlo Hhi].
        rewrite N.pow_succ_r' in Hhi. rewrite N.pow_add_r.
        set (m := (2 ^ (8 * N.of_nat (length l)))%N) in *.
        set (p := (2 ^ N.log2 (b2n b))%N) in *. split; [apply N.le_0_l|]. nia.
      * pose proof (N.log2_spec (b2n b) ltac:(lia)) as [Hlo _].
        rewrite N.pow_add_r. set (m := (2 ^ (8 * N.of_nat (length l)))%N).
        set (p := (2 ^ N.log2 (b2n b))%N) in *. nia.
    + set (m := (2 ^ (8 * N.of_nat (length l)))%N) in *.
      assert (0 < m)%N by (unfold m; apply N.neq_0_lt_0, N.pow_nonzero; done). nia.
Qed.

Lemma bucket_index_spec d :
  bucket_index d = if (dval d =? 0)%N then None else Some (N.to_nat (N.log2 (dval d))).
Proof.
  unfold bucket_index. destruct (N.eqb_spec (dval d) 0) as [H0|H0].
  - by rewrite (proj2 (is_zero_dval d) H0).
  - destruct (is_zero d) eqn:E; [by apply is_zero_dval in E|]. cbn [negb]. f_equal.
    unfold leading_zeros. pose proof (find_nonzero_log2 (arr_list (distance_bytes d)) 0) as H.
    unfold dval in *. destruct (find_nonzero _ _) as [[j b]|]; [|done].
    destruct H as (Hb & Hj & -> & _). rewrite length_arr in *.
    assert (Hnz : b2n b <> 0%N) by (intros Hz; by apply Hb, b2n_inj).
    unfold byte_leading_zeros. rewrite N.size_log2 by done.
    assert (N.log2 (b2n b) < 8)%N.
    { apply N.log2_lt_pow2; [lia|]. apply b2n_lt. }
    unfold NODE_ID_BITS, NODE_ID_LEN in *. lia.
Qed.

Lemma dval_lt d : (dval d < 2 ^ 256)%N.
Proof. unfold dval. pose proof (be_val_lt (arr_list (distance_bytes d))) as H. by rewrite length_arr in H. Qed.

Lemma log2_dval_lt d : dval d <> 0%N -> (N.log2 (dval d) < 256)%N.
Proof. intros H0. apply N.log2_lt_pow2; [by apply N.neq_0_lt_0|apply dval_lt]. Qed.

Lemma bucket_index_lt d i : bucket_index d = Some i -> i < NODE_ID_BITS.
Proof.
  rewrite bucket_index_spec. destruct (N.eqb_spec (dval d) 0) as [|H0]; [done|]. intros [= <-].
  pose proof (log2_dval_lt d H0).
  unfold NODE_ID_BITS, NODE_ID_LEN. lia.
Qed.

#[global] Arguments distance : simpl never.
#[global] Arguments dval : simpl never.

(** ** Properties *)

(** The XOR distance is a metric on identifiers, read as a 256-bit big-endian
    integer: zero exactly on equal identifiers, symmetric, with the triangle
    inequality; from a fixed target no two identifiers are equally far; and
    the derived order on distances is the order of those integers. *)
Theorem xor_metric (a b c : NodeId) (d e : Distance) :
  (is_zero (distance a b) = true <-> a = b) /\
  distance a b = distance b a /\
  (dval (distance a c) <= dval (distance a b) + dval (distance b c))%N /\
  (distance a c = distance b c <-> a = b) /\
  (ord_le d e = true <-> (dval d <= dval e)%N) /\
  dval (distance a b) = N.lxor (nval a) (nval b).
Proof.
  split_and!.
  - apply distance_zero_iff.
  - apply distance_sym.
  - apply distance_triangle.
  - split; [apply distance_inj_l|by intros ->].
  - apply distance_le_val.
  - apply dval_distance.
Qed.

(** The bucket of a distance is the position of its highest set bit:
    bucket [i] holds exactly the distances from 2^i to 2^(i+1) - 1, there is
    none for distance zero, and every index is below 256. *)
Theorem bucket_index_is_log2 (d : Distance) (i : nat) :
  (bucket_index d = None <-> dval d = 0%N) /\
  (bucket_index d = Some i <->
     (2 ^ N.of_nat i <= dval d < 2 ^ (N.of_nat i + 1))%N /\ i < NODE_ID_BITS) /\
  leading_zeros d + N.to_nat (N.size (dval d)) = NODE_ID_BITS.
Proof.
  assert (Hlz : dval d <> 0%N -> leading_zeros d + N.to_nat (N.size (dval d)) = NODE_ID_BITS).
  { intros H0. pose proof (bucket_index_spec d) as H. unfold bucket_index in H.
    destruct (is_zero d) eqn:Ez; [by apply is_zero_dval in Ez|]. cbn [negb] in H.
    rewrite (proj2 (N.eqb_neq _ _) H0) in H. injection H as H.
    rewrite N.size_log2 by done. pose proof (log2_dval_lt d H0).
    destruct (decide (leading_zeros d <= 255)); [unfold NODE_ID_BITS, NODE_ID_LEN in *; lia|].
    exfalso. unfold leading_zeros in *.
    pose proof (find_nonzero_log2 (arr_list (distance_bytes d)) 0) as Hf.
    destruct (find_nonzero _ _) as [[j b]|]; [|done]. destruct Hf as (Hb & Hj & _).
    rewrite length_arr in Hj. unfold byte_leading_zeros in *.
    assert (0 < N.to_nat (N.size (b2n b))).
    { destruct (b2n b) as [|p] eqn:Eb; [by destruct Hb; apply b2n_inj|]. cbn. lia. }
    unfold NODE_ID_LEN in *. lia. }
  split_and!.
  - rewrite bucket_index_spec. by destruct (N.eqb_spec (dval d) 0).
  - split.
    + intros H. split; [|by eapply bucket_index_lt]. rewrite bucket_index_spec in H.
      destruct (N.eqb_spec (dval d) 0) as [|H0]; [done|]. injection H as <-.
      rewrite N2Nat.id, N.add_1_r. apply N.log2_spec. lia.
    + intros [H _]. rewrite bucket_index_spec.
      destruct (N.eqb_spec (dval d) 0) as [H0|H0].
      * assert (2 ^ N.of_nat i <> 0)%N by (by apply N.pow_nonzero). lia.
      * f_equal. rewrite N.add_1_r in H.
        rewrite (N.log2_unique (dval d) (N.of_nat i)) by (lia || done). lia.
  - destruct (decide (dval d = 0%N)) as [H0|H0]; [|by apply Hlz].
    rewrite H0. unfold leading_zeros.
    pose proof (find_nonzero_log2 (arr_list (distance_bytes d)) 0) as Hf. unfold dval in H0.
    destruct (find_nonzero _ _) as [[j b]|]; [by destruct Hf as (_ & _ & _ & ?)|]. done.
Qed.
