(* ===== verification/KadTable.v ===== *)
(** * Kademlia buckets and the routing table

    Models src/crates/libp2p-cat-kad/src/{bucket,routing_table}.rs. *)

From S2P Require Export KadId.

Abbreviation Peer := (NodeId * UdpAddr)%type.

(** ** [bucket.rs] *)

Definition DEFAULT_K : nat := 20.

Inductive InsertOutcome : Type :=
| Added
| Updated
| BucketFull (lru_candidate : NodeId).

(** Entries are ordered most recently seen first. *)
Record Bucket : Type := MkBucket {
  bucket_capacity : nat;
  bucket_entries : list Peer
}.

Definition bucket_new (capacity : nat) : Bucket := MkBucket capacity [].
Definition bucket_len (b : Bucket) : nat := length (bucket_entries b).
Definition bucket_is_empty (b : Bucket) : bool := bucket_len b =? 0.
Definition bucket_is_full (b : Bucket) : bool := bucket_len b =? bucket_capacity b.
Definition bucket_contains (b : Bucket) (node : NodeId) : bool :=
  existsb (fun e => bool_decide (e.1 = node)) (bucket_entries b).

(** [position] finds an index below the length, so the [remove] of that
    index, which [list_find] returns with it, cannot fail. *)
Definition bucket_insert (b : Bucket) (node : NodeId) (addr : UdpAddr) : Bucket * InsertOutcome :=
  let '(MkBucket capacity entries) := b in
  let existing_idx := list_find (fun e => e.1 = node) entries in
  match existing_idx with
  | Some (idx, removed) =>
      let refreshed := (removed.1, addr) in
      let next := refreshed :: delete idx entries in
      (MkBucket capacity next, Updated)
  | None =>
      if length entries <? capacity then
        let next := (node, addr) :: entries in
        (MkBucket capacity next, Added)
      else
        let lru :=
          match last entries with
          | None => MkNodeId (arr_repeat NODE_ID_LEN x00)
          | Some (id, _) => id
          end in
        (MkBucket capacity entries, BucketFull lru)
  end.

Definition bucket_remove (b : Bucket) (node : NodeId) : Bucket :=
  let '(MkBucket capacity entries) := b in
  MkBucket capacity (filter (fun e => e.1 <> node) entries).

(** ** [routing_table.rs] *)

Record RoutingTable : Type := MkTable {
  table_self : NodeId;
  table_k : nat;
  table_buckets : list Bucket
}.

Definition table_new (self_id : NodeId) (k : nat) : RoutingTable :=
  MkTable self_id k ((fun _ => bucket_new k) <$> seq 0 NODE_ID_BITS).

Definition table_len (t : RoutingTable) : nat := sum_list (bucket_len <$> table_buckets t).
Definition table_is_empty (t : RoutingTable) : bool := forallb bucket_is_empty (table_buckets t).
Definition table_contains (t : RoutingTable) (peer : NodeId) : bool :=
  existsb (fun b => bucket_contains b peer) (table_buckets t).

(** [iter().enumerate()]. *)
Definition enumerate {A} (l : list A) : list (nat * A) := zip (seq 0 (length l)) l.

Definition insert_into_bucket (self_id : NodeId) (k : nat) (buckets : list Bucket) (idx : nat)
    (peer : NodeId) (addr : UdpAddr) : RoutingTable * InsertOutcome :=
  let '(next_buckets, outcome) :=
    foldl (fun '(acc, maybe_outcome) '(i, bucket) =>
        if i =? idx then
          let '(updated, outcome) := bucket_insert bucket peer addr in
          (acc ++ [updated], Some outcome)
        else (acc ++ [bucket], maybe_outcome))
      ([], None) (enumerate buckets) in
  let outcome := default Updated outcome in
  (MkTable self_id k next_buckets, outcome).

Definition table_insert (t : RoutingTable) (peer : NodeId) (addr : UdpAddr)
    : RoutingTable * InsertOutcome :=
  let '(MkTable self_id k buckets) := t in
  let dist := distance self_id peer in
  match bucket_index dist with
  | None => (MkTable self_id k buckets, Updated)
  | Some idx => insert_into_bucket self_id k buckets idx peer addr
  end.

Definition table_remove (t : RoutingTable) (peer : NodeId) : RoutingTable :=
  let '(MkTable self_id k buckets) := t in
  let dist := distance self_id peer in
  match bucket_index dist with
  | None => MkTable self_id k buckets
  | Some idx =>
      let next_buckets :=
        (fun '(i, bucket) => if i =? idx then bucket_remove bucket peer else bucket)
          <$> enumerate buckets in
      MkTable self_id k next_buckets
  end.

(** Every entry of the table, bucket by bucket. *)
Definition table_entries (t : RoutingTable) : list Peer :=
  concat (bucket_entries <$> table_buckets t).

Definition closest_to (t : RoutingTable) (target : NodeId) (max_count : nat) : list Peer :=
  let all := (fun e : Peer => (distance e.1 target, e.1, e.2)) <$> table_entries t in
  let all := sort_by_key (fun x => x.1.1) all in
  (fun x => (x.1.2, x.2)) <$> take max_count all.

(** ** The folds over buckets act at one index *)

Lemma enumerate_snd {A} (l : list A) : (enumerate l).*2 = l.
Proof. unfold enumerate. apply snd_zip. by rewrite length_seq. Qed.

Lemma lookup_enumerate {A} (l : list A) i : enumerate l !! i = (fun x => (i, x)) <$> l !! i.
Proof.
  unfold enumerate. rewrite lookup_zip_with. destruct (l !! i) as [x|] eqn:E.
  - apply lookup_lt_Some in E as Hlt. rewrite lookup_seq_lt by done. done.
  - apply lookup_ge_None in E. rewrite (lookup_ge_None_2 (seq 0 _)) by (by rewrite length_seq).
    done.
Qed.

Lemma enumerate_snoc {A} (l : list A) x : enumerate (l ++ [x]) = enumerate l ++ [(length l, x)].
Proof.
  unfold enumerate. rewrite length_app, Nat.add_1_r, seq_S, zip_with_app; [done|].
  by rewrite length_seq.
Qed.

Lemma alter_oob {A} (f : A -> A) (l : list A) i : length l <= i -> alter f i l = l.
Proof.
  intros Hi. apply list_eq. intros j. rewrite list_lookup_alter. case_decide; [|done].
  subst j. by rewrite lookup_ge_None_2.
Qed.

Lemma insert_into_bucket_eq self k bs idx peer addr :
  insert_into_bucket self k bs idx peer addr =
    (MkTable self k (alter (fun b => (bucket_insert b peer addr).1) idx bs),
     default Updated ((fun b => (bucket_insert b peer addr).2) <$> bs !! idx)).
Proof.
  unfold insert_into_bucket.
  match goal with |- context [foldl ?f _ _] => set (F := f) end.
  assert (Hf : foldl F ([], None) (enumerate bs) =
    (alter (fun b => (bucket_insert b peer addr).1) idx bs,
     (fun b => (bucket_insert b peer addr).2) <$> bs !! idx)).
  { induction bs as [|b bs IH] using rev_ind; [done|].
    rewrite enumerate_snoc, foldl_app, IH. cbn [foldl F].
    destruct (Nat.eqb_spec (length bs) idx) as [<-|Hne].
    - destruct (bucket_insert b peer addr) as [u o] eqn:Eb.
      rewrite list_lookup_middle, alter_app_r_alt by done.
      rewrite Nat.sub_diag, (alter_oob _ bs) by done. cbn. by rewrite Eb.
    - destruct (Nat.lt_ge_cases idx (length bs)) as [Hlt|Hge].
      + by rewrite lookup_app_l, alter_app_l by done.
      + rewrite !lookup_ge_None_2 by (rewrite ?length_app; cbn; lia).
        by rewrite !alter_oob by (rewrite ?length_app; cbn; lia). }
  by rewrite Hf.
Qed.

Lemma enumerate_alter (f : Bucket -> Bucket) bs idx :
  (fun '(i, bucket) => if i =? idx then f bucket else bucket) <$> enumerate bs = alter f idx bs.
Proof.
  apply list_eq. intros j. rewrite list_lookup_fmap, lookup_enumerate, list_lookup_alter.
  destruct (Nat.eqb_spec j idx) as [->|Hne].
  - rewrite decide_True by done. destruct (bs !! idx) as [b|]; [|done]. cbn.
    by rewrite Nat.eqb_refl.
  - rewrite decide_False by done. destruct (bs !! j) as [b|]; [|done]. cbn.
    by rewrite (proj2 (Nat.eqb_neq j idx) Hne).
Qed.

(** ** The invariant *)

Record bucket_ok (self : NodeId) (k i : nat) (b : Bucket) : Prop := BucketOk {
  bok_capacity : bucket_capacity b = k;
  bok_len : bucket_len b <= k;
  bok_nodup : NoDup (bucket_entries b).*1;
  bok_index e : e ∈ bucket_entries b -> bucket_index (distance self e.1) = Some i
}.

Record table_ok (t : RoutingTable) : Prop := TableOk {
  tok_len : length (table_buckets t) = NODE_ID_BITS;
  tok_bucket i b : table_buckets t !! i = Some b -> bucket_ok (table_self t) (table_k t) i b
}.

Lemma elem_of_table_entries t e :
  e ∈ table_entries t <-> exists i b, table_buckets t !! i = Some b /\ e ∈ bucket_entries b.
Proof.
  unfold table_entries. rewrite elem_of_concat. split.
  - intros (l & He & Hl). apply list_elem_of_fmap in Hl as (b & -> & Hb).
    apply list_elem_of_lookup in Hb as [i Hi]. by exists i, b.
  - intros (i & b & Hi & He). exists (bucket_entries b). split; [done|].
    apply list_elem_of_fmap. exists b. split; [done|]. by eapply list_elem_of_lookup_2.
Qed.

Lemma length_table_entries t : length (table_entries t) = table_len t.
Proof.
  unfold table_entries, table_len. induction (table_buckets t) as [|b bs IH]; [done|].
  cbn. rewrite length_app. by f_equal.
Qed.

Section table.
Context (t : RoutingTable) (Hok : table_ok t).

(** Where an identifier's entry can be. *)
Lemma table_entry_bucket e :
  e ∈ table_entries t ->
  exists i b, bucket_index (distance (table_self t) e.1) = Some i /\
    table_buckets t !! i = Some b /\ e ∈ bucket_entries b.
Proof.
  intros (i & b & Hb & He)%elem_of_table_entries. exists i, b. split_and!; try done.
  by eapply bok_index; [eapply tok_bucket|].
Qed.

Lemma self_not_in_table a : (table_self t, a) ∉ table_entries t.
Proof.
  intros (i & b & Hi & _)%table_entry_bucket. cbn in Hi. rewrite bucket_index_spec in Hi.
  assert (H0 : dval (distance (table_self t) (table_self t)) = 0%N).
  { apply is_zero_dval. by apply distance_zero_iff. }
  by rewrite H0 in Hi.
Qed.

(** An identifier appears at most once. *)
Lemma table_entries_unique e e' :
  e ∈ table_entries t -> e' ∈ table_entries t -> e.1 = e'.1 -> e = e'.
Proof.
  intros (i & b & Hi & Hb & He)%table_entry_bucket (i' & b' & Hi' & Hb' & He')%table_entry_bucket Heq.
  rewrite Heq in Hi. simplify_eq.
  apply list_elem_of_lookup in He as [j Hj], He' as [j' Hj'].
  assert (Hjj : j = j').
  { eapply (NoDup_lookup (bucket_entries b).*1 j j' e.1).
    - by eapply bok_nodup, tok_bucket.
    - by rewrite list_lookup_fmap, Hj.
    - by rewrite list_lookup_fmap, Hj', Heq. }
  subst j'. congruence.
Qed.

Lemma table_entries_NoDup : NoDup (table_entries t).*1.
Proof.
  unfold table_entries.
  assert (Hgen : forall o bs, (forall i b, bs !! i = Some b ->
      bucket_ok (table_self t) (table_k t) (o + i) b) ->
    NoDup (concat (bucket_entries <$> bs)).*1).
  { intros o bs. revert o. induction bs as [|b bs IH]; intros o Hbs; [apply NoDup_nil_2|].
    cbn. rewrite fmap_app. apply NoDup_app. split_and!.
    - by eapply bok_nodup, (Hbs 0).
    - intros id Hid Hid'. apply list_elem_of_fmap in Hid as (e & -> & He).
      apply list_elem_of_fmap in Hid' as (e' & Heq & He').
      pose proof (bok_index _ _ _ _ (Hbs 0 b eq_refl) _ He) as Hi.
      apply elem_of_concat in He' as (l & He' & Hl).
      apply list_elem_of_fmap in Hl as (b' & -> & [j Hj]%list_elem_of_lookup_1).
      pose proof (bok_index _ _ _ _ (Hbs (S j) b' Hj) _ He') as Hi'.
      rewrite Heq, Hi' in Hi. injection Hi. lia.
    - apply (IH (S o)). intros i b' Hb'. specialize (Hbs (S i) b' Hb').
      by rewrite Nat.add_succ_r in Hbs. }
  apply (Hgen 0). apply Hok.
Qed.

End table.

(** ** What one bucket operation does *)

Lemma bucket_insert_spec self k i b peer addr :
  bucket_ok self k i b -> bucket_index (distance self peer) = Some i ->
  let '(b', o) := bucket_insert b peer addr in
  bucket_ok self k i b' /\
  match o with
  | Added => peer ∉ (bucket_entries b).*1 /\ bucket_len b < k /\
      bucket_entries b' = (peer, addr) :: bucket_entries b
  | Updated => peer ∈ (bucket_entries b).*1 /\
      head (bucket_entries b') = Some (peer, addr) /\
      (forall e, e ∈ bucket_entries b' <-> e = (peer, addr) \/ (e ∈ bucket_entries b /\ e.1 <> peer)) /\
      bucket_len b' = bucket_len b
  | BucketFull lru => b' = b /\ peer ∉ (bucket_entries b).*1 /\ bucket_len b = k /\
      (0 < k -> exists a, last (bucket_entries b) = Some (lru, a))
  end.
Proof.
  intros [Hcap Hlen Hnd Hidx] Hpeer. destruct b as [capacity entries].
  cbn [bucket_capacity bucket_entries] in *. unfold bucket_len in *. cbn [bucket_entries] in *.
  subst capacity. unfold bucket_insert.
  destruct (list_find (fun e => e.1 = peer) entries) as [[idx removed]|] eqn:Ef.
  - apply list_find_Some in Ef as (Hidx' & Hr & _). destruct removed as [r a]. cbn in Hr. subst r.
    cbn [fst]. pose proof (delete_Permutation _ _ _ Hidx') as Hperm.
    assert (Hin : forall e, e ∈ delete idx entries <-> e ∈ entries /\ e.1 <> peer).
    { set (D := delete idx entries) in *. clearbody D. intros e.
      rewrite Hperm in Hnd. cbn in Hnd. apply NoDup_cons in Hnd as [Hni _].
      assert (He : e ∈ entries <-> e = (peer, a) \/ e ∈ D) by (by rewrite Hperm, elem_of_cons).
      rewrite He. split.
      - intros Hd. split; [by right|]. intros <-. apply Hni, list_elem_of_fmap. by exists e.
      - by intros [[->|Hd] Hne]. }
    split; [split|].
    + done.
    + cbn. apply Permutation_length in Hperm. cbn in Hperm. unfold bucket_len. cbn. lia.
    + cbn. rewrite Hperm in Hnd. done.
    + intros e [->|He]%elem_of_cons; [done|]. apply Hin in He as [He _]. by apply Hidx.
    + split_and!; [|done| |].
      * apply list_elem_of_fmap. exists (peer, a). split; [done|]. by eapply list_elem_of_lookup_2.
      * intros e. cbn [bucket_entries]. by rewrite elem_of_cons, Hin.
      * apply Permutation_length in Hperm. by rewrite Hperm.
  - apply list_find_None in Ef. assert (Hni : peer ∉ entries.*1).
    { intros (e & -> & He)%list_elem_of_fmap. rewrite Forall_forall in Ef. by apply (Ef e He). }
    destruct (Nat.ltb_spec (length entries) k) as [Hlt|Hge].
    + split; [|done]. split; cbn; [done|unfold bucket_len; cbn; lia|by apply NoDup_cons|].
      intros e [->|He]%elem_of_cons; [done|]. by apply Hidx.
    + split; [by split|]. split_and!; [done|done|lia|].
      intros Hk. destruct (last entries) as [[id a]|] eqn:El; [by exists a|].
      apply last_None in El as ->. cbn in Hge. lia.
Qed.

Lemma bucket_remove_spec self k i b peer :
  bucket_ok self k i b ->
  bucket_ok self k i (bucket_remove b peer) /\
  forall e, e ∈ bucket_entries (bucket_remove b peer) <-> e ∈ bucket_entries b /\ e.1 <> peer.
Proof.
  intros [Hcap Hlen Hnd Hidx]. destruct b as [capacity entries].
  unfold bucket_len in *. cbn [bucket_capacity bucket_entries bucket_remove] in *.
  assert (Hin : forall e, e ∈ filter (fun e => e.1 <> peer) entries <-> e ∈ entries /\ e.1 <> peer).
  { intros e. rewrite list_elem_of_filter. naive_solver. }
  split; [|done]. split; cbn.
  - done.
  - unfold bucket_len. cbn. etrans; [apply length_filter|done].
  - eapply sublist_NoDup; [exact Hnd|]. apply fmap_sublist, sublist_filter.
  - intros e [He _]%Hin. by apply Hidx.
Qed.

(** ** What one table operation does *)

Lemma table_alter_entries t f idx b e :
  table_buckets t !! idx = Some b ->
  e ∈ table_entries (MkTable (table_self t) (table_k t) (alter f idx (table_buckets t))) <->
    e ∈ bucket_entries (f b) \/
    exists i b', i <> idx /\ table_buckets t !! i = Some b' /\ e ∈ bucket_entries b'.
Proof.
  intros Hb. rewrite elem_of_table_entries. cbn [table_buckets]. split.
  - intros (i & b' & Hb' & He). rewrite list_lookup_alter in Hb'. case_decide as Hi.
    + subst i. rewrite Hb in Hb'. cbn in Hb'. simplify_eq. by left.
    + right. by exists i, b'.
  - intros [He|(i & b' & Hi & Hb' & He)].
    + exists idx, (f b). split; [|done]. by rewrite list_lookup_alter_eq, Hb.
    + exists i, b'. split; [|done]. by rewrite list_lookup_alter_ne.
Qed.

Lemma table_ok_alter t f idx :
  table_ok t ->
  (forall b, table_buckets t !! idx = Some b -> bucket_ok (table_self t) (table_k t) idx (f b)) ->
  table_ok (MkTable (table_self t) (table_k t) (alter f idx (table_buckets t))).
Proof.
  intros [Hlen Hb] Hf. split; cbn.
  - by rewrite length_alter.
  - intros i b Hi. rewrite list_lookup_alter in Hi. case_decide as Hd; [|by apply Hb].
    subst i. destruct (table_buckets t !! idx) as [b0|] eqn:E; [|done]. cbn in Hi.
    simplify_eq. by apply Hf.
Qed.

Lemma table_new_ok self k : table_ok (table_new self k).
Proof.
  split; cbn [table_new table_buckets table_self table_k].
  - by rewrite length_fmap, length_seq.
  - intros i b Hb. apply list_lookup_fmap_Some in Hb as (j & -> & _).
    split; cbn; [done|unfold bucket_len; cbn; lia|apply NoDup_nil_2|].
    by intros e He%elem_of_nil.
Qed.

(** The bucket an identifier other than our own belongs to. *)
Lemma table_bucket_for t peer :
  table_ok t -> peer <> table_self t ->
  exists i b, bucket_index (distance (table_self t) peer) = Some i /\
    table_buckets t !! i = Some b /\ bucket_ok (table_self t) (table_k t) i b.
Proof.
  intros Hok Hne. destruct (bucket_index (distance (table_self t) peer)) as [i|] eqn:Hi.
  - pose proof (bucket_index_lt _ _ Hi) as Hlt. rewrite <- (tok_len _ Hok) in Hlt.
    apply lookup_lt_is_Some in Hlt as [b Hb]. exists i, b. split_and!; [done|done|].
    by eapply tok_bucket.
  - exfalso. rewrite bucket_index_spec in Hi.
    destruct (N.eqb_spec (dval (distance (table_self t) peer)) 0) as [H0|]; [|done].
    apply is_zero_dval, distance_zero_iff in H0. done.
Qed.

Lemma elsewhere_ne t i peer j b e :
  table_ok t -> bucket_index (distance (table_self t) peer) = Some i -> j <> i ->
  table_buckets t !! j = Some b -> e ∈ bucket_entries b -> e.1 <> peer.
Proof.
  intros Hok Hi Hj Hb He <-. pose proof (bok_index _ _ _ _ (tok_bucket _ Hok _ _ Hb) _ He). congruence.
Qed.

Lemma elem_of_split t i b e :
  table_buckets t !! i = Some b ->
  e ∈ table_entries t <-> e ∈ bucket_entries b \/
    exists j b', j <> i /\ table_buckets t !! j = Some b' /\ e ∈ bucket_entries b'.
Proof.
  intros Hb. rewrite elem_of_table_entries. split.
  - intros (j & b' & Hb' & He). destruct (decide (j = i)) as [->|Hne].
    + simplify_eq. by left.
    + right. by exists j, b'.
  - intros [He|(j & b' & _ & Hb' & He)]; [by exists i, b|by exists j, b'].
Qed.

(** Membership of a list is decided by the one bucket it can be in. *)
Lemma known_iff_bucket t i b peer :
  table_ok t -> bucket_index (distance (table_self t) peer) = Some i ->
  table_buckets t !! i = Some b ->
  peer ∈ (table_entries t).*1 <-> peer ∈ (bucket_entries b).*1.
Proof.
  intros Hok Hi Hb. rewrite !list_elem_of_fmap. split.
  - intros (e & -> & He). exists e. split; [done|].
    apply (elem_of_split _ _ _ _ Hb) in He as [He|(j & b' & Hj & Hb' & He)]; [done|].
    by destruct (elsewhere_ne _ _ _ _ _ _ Hok Hi Hj Hb' He).
  - intros (e & -> & He). exists e. split; [done|]. apply (elem_of_split _ _ _ _ Hb). by left.
Qed.

Lemma table_insert_ok t peer addr : table_ok t -> table_ok (table_insert t peer addr).1.
Proof.
  intros Hok. destruct (decide (peer = table_self t)) as [->|Hne].
  - unfold table_insert. destruct t as [self k bs]. cbn [table_self].
    assert (H0 : dval (distance self self) = 0%N) by (by apply is_zero_dval, distance_zero_iff).
    by rewrite bucket_index_spec, H0.
  - destruct (table_bucket_for t peer Hok Hne) as (i & b & Hi & Hb & Hbok).
    unfold table_insert. destruct t as [self k bs]. cbn [table_self table_buckets table_k] in *.
    rewrite Hi, insert_into_bucket_eq.
    apply (table_ok_alter (MkTable self k bs)); [done|]. intros b' Hb'. cbn in Hb'. simplify_eq.
    pose proof (bucket_insert_spec _ _ _ _ peer addr Hbok Hi) as H.
    by destruct (bucket_insert b peer addr) as [b2 o], H as [? _].
Qed.

Lemma table_remove_eq t peer :
  table_remove t peer =
    match bucket_index (distance (table_self t) peer) with
    | None => t
    | Some i => MkTable (table_self t) (table_k t)
        (alter (fun b => bucket_remove b peer) i (table_buckets t))
    end.
Proof.
  destruct t as [self k bs]. cbn. case_match; [|done]. by rewrite enumerate_alter.
Qed.

(** Changing one bucket changes the length by the change of that bucket. *)
Lemma table_len_alter t f i b :
  table_buckets t !! i = Some b ->
  table_len (MkTable (table_self t) (table_k t) (alter f i (table_buckets t))) + bucket_len b =
    table_len t + bucket_len (f b).
Proof.
  unfold table_len. cbn [table_buckets]. destruct t as [self k bs]. cbn [table_buckets].
  revert i. induction bs as [|b0 bs IH]; intros [|i] Hb; try done; cbn in *.
  - simplify_eq. lia.
  - specialize (IH i Hb). lia.
Qed.

Lemma alter_same {A} (f : A -> A) (l : list A) i x : l !! i = Some x -> f x = x -> alter f i l = l.
Proof.
  intros Hi Hf. apply list_eq. intros j. rewrite list_lookup_alter. case_decide; [|done].
  subst j. rewrite Hi. cbn. by rewrite Hf.
Qed.

Lemma table_eta t : MkTable (table_self t) (table_k t) (table_buckets t) = t.
Proof. by destruct t. Qed.

Lemma table_insert_self t addr : table_insert t (table_self t) addr = (t, Updated).
Proof.
  unfold table_insert. destruct t as [self k bs]. cbn [table_self].
  assert (H0 : dval (distance self self) = 0%N) by (by apply is_zero_dval, distance_zero_iff).
  by rewrite bucket_index_spec, H0.
Qed.

Lemma table_insert_at t peer addr i :
  bucket_index (distance (table_self t) peer) = Some i ->
  table_insert t peer addr =
    (MkTable (table_self t) (table_k t)
       (alter (fun b => (bucket_insert b peer addr).1) i (table_buckets t)),
     default Updated ((fun b => (bucket_insert b peer addr).2) <$> table_buckets t !! i)).
Proof.
  intros Hi. unfold table_insert. destruct t as [self k bs].
  cbn [table_self table_buckets table_k] in *. rewrite Hi. apply insert_into_bucket_eq.
Qed.

Lemma table_insert_self_id t peer addr : table_self (table_insert t peer addr).1 = table_self t.
Proof.
  destruct (bucket_index (distance (table_self t) peer)) as [i|] eqn:E.
  - by rewrite (table_insert_at _ _ _ _ E).
  - destruct t as [self k bs]. cbn in *. by rewrite E.
Qed.

Lemma table_insert_k t peer addr : table_k (table_insert t peer addr).1 = table_k t.
Proof.
  destruct (bucket_index (distance (table_self t) peer)) as [i|] eqn:E.
  - by rewrite (table_insert_at _ _ _ _ E).
  - destruct t as [self k bs]. cbn in *. by rewrite E.
Qed.

(** Inserting a peer again where it was just inserted changes nothing more. *)
Lemma bucket_insert_again b peer addr :
  bucket_insert (bucket_insert b peer addr).1 peer addr =
    ((bucket_insert b peer addr).1, (bucket_insert (bucket_insert b peer addr).1 peer addr).2).
Proof.
  destruct b as [cap es]. cbn [bucket_insert]. destruct (list_find (fun e => e.1 = peer) es) as [[i e]|] eqn:E.
  - apply list_find_Some in E as (_ & He & _). cbn in He. cbn [fst bucket_insert list_find].
    by rewrite decide_True by (by rewrite <- He).
  - destruct (length es <? cap) eqn:El.
    + cbn [fst bucket_insert list_find]. rewrite decide_True by done. by cbn.
    + cbn [fst bucket_insert]. by rewrite E, El.
Qed.

Lemma table_insert_again t peer addr :
  (table_insert (table_insert t peer addr).1 peer addr).1 = (table_insert t peer addr).1.
Proof.
  destruct (bucket_index (distance (table_self t) peer)) as [i|] eqn:E.
  - rewrite (table_insert_at t peer addr i E). cbn [fst]. rewrite (table_insert_at _ peer addr i) by done.
    cbn [fst table_self table_k table_buckets]. f_equal. rewrite list_alter_alter_eq.
    apply list_alter_ext; [|done]. intros b _. cbn. by rewrite bucket_insert_again.
  - destruct t as [self k bs]. cbn in *. rewrite E. cbn. by rewrite E.
Qed.

(** What an insertion leaves in the table, whatever its outcome. *)
Lemma table_insert_entries t peer addr e :
  table_ok t -> e ∈ table_entries (table_insert t peer addr).1 ->
  e = (peer, addr) \/ e ∈ table_entries t.
Proof.
  intros Hok. destruct (decide (peer = table_self t)) as [->|Hne].
  { rewrite table_insert_self. by right. }
  destruct (table_bucket_for t peer Hok Hne) as (i & b & Hi & Hb & Hbok).
  rewrite (table_insert_at _ _ _ _ Hi). cbn [fst].
  rewrite (table_alter_entries _ _ _ _ _ Hb), (elem_of_split _ _ _ _ Hb).
  pose proof (bucket_insert_spec _ _ _ _ peer addr Hbok Hi) as H.
  destruct (bucket_insert b peer addr) as [b' o], H as [_ H]. cbn [fst].
  intros [He|He]; [|by right; right]. destruct o.
  - destruct H as (_ & _ & Hb'). rewrite Hb', elem_of_cons in He. naive_solver.
  - destruct H as (_ & _ & Hb' & _). apply Hb' in He. naive_solver.
  - destruct H as [-> _]. naive_solver.
Qed.

Lemma table_insert_known t peer addr :
  table_ok t -> peer <> table_self t ->
  (forall lru, (table_insert t peer addr).2 <> BucketFull lru) ->
  (peer, addr) ∈ table_entries (table_insert t peer addr).1.
Proof.
  intros Hok Hne. destruct (table_bucket_for t peer Hok Hne) as (i & b & Hi & Hb & Hbok).
  rewrite (table_insert_at _ _ _ _ Hi). cbn [fst snd].
  rewrite (table_alter_entries _ _ _ _ _ Hb).
  rewrite Hb. cbn [fmap option_fmap option_map default].
  pose proof (bucket_insert_spec _ _ _ _ peer addr Hbok Hi) as H.
  destruct (bucket_insert b peer addr) as [b' o], H as [_ H]. cbn [fst snd].
  intros Hfull. left. destruct o.
  - destruct H as (_ & _ & ->). by left.
  - destruct H as (_ & _ & Hb' & _). apply Hb'. by left.
  - by destruct (Hfull lru_candidate).
Qed.

Lemma table_remove_ok t peer : table_ok t -> table_ok (table_remove t peer).
Proof.
  intros Hok. rewrite table_remove_eq. case_match eqn:Hi; [|done].
  apply table_ok_alter; [done|]. intros b Hb. by apply bucket_remove_spec, Hok.
Qed.

(** ** The nearest entries *)

Lemma closest_to_eq t target n :
  closest_to t target n = take n (sort_by_key (fun e => distance e.1 target) (table_entries t)).
Proof.
  unfold closest_to. rewrite sort_by_key_fmap, <- fmap_take, <- list_fmap_compose.
  etrans; [apply list_fmap_ext|apply list_fmap_id]. by intros _ [id a] _.
Qed.

Lemma elem_of_closest_to t target n e : e ∈ closest_to t target n -> e ∈ table_entries t.
Proof.
  rewrite closest_to_eq. intros He. rewrite <- (sort_by_key_perm (fun e => distance e.1 target)).
  rewrite <- (take_drop n (sort_by_key _ _)). apply elem_of_app. by left.
Qed.

(** A table does not propose its owner. *)
Lemma table_self_not_closest t tgt k p : table_ok t -> p ∈ closest_to t tgt k -> p.1 <> table_self t.
Proof.
  intros Hok Hp%elem_of_closest_to Hself.
  apply (self_not_in_table _ Hok p.2). rewrite <- Hself. by destruct p.
Qed.

Lemma length_closest_to t target n : length (closest_to t target n) = Nat.min n (table_len t).
Proof. by rewrite closest_to_eq, length_take, sort_by_key_perm, length_table_entries. Qed.

Lemma bucket_contains_spec b peer : bucket_contains b peer = true <-> peer ∈ (bucket_entries b).*1.
Proof.
  unfold bucket_contains. rewrite existsb_exists, list_elem_of_fmap.
  setoid_rewrite bool_decide_eq_true. setoid_rewrite <- list_elem_of_In. naive_solver.
Qed.

Lemma table_contains_spec t peer : table_contains t peer = true <-> peer ∈ (table_entries t).*1.
Proof.
  unfold table_contains. rewrite existsb_exists. setoid_rewrite bucket_contains_spec.
  setoid_rewrite <- list_elem_of_In. rewrite list_elem_of_fmap.
  setoid_rewrite elem_of_table_entries. split.
  - intros (b & [i Hi]%list_elem_of_lookup & (e & -> & He)%list_elem_of_fmap). naive_solver.
  - intros (e & -> & i & b & Hi & He). exists b. split; [by eapply list_elem_of_lookup_2|].
    apply list_elem_of_fmap. by exists e.
Qed.

(** The returned entries head a strictly sorted permutation of the table. *)
Lemma closest_to_sorted t target n :
  table_ok t ->
  exists rest, closest_to t target n ++ rest ≡ₚ table_entries t /\
    StronglySorted (fun x y => dval (distance x.1 target) < dval (distance y.1 target))%N
      (closest_to t target n ++ rest).
Proof.
  intros Hok. set (key := fun e : Peer => distance e.1 target).
  exists (drop n (sort_by_key key (table_entries t))).
  rewrite closest_to_eq, take_drop. fold key.
  pose proof (sort_by_key_perm key (table_entries t)) as Hperm. split; [done|].
  eapply (StronglySorted_strengthen fst); [|apply sort_by_key_sorted|].
  - rewrite Hperm. by apply table_entries_NoDup.
  - intros x y Hle%distance_le_val Hne.
    change (dval (distance x.1 target) <= dval (distance y.1 target))%N in Hle.
    destruct (decide (dval (distance x.1 target) = dval (distance y.1 target))) as [He|]; [|lia].
    by apply dval_inj, distance_inj_l in He.
Qed.

(** ** Properties *)

(** C35: [RoutingTable::insert] keeps the table well formed (each entry in
    the bucket of its distance, no identifier twice, no bucket over [k]) and
    reports what it did: [Added] when the peer was unknown and its bucket had
    room, and it is the only new entry; [Updated] for ourselves, with no
    change, or for a known peer, whose address is replaced; [BucketFull] when
    the peer is unknown and its bucket holds [k] entries, with the table
    unchanged and the least recently seen entry of that bucket as candidate. *)
Theorem table_insert_spec (t : RoutingTable) (peer : NodeId) (addr : UdpAddr) :
  table_ok t ->
  let '(t', o) := table_insert t peer addr in
  table_ok t' /\
  match o with
  | Added => peer <> table_self t /\ peer ∉ (table_entries t).*1 /\
      (forall e, e ∈ table_entries t' <-> e = (peer, addr) \/ e ∈ table_entries t) /\
      table_len t' = S (table_len t)
  | Updated => (peer = table_self t /\ t' = t) \/
      (peer ∈ (table_entries t).*1 /\
       (forall e, e ∈ table_entries t' <->
          e = (peer, addr) \/ (e ∈ table_entries t /\ e.1 <> peer)) /\
       table_len t' = table_len t)
  | BucketFull lru => t' = t /\ peer ∉ (table_entries t).*1 /\
      exists i b, bucket_index (distance (table_self t) peer) = Some i /\
        table_buckets t !! i = Some b /\ bucket_len b = table_k t /\
        (0 < table_k t -> exists a, last (bucket_entries b) = Some (lru, a))
  end.
Proof.
  intros Hok. destruct (decide (peer = table_self t)) as [->|Hne].
  { rewrite table_insert_self. split; [done|]. by left. }
  pose proof (table_insert_ok t peer addr Hok) as Hok'.
  destruct (table_bucket_for t peer Hok Hne) as (i & b & Hi & Hb & Hbok).
  pose proof (table_len_alter t (fun b => (bucket_insert b peer addr).1) i b Hb) as Hlen.
  rewrite (table_insert_at _ _ _ _ Hi) in Hok' |- *. cbn [fst] in Hok'. split; [done|].
  pose proof (bucket_insert_spec _ _ _ _ peer addr Hbok Hi) as H.
  rewrite Hb. cbn [fmap option_fmap option_map default].
  pose proof (known_iff_bucket _ _ _ _ Hok Hi Hb) as Hk.
  destruct (bucket_insert b peer addr) as [b' o] eqn:Eb, H as [_ H]. cbn [fst snd] in *.
  destruct o.
  - destruct H as (Hni & Hlt & Hb'). split_and!; [done|by rewrite Hk| |].
    + intros e. rewrite (table_alter_entries _ _ _ _ _ Hb), (elem_of_split _ _ _ _ Hb), Eb.
      cbn [fst]. rewrite Hb', elem_of_cons. naive_solver.
    + rewrite Eb in Hlen. cbn [fst] in Hlen.
      assert (bucket_len b' = S (bucket_len b)) by (unfold bucket_len; by rewrite Hb'). lia.
  - right. destruct H as (Hin & _ & Hb' & Hl). split_and!; [by rewrite Hk| |].
    + intros e. rewrite (table_alter_entries _ _ _ _ _ Hb), (elem_of_split _ _ _ _ Hb), Eb.
      cbn [fst]. rewrite Hb'. pose proof (elsewhere_ne t i peer) as Hels. naive_solver.
    + rewrite Eb in Hlen. cbn [fst] in Hlen. lia.
  - destruct H as (-> & Hni & Hfull & Hlru). split_and!; [|by rewrite Hk|by exists i, b].
    rewrite (alter_same _ _ _ b) by (done || by rewrite Eb). apply table_eta.
Qed.

(** [RoutingTable::remove] keeps the table well formed and takes out
    exactly the entry of the given peer; with [contains] and [len] it agrees
    with the entries. *)
Theorem table_remove_spec (t : RoutingTable) (peer : NodeId) :
  table_ok t ->
  table_ok (table_remove t peer) /\
  (forall e, e ∈ table_entries (table_remove t peer) <-> e ∈ table_entries t /\ e.1 <> peer) /\
  (table_contains t peer = true <-> peer ∈ (table_entries t).*1) /\
  (table_is_empty t = true <-> table_len t = 0).
Proof.
  intros Hok. split_and!.
  - by apply table_remove_ok.
  - intros e. rewrite table_remove_eq.
    destruct (bucket_index (distance (table_self t) peer)) as [i|] eqn:Hi.
    + pose proof (bucket_index_lt _ _ Hi) as Hlt. rewrite <- (tok_len _ Hok) in Hlt.
      apply lookup_lt_is_Some in Hlt as [b Hb].
      rewrite (table_alter_entries _ _ _ _ _ Hb), (elem_of_split _ _ _ _ Hb).
      destruct (bucket_remove_spec _ _ _ _ peer (tok_bucket _ Hok _ _ Hb)) as [_ ->].
      pose proof (elsewhere_ne t i peer) as Hels. naive_solver.
    + split; [|by intros [? _]]. intros He. split; [done|]. intros <-.
      destruct (table_entry_bucket t Hok e He) as (j & _ & Hj & _). congruence.
  - apply table_contains_spec.
  - unfold table_is_empty, table_len. generalize (table_buckets t) as bs.
    induction bs as [|b bs IH]; [done|]. cbn. rewrite andb_true_iff, IH.
    unfold bucket_is_empty. rewrite Nat.eqb_eq. lia.
Qed.

(** C36: [RoutingTable::closest_to] returns the nearest entries: as many as
    asked for or all there are, all of the table, each identifier once,
    strictly increasing in XOR distance from the target, and every entry left
    out is farther than every entry returned. *)
Theorem closest_to_nearest (t : RoutingTable) (target : NodeId) (n : nat) :
  table_ok t ->
  let r := closest_to t target n in
  let far (e : Peer) := dval (distance e.1 target) in
  length r = Nat.min n (table_len t) /\ NoDup r.*1 /\
  StronglySorted (fun x y => far x < far y)%N r /\
  (forall e, e ∈ r -> e ∈ table_entries t) /\
  (forall e e', e ∈ r -> e' ∈ table_entries t -> e' ∉ r -> (far e < far e')%N).
Proof.
  intros Hok r far. destruct (closest_to_sorted t target n Hok) as (rest & Hperm & Hs).
  fold r far in Hs, Hperm.
  assert (Hnd : NoDup (r ++ rest).*1) by (rewrite Hperm; by apply table_entries_NoDup).
  split_and!.
  - apply length_closest_to.
  - rewrite fmap_app in Hnd. by apply NoDup_app in Hnd as [? _].
  - by eapply StronglySorted_app_1_l.
  - intros e. apply elem_of_closest_to.
  - intros e e' He He' Hn. eapply (StronglySorted_app_1_elem_of _ _ _ _ _ Hs); [done|].
    rewrite <- Hperm in He'. by apply elem_of_app in He' as [?|?].
Qed.

(** ** Witnesses *)

Definition toy_id (b : byte) : NodeId := MkNodeId (arr_from_fn (fun i => if i =? 31 then b else x00)).

Definition toy_table : RoutingTable :=
  (table_insert (table_new (toy_id x00) 1) (toy_id x02) (loopback 4002)).1.

Lemma toy_table_ok : table_ok toy_table.
Proof. apply table_insert_ok, table_new_ok. Qed.

Lemma table_insert_spec_witness :
  let '(t', o) := table_insert toy_table (toy_id x03) (loopback 4003) in
  table_ok t' /\ o = BucketFull (toy_id x02) /\ t' = toy_table.
Proof.
  assert (Ho : (table_insert toy_table (toy_id x03) (loopback 4003)).2 = BucketFull (toy_id x02))
    by (vm_compute; reflexivity).
  pose proof (table_insert_spec toy_table (toy_id x03) (loopback 4003) toy_table_ok) as H.
  destruct (table_insert toy_table (toy_id x03) (loopback 4003)) as [t' o]. cbn in Ho. subst o.
  destruct H as (Hok & Heq & _). exact (conj Hok (conj eq_refl Heq)).
Defined.

Lemma table_remove_spec_witness :
  table_ok (table_remove toy_table (toy_id x02)) /\
  table_entries toy_table = [(toy_id x02, loopback 4002)] /\
  (toy_id x02, loopback 4002) ∉ table_entries (table_remove toy_table (toy_id x02)).
Proof.
  destruct (table_remove_spec toy_table (toy_id x02) toy_table_ok) as (Hok & Hin & _).
  split_and!; [done|vm_compute; reflexivity|]. by intros [_ ?]%Hin.
Defined.

Lemma closest_to_nearest_witness :
  let t := (table_insert toy_table (toy_id x04) (loopback 4004)).1 in
  closest_to t (toy_id x05) 1 = [(toy_id x04, loopback 4004)] /\
  length (closest_to t (toy_id x05) 1) = Nat.min 1 (table_len t).
Proof.
  intros t. split; [vm_compute; reflexivity|].
  apply (closest_to_nearest t (toy_id x05) 1). by apply table_insert_ok, toy_table_ok.
Defined.
