(* ===== verification/AddrWire.v ===== *)
(** * The wire form of a UDP address

    Models [encode_addr] and [decode_addr] of
    src/crates/libp2p-cat-kad/src/codec.rs: a kind byte, the octets of the IP
    and the big-endian port.  The rendezvous codec repeats them. *)

From S2P Require Export Types.

#[local] Open Scope string_scope.

Definition ADDR_KIND_V4 : byte := x04.
Definition ADDR_KIND_V6 : byte := x06.
Definition ADDR_V4_BODY_LEN : nat := 4 + 2.
Definition ADDR_V6_BODY_LEN : nat := 16 + 2.

(** [protocol_error] of both codecs. *)
Definition wire_error (reason : string) : Error := PubsubProtocol reason.

Definition encode_addr (addr : UdpAddr) : list byte :=
  match addr with
  | V4 s => ([ADDR_KIND_V4] ++ arr_list (v4_ip s) ++ be_bytes 2 (v4_port s))%list
  | V6 s => ([ADDR_KIND_V6] ++ arr_list (v6_ip s) ++ be_bytes 2 (v6_port s))%list
  end.

Definition u32_zero : u32 := UInt (w:=32) 0 eq_refl.

Definition decode_addr_v4 (body : list byte) : result Error UdpAddr :=
  ip_slice ← ok_or_else (get_to 4 body) (wire_error "V4 addr needs 4 IP bytes");
  port_slice ← ok_or_else (get_range 4 ADDR_V4_BODY_LEN body)
    (wire_error "V4 addr needs 2 port bytes");
  ip_arr ← ok_or_else (arr_try (n:=4) ip_slice) (wire_error "V4 IP slice not 4 bytes wide");
  port_arr ← ok_or_else (arr_try (n:=2) port_slice) (wire_error "V4 port slice not 2 bytes wide");
  let port := from_be (arr_list port_arr) in
  Ok (V4 (MkV4 ip_arr port)).

Definition decode_addr_v6 (body : list byte) : result Error UdpAddr :=
  ip_slice ← ok_or_else (get_to 16 body) (wire_error "V6 addr needs 16 IP bytes");
  port_slice ← ok_or_else (get_range 16 ADDR_V6_BODY_LEN body)
    (wire_error "V6 addr needs 2 port bytes");
  ip_arr ← ok_or_else (arr_try (n:=16) ip_slice) (wire_error "V6 IP slice not 16 bytes wide");
  port_arr ← ok_or_else (arr_try (n:=2) port_slice) (wire_error "V6 port slice not 2 bytes wide");
  let port := from_be (arr_list port_arr) in
  Ok (V6 (MkV6 ip_arr port u32_zero u32_zero)).

(** The address and the bytes it took. *)
Definition decode_addr (buf : list byte) : result Error (UdpAddr * nat) :=
  kind ← ok_or_else (head buf) (wire_error "addr kind byte missing");
  let body := default [] (get_from 1 buf) in
  if bool_decide (kind = ADDR_KIND_V4) then
    addr ← decode_addr_v4 body; Ok (addr, 1 + ADDR_V4_BODY_LEN)
  else if bool_decide (kind = ADDR_KIND_V6) then
    addr ← decode_addr_v6 body; Ok (addr, 1 + ADDR_V6_BODY_LEN)
  else Err (wire_error ("unknown addr kind 0x" ++ hex02 kind)).

#[local] Close Scope string_scope.

(** ** What the wire keeps of an address: everything but the V6 flow and scope *)

Definition wire_addr (a : UdpAddr) : UdpAddr :=
  match a with
  | V4 s => V4 s
  | V6 s => V6 (MkV6 (v6_ip s) (v6_port s) u32_zero u32_zero)
  end.

Lemma wire_addr_idem a : wire_addr (wire_addr a) = wire_addr a.
Proof. by destruct a. Qed.

Lemma encode_wire_addr a : encode_addr (wire_addr a) = encode_addr a.
Proof. by destruct a. Qed.

Definition addr_wire_len (a : UdpAddr) : nat :=
  match a with V4 _ => 1 + ADDR_V4_BODY_LEN | V6 _ => 1 + ADDR_V6_BODY_LEN end.

Lemma length_encode_addr a : length (encode_addr a) = addr_wire_len a.
Proof. destruct a; cbn; by rewrite length_app, length_arr, length_be_bytes. Qed.

(** Cutting [n] bytes of IP and two of port off a body. *)
Lemma ip_port_split n (body : list byte) :
  n + 2 <= length body ->
  exists (ip : arr n) (port : u16) rest, body = arr_list ip ++ be_bytes 2 port ++ rest.
Proof.
  intros H. destruct (split_list n 2 body H) as (x & y & z & -> & Hx & Hy).
  destruct (arr_try_length x Hx) as (ip & _ & <-).
  exists ip, (from_be y), z. by rewrite be_bytes_from_be.
Qed.

(** The two slices of a body that starts with an IP and a port. *)
Lemma ip_port_get n (ip : arr n) (port : u16) rest :
  let body := arr_list ip ++ be_bytes 2 port ++ rest in
  get_to n body = Some (arr_list ip) /\ get_range n (n + 2) body = Some (be_bytes 2 port).
Proof.
  cbn zeta. split.
  - apply get_to_app. by autorewrite with p2p.
  - apply get_range_app; by autorewrite with p2p.
Qed.

Lemma ip_port_short n (body : list byte) :
  length body < n + 2 -> get_to n body = None \/ get_range n (n + 2) body = None.
Proof.
  intros H. right. unfold get_range. destruct (Nat.leb_spec (n + 2) (length body)); [lia|].
  by rewrite andb_false_r.
Qed.

(** A two-byte array of a port's bytes. *)
Lemma port_arr (port : u16) :
  exists a : arr 2, arr_try (be_bytes 2 port) = Some a /\ arr_list a = be_bytes 2 port.
Proof. apply arr_try_length. by autorewrite with p2p. Qed.

Lemma decode_addr_v4_app (s : SocketAddrV4) rest :
  decode_addr_v4 (arr_list (v4_ip s) ++ be_bytes 2 (v4_port s) ++ rest) = Ok (V4 s).
Proof.
  unfold decode_addr_v4. destruct (ip_port_get 4 (v4_ip s) (v4_port s) rest) as [-> Hp].
  change (4 + 2) with ADDR_V4_BODY_LEN in Hp. rewrite Hp.
  cbn [ok_or_else mbind result_bind]. rewrite arr_try_arr.
  destruct (port_arr (v4_port s)) as (a & Ha & Hl). cbn [ok_or_else mbind result_bind].
  rewrite Ha. cbn [ok_or_else mbind result_bind]. rewrite Hl, from_be_bytes by done. by destruct s.
Qed.

Lemma decode_addr_v6_app (s : SocketAddrV6) rest :
  decode_addr_v6 (arr_list (v6_ip s) ++ be_bytes 2 (v6_port s) ++ rest) = Ok (wire_addr (V6 s)).
Proof.
  unfold decode_addr_v6. destruct (ip_port_get 16 (v6_ip s) (v6_port s) rest) as [-> Hp].
  change (16 + 2) with ADDR_V6_BODY_LEN in Hp. rewrite Hp.
  cbn [ok_or_else mbind result_bind]. rewrite arr_try_arr.
  destruct (port_arr (v6_port s)) as (a & Ha & Hl). cbn [ok_or_else mbind result_bind].
  rewrite Ha. cbn [ok_or_else mbind result_bind]. by rewrite Hl, from_be_bytes.
Qed.

Lemma decode_addr_v4_short body : length body < ADDR_V4_BODY_LEN -> ~ is_ok (decode_addr_v4 body).
Proof.
  intros H. unfold decode_addr_v4.
  destruct (ip_port_short 4 body H) as [->|Hp]; [cbn; tauto|].
  change (4 + 2) with ADDR_V4_BODY_LEN in Hp. rewrite Hp. destruct (get_to 4 body); cbn; tauto.
Qed.

Lemma decode_addr_v6_short body : length body < ADDR_V6_BODY_LEN -> ~ is_ok (decode_addr_v6 body).
Proof.
  intros H. unfold decode_addr_v6.
  destruct (ip_port_short 16 body H) as [->|Hp]; [cbn; tauto|].
  change (16 + 2) with ADDR_V6_BODY_LEN in Hp. rewrite Hp. destruct (get_to 16 body); cbn; tauto.
Qed.

(** Decoding an encoded address, whatever follows it. *)
Lemma decode_encode_addr a rest :
  decode_addr (encode_addr a ++ rest) = Ok (wire_addr a, length (encode_addr a)).
Proof.
  rewrite length_encode_addr. destruct a as [s|s].
  - unfold decode_addr. cbn [encode_addr app head ok_or_else mbind result_bind].
    rewrite get_from_unwrap_or. rewrite skipn_cons, drop_0. rewrite bool_decide_true by done.
    by rewrite <- app_assoc, decode_addr_v4_app.
  - unfold decode_addr. cbn [encode_addr app head ok_or_else mbind result_bind].
    rewrite get_from_unwrap_or. rewrite skipn_cons, drop_0.
    rewrite bool_decide_false, bool_decide_true by done.
    by rewrite <- app_assoc, decode_addr_v6_app.
Qed.

(** Whatever decodes begins with the encoding of what it decodes to. *)
Lemma decode_addr_Ok buf a n :
  decode_addr buf = Ok (a, n) ->
  exists rest, buf = encode_addr a ++ rest /\ n = length (encode_addr a) /\ wire_addr a = a.
Proof.
  destruct buf as [|kind body]; [done|]. unfold decode_addr.
  cbn [head ok_or_else mbind result_bind]. rewrite get_from_unwrap_or. rewrite skipn_cons, drop_0.
  case_bool_decide as H4; [|case_bool_decide as H6; [|done]]; subst kind.
  - destruct (decide (ADDR_V4_BODY_LEN <= length body)) as [Hl|Hl].
    + destruct (ip_port_split 4 body Hl) as (ip & port & rest & ->).
      rewrite (decode_addr_v4_app (MkV4 ip port)). intros [= <- <-]. exists rest.
      rewrite length_encode_addr. cbn [encode_addr app]. by rewrite <- app_assoc.
    + pose proof (decode_addr_v4_short body ltac:(lia)) as Hs.
      destruct (decode_addr_v4 body); [by destruct Hs|done].
  - destruct (decide (ADDR_V6_BODY_LEN <= length body)) as [Hl|Hl].
    + destruct (ip_port_split 16 body Hl) as (ip & port & rest & ->).
      rewrite (decode_addr_v6_app (MkV6 ip port u32_zero u32_zero)). intros [= <- <-]. exists rest.
      rewrite length_encode_addr. cbn [encode_addr app v6_ip v6_port]. by rewrite <- app_assoc.
    + pose proof (decode_addr_v6_short body ltac:(lia)) as Hs.
      destruct (decode_addr_v6 body); [by destruct Hs|done].
Qed.
