(* ===== verification/KadCodec.v ===== *)
(** * Kademlia RPC frames on the wire

    Models src/crates/libp2p-cat-kad/src/codec.rs.  The source's [encode],
    [decode], [Frame] and [Opcode] carry the prefix [kad] here, since other
    crates have theirs. *)

From S2P Require Export AddrWire KadTable.

#[local] Open Scope string_scope.

Inductive KadOpcode : Type :=
| OpPingReq | OpPingResp | OpFindNodeReq | OpFindNodeResp.

Definition kad_to_byte (op : KadOpcode) : byte :=
  match op with
  | OpPingReq => x00
  | OpPingResp => x01
  | OpFindNodeReq => x02
  | OpFindNodeResp => x03
  end.

Definition kad_from_byte (b : byte) : result Error KadOpcode :=
  match b with
  | x00 => Ok OpPingReq
  | x01 => Ok OpPingResp
  | x02 => Ok OpFindNodeReq
  | x03 => Ok OpFindNodeResp
  | n => Err (wire_error ("unknown kad opcode 0x" ++ hex02 n))
  end.

(** [{opcode:?}]. *)
Definition kad_opcode_debug (op : KadOpcode) : string :=
  match op with
  | OpPingReq => "PingReq"
  | OpPingResp => "PingResp"
  | OpFindNodeReq => "FindNodeReq"
  | OpFindNodeResp => "FindNodeResp"
  end.

Inductive KadFrame : Type :=
| PingReq
| PingResp
| FindNodeReq (target : NodeId)
| FindNodeResp (peers : list Peer).

Definition MAX_PEERS_PER_RESP : nat := 255.
Definition ENTRY_V4_LEN : nat := NODE_ID_LEN + 1 + ADDR_V4_BODY_LEN.
Definition ENTRY_V6_LEN : nat := NODE_ID_LEN + 1 + ADDR_V6_BODY_LEN.

Definition encode_entry (id : NodeId) (addr : UdpAddr) : list byte :=
  (arr_list (node_id_bytes id) ++ encode_addr addr)%list.

Definition encode_find_node_resp (peers : list Peer) : result Error (list byte) :=
  count ← ok_or_else (uint_try (w:=8) (N.of_nat (length peers)))
    (wire_error ("FindNodeResp peer count " ++ decn (length peers) ++
       " exceeds the 1-byte cap of " ++ decn MAX_PEERS_PER_RESP));
  Ok ([kad_to_byte OpFindNodeResp; n2b (uval count)] ++
      concat ((fun '(id, addr) => encode_entry id addr) <$> peers))%list.

Definition kad_encode (frame : KadFrame) : result Error (list byte) :=
  match frame with
  | PingReq => Ok [kad_to_byte OpPingReq]
  | PingResp => Ok [kad_to_byte OpPingResp]
  | FindNodeReq target =>
      Ok ([kad_to_byte OpFindNodeReq] ++ arr_list (node_id_bytes target))%list
  | FindNodeResp peers => encode_find_node_resp peers
  end.

Definition decode_no_body (opcode : KadOpcode) (body : list byte) : result Error KadFrame :=
  if (length body =? 0)%nat then
    match opcode with
    | OpPingReq => Ok PingReq
    | OpPingResp => Ok PingResp
    | OpFindNodeReq | OpFindNodeResp =>
        Err (wire_error ("decode_no_body called with body-bearing opcode "
          ++ kad_opcode_debug opcode))
    end
  else Err (wire_error (kad_opcode_debug opcode ++ " expects an empty body, got "
         ++ decn (length body) ++ " bytes")).

Definition decode_find_node_req (body : list byte) : result Error KadFrame :=
  target_slice ← ok_or_else (get_to NODE_ID_LEN body)
    (wire_error ("FindNodeReq needs " ++ decn NODE_ID_LEN ++ " bytes, got " ++ decn (length body)));
  let trailing := default [] (get_from NODE_ID_LEN body) in
  if (length trailing =? 0)%nat then
    arr ← ok_or_else (arr_try (n:=NODE_ID_LEN) target_slice)
      (wire_error "FindNodeReq target slice not 32 bytes wide");
    Ok (FindNodeReq (MkNodeId arr))
  else Err (wire_error ("FindNodeReq has " ++ decn (length trailing)
         ++ " unexpected trailing bytes")).

Definition decode_entry (buf : list byte) : result Error (Peer * nat) :=
  id_slice ← ok_or_else (get_to NODE_ID_LEN buf)
    (wire_error ("entry NodeId needs " ++ decn NODE_ID_LEN ++ " bytes, got " ++ decn (length buf)));
  id_arr ← ok_or_else (arr_try (n:=NODE_ID_LEN) id_slice)
    (wire_error "entry NodeId slice not 32 bytes wide");
  let id := MkNodeId id_arr in
  let after_id := default [] (get_from NODE_ID_LEN buf) in
  '(addr, addr_consumed) ← decode_addr after_id;
  Ok ((id, addr), NODE_ID_LEN + addr_consumed).

Definition decode_entries (buf : list byte) (count : nat) : result Error (list Peer * nat) :=
  try_fold (fun '(acc, offset) idx =>
      let chunk := default [] (get_from offset buf) in
      '(entry, consumed) ← map_err (fun e =>
          wire_error ("FindNodeResp entry " ++ decn idx ++ " decode failed: " ++ error_display e))
        (decode_entry chunk);
      Ok (acc ++ [entry], offset + consumed)%list)
    ([], 0) (seq 0 count).

Definition decode_find_node_resp (body : list byte) : result Error KadFrame :=
  count_byte ← ok_or_else (head body) (wire_error "FindNodeResp missing count byte");
  let count := N.to_nat (b2n count_byte) in
  let entries_slice := default [] (get_from 1 body) in
  '(peers, consumed) ← decode_entries entries_slice count;
  let trailing := default [] (get_from consumed entries_slice) in
  if (length trailing =? 0)%nat then Ok (FindNodeResp peers)
  else Err (wire_error ("FindNodeResp has " ++ decn (length trailing)
         ++ " unexpected trailing bytes after " ++ decn count ++ " entries")).

Definition kad_decode (bytes : list byte) : result Error KadFrame :=
  opcode_byte ← ok_or_else (head bytes) (wire_error "kad frame is empty");
  opcode ← kad_from_byte opcode_byte;
  let body := default [] (get_from 1 bytes) in
  match opcode with
  | OpPingReq | OpPingResp => decode_no_body opcode body
  | OpFindNodeReq => decode_find_node_req body
  | OpFindNodeResp => decode_find_node_resp body
  end.

#[local] Close Scope string_scope.

(** ** What the wire keeps of a frame *)

Definition wire_peer (p : Peer) : Peer := (p.1, wire_addr p.2).
Definition wire_frame (f : KadFrame) : KadFrame :=
  match f with
  | FindNodeResp peers => FindNodeResp (wire_peer <$> peers)
  | _ => f
  end.

(** ** Entries *)

Definition entry_bytes (p : Peer) : list byte := encode_entry p.1 p.2.

Lemma decode_encode_entry p rest :
  decode_entry (entry_bytes p ++ rest) = Ok (wire_peer p, length (entry_bytes p)).
Proof.
  destruct p as [[id] a]. unfold decode_entry, entry_bytes, encode_entry. cbn [fst snd node_id_bytes].
  rewrite <- app_assoc, get_to_app by apply length_arr. cbn [ok_or_else mbind result_bind].
  rewrite arr_try_arr. cbn [ok_or_else mbind result_bind].
  rewrite get_from_app by apply length_arr. cbn [from_option]. unfold Datatypes.id. rewrite decode_encode_addr.
  cbn [mbind result_bind]. by rewrite length_app, length_arr.
Qed.

Lemma decode_entry_Ok buf p n :
  decode_entry buf = Ok (p, n) ->
  exists rest, buf = entry_bytes p ++ rest /\ n = length (entry_bytes p) /\ wire_peer p = p.
Proof.
  unfold decode_entry. destruct (get_to NODE_ID_LEN buf) as [id_slice|] eqn:Ei; [|done].
  apply get_to_Some in Ei as [Hlen ->]. cbn [ok_or_else mbind result_bind].
  destruct (arr_try_length (n:=NODE_ID_LEN) (take NODE_ID_LEN buf)) as (id & -> & Hid).
  { rewrite length_take. lia. }
  cbn [ok_or_else mbind result_bind]. rewrite get_from_unwrap_or.
  destruct (decode_addr (drop NODE_ID_LEN buf)) as [[a k]|] eqn:Ea; [|done].
  cbn [mbind result_bind]. intros [= <- <-].
  apply decode_addr_Ok in Ea as (rest & Hrest & -> & Ha). exists rest.
  unfold entry_bytes, encode_entry, wire_peer. cbn [fst snd node_id_bytes]. split_and!.
  - by rewrite <- app_assoc, <- Hrest, Hid, take_drop.
  - by rewrite length_app, length_arr.
  - by rewrite Ha.
Qed.

(** The fold over the entries, in terms of what is left to read. *)
Fixpoint read_entries (idx count : nat) (buf : list byte) : result Error (list Peer * list byte) :=
  match count with
  | 0 => Ok ([], buf)
  | S count =>
      '(entry, consumed) ← map_err (fun e => wire_error ("FindNodeResp entry " ++ decn idx
          ++ " decode failed: " ++ error_display e)%string) (decode_entry buf);
      '(entries, rest) ← read_entries (S idx) count (drop consumed buf);
      Ok (entry :: entries, rest)
  end.

Lemma decode_entries_read buf count :
  decode_entries buf count =
    ('(entries, rest) ← read_entries 0 count buf; Ok (entries, length buf - length rest)).
Proof.
  unfold decode_entries.
  match goal with |- try_fold ?f _ _ = _ => set (F := f) end.
  assert (Hgen : forall count idx acc offset, offset <= length buf ->
    try_fold F (acc, offset) (seq idx count) =
      ('(entries, rest) ← read_entries idx count (drop offset buf);
       Ok (acc ++ entries, length buf - length rest))).
  { clear count. induction count as [|count IH]; intros idx acc offset Hoff; cbn [seq try_fold read_entries].
    - cbn. rewrite app_nil_r, length_drop. do 2 f_equal. lia.
    - unfold F at 2. rewrite get_from_unwrap_or.
      destruct (decode_entry (drop offset buf)) as [[e n]|] eqn:Ee; [|done].
      cbn [map_err mbind result_bind]. apply decode_entry_Ok in Ee as (rest & Hrest & -> & _).
      rewrite IH.
      + rewrite drop_drop. destruct (read_entries (S idx) count _) as [[es r]|]; [|done].
        cbn. by rewrite <- app_assoc.
      + apply (f_equal length) in Hrest. rewrite length_drop, length_app in Hrest. lia. }
  rewrite Hgen by lia. by rewrite drop_0.
Qed.

Lemma read_encoded_entries idx peers rest :
  read_entries idx (length peers) (concat (entry_bytes <$> peers) ++ rest) =
    Ok (wire_peer <$> peers, rest).
Proof.
  revert idx. induction peers as [|p peers IH]; intros idx; [done|].
  cbn [length read_entries fmap list_fmap concat]. rewrite <- app_assoc, decode_encode_entry.
  cbn [map_err mbind result_bind]. rewrite drop_app_length.
  change (list_fmap _ _ entry_bytes peers) with (entry_bytes <$> peers). by rewrite IH.
Qed.

Lemma read_entries_Ok idx count buf peers rest :
  read_entries idx count buf = Ok (peers, rest) ->
  length peers = count /\ buf = concat (entry_bytes <$> peers) ++ rest /\
  wire_peer <$> peers = peers.
Proof.
  revert idx buf peers. induction count as [|count IH]; intros idx buf peers; cbn [read_entries].
  - by intros [= <- <-].
  - destruct (decode_entry buf) as [[e n]|] eqn:Ee; [|done]. cbn [map_err mbind result_bind].
    apply decode_entry_Ok in Ee as (r & -> & -> & He). rewrite drop_app_length.
    destruct (read_entries (S idx) count r) as [[es r']|] eqn:Er; [|done].
    cbn [mbind result_bind]. intros [= <- <-].
    apply IH in Er as (Hl & -> & Hw). split_and!.
    + cbn. by rewrite Hl.
    + cbn. by rewrite app_assoc.
    + cbn. by rewrite He, Hw.
Qed.

Lemma encode_resp_eq peers :
  encode_find_node_resp peers =
    if length peers <=? MAX_PEERS_PER_RESP
    then Ok ([x03; n2b (N.of_nat (length peers))] ++ concat (entry_bytes <$> peers))
    else Err (wire_error ("FindNodeResp peer count " ++ decn (length peers) ++
           " exceeds the 1-byte cap of " ++ decn MAX_PEERS_PER_RESP)%string).
Proof.
  unfold encode_find_node_resp. destruct (Nat.leb_spec (length peers) MAX_PEERS_PER_RESP) as [Hl|Hl].
  - assert (Hlt : (N.of_nat (length peers) < 2 ^ 8)%N)
      by (unfold MAX_PEERS_PER_RESP in Hl; change (2 ^ 8)%N with 256%N; lia).
    destruct (uint_try (w:=8) (N.of_nat (length peers))) as [c|] eqn:Ec.
    + apply uint_try_Some in Ec. cbn [ok_or_else mbind result_bind]. rewrite Ec.
      by rewrite (list_fmap_ext _ entry_bytes peers) by (by intros _ [id a] _).
    + apply uint_try_None in Ec. lia.
  - rewrite (proj2 (uint_try_None _)); [done|].
    unfold MAX_PEERS_PER_RESP in Hl. change (2 ^ 8)%N with 256%N. lia.
Qed.

Lemma concat_entry_wire peers :
  concat (entry_bytes <$> (wire_peer <$> peers)) = concat (entry_bytes <$> peers).
Proof.
  rewrite <- list_fmap_compose. f_equal. apply list_fmap_ext. intros _ [id a] _. cbn.
  unfold entry_bytes, encode_entry. cbn. by rewrite encode_wire_addr.
Qed.

Lemma length_entry_bytes p :
  length (entry_bytes p) = match p.2 with V4 _ => ENTRY_V4_LEN | V6 _ => ENTRY_V6_LEN end.
Proof.
  destruct p as [id a]. unfold entry_bytes, encode_entry. cbn [fst snd].
  rewrite length_app, length_arr, length_encode_addr. by destruct a.
Qed.

Lemma length_entries peers :
  length (concat (entry_bytes <$> peers)) <= ENTRY_V6_LEN * length peers.
Proof.
  induction peers as [|p peers IH]; [done|]. cbn [fmap list_fmap concat length].
  change (list_fmap _ _ entry_bytes peers) with (entry_bytes <$> peers).
  rewrite length_app, length_entry_bytes.
  assert (match p.2 with V4 _ => ENTRY_V4_LEN | V6 _ => ENTRY_V6_LEN end <= ENTRY_V6_LEN)
    by (destruct p.2; unfold ENTRY_V4_LEN, ENTRY_V6_LEN, NODE_ID_LEN, ADDR_V4_BODY_LEN,
          ADDR_V6_BODY_LEN; lia).
  lia.
Qed.

Lemma length_entries_lower peers :
  ENTRY_V4_LEN * length peers <= length (concat (entry_bytes <$> peers)).
Proof.
  induction peers as [|p peers IH]; [done|]. cbn [fmap list_fmap concat length].
  change (list_fmap _ _ entry_bytes peers) with (entry_bytes <$> peers).
  rewrite length_app, length_entry_bytes.
  assert (ENTRY_V4_LEN <= match p.2 with V4 _ => ENTRY_V4_LEN | V6 _ => ENTRY_V6_LEN end)
    by (destruct p.2; unfold ENTRY_V4_LEN, ENTRY_V6_LEN, NODE_ID_LEN, ADDR_V4_BODY_LEN,
          ADDR_V6_BODY_LEN; lia).
  lia.
Qed.

(** Frames fail to encode only when a response carries too many peers. *)
Lemma kad_encode_fails f e :
  kad_encode f = Err e -> exists peers, f = FindNodeResp peers /\ MAX_PEERS_PER_RESP < length peers.
Proof.
  destruct f as [| | |peers]; try done. cbn [kad_encode]. rewrite encode_resp_eq.
  destruct (Nat.leb_spec (length peers) MAX_PEERS_PER_RESP); [done|]. intros _. by exists peers.
Qed.

Lemma kad_encode_length f bytes :
  kad_encode f = Ok bytes ->
  length bytes = match f with
    | PingReq | PingResp => 1
    | FindNodeReq _ => 1 + NODE_ID_LEN
    | FindNodeResp peers => 2 + length (concat (entry_bytes <$> peers))
    end.
Proof.
  destruct f as [| |target|peers]; cbn [kad_encode].
  1, 2: by intros [= <-].
  - intros [= <-]. cbn [length app]. by rewrite length_arr.
  - rewrite encode_resp_eq. case_match; [|done]. by intros [= <-].
Qed.

Lemma b2n_count n : n <= MAX_PEERS_PER_RESP -> N.to_nat (b2n (n2b (N.of_nat n))) = n.
Proof.
  intros H. unfold MAX_PEERS_PER_RESP in H. rewrite b2n_n2b, N.mod_small by lia. lia.
Qed.

Lemma kad_decode_encode f bytes : kad_encode f = Ok bytes -> kad_decode bytes = Ok (wire_frame f).
Proof.
  destruct f as [| |[target]|peers]; cbn [kad_encode].
  1, 2: by intros [= <-].
  - intros [= <-]. unfold kad_decode.
    cbn [app head ok_or_else mbind result_bind kad_to_byte kad_from_byte node_id_bytes].
    rewrite get_from_unwrap_or, skipn_cons, drop_0.
    unfold decode_find_node_req. rewrite get_from_unwrap_or.
    pose proof (length_arr target) as Hl.
    rewrite (proj2 (get_to_Some NODE_ID_LEN (arr_list target) (arr_list target)))
      by (split; [lia|by rewrite firstn_all2 by lia]).
    cbn [ok_or_else mbind result_bind]. rewrite drop_ge by lia. cbn [length Nat.eqb].
    by rewrite arr_try_arr.
  - rewrite encode_resp_eq. destruct (Nat.leb_spec (length peers) MAX_PEERS_PER_RESP) as [Hle|]; [|done].
    intros [= <-]. unfold kad_decode.
    cbn [app head ok_or_else mbind result_bind kad_from_byte].
    rewrite get_from_unwrap_or, skipn_cons, drop_0.
    unfold decode_find_node_resp. cbn [head ok_or_else mbind result_bind].
    rewrite !get_from_unwrap_or, skipn_cons, drop_0, decode_entries_read, b2n_count by done.
    rewrite <- (app_nil_r (concat _)), read_encoded_entries. cbn [mbind result_bind length].
    by rewrite Nat.sub_0_r, get_from_unwrap_or, drop_ge by done.
Qed.

Lemma kad_decode_inv bytes f : kad_decode bytes = Ok f -> kad_encode f = Ok bytes /\ wire_frame f = f.
Proof.
  destruct bytes as [|op body]; [done|]. unfold kad_decode. cbn [head ok_or_else mbind result_bind].
  rewrite get_from_unwrap_or, skipn_cons, drop_0.
  destruct (kad_from_byte op) as [opcode|] eqn:Eop; [|done]. cbn [mbind result_bind].
  assert (Hop : op = kad_to_byte opcode) by (destruct op; cbn in Eop; by simplify_eq).
  clear Eop. subst op.
  destruct opcode; cbn [kad_to_byte].
  1, 2: unfold decode_no_body; destruct body; cbn; [|done]; by intros [= <-].
  - unfold decode_find_node_req. destruct (get_to NODE_ID_LEN body) as [s|] eqn:Es; [|done].
    apply get_to_Some in Es as [Hlen ->]. cbn [ok_or_else mbind result_bind].
    rewrite get_from_unwrap_or. destruct (Nat.eqb_spec (length (drop NODE_ID_LEN body)) 0) as [H0|]; [|done].
    destruct (arr_try_length (n:=NODE_ID_LEN) (take NODE_ID_LEN body)) as (a & -> & Ha).
    { rewrite length_take. lia. }
    cbn [ok_or_else mbind result_bind]. intros [= <-]. cbn [kad_encode node_id_bytes]. split; [|done].
    do 2 f_equal. rewrite Ha. apply firstn_all2. rewrite length_drop in H0. lia.
  - unfold decode_find_node_resp. destruct body as [|c es]; [done|].
    cbn [head ok_or_else mbind result_bind].
    rewrite get_from_unwrap_or, skipn_cons, drop_0, decode_entries_read.
    destruct (read_entries 0 (N.to_nat (b2n c)) es) as [[peers rest]|] eqn:Er; [|done].
    cbn [mbind result_bind]. apply read_entries_Ok in Er as (Hlen & -> & Hw).
    rewrite get_from_unwrap_or, length_app.
    replace (length (concat (entry_bytes <$> peers)) + length rest - length rest)
      with (length (concat (entry_bytes <$> peers))) by lia.
    rewrite drop_app_length. destruct rest; [|done]. cbn [length Nat.eqb]. intros [= <-].
    cbn [kad_encode wire_frame]. rewrite Hw. split; [|done].
    rewrite encode_resp_eq. pose proof (b2n_lt c).
    destruct (Nat.leb_spec (length peers) MAX_PEERS_PER_RESP) as [_|Hgt];
      [|unfold MAX_PEERS_PER_RESP in Hgt; lia].
    rewrite Hlen, N2Nat.id, n2b_b2n, app_nil_r. done.
Qed.

(** ** Properties *)

(** Encoding a Kademlia frame and decoding the bytes gives the frame
    back, but for the flow information and scope of IPv6 addresses, which the
    wire sets to zero; encoding fails only for a response of more than 255
    peers, and a response of [n] peers takes at most [2 + 51 n] bytes, so one of
    the default [k = 20] peers at most 1022. *)
Theorem kad_codec_roundtrip (f : KadFrame) :
  match kad_encode f with
  | Ok bytes => kad_decode bytes = Ok (wire_frame f) /\
      kad_encode (wire_frame f) = Ok bytes /\
      match f with
      | FindNodeResp peers => length peers <= 255 /\
          2 + 39 * length peers <= length bytes <= 2 + 51 * length peers
      | _ => length bytes <= 33
      end
  | Err e => exists peers, f = FindNodeResp peers /\ 255 < length peers /\
      e = wire_error ("FindNodeResp peer count " ++ decn (length peers) ++
            " exceeds the 1-byte cap of 255")%string
  end.
Proof.
  destruct (kad_encode f) as [bytes|e] eqn:Ef.
  - pose proof (kad_encode_length f bytes Ef) as Hlen. split_and!.
    + by apply kad_decode_encode.
    + rewrite <- Ef. destruct f as [| | |peers]; try done. cbn [wire_frame kad_encode].
      by rewrite !encode_resp_eq, length_fmap, concat_entry_wire.
    + destruct f as [| | |peers]; cbn in Hlen |- *; [unfold NODE_ID_LEN in Hlen; lia..|].
      cbn [kad_encode] in Ef. rewrite encode_resp_eq in Ef.
      destruct (Nat.leb_spec (length peers) MAX_PEERS_PER_RESP) as [Hle|]; [|done].
      split; [done|]. pose proof (length_entries peers) as Hu.
      pose proof (length_entries_lower peers) as Hl.
      unfold ENTRY_V6_LEN, ENTRY_V4_LEN, NODE_ID_LEN, ADDR_V6_BODY_LEN, ADDR_V4_BODY_LEN in *. lia.
  - destruct f as [| | |peers]; try done. cbn [kad_encode] in Ef. rewrite encode_resp_eq in Ef.
    exists peers. destruct (Nat.leb_spec (length peers) MAX_PEERS_PER_RESP); [done|].
    by injection Ef as <-.
Qed.

(** C37: the decoder accepts exactly the encodings of the frames the wire can
    carry: what it returns encodes to the very bytes it read, so no two byte
    strings decode to one frame and nothing trails an accepted frame. *)
Theorem kad_decode_exact (bytes : list byte) (f : KadFrame) :
  kad_decode bytes = Ok f <-> kad_encode f = Ok bytes /\ wire_frame f = f.
Proof.
  split; [apply kad_decode_inv|]. intros [He Hw]. apply kad_decode_encode in He. by rewrite Hw in He.
Qed.
