(* ===== verification/KadLookup.v ===== *)
(** * The iterative lookup's state machine

    Models the [Lookup] type of src/crates/libp2p-cat-kad/src/lookup.rs: the
    shortlist ordered by distance to the target and the two tables of
    outstanding actions.  [KadDrive.v] models the loop that drives it. *)

From S2P Require Export KadTable.

Record LookupConfig : Type := MkLookupConfig {
  lc_alpha : nat;
  lc_k : nat;
  lc_max_rounds : nat;
  lc_max_recv_per_round : nat
}.

Definition lookup_config_default : LookupConfig := MkLookupConfig 3 DEFAULT_K 32 24.

Inductive LookupStatus : Type := Unqueried | Dialing | InFlight | Done | Skipped.

#[export] Instance lookup_status_eq_dec : EqDecision LookupStatus.
Proof. solve_decision. Defined.

Record LookupEntry : Type := MkLookupEntry {
  le_node_id : NodeId;
  le_addr : UdpAddr;
  le_status : LookupStatus
}.

Record Lookup : Type := MkLookup {
  lk_self_id : NodeId;
  lk_target : NodeId;
  lk_config : LookupConfig;
  lk_entries : gmap Distance LookupEntry;
  lk_pending_queries : gmap UdpAddr NodeId;
  lk_pending_dials : gmap UdpAddr NodeId
}.

Definition lookup_new (self_id target : NodeId) (config : LookupConfig)
    (initial_peers : list Peer) : Lookup :=
  let entries :=
    bt_collect ((fun e : Peer => (distance e.1 target, MkLookupEntry e.1 e.2 Unqueried))
      <$> filter (fun e : Peer => e.1 <> self_id) initial_peers) in
  MkLookup self_id target config entries ∅ ∅.

Definition has_pending (l : Lookup) : bool :=
  negb (bool_decide (lk_pending_queries l = ∅)) || negb (bool_decide (lk_pending_dials l = ∅)).

Definition lookup_entries (l : Lookup) : list LookupEntry := bt_values (lk_entries l).
Definition lookup_len (l : Lookup) : nat := size (lk_entries l).
Definition lookup_is_empty (l : Lookup) : bool := bool_decide (lk_entries l = ∅).

Definition top_k_results (l : Lookup) : list Peer :=
  (fun e => (le_node_id e, le_addr e)) <$> take (lc_k (lk_config l)) (bt_values (lk_entries l)).

Definition is_done (l : Lookup) : bool :=
  let no_pending :=
    bool_decide (lk_pending_queries l = ∅) && bool_decide (lk_pending_dials l = ∅) in
  let no_unqueried_in_top_k :=
    forallb (fun e => bool_decide (le_status e <> Unqueried))
      (take (lc_k (lk_config l)) (bt_values (lk_entries l))) in
  no_pending && no_unqueried_in_top_k.

Definition pick_next_alpha (l : Lookup) : list Peer :=
  (fun e => (le_node_id e, le_addr e)) <$>
    take (lc_alpha (lk_config l))
      (filter (fun e => le_status e = Unqueried)
        (take (lc_k (lk_config l)) (bt_values (lk_entries l)))).

(** [if let Some(entry) = entries.get_mut(&dist) { entry.status = s; }]. *)
Definition set_status (s : LookupStatus) (e : LookupEntry) : LookupEntry :=
  MkLookupEntry (le_node_id e) (le_addr e) s.

Definition mark_in_flight (l : Lookup) (peer : NodeId) (addr : UdpAddr) : Lookup :=
  let '(MkLookup self_id target config entries pending_queries pending_dials) := l in
  let dist := distance peer target in
  let entries := alter (set_status InFlight) dist entries in
  let pending_queries := <[addr := peer]> pending_queries in
  MkLookup self_id target config entries pending_queries pending_dials.

Definition mark_dialing (l : Lookup) (peer : NodeId) (addr : UdpAddr) : Lookup :=
  let '(MkLookup self_id target config entries pending_queries pending_dials) := l in
  let dist := distance peer target in
  let entries := alter (set_status Dialing) dist entries in
  let pending_dials := <[addr := peer]> pending_dials in
  MkLookup self_id target config entries pending_queries pending_dials.

Definition is_pending_dial (l : Lookup) (addr : UdpAddr) : bool :=
  contains_key (lk_pending_dials l) addr.

Definition complete_dial (l : Lookup) (addr : UdpAddr) : Lookup :=
  let '(MkLookup self_id target config entries pending_queries pending_dials) := l in
  let removed := pending_dials !! addr in
  let pending_dials := delete addr pending_dials in
  let entries :=
    match removed with
    | Some node_id => alter (set_status Unqueried) (distance node_id target) entries
    | None => entries
    end in
  MkLookup self_id target config entries pending_queries pending_dials.

(** [acc.entry(dist).or_insert(...)]. *)
Definition merge_peer (target : NodeId) (acc : gmap Distance LookupEntry) (e : Peer)
    : gmap Distance LookupEntry :=
  let dist := distance e.1 target in
  match acc !! dist with
  | Some _ => acc
  | None => <[dist := MkLookupEntry e.1 e.2 Unqueried]> acc
  end.

Definition record_response (l : Lookup) (from : UdpAddr) (peers : list Peer) : Lookup * bool :=
  let '(MkLookup self_id target config entries pending_queries pending_dials) := l in
  let matched := pending_queries !! from in
  let pending_queries := delete from pending_queries in
  let merged :=
    foldl (merge_peer target) entries (filter (fun e : Peer => e.1 <> self_id) peers) in
  let was_pending := bool_decide (is_Some matched) in
  let entries :=
    match matched with
    | Some node_id => alter (set_status Done) (distance node_id target) merged
    | None => merged
    end in
  (MkLookup self_id target config entries pending_queries pending_dials, was_pending).

Definition skip_all (target : NodeId) (pending : gmap UdpAddr NodeId)
    (entries : gmap Distance LookupEntry) : gmap Distance LookupEntry :=
  foldl (fun acc node_id => alter (set_status Skipped) (distance node_id target) acc)
    entries (bt_values pending).

Definition skip_pending_queries (l : Lookup) : Lookup :=
  let '(MkLookup self_id target config entries pending_queries pending_dials) := l in
  let entries := skip_all target pending_queries entries in
  MkLookup self_id target config entries ∅ pending_dials.

Definition skip_pending_dials (l : Lookup) : Lookup :=
  let '(MkLookup self_id target config entries pending_queries pending_dials) := l in
  let entries := skip_all target pending_dials entries in
  MkLookup self_id target config entries pending_queries ∅.

(** ** The invariant *)

(** An outstanding action at [addr] is for an entry of that address, whose
    status says so. *)
Definition pending_ok (l : Lookup) (pending : gmap UdpAddr NodeId) (s : LookupStatus) : Prop :=
  forall addr id, pending !! addr = Some id ->
    lk_entries l !! distance id (lk_target l) = Some (MkLookupEntry id addr s).

Record lookup_ok (l : Lookup) : Prop := LookupOk {
  lok_key d e : lk_entries l !! d = Some e -> d = distance (le_node_id e) (lk_target l);
  lok_self d e : lk_entries l !! d = Some e -> le_node_id e <> lk_self_id l;
  lok_queries : pending_ok l (lk_pending_queries l) InFlight;
  lok_dials : pending_ok l (lk_pending_dials l) Dialing
}.

(** The one way each operation may move an entry's status. *)
Inductive status_step : LookupStatus -> LookupStatus -> Prop :=
| st_query : status_step Unqueried InFlight
| st_dial : status_step Unqueried Dialing
| st_dialed : status_step Dialing Unqueried
| st_dial_lost : status_step Dialing Skipped
| st_answered : status_step InFlight Done
| st_query_lost : status_step InFlight Skipped.

Definition entry_le (e e' : LookupEntry) : Prop :=
  le_node_id e' = le_node_id e /\ le_addr e' = le_addr e /\
  (le_status e' = le_status e \/ status_step (le_status e) (le_status e')).

(** The operations of the machine, with the condition under which the driver
    marks a peer. *)
Inductive lookup_step (l : Lookup) : Lookup -> Prop :=
| ls_in_flight id addr :
    lk_entries l !! distance id (lk_target l) = Some (MkLookupEntry id addr Unqueried) ->
    lookup_step l (mark_in_flight l id addr)
| ls_dialing id addr :
    lk_entries l !! distance id (lk_target l) = Some (MkLookupEntry id addr Unqueried) ->
    lookup_step l (mark_dialing l id addr)
| ls_complete addr : lookup_step l (complete_dial l addr)
| ls_response from peers : lookup_step l (record_response l from peers).1
| ls_skip_queries : lookup_step l (skip_pending_queries l)
| ls_skip_dials : lookup_step l (skip_pending_dials l).

(** ** The entries after each operation *)

Section entries.
Context (target : NodeId).
Implicit Types (m : gmap Distance LookupEntry) (d : Distance) (e : LookupEntry).

Lemma alter_status_lookup s d0 m d e :
  alter (set_status s) d0 m !! d = Some e <->
    (d = d0 /\ exists e0, m !! d = Some e0 /\ e = set_status s e0) \/ (d <> d0 /\ m !! d = Some e).
Proof.
  destruct (decide (d = d0)) as [->|Hne].
  - rewrite lookup_alter_eq. destruct (m !! d0); cbn; naive_solver.
  - rewrite lookup_alter_ne by done. naive_solver.
Qed.

Lemma merge_peer_lookup m p d e :
  merge_peer target m p !! d = Some e <->
    m !! d = Some e \/
    (m !! d = None /\ d = distance p.1 target /\ e = MkLookupEntry p.1 p.2 Unqueried).
Proof.
  unfold merge_peer. destruct (m !! distance p.1 target) as [e0|] eqn:E.
  - naive_solver.
  - rewrite lookup_insert_Some. naive_solver.
Qed.

(** Merging keeps what is there and adds the first mention of each distance. *)
Lemma merge_keeps peers : forall m d e,
  m !! d = Some e -> foldl (merge_peer target) m peers !! d = Some e.
Proof.
  induction peers as [|p peers IH]; intros m d e Hd; [done|]. cbn. apply IH.
  apply merge_peer_lookup. by left.
Qed.

Lemma merge_lookup peers : forall m d e,
  foldl (merge_peer target) m peers !! d = Some e ->
  m !! d = Some e \/
  (m !! d = None /\ le_status e = Unqueried /\ d = distance (le_node_id e) target /\
   (le_node_id e, le_addr e) ∈ peers).
Proof.
  induction peers as [|p peers IH]; intros m d e Hd; [by left|]. cbn in Hd.
  apply IH in Hd as [Hd|(Hn & Hs & Hk & Hin)].
  - apply merge_peer_lookup in Hd as [Hd|(Hn & -> & ->)]; [by left|right].
    split_and!; try done. cbn. destruct p. by left.
  - right. split_and!; try done; [|by right].
    destruct (m !! d) as [e0|] eqn:E; [|done].
    assert (merge_peer target m p !! d = Some e0) by (apply merge_peer_lookup; by left). congruence.
Qed.

Lemma merge_known peers : forall m p,
  p ∈ peers -> is_Some (foldl (merge_peer target) m peers !! distance p.1 target).
Proof.
  induction peers as [|q peers IH]; intros m p Hp; [by apply elem_of_nil in Hp|].
  apply elem_of_cons in Hp as [->|Hp]; cbn; [|by apply IH].
  destruct (merge_peer target m q !! distance q.1 target) as [e|] eqn:E.
  - exists e. by apply merge_keeps.
  - exfalso. unfold merge_peer in E. destruct (m !! distance q.1 target) eqn:Em; [congruence|].
    by rewrite lookup_insert_eq in E.
Qed.

Lemma skip_all_lookup ids : forall m d,
  foldl (fun acc id => alter (set_status Skipped) (distance id target) acc) m ids !! d =
    (fun e => if decide (d ∈ (fun id => distance id target) <$> ids)
              then set_status Skipped e else e) <$> m !! d.
Proof.
  induction ids as [|id ids IH]; intros m d; cbn [foldl].
  - destruct (m !! d); [|done]. cbn. by rewrite decide_False by apply not_elem_of_nil.
  - rewrite IH. destruct (decide (d = distance id target)) as [->|Hne].
    + rewrite lookup_alter_eq. destruct (m !! distance id target) as [e|]; [|done]. cbn.
      rewrite (decide_True (P:=_ ∈ _ :: _)) by by left. f_equal. by case_decide.
    + rewrite lookup_alter_ne by done. destruct (m !! d) as [e|]; [|done]. cbn. f_equal.
      destruct (decide (d ∈ _ <$> ids)) as [Hin|Hin].
      * by rewrite decide_True by by right.
      * rewrite decide_False; [done|]. by intros [?|?]%elem_of_cons.
Qed.

End entries.

(** ** Preservation *)

Lemma set_status_le e e0 s :
  le_status e0 = s \/ status_step (le_status e0) s -> e = set_status s e0 -> entry_le e0 e.
Proof. intros Hs ->. split_and!; [done|done|]. destruct Hs as [<-|Hs]; [by left|by right]. Qed.

Lemma entry_le_refl e : entry_le e e.
Proof. split_and!; [done|done|by left]. Qed.

(** Changing the status of one entry keeps keys and the exclusion of self. *)
Lemma alter_keys (self target : NodeId) (m : gmap Distance LookupEntry) s d0 :
  (forall d e, m !! d = Some e -> d = distance (le_node_id e) target /\ le_node_id e <> self) ->
  forall d e, alter (set_status s) d0 m !! d = Some e ->
    d = distance (le_node_id e) target /\ le_node_id e <> self.
Proof. intros Hm d e [(_ & e0 & He0 & ->)|(_ & He)]%alter_status_lookup;
    [exact (Hm _ _ He0)|exact (Hm _ _ He)].
Qed.

(** What a step leaves of the machine. *)
Record step_facts (l l' : Lookup) : Prop := StepFacts {
  sf_ok : lookup_ok l';
  sf_frame : lk_self_id l' = lk_self_id l /\ lk_target l' = lk_target l /\ lk_config l' = lk_config l;
  sf_entries d e : lk_entries l !! d = Some e ->
    exists e', lk_entries l' !! d = Some e' /\ entry_le e e'
}.

Section preserve.
Context (l : Lookup) (Hok : lookup_ok l).

Lemma lok_entries d e :
  lk_entries l !! d = Some e ->
  d = distance (le_node_id e) (lk_target l) /\ le_node_id e <> lk_self_id l.
Proof. split; [by eapply lok_key|by eapply lok_self]. Qed.

(** Marking: the entry leaves [Unqueried], so no outstanding action was its. *)
Lemma mark_pending_other id addr s s' pending :
  s <> Unqueried ->
  lk_entries l !! distance id (lk_target l) = Some (MkLookupEntry id addr Unqueried) ->
  pending_ok l pending s ->
  forall a i, pending !! a = Some i ->
    alter (set_status s') (distance id (lk_target l)) (lk_entries l) !! distance i (lk_target l)
      = Some (MkLookupEntry i a s).
Proof.
  intros Hs Hid Hp a i Ha. apply Hp in Ha as He. apply alter_status_lookup. right.
  split; [|done]. intros Heq. rewrite Heq in He. by simplify_eq.
Qed.

Lemma mark_in_flight_facts id addr :
  lk_entries l !! distance id (lk_target l) = Some (MkLookupEntry id addr Unqueried) ->
  step_facts l (mark_in_flight l id addr).
Proof.
  intros Hid. pose proof (mark_pending_other id addr) as Hother.
  pose proof lok_entries as He. destruct Hok as [_ _ Hq Hd], l as [self target cfg m pq pd].
  cbn [lk_entries lk_target lk_self_id mark_in_flight lk_pending_queries lk_pending_dials] in *.
  split; [split|done|]; unfold pending_ok;
    cbn [lk_entries lk_target lk_self_id lk_pending_queries lk_pending_dials].
  - intros d e Hde. by eapply alter_keys in Hde as [? _].
  - intros d e Hde. by eapply alter_keys in Hde as [_ ?].
  - intros a i [[<- <-]|[_ Ha]]%lookup_insert_Some.
    + apply alter_status_lookup. left. split; [done|]. by eexists.
    + by eapply (Hother InFlight InFlight).
  - intros a i Ha. by eapply (Hother Dialing InFlight).
  - intros d e Hde. destruct (decide (d = distance id target)) as [->|Hne].
    + exists (set_status InFlight e). split; [by rewrite lookup_alter_eq, Hde|].
      simplify_eq. eapply set_status_le; [right; constructor|done].
    + exists e. split; [by rewrite lookup_alter_ne|apply entry_le_refl].
Qed.

Lemma mark_dialing_facts id addr :
  lk_entries l !! distance id (lk_target l) = Some (MkLookupEntry id addr Unqueried) ->
  step_facts l (mark_dialing l id addr).
Proof.
  intros Hid. pose proof (mark_pending_other id addr) as Hother.
  pose proof lok_entries as He. destruct Hok as [_ _ Hq Hd], l as [self target cfg m pq pd].
  cbn [lk_entries lk_target lk_self_id mark_dialing lk_pending_queries lk_pending_dials] in *.
  split; [split|done|]; unfold pending_ok;
    cbn [lk_entries lk_target lk_self_id lk_pending_queries lk_pending_dials].
  - intros d e Hde. by eapply alter_keys in Hde as [? _].
  - intros d e Hde. by eapply alter_keys in Hde as [_ ?].
  - intros a i Ha. by eapply (Hother InFlight Dialing).
  - intros a i [[<- <-]|[_ Ha]]%lookup_insert_Some.
    + apply alter_status_lookup. left. split; [done|]. by eexists.
    + by eapply (Hother Dialing Dialing).
  - intros d e Hde. destruct (decide (d = distance id target)) as [->|Hne].
    + exists (set_status Dialing e). split; [by rewrite lookup_alter_eq, Hde|].
      simplify_eq. eapply set_status_le; [right; constructor|done].
    + exists e. split; [by rewrite lookup_alter_ne|apply entry_le_refl].
Qed.

Lemma complete_dial_facts addr : step_facts l (complete_dial l addr).
Proof.
  pose proof lok_entries as He. pose proof Hok as Hok'.
  destruct Hok as [_ _ Hq Hd], l as [self target cfg m pq pd]. unfold complete_dial.
  destruct (pd !! addr) as [id|] eqn:Ep;
    [|rewrite delete_id by done; split; [done|done|]; intros d e Hde; exists e;
      split; [done|apply entry_le_refl]].
  apply Hd in Ep as Hid. cbn in Hid, He, Hq, Hd.
  split; [split|done|]; unfold pending_ok;
    cbn [lk_entries lk_target lk_self_id lk_pending_queries lk_pending_dials].
  - intros d e Hde. by eapply alter_keys in Hde as [? _].
  - intros d e Hde. by eapply alter_keys in Hde as [_ ?].
  - intros a i Ha. apply Hq in Ha as Hi. cbn in Hi. apply alter_status_lookup. right.
    split; [|done]. cbn. intros Heq. rewrite Heq in Hi. by simplify_eq.
  - intros a i [Hne Ha]%lookup_delete_Some. apply Hd in Ha as Hi. cbn in Hi.
    apply alter_status_lookup. right. split; [|done]. cbn. intros Heq. rewrite Heq in Hi.
    by simplify_eq.
  - intros d e Hde. destruct (decide (d = distance id target)) as [->|Hne].
    + exists (set_status Unqueried e). split; [by rewrite lookup_alter_eq, Hde|].
      simplify_eq. eapply set_status_le; [right; constructor|done].
    + exists e. split; [by rewrite lookup_alter_ne|apply entry_le_refl].
Qed.

Lemma record_response_facts from peers : step_facts l (record_response l from peers).1.
Proof.
  pose proof lok_entries as He. destruct Hok as [_ _ Hq Hd], l as [self target cfg m pq pd].
  cbn in He, Hq, Hd. unfold record_response.
  set (good := filter (fun e : Peer => e.1 <> self) peers).
  set (m' := foldl (merge_peer target) m good).
  assert (Hm' : forall d e, m' !! d = Some e ->
    d = distance (le_node_id e) target /\ le_node_id e <> self).
  { intros d e [Hde|(_ & _ & -> & Hin)]%merge_lookup; [by apply He|]. split; [done|].
    by apply list_elem_of_filter in Hin as [? _]. }
  assert (Hkeep : forall d e, m !! d = Some e -> m' !! d = Some e) by (intros; by apply merge_keeps).
  destruct (pq !! from) as [id|] eqn:Ep; cbn [fst].
  2:{ rewrite delete_id by done. split; [split|done|]; unfold pending_ok;
        cbn [lk_entries lk_target lk_self_id lk_pending_queries lk_pending_dials].
      - by intros d e [? _]%Hm'.
      - by intros d e [_ ?]%Hm'.
      - intros a i Ha. by apply Hkeep, (Hq a i).
      - intros a i Ha. by apply Hkeep, (Hd a i).
      - intros d e Hde. exists e. split; [by apply Hkeep|apply entry_le_refl]. }
  apply Hq in Ep as Hid. cbn in Hid. apply Hkeep in Hid as Hid'.
  split; [split|done|]; unfold pending_ok;
    cbn [lk_entries lk_target lk_self_id lk_pending_queries lk_pending_dials].
  - intros d e Hde. by eapply alter_keys in Hde as [? _].
  - intros d e Hde. by eapply alter_keys in Hde as [_ ?].
  - intros a i [Hne Ha]%lookup_delete_Some. apply Hq in Ha as Hi. cbn in Hi.
    apply alter_status_lookup. right. split; [|by apply Hkeep]. cbn. intros Heq.
    rewrite Heq in Hi. by simplify_eq.
  - intros a i Ha. apply Hd in Ha as Hi. cbn in Hi. apply alter_status_lookup. right.
    split; [|by apply Hkeep]. cbn. intros Heq. rewrite Heq in Hi. by simplify_eq.
  - intros d e Hde. destruct (decide (d = distance id target)) as [->|Hne].
    + exists (set_status Done e). split; [by rewrite lookup_alter_eq, (Hkeep _ _ Hde)|].
      simplify_eq. eapply set_status_le; [right; constructor|done].
    + exists e. split; [by rewrite lookup_alter_ne by done; apply Hkeep|apply entry_le_refl].
Qed.

End preserve.

(** Skipping the actions of one table leaves those of the other alone. *)
Section skip.
Context (l : Lookup) (Hok : lookup_ok l).
Context (pending other : gmap UdpAddr NodeId) (s s' : LookupStatus) (Hs : s <> s').
Context (Hp : pending_ok l pending s) (Ho : pending_ok l other s').

Lemma in_pending d : d ∈ (fun id => distance id (lk_target l)) <$> bt_values pending ->
  exists e, lk_entries l !! d = Some e /\ le_status e = s.
Proof.
  intros (id & -> & [a Ha]%elem_of_bt_values)%list_elem_of_fmap. apply Hp in Ha. by eexists.
Qed.

Lemma skip_all_other addr id :
  other !! addr = Some id ->
  skip_all (lk_target l) pending (lk_entries l) !! distance id (lk_target l) =
    Some (MkLookupEntry id addr s').
Proof.
  intros Ha. apply Ho in Ha as He. unfold skip_all. rewrite skip_all_lookup, He. cbn. f_equal.
  rewrite decide_False; [done|]. intros (e & He' & Hse)%in_pending. by simplify_eq.
Qed.

Lemma skip_all_entry d e :
  status_step s Skipped -> lk_entries l !! d = Some e ->
  exists e', skip_all (lk_target l) pending (lk_entries l) !! d = Some e' /\ entry_le e e'.
Proof.
  intros Hst Hd. unfold skip_all. rewrite skip_all_lookup, Hd. eexists. split; [done|]. cbn.
  case_decide as Hin; [|apply entry_le_refl]. apply in_pending in Hin as (e0 & He0 & <-).
  simplify_eq. eapply set_status_le; [by right|done].
Qed.

Lemma skip_all_keys d e :
  skip_all (lk_target l) pending (lk_entries l) !! d = Some e ->
  d = distance (le_node_id e) (lk_target l) /\ le_node_id e <> lk_self_id l.
Proof.
  unfold skip_all. rewrite skip_all_lookup. destruct (lk_entries l !! d) as [e0|] eqn:E; [|done].
  cbn. intros [= <-]. apply (lok_entries l Hok) in E. by case_decide.
Qed.

End skip.

Lemma skip_pending_queries_facts l : lookup_ok l -> step_facts l (skip_pending_queries l).
Proof.
  intros Hok. pose proof (skip_all_keys l Hok (lk_pending_queries l)) as Hk.
  pose proof (skip_all_other l _ _ InFlight Dialing ltac:(done) (lok_queries _ Hok) (lok_dials _ Hok)) as Ho.
  pose proof (skip_all_entry l _ InFlight Dialing ltac:(done) (lok_queries _ Hok)) as He.
  destruct l as [self target cfg m pq pd]. cbn in Hk, Ho, He |- *.
  split; [split|done|]; unfold pending_ok;
    cbn [lk_entries lk_target lk_self_id lk_pending_queries lk_pending_dials].
  - by intros d e [? _]%Hk.
  - by intros d e [_ ?]%Hk.
  - intros a i Ha. by rewrite lookup_empty in Ha.
  - exact Ho.
  - intros d e Hd. apply He; [constructor|done].
Qed.

Lemma skip_pending_dials_facts l : lookup_ok l -> step_facts l (skip_pending_dials l).
Proof.
  intros Hok. pose proof (skip_all_keys l Hok (lk_pending_dials l)) as Hk.
  pose proof (skip_all_other l _ _ Dialing InFlight ltac:(done) (lok_dials _ Hok) (lok_queries _ Hok)) as Ho.
  pose proof (skip_all_entry l _ Dialing InFlight ltac:(done) (lok_dials _ Hok)) as He.
  destruct l as [self target cfg m pq pd]. cbn in Hk, Ho, He |- *.
  split; [split|done|]; unfold pending_ok;
    cbn [lk_entries lk_target lk_self_id lk_pending_queries lk_pending_dials].
  - by intros d e [? _]%Hk.
  - by intros d e [_ ?]%Hk.
  - exact Ho.
  - intros a i Ha. by rewrite lookup_empty in Ha.
  - intros d e Hd. apply He; [constructor|done].
Qed.

Lemma lookup_step_facts l l' : lookup_ok l -> lookup_step l l' -> step_facts l l'.
Proof.
  intros Hok [id addr Hid|id addr Hid|addr|from peers| |].
  - by apply mark_in_flight_facts.
  - by apply mark_dialing_facts.
  - by apply complete_dial_facts.
  - by apply record_response_facts.
  - by apply skip_pending_queries_facts.
  - by apply skip_pending_dials_facts.
Qed.

Lemma lookup_new_entry self target cfg peers d e :
  lk_entries (lookup_new self target cfg peers) !! d = Some e ->
  le_status e = Unqueried /\ d = distance (le_node_id e) target /\ le_node_id e <> self /\
  (le_node_id e, le_addr e) ∈ peers.
Proof.
  intros ([id a] & [= -> ->] & [Hs Hin]%list_elem_of_filter)%bt_collect_lookup%list_elem_of_fmap.
  done.
Qed.

Lemma lookup_new_ok self target cfg peers : lookup_ok (lookup_new self target cfg peers).
Proof.
  split.
  - by intros d e (_ & ? & _)%lookup_new_entry.
  - by intros d e (_ & _ & ? & _)%lookup_new_entry.
  - intros a i Ha. cbn in Ha. by rewrite lookup_empty in Ha.
  - intros a i Ha. cbn in Ha. by rewrite lookup_empty in Ha.
Qed.

(** ** The shortlist in order *)

Section order.
Context (l : Lookup) (Hok : lookup_ok l).

Definition entry_far (e : LookupEntry) : N := dval (distance (le_node_id e) (lk_target l)).

Lemma lookup_entries_sorted :
  StronglySorted (fun e e' => entry_far e < entry_far e')%N (lookup_entries l).
Proof.
  unfold lookup_entries, bt_values.
  eapply StronglySorted_fmap.
  - eapply (StronglySorted_strengthen fst _ (fun p q => dval p.1 < dval q.1)%N);
      [apply NoDup_bt_keys|apply bt_iter_sorted|].
    intros p q Hle%distance_le_val Hne.
    destruct (decide (dval p.1 = dval q.1)) as [He|]; [by apply dval_inj in He|lia].
  - intros [d e] [d' e'] He%elem_of_bt_iter He'%elem_of_bt_iter. cbn. unfold entry_far.
    by rewrite <- (lok_key _ Hok _ _ He), <- (lok_key _ Hok _ _ He').
Qed.

Lemma elem_of_lookup_entries e :
  e ∈ lookup_entries l <-> lk_entries l !! distance (le_node_id e) (lk_target l) = Some e.
Proof.
  unfold lookup_entries. rewrite elem_of_bt_values. split; [|by eauto].
  intros [d Hd]. by rewrite <- (lok_key _ Hok _ _ Hd).
Qed.

Lemma elem_of_top_k p : p ∈ top_k_results l ->
  exists e, e ∈ lookup_entries l /\ p = (le_node_id e, le_addr e).
Proof.
  intros (e & -> & He)%list_elem_of_fmap. exists e. split; [|done].
  rewrite <- (take_drop (lc_k (lk_config l)) (lookup_entries l)). apply elem_of_app. by left.
Qed.

Lemma top_k_sorted : StronglySorted (fun p q : Peer =>
  dval (distance p.1 (lk_target l)) < dval (distance q.1 (lk_target l)))%N (top_k_results l).
Proof.
  eapply StronglySorted_fmap.
  - pose proof lookup_entries_sorted as Hs.
    rewrite <- (take_drop (lc_k (lk_config l)) (lookup_entries l)) in Hs.
    by eapply StronglySorted_app_1_l.
  - by intros e e' _ _.
Qed.

Lemma elem_of_pick id addr : (id, addr) ∈ pick_next_alpha l ->
  lk_entries l !! distance id (lk_target l) = Some (MkLookupEntry id addr Unqueried).
Proof.
  intros (e & [= -> ->] & He)%list_elem_of_fmap.
  assert (He' : e ∈ filter (fun e => le_status e = Unqueried)
    (take (lc_k (lk_config l)) (lookup_entries l))).
  { rewrite <- (take_drop (lc_alpha (lk_config l)) (filter _ _)). apply elem_of_app. by left. }
  apply list_elem_of_filter in He' as [Hs He'].
  assert (Hin : e ∈ lookup_entries l).
  { rewrite <- (take_drop (lc_k (lk_config l)) (lookup_entries l)). apply elem_of_app. by left. }
  apply elem_of_lookup_entries in Hin. rewrite Hin. destruct e; cbn in *. by subst.
Qed.

Lemma pick_NoDup : NoDup (pick_next_alpha l).*1.
Proof.
  assert (Hnd : NoDup (le_node_id <$> lookup_entries l)).
  { pose proof lookup_entries_sorted as Hs. induction Hs as [|e es Hs IH He]; cbn; constructor.
    - intros (e' & Heq & He')%list_elem_of_fmap. rewrite Forall_forall in He.
      specialize (He _ He'). unfold entry_far in He. rewrite Heq in He. lia.
    - done. }
  unfold pick_next_alpha. rewrite <- list_fmap_compose. eapply sublist_NoDup; [exact Hnd|].
  apply fmap_sublist. etrans; [apply sublist_take|]. etrans; [apply sublist_filter|].
  apply sublist_take.
Qed.

End order.

(** With nothing outstanding and a positive parallelism, the lookup is done
    exactly when there is no one left to contact. *)
Lemma is_done_iff l :
  0 < lc_alpha (lk_config l) -> has_pending l = false ->
  is_done l = true <-> pick_next_alpha l = [].
Proof.
  intros Ha Hp. unfold has_pending in Hp. bool_to_prop. unfold is_done.
  rewrite !bool_decide_true by done. cbn [andb]. unfold pick_next_alpha.
  set (top := take (lc_k (lk_config l)) (bt_values (lk_entries l))).
  rewrite forallb_forall. setoid_rewrite bool_decide_eq_true. setoid_rewrite <- list_elem_of_In.
  split.
  - intros Hall. destruct (filter _ top) as [|e es] eqn:Ef; [by destruct (lc_alpha _)|].
    exfalso. assert (He : e ∈ filter (fun e => le_status e = Unqueried) top) by (rewrite Ef; by left).
    apply list_elem_of_filter in He as [Hs He]. by apply (Hall e).
  - intros Hnil e He Hs.
    assert (Hf : e ∈ filter (fun e => le_status e = Unqueried) top) by by apply list_elem_of_filter.
    destruct (filter _ top) as [|e' es]; [by apply elem_of_nil in Hf|].
    destruct (lc_alpha _); [lia|done].
Qed.

(** Every state the driver can bring a lookup to. *)
Definition lookup_reaches : Lookup -> Lookup -> Prop := rtc lookup_step.

Lemma entry_le_terminal e e' :
  entry_le e e' -> le_status e = Done \/ le_status e = Skipped -> e' = e.
Proof.
  intros (Hi & Ha & Hs) Ht. assert (Hst : le_status e' = le_status e).
  { destruct Hs as [?|Hs]; [done|]. destruct Ht as [Ht|Ht]; rewrite Ht in Hs; inversion Hs. }
  destruct e, e'. cbn in *. by subst.
Qed.

Lemma lookup_reaches_facts l l' : lookup_ok l -> lookup_reaches l l' ->
  lookup_ok l' /\
  lk_self_id l' = lk_self_id l /\ lk_target l' = lk_target l /\ lk_config l' = lk_config l /\
  forall d e, lk_entries l !! d = Some e ->
    exists e', lk_entries l' !! d = Some e' /\ le_node_id e' = le_node_id e /\
      le_addr e' = le_addr e /\ (le_status e = Done \/ le_status e = Skipped -> e' = e).
Proof.
  intros Hok Hr. revert Hok. induction Hr as [l|l l1 l' Hs Hr IH]; intros Hok.
  - split_and!; try done. intros d e Hd. by exists e.
  - destruct (lookup_step_facts _ _ Hok Hs) as [Hok1 (E1 & E2 & E3) He].
    destruct (IH Hok1) as (Hok' & F1 & F2 & F3 & He'). rewrite F1, F2, F3.
    split_and!; try done. intros d e Hd. destruct (He _ _ Hd) as (e1 & Hd1 & Hle).
    destruct (He' _ _ Hd1) as (e' & Hd' & I1 & I2 & I3). destruct Hle as (J1 & J2 & J3) eqn:EJ. clear EJ.
    exists e'. split_and!; [done|congruence|congruence|]. intros Ht.
    pose proof (entry_le_terminal e e1 Hle Ht) as ->. by apply I3.
Qed.

Lemma record_response_entry l from peers d e :
  lookup_ok l -> lk_entries (record_response l from peers).1 !! d = Some e ->
  (exists e0, lk_entries l !! d = Some e0 /\ entry_le e0 e) \/
  (lk_entries l !! d = None /\ le_status e = Unqueried /\ le_node_id e <> lk_self_id l /\
   (le_node_id e, le_addr e) ∈ peers).
Proof.
  intros Hok Hd. destruct (lk_entries l !! d) as [e0|] eqn:E0.
  - destruct (record_response_facts l Hok from peers) as [_ _ He].
    destruct (He _ _ E0) as (e1 & H1 & Hle). left. exists e0. split; [done|]. by simplify_eq.
  - right. destruct Hok as [_ _ Hq _], l as [self target cfg m pq pd]. cbn in E0, Hq, Hd |- *.
    assert (Hm : foldl (merge_peer target) m (filter (fun e : Peer => e.1 <> self) peers) !! d = Some e).
    { destruct (pq !! from) as [id|] eqn:Ep; [|done]. apply Hq in Ep. cbn in Ep.
      apply alter_status_lookup in Hd as [(-> & _)|[_ Hd]]; [congruence|done]. }
    apply merge_lookup in Hm as [?|(_ & Hs & Hk & Hin)]; [congruence|].
    apply list_elem_of_filter in Hin as [Hne Hin]. done.
Qed.

Lemma record_response_known l from peers p :
  lookup_ok l -> p ∈ peers -> p.1 <> lk_self_id l ->
  is_Some (lk_entries (record_response l from peers).1 !! distance p.1 (lk_target l)).
Proof.
  intros Hok Hp Hne. destruct l as [self target cfg m pq pd]. cbn in Hne |- *.
  assert (Hin : p ∈ filter (fun e : Peer => e.1 <> self) peers) by by apply list_elem_of_filter.
  pose proof (merge_known target _ m p Hin) as [e He].
  destruct (pq !! from) as [id|]; [|by exists e].
  destruct (decide (distance p.1 target = distance id target)) as [Heq|Hne'].
  - exists (set_status Done e). rewrite <- Heq, lookup_alter_eq, He. done.
  - exists e. by rewrite lookup_alter_ne.
Qed.

(** Every peer a lookup was seeded with is in its shortlist to the end. *)
Lemma lookup_initial_known self target cfg peers l p :
  lookup_reaches (lookup_new self target cfg peers) l -> p ∈ peers -> p.1 <> self ->
  exists e, e ∈ lookup_entries l /\ le_node_id e = p.1.
Proof.
  intros Hr Hp Hne.
  destruct (lookup_reaches_facts _ _ (lookup_new_ok self target cfg peers) Hr)
    as (Hok & _ & E2 & _ & He). cbn [lookup_new lk_target] in E2.
  assert (Hin : is_Some (lk_entries (lookup_new self target cfg peers) !! distance p.1 target)).
  { apply bt_collect_is_Some. apply list_elem_of_fmap.
    eexists (_, MkLookupEntry p.1 p.2 Unqueried). split; [done|]. apply list_elem_of_fmap.
    exists p. split; [done|]. by apply list_elem_of_filter. }
  destruct Hin as [e0 He0]. destruct (He _ _ He0) as (e' & He' & Hid & _).
  apply lookup_new_entry in He0 as (_ & Hk & _). apply distance_inj_l in Hk.
  exists e'. split; [|congruence]. apply elem_of_lookup_entries; [done|]. by rewrite E2, Hid, <- Hk.
Qed.

Lemma top_k_far l e p :
  lookup_ok l -> e ∈ lookup_entries l -> (le_node_id e, le_addr e) ∉ top_k_results l ->
  p ∈ top_k_results l -> (dval (distance p.1 (lk_target l)) < entry_far l e)%N.
Proof.
  intros Hok He Hn Hp.
  assert (Hd : e ∈ drop (lc_k (lk_config l)) (lookup_entries l)).
  { rewrite <- (take_drop (lc_k (lk_config l)) (lookup_entries l)) in He.
    apply elem_of_app in He as [He|?]; [|done]. destruct Hn. apply list_elem_of_fmap. by exists e. }
  apply list_elem_of_fmap in Hp as (e' & -> & Hp). pose proof (lookup_entries_sorted l Hok) as Hs.
  rewrite <- (take_drop (lc_k (lk_config l)) (lookup_entries l)) in Hs.
  exact (StronglySorted_app_1_elem_of _ _ _ _ _ Hs Hp Hd).
Qed.

(** [results] leaves out [q] only for [k] peers that are closer. *)
Definition in_or_farther (k : nat) (target : NodeId) (results : list Peer) (q : Peer) : Prop :=
  q.1 ∈ results.*1 \/
  (length results = k /\
   forall r, r ∈ results -> (dval (distance r.1 target) < dval (distance q.1 target))%N).

Lemma top_k_in_or_farther l e q :
  lookup_ok l -> e ∈ lookup_entries l -> le_node_id e = q.1 ->
  in_or_farther (lc_k (lk_config l)) (lk_target l) (top_k_results l) q.
Proof.
  intros Hok He Hid. destruct (decide ((le_node_id e, le_addr e) ∈ top_k_results l)) as [Hp|Hp].
  - left. apply list_elem_of_fmap. exists (le_node_id e, le_addr e). by rewrite <- Hid.
  - right. split.
    + unfold top_k_results. rewrite length_fmap. apply length_take_le.
      destruct (Nat.le_gt_cases (lc_k (lk_config l)) (length (bt_values (lk_entries l)))) as [|Hlt]; [done|].
      destruct Hp. unfold top_k_results. rewrite take_ge by lia. apply list_elem_of_fmap. by exists e.
    + intros r Hr. pose proof (top_k_far l e r Hok He Hp Hr) as Hlt. unfold entry_far in Hlt.
      by rewrite Hid in Hlt.
Qed.

(** ** What a shortlist is made of *)

(** The candidates [cs], ourselves apart: every entry is one of them, with
    their address, and none is missing. *)
Record made_of (l : Lookup) (cs : list Peer) : Prop := MadeOf {
  mo_from e : e ∈ lookup_entries l -> (le_node_id e, le_addr e) ∈ cs;
  mo_all p : p ∈ cs -> p.1 <> lk_self_id l -> exists e, e ∈ lookup_entries l /\ le_node_id e = p.1
}.

Lemma made_of_new self target cfg peers : made_of (lookup_new self target cfg peers) peers.
Proof.
  pose proof (lookup_new_ok self target cfg peers) as Hok. split.
  - by intros e (_ & _ & _ & Hin)%elem_of_lookup_entries%lookup_new_entry.
  - intros p Hp Hne. by apply (lookup_initial_known self target cfg peers _ p (rtc_refl _ _)).
Qed.

Lemma made_of_grow l l' cs ps :
  lookup_ok l -> step_facts l l' ->
  (forall d e, lk_entries l' !! d = Some e ->
     is_Some (lk_entries l !! d) \/ (le_node_id e, le_addr e) ∈ ps) ->
  (forall p, p ∈ ps -> p.1 <> lk_self_id l -> is_Some (lk_entries l' !! distance p.1 (lk_target l))) ->
  made_of l cs -> made_of l' (cs ++ ps).
Proof.
  intros Hok [Hok' (F1 & F2 & _) He] Hback Hin [Hfrom Hall]. split.
  - intros e Hd%elem_of_lookup_entries; [|done]. apply elem_of_app.
    destruct (Hback _ _ Hd) as [[e0 H0]|Hp]; [left|by right].
    destruct (He _ _ H0) as (e1 & H1 & I1 & I2 & _). simplify_eq. rewrite I1, I2. apply Hfrom.
    apply elem_of_lookup_entries; [done|]. by rewrite <- (lok_key _ Hok _ _ H0).
  - rewrite F1. intros p [Hp|Hp]%elem_of_app Hne.
    + destruct (Hall p Hp Hne) as (e & Hd%elem_of_lookup_entries & Hid); [|done].
      destruct (He _ _ Hd) as (e' & Hd' & I1 & _). exists e'. split; [|congruence].
      apply elem_of_lookup_entries; [done|]. by rewrite F2, I1.
    + destruct (Hin p Hp Hne) as [e Hd]. pose proof (lok_key _ Hok' _ _ Hd) as Hk. rewrite F2 in Hk.
      apply distance_inj_l in Hk. exists e. split; [|done]. apply elem_of_lookup_entries; [done|]. by rewrite F2, <- Hk.
Qed.

Lemma made_of_same l l' cs :
  lookup_ok l -> step_facts l l' -> (forall d, is_Some (lk_entries l' !! d) -> is_Some (lk_entries l !! d)) ->
  made_of l cs -> made_of l' cs.
Proof.
  intros Hok Hf Hd Hm. rewrite <- (app_nil_r cs). eapply (made_of_grow l); try done.
  - intros d e He. left. apply Hd. by eexists.
  - by intros p ?%elem_of_nil.
Qed.

(** Entries only come from responses. *)
Lemma alter_is_Some {V} (f : V -> V) (i d : Distance) (m : gmap Distance V) : is_Some (alter f i m !! d) -> is_Some (m !! d).
Proof.
  destruct (decide (i = d)) as [->|Hne]; [|by rewrite lookup_alter_ne]. rewrite lookup_alter_eq. apply fmap_is_Some.
Qed.

Lemma skip_all_is_Some target pending m d : is_Some (skip_all target pending m !! d) -> is_Some (m !! d).
Proof. unfold skip_all. rewrite skip_all_lookup. apply fmap_is_Some. Qed.

Lemma made_of_complete l a cs : lookup_ok l -> made_of l cs -> made_of (complete_dial l a) cs.
Proof.
  intros Hok. apply made_of_same; [done|by apply complete_dial_facts|]. intros d. destruct l as [s t c m pq pd]. cbn.
  destruct (pd !! a); [apply alter_is_Some|done].
Qed.

Lemma made_of_response l from ps cs :
  lookup_ok l -> made_of l cs -> made_of (record_response l from ps).1 (cs ++ ps).
Proof.
  intros Hok. apply made_of_grow; [done|by apply record_response_facts|..].
  - intros d e [(e0 & ? & _)|(_ & _ & _ & ?)]%record_response_entry; [left; by eexists|by right|done].
  - intros p Hp Hne. by apply record_response_known.
Qed.

Lemma made_of_skip l cs :
  lookup_ok l -> made_of l cs -> made_of (skip_pending_dials (skip_pending_queries l)) cs.
Proof.
  intros Hok Hm. pose proof (skip_pending_queries_facts l Hok) as Hf.
  apply (made_of_same (skip_pending_queries l)); [apply Hf|apply skip_pending_dials_facts, Hf|..].
  - intros d. destruct l. apply skip_all_is_Some.
  - revert Hm. apply made_of_same; [done|done|]. intros d. destruct l. apply skip_all_is_Some.
Qed.

(** So the result is the [k] nearest of the candidates. *)
Lemma made_of_results l cs :
  lookup_ok l -> made_of l cs ->
  (forall p, p ∈ top_k_results l -> p ∈ cs /\ p.1 <> lk_self_id l) /\
  (forall p, p ∈ cs -> p.1 <> lk_self_id l ->
     in_or_farther (lc_k (lk_config l)) (lk_target l) (top_k_results l) p).
Proof.
  intros Hok [Hfrom Hall]. split.
  - intros p (e & He & ->)%elem_of_top_k. split; [by apply Hfrom|].
    apply elem_of_lookup_entries in He; [|done]. by eapply lok_self.
  - intros p Hp Hne. destruct (Hall p Hp Hne) as (e & He & Hid). by eapply top_k_in_or_farther.
Qed.

(** ** Properties *)

(** Whatever happens during a lookup, its result is sorted strictly by
    XOR distance to the target, holds at most [k] peers, never ourselves, only
    peers of the shortlist, and every peer of the shortlist that it leaves out
    is farther than all it returns. *)
Theorem lookup_results (self target : NodeId) (cfg : LookupConfig) (peers : list Peer) (l : Lookup) :
  lookup_reaches (lookup_new self target cfg peers) l ->
  let far (p : Peer) := dval (distance p.1 target) in
  let known := (fun e => (le_node_id e, le_addr e)) <$> lookup_entries l in
  StronglySorted (fun p q => far p < far q)%N (top_k_results l) /\
  length (top_k_results l) = Nat.min (lc_k cfg) (lookup_len l) /\
  (forall p, p ∈ top_k_results l -> p.1 <> self /\ p ∈ known) /\
  (forall p q, p ∈ top_k_results l -> q ∈ known -> q ∉ top_k_results l -> (far p < far q)%N) /\
  (forall p, p ∈ peers -> p.1 <> self -> p.1 ∈ known.*1).
Proof.
  intros Hr far known.
  destruct (lookup_reaches_facts _ _ (lookup_new_ok self target cfg peers) Hr)
    as (Hok & E1 & E2 & E3 & He). cbn [lookup_new lk_self_id lk_target lk_config] in E1, E2, E3.
  split_and!.
  - pose proof (top_k_sorted l Hok) as Hs. by rewrite E2 in Hs.
  - unfold top_k_results. rewrite length_fmap, length_take, E3. unfold bt_values, lookup_len.
    by rewrite length_fmap, length_bt_iter.
  - intros p (e & He' & ->)%elem_of_top_k. split; [|apply list_elem_of_fmap; by exists e].
    apply elem_of_lookup_entries in He'; [|done]. rewrite <- E1. by eapply lok_self.
  - intros p q Hp (e & -> & He')%list_elem_of_fmap Hn.
    pose proof (top_k_far l e p Hok He' Hn Hp) as Hlt. unfold entry_far in Hlt. by rewrite E2 in Hlt.
  - intros p Hp Hne. destruct (lookup_initial_known _ _ _ _ _ _ Hr Hp Hne) as (e & He' & Hid).
    apply list_elem_of_fmap. exists (le_node_id e, le_addr e). split; [done|].
    apply list_elem_of_fmap. by exists e.
Qed.

(** During a lookup no peer is ever forgotten or changes address, its
    status moves only along [Unqueried -> Dialing -> Unqueried | Skipped] and
    [Unqueried -> InFlight -> Done | Skipped], so a peer that answered or was
    skipped stays so; and every outstanding action is for the shortlist entry
    with that very address. *)
Theorem lookup_status_transitions (self target : NodeId) (cfg : LookupConfig)
    (peers : list Peer) (l l' : Lookup) :
  lookup_reaches (lookup_new self target cfg peers) l -> lookup_step l l' ->
  (forall d e, lk_entries l !! d = Some e ->
     exists e', lk_entries l' !! d = Some e' /\
       le_node_id e' = le_node_id e /\ le_addr e' = le_addr e /\
       (le_status e' = le_status e \/ status_step (le_status e) (le_status e'))) /\
  (forall d e l'', lk_entries l !! d = Some e -> le_status e = Done \/ le_status e = Skipped ->
     lookup_reaches l' l'' -> lk_entries l'' !! d = Some e) /\
  (forall a id, lk_pending_dials l' !! a = Some id ->
     lk_entries l' !! distance id target = Some (MkLookupEntry id a Dialing)) /\
  (forall a id, lk_pending_queries l' !! a = Some id ->
     lk_entries l' !! distance id target = Some (MkLookupEntry id a InFlight)).
Proof.
  intros Hr Hs.
  destruct (lookup_reaches_facts _ _ (lookup_new_ok self target cfg peers) Hr)
    as (Hok & _ & E2 & _ & _).
  destruct (lookup_step_facts _ _ Hok Hs) as [Hok' (_ & F2 & _) He].
  cbn [lookup_new lk_target] in E2. rewrite <- E2, <- F2. split_and!.
  - exact He.
  - intros d e l'' Hd Ht Hr'. destruct (He _ _ Hd) as (e' & Hd' & Hle).
    rewrite (entry_le_terminal _ _ Hle Ht) in Hd'.
    destruct (lookup_reaches_facts _ _ Hok' Hr') as (_ & _ & _ & _ & He'').
    destruct (He'' _ _ Hd') as (e'' & Hd'' & _ & _ & Hterm). by rewrite (Hterm Ht) in Hd''.
  - apply Hok'.
  - apply Hok'.
Qed.

(** A [FIND_NODE] response is merged whether or not a query to its
    sender is outstanding: every peer it names but ourselves is in the
    shortlist afterwards, nothing else is added, the peers it adds are
    [Unqueried] with the advertised address, known ones keep theirs, and a
    matching query is settled as [Done]. *)
Theorem lookup_response_merged (self target : NodeId) (cfg : LookupConfig) (initial : list Peer)
    (l : Lookup) (from : UdpAddr) (peers : list Peer) :
  lookup_reaches (lookup_new self target cfg initial) l ->
  let '(l', matched) := record_response l from peers in
  (forall p, p ∈ peers -> p.1 <> self -> is_Some (lk_entries l' !! distance p.1 target)) /\
  (forall d e, lk_entries l' !! d = Some e ->
     (exists e0, lk_entries l !! d = Some e0 /\ le_addr e = le_addr e0) \/
     (lk_entries l !! d = None /\ le_status e = Unqueried /\ (le_node_id e, le_addr e) ∈ peers)) /\
  lk_pending_queries l' = delete from (lk_pending_queries l) /\
  (matched = true <-> is_Some (lk_pending_queries l !! from)) /\
  (forall id, lk_pending_queries l !! from = Some id ->
     lk_entries l' !! distance id target = Some (MkLookupEntry id from Done)).
Proof.
  intros Hr. destruct (lookup_reaches_facts _ _ (lookup_new_ok self target cfg initial) Hr)
    as (Hok & E1 & E2 & _ & _). cbn [lookup_new lk_self_id lk_target] in E1, E2.
  pose proof (record_response_known l from peers) as Hknown.
  pose proof (record_response_entry l from peers) as Hentry.
  rewrite E1, E2 in Hknown.
  assert (Hend : lk_pending_queries (record_response l from peers).1 =
      delete from (lk_pending_queries l) /\
    ((record_response l from peers).2 = true <-> is_Some (lk_pending_queries l !! from)) /\
    (forall id, lk_pending_queries l !! from = Some id ->
      lk_entries (record_response l from peers).1 !! distance id target =
        Some (MkLookupEntry id from Done))).
  { destruct Hok as [_ _ Hq _], l as [s t c m pq pd]. cbn in Hq, E2 |- *. subst t.
    split_and!; [done|by rewrite bool_decide_eq_true|].
    intros id Hid. rewrite Hid. apply Hq in Hid. cbn in Hid.
    apply (merge_keeps target (filter (fun e : Peer => e.1 <> s) peers)) in Hid.
    by rewrite lookup_alter_eq, Hid. }
  destruct (record_response l from peers) as [l' matched]. cbn [fst snd] in *.
  destruct Hend as (Hend1 & Hend2 & Hend3). split_and!; try done.
  - intros p Hp Hne. by apply Hknown.
  - intros d e Hd. destruct (Hentry d e Hok Hd) as [(e0 & He0 & _ & Ha & _)|(? & ? & _ & ?)];
      [left; by exists e0|by right].
Qed.

(** ** Witnesses *)

Definition toy_lookup : Lookup :=
  lookup_new (toy_id x00) (toy_id x05) lookup_config_default [(toy_id x02, loopback 4002)].

Lemma lookup_results_witness :
  (toy_id x02) ∈ ((fun e => (le_node_id e, le_addr e)) <$> lookup_entries toy_lookup).*1 /\
  length (top_k_results toy_lookup) = Nat.min 20 (lookup_len toy_lookup).
Proof.
  destruct (lookup_results (toy_id x00) (toy_id x05) lookup_config_default
    [(toy_id x02, loopback 4002)] toy_lookup (rtc_refl _ _)) as (_ & Hlen & _ & _ & Hall).
  split; [|exact Hlen]. apply (Hall (toy_id x02, loopback 4002)); [by left|].
  apply (bool_decide_unpack _). vm_compute. exact I.
Defined.

Lemma lookup_status_transitions_witness :
  let l' := mark_dialing toy_lookup (toy_id x02) (loopback 4002) in
  lk_pending_dials l' !! loopback 4002 = Some (toy_id x02) /\
  lk_entries l' !! distance (toy_id x02) (toy_id x05) =
    Some (MkLookupEntry (toy_id x02) (loopback 4002) Dialing).
Proof.
  intros l'. assert (Hp : lk_pending_dials l' !! loopback 4002 = Some (toy_id x02))
    by apply lookup_insert_eq.
  split; [exact Hp|].
  assert (Hin : lk_entries toy_lookup !! distance (toy_id x02) (lk_target toy_lookup) =
    Some (MkLookupEntry (toy_id x02) (loopback 4002) Unqueried)).
  { cbn [toy_lookup lookup_new lk_entries lk_target]. rewrite filter_cons_True.
    - apply lookup_insert_eq.
    - apply (bool_decide_unpack _). vm_compute. exact I. }
  exact (proj1 (proj2 (proj2 (lookup_status_transitions (toy_id x00) (toy_id x05)
    lookup_config_default [(toy_id x02, loopback 4002)] toy_lookup l' (rtc_refl _ _)
    (ls_dialing _ _ _ Hin)))) _ _ Hp).
Defined.

Lemma lookup_response_merged_witness :
  let peers := [(toy_id x03, loopback 4003)] in
  is_Some (lk_entries (record_response toy_lookup (loopback 4002) peers).1 !!
             distance (toy_id x03) (toy_id x05)).
Proof.
  intros peers.
  pose proof (lookup_response_merged (toy_id x00) (toy_id x05) lookup_config_default
    [(toy_id x02, loopback 4002)] toy_lookup (loopback 4002) peers (rtc_refl _ _)) as H.
  destruct (record_response toy_lookup (loopback 4002) peers) as [l' matched].
  destruct H as (H & _). apply (H (toy_id x03, loopback 4003)); [by left|].
  apply (bool_decide_unpack _). vm_compute. exact I.
Defined.
