(* ===== verification/KadNode.v ===== *)
(** * The Kademlia node

    Models src/crates/libp2p-cat-kad/src/{event,node}.rs: a host with a
    routing table, which answers [PING] and [FIND_NODE] by itself and learns
    of peers from what it receives.  [lookup_node] is in [KadDrive.v]. *)

From S2P Require Export KadCodec HostLink.

#[local] Open Scope string_scope.

(** The pass-through variants carry the prefix [Kad], since the host's events
    have the same names. *)
Inductive KadEvent : Type :=
| KadHandshakeProgress (addr : UdpAddr)
| KadHandshakeComplete (addr : UdpAddr) (remote_static : StaticPublicKey)
    (remote_peer_id : PeerId) (remote_node_id : NodeId)
| PingRequestReceived (from : UdpAddr)
| PingResponseReceived (from : UdpAddr)
| FindNodeRequestReceived (from : UdpAddr) (target : NodeId) (returned : nat)
| FindNodeResponseReceived (from : UdpAddr) (peers : list Peer)
| KadRejected (addr : UdpAddr) (reason : string).

Record KademliaNode : Type := MkKademliaNode {
  kn_host : Host;
  kn_table : RoutingTable
}.

Section node.
Context `{C : Crypto, RT : IoRuntime}.

Definition kad_new (host : Host) (k : nat) : KademliaNode :=
  let self_node_id := from_peer_id (id_peer_id (host_identity host)) in
  MkKademliaNode host (table_new self_node_id k).

Definition kad_split (n : KademliaNode) : Host * RoutingTable := (kn_host n, kn_table n).
Definition kad_join (host : Host) (table : RoutingTable) : KademliaNode :=
  MkKademliaNode host table.
Definition kad_node_id (n : KademliaNode) : NodeId := table_self (kn_table n).
Definition kad_peer_id (n : KademliaNode) : PeerId := id_peer_id (host_identity (kn_host n)).
Definition kad_local_addr (n : KademliaNode) : result Error UdpAddr := host_local_addr (kn_host n).

Definition kad_dial (n : KademliaNode) (addr : UdpAddr) (ephemeral_seed : arr 32)
    : Io Error KademliaNode :=
  let '(MkKademliaNode host table) := n in
  (fun host => MkKademliaNode host table) <$> dial host addr ephemeral_seed.

Definition send_frame (n : KademliaNode) (peer : UdpAddr) (frame : KadFrame)
    : Io Error KademliaNode :=
  let '(MkKademliaNode host table) := n in
  bytes ← io_result (kad_encode frame);
  (fun host => MkKademliaNode host table) <$> host_send host peer bytes.

Definition kad_ping (n : KademliaNode) (peer : UdpAddr) : Io Error KademliaNode :=
  send_frame n peer PingReq.

Definition find_node (n : KademliaNode) (peer : UdpAddr) (target : NodeId)
    : Io Error KademliaNode :=
  send_frame n peer (FindNodeReq target).

(** ** Answering requests *)

Definition auto_reply_ping (host : Host) (table : RoutingTable) (addr : UdpAddr)
    (wrap : list byte -> list byte) : Io Error (KademliaNode * KadEvent) :=
  bytes ← io_result (kad_encode PingResp);
  (fun host => (MkKademliaNode host table, PingRequestReceived addr))
    <$> host_send host addr (wrap bytes).

Definition auto_reply_find_node (host : Host) (table : RoutingTable) (addr : UdpAddr)
    (target : NodeId) (wrap : list byte -> list byte) : Io Error (KademliaNode * KadEvent) :=
  let peers := closest_to table target (table_k table) in
  let returned := length peers in
  let frame := FindNodeResp peers in
  bytes ← io_result (kad_encode frame);
  (fun host => (MkKademliaNode host table, FindNodeRequestReceived addr target returned))
    <$> host_send host addr (wrap bytes).

Definition learn_advertised (acc : RoutingTable) (p : Peer) : RoutingTable :=
  let '(id, peer_addr) := p in
  if bool_decide (id = table_self acc) then acc else (table_insert acc id peer_addr).1.

Definition dispatch_frame (host : Host) (table : RoutingTable) (addr : UdpAddr) (frame : KadFrame)
    (wrap : list byte -> list byte) : Io Error (KademliaNode * KadEvent) :=
  match frame with
  | PingReq => auto_reply_ping host table addr wrap
  | PingResp => io_pure (MkKademliaNode host table, PingResponseReceived addr)
  | FindNodeReq target => auto_reply_find_node host table addr target wrap
  | FindNodeResp peers =>
      let table := foldl learn_advertised table peers in
      io_pure (MkKademliaNode host table, FindNodeResponseReceived addr peers)
  end.

Definition handle_datagram (host : Host) (table : RoutingTable) (addr : UdpAddr)
    (plaintext : list byte) (wrap : list byte -> list byte) : Io Error (KademliaNode * KadEvent) :=
  match kad_decode plaintext with
  | Err e =>
      io_pure (MkKademliaNode host table, KadRejected addr ("kad decode failed: " ++ error_display e))
  | Ok frame =>
      let table :=
        match remote_peer_id_of host addr with
        | Some peer_id => (table_insert table (from_peer_id peer_id) addr).1
        | None => table
        end in
      dispatch_frame host table addr frame wrap
  end.

Definition process_plaintext_with_wrap (n : KademliaNode) (addr : UdpAddr) (plaintext : list byte)
    (wrap : list byte -> list byte) : Io Error (KademliaNode * KadEvent) :=
  let '(MkKademliaNode host table) := n in
  handle_datagram host table addr plaintext wrap.

Definition identity_wrap (bytes : list byte) : list byte := bytes.

Definition process_plaintext (n : KademliaNode) (addr : UdpAddr) (plaintext : list byte)
    : Io Error (KademliaNode * KadEvent) :=
  process_plaintext_with_wrap n addr plaintext identity_wrap.

(** ** Receiving *)

Definition handle_host_event (host : Host) (table : RoutingTable) (event : HostEvent)
    : Io Error (KademliaNode * KadEvent) :=
  match event with
  | HandshakeProgress addr => io_pure (MkKademliaNode host table, KadHandshakeProgress addr)
  | HandshakeComplete addr remote_static remote_peer_id =>
      let remote_node_id := from_peer_id remote_peer_id in
      let '(table, _) := table_insert table remote_node_id addr in
      io_pure (MkKademliaNode host table,
               KadHandshakeComplete addr remote_static remote_peer_id remote_node_id)
  | Rejected addr reason => io_pure (MkKademliaNode host table, KadRejected addr reason)
  | DatagramDelivered addr plaintext => process_plaintext (kad_join host table) addr plaintext
  end.

Definition kad_recv_one (n : KademliaNode) (ephemeral_seed : arr 32)
    : Io Error (KademliaNode * KadEvent) :=
  let '(MkKademliaNode host table) := n in
  '(host, host_event) ← recv_one host ephemeral_seed;
  handle_host_event host table host_event.

End node.

#[local] Close Scope string_scope.

(** ** The invariant *)

Section inv.
Context `{C : Crypto, RT : IoRuntime, !IoLaws RT}.

Record kad_ok (n : KademliaNode) : Prop := KadOk {
  ko_host : host_ok (kn_host n);
  ko_table : table_ok (kn_table n);
  ko_self : table_self (kn_table n) = from_peer_id (id_peer_id (host_identity (kn_host n)))
}.

(** What no operation of a node changes. *)
Definition kad_frame (n n' : KademliaNode) : Prop :=
  host_frame (kn_host n) (kn_host n') /\
  table_self (kn_table n') = table_self (kn_table n) /\ table_k (kn_table n') = table_k (kn_table n).

Definition kad_keeps (n n' : KademliaNode) : Prop := (kad_ok n -> kad_ok n') /\ kad_frame n n'.

Lemma kad_keeps_refl n : kad_keeps n n.
Proof. by split. Qed.

Lemma kad_keeps_trans n1 n2 n3 : kad_keeps n1 n2 -> kad_keeps n2 n3 -> kad_keeps n1 n3.
Proof.
  intros [H1 ((F1 & F2 & F3) & F4 & F5)] [H2 ((G1 & G2 & G3) & G4 & G5)]. split; [auto|].
  unfold kad_frame, host_frame. split_and!; congruence.
Qed.

Lemma kad_keeps_host h h' t : host_step h h' -> kad_keeps (MkKademliaNode h t) (MkKademliaNode h' t).
Proof.
  intros Hs. pose proof (host_step_frame _ _ Hs) as (F1 & F2 & F3). split; [|done].
  intros [Hh Ht Hself]. split; cbn in *; [by eapply host_step_ok|done|by rewrite F2].
Qed.

Lemma kad_keeps_insert h t p a :
  kad_keeps (MkKademliaNode h t) (MkKademliaNode h (table_insert t p a).1).
Proof.
  split.
  - intros [Hh Ht Hself]. split; cbn in *; [done|by apply table_insert_ok|].
    by rewrite table_insert_self_id.
  - split_and!; [done..| |]; [apply table_insert_self_id|apply table_insert_k].
Qed.

Lemma kad_keeps_advertised h t ps :
  kad_keeps (MkKademliaNode h t) (MkKademliaNode h (foldl learn_advertised t ps)).
Proof.
  revert t. induction ps as [|[id a] ps IH]; intros t; [apply kad_keeps_refl|]. cbn.
  case_bool_decide; [apply IH|]. eapply kad_keeps_trans; [apply kad_keeps_insert|apply IH].
Qed.

Lemma kad_new_ok host k : host_ok host -> kad_ok (kad_new host k).
Proof. intros Hh. split; [done|apply table_new_ok|done]. Qed.

(** A host operation under the node. *)
Lemma dial_post h a s : io_post (dial h a s) (host_step h).
Proof. intros w h' w' Hr. by econstructor. Qed.
Lemma send_post h a p : io_post (host_send h a p) (host_step h).
Proof. intros w h' w' Hr. by econstructor. Qed.
Lemma recv_post h s : io_post (recv_one h s) (fun '(h', _) => host_step h h').
Proof. intros w [h' ev] w' Hr. by econstructor. Qed.

Lemma kad_dial_post n a s : io_post (kad_dial n a s) (kad_keeps n).
Proof.
  destruct n as [h t]. eapply io_post_fmap; [apply dial_post|].
  intros h' Hs. by apply kad_keeps_host.
Qed.

Lemma send_frame_post n p f : io_post (send_frame n p f) (kad_keeps n).
Proof.
  destruct n as [h t]. eapply (io_post_bind _ _ (fun _ => True)).
  - by apply io_post_result.
  - intros bytes _. eapply io_post_fmap; [apply send_post|].
    intros h' Hs. by apply kad_keeps_host.
Qed.

(** What a node has learnt from an event: the table after it, given the
    table before it and the host after it. *)
Definition learn_sender (h : Host) (t : RoutingTable) (from : UdpAddr) : RoutingTable :=
  match remote_peer_id_of h from with
  | Some pid => (table_insert t (from_peer_id pid) from).1
  | None => t
  end.

Definition table_after (h : Host) (t : RoutingTable) (ev : KadEvent) : RoutingTable :=
  match ev with
  | KadHandshakeProgress _ | KadRejected _ _ => t
  | KadHandshakeComplete addr _ pid _ => (table_insert t (from_peer_id pid) addr).1
  | PingRequestReceived from | PingResponseReceived from
  | FindNodeRequestReceived from _ _ => learn_sender h t from
  | FindNodeResponseReceived from peers => foldl learn_advertised (learn_sender h t from) peers
  end.

Lemma send_peer_ids h a p :
  io_post (host_send h a p) (fun h' =>
    host_step h h' /\ forall x, remote_peer_id_of h' x = remote_peer_id_of h x).
Proof.
  intros w h' w' Hr. split; [by econstructor|].
  apply send_sound in Hr as (conn & t & d & Hc & _ & -> & _). intros x.
  unfold remote_peer_id_of. cbn [host_with host_established].
  destruct (decide (a = x)) as [<-|Hne]; [by rewrite lookup_insert_eq, Hc|by rewrite lookup_insert_ne].
Qed.

Lemma learn_sender_ext h h' t a :
  (forall x, remote_peer_id_of h' x = remote_peer_id_of h x) ->
  learn_sender h' t a = learn_sender h t a.
Proof. intros H. unfold learn_sender. by rewrite H. Qed.

Lemma kad_keeps_sender h t a :
  kad_keeps (MkKademliaNode h t) (MkKademliaNode h (learn_sender h t a)).
Proof. unfold learn_sender. case_match; [apply kad_keeps_insert|apply kad_keeps_refl]. Qed.

(** The event of a frame names its sender. *)
Definition frame_event (table : RoutingTable) (addr : UdpAddr) (f : KadFrame) : KadEvent :=
  match f with
  | PingReq => PingRequestReceived addr
  | PingResp => PingResponseReceived addr
  | FindNodeReq target =>
      FindNodeRequestReceived addr target (length (closest_to table target (table_k table)))
  | FindNodeResp peers => FindNodeResponseReceived addr peers
  end.

Lemma process_post n addr bytes wrap :
  io_post (process_plaintext_with_wrap n addr bytes wrap) (fun '(n', ev) =>
    kad_keeps n n' /\
    (forall x, remote_peer_id_of (kn_host n') x = remote_peer_id_of (kn_host n) x) /\
    kn_table n' = table_after (kn_host n') (kn_table n) ev /\
    match kad_decode bytes with
    | Ok f => ev = frame_event (learn_sender (kn_host n) (kn_table n) addr) addr f
    | Err e => ev = KadRejected addr ("kad decode failed: " ++ error_display e)%string
    end).
Proof.
  destruct n as [h t]. unfold process_plaintext_with_wrap, handle_datagram.
  destruct (kad_decode bytes) as [f|e]; [|apply io_post_pure; cbn; auto using kad_keeps_refl].
  fold (learn_sender h t addr). pose proof (kad_keeps_sender h t addr) as Hk.
  assert (Hsend : forall frame ev, ev = frame_event (learn_sender h t addr) addr f ->
    table_after h t ev = learn_sender h t addr ->
    (forall h', (forall x, remote_peer_id_of h' x = remote_peer_id_of h x) ->
       table_after h' t ev = table_after h t ev) ->
    io_post (bytes ← io_result (kad_encode frame);
      (fun host => (MkKademliaNode host (learn_sender h t addr), ev)) <$> host_send h addr (wrap bytes))
    (fun '(n', ev) => kad_keeps (MkKademliaNode h t) n' /\
      (forall x, remote_peer_id_of (kn_host n') x = remote_peer_id_of h x) /\
      kn_table n' = table_after (kn_host n') t ev /\
      ev = frame_event (learn_sender h t addr) addr f)).
  { intros frame ev Hev Ht Hext. eapply (io_post_bind _ _ (fun _ => True)); [by apply io_post_result|].
    intros b _. eapply io_post_fmap; [apply send_peer_ids|]. intros h' [Hs Hpid]. cbn.
    split_and!; [|done| |done].
    - eapply kad_keeps_trans; [exact Hk|]. by apply kad_keeps_host.
    - by rewrite Hext, Ht. }
  destruct f as [| |target|peers]; cbn [dispatch_frame].
  - apply Hsend; [done|done|]. intros h' Hpid. by apply learn_sender_ext.
  - apply io_post_pure. cbn. auto.
  - apply Hsend; [done|done|]. intros h' Hpid. by apply learn_sender_ext.
  - apply io_post_pure. cbn. split_and!; try done.
    eapply kad_keeps_trans; [exact Hk|apply kad_keeps_advertised].
Qed.

End inv.
