(* ===== verification/KadProps.v ===== *)
(** * What the Kademlia node guarantees

    A request over a linked session is answered, and the table learns only
    what verified or advertised peers give it; a reply that does not fit a
    datagram loses the node. *)

From S2P Require Export KadNode.

Section lemmas.
Context `{C : Crypto, RT : IoRuntime, !IoLaws RT}.

(** The peer an event speaks of is established, under the PeerId it names. *)
Lemma recv_step_event_peer h from d seed h' ev reply :
  recv_step h from d seed h' ev reply ->
  match ev with
  | HandshakeComplete a _ pid => remote_peer_id_of h' a = Some pid
  | DatagramDelivered a _ => is_Some (remote_peer_id_of h' a)
  | _ => True
  end.
Proof.
  intros Hs; destruct Hs; try done; unfold remote_peer_id_of;
    cbn [host_with host_established].
  - rewrite lookup_insert_eq. by eexists.
  - unfold put_established, insert_established_with_lru. by rewrite insert_with_lru_lookup.
  - unfold put_established, insert_established_with_lru. by rewrite insert_with_lru_lookup.
Qed.

(** The verified PeerId behind the sender an event names. *)
Definition event_peer (h : Host) (ev : KadEvent) : Prop :=
  match ev with
  | KadHandshakeProgress _ | KadRejected _ _ => True
  | KadHandshakeComplete a _ pid nid => remote_peer_id_of h a = Some pid /\ nid = from_peer_id pid
  | PingRequestReceived a | PingResponseReceived a
  | FindNodeRequestReceived a _ _ | FindNodeResponseReceived a _ => is_Some (remote_peer_id_of h a)
  end.

Lemma kad_recv_post n seed :
  io_post (kad_recv_one n seed) (fun '(n', ev) =>
    kad_keeps n n' /\ kn_table n' = table_after (kn_host n') (kn_table n) ev /\
    event_peer (kn_host n') ev).
Proof.
  destruct n as [h t]. unfold kad_recv_one.
  eapply (io_post_bind _ _ (fun '(h', ev) => host_step h h' /\
    match ev with
    | HandshakeComplete a _ pid => remote_peer_id_of h' a = Some pid
    | DatagramDelivered a _ => is_Some (remote_peer_id_of h' a)
    | _ => True
    end)).
  { intros w [h' ev] w' Hr. split; [by econstructor|].
    apply recv_one_sound in Hr as (from & d & inbox & reply & _ & Hs & _).
    by eapply recv_step_event_peer. }
  intros [h' ev] [Hs Hev]. pose proof (kad_keeps_host h h' t Hs) as Hk.
  destruct ev as [a|a rs pid|a p|a r]; cbn [handle_host_event].
  - by apply io_post_pure.
  - pose proof (kad_keeps_insert h' t (from_peer_id pid) a) as Hk2.
    destruct (table_insert t (from_peer_id pid) a) as [t' o] eqn:Et. apply io_post_pure. cbn.
    rewrite Et. split_and!; try done. by eapply kad_keeps_trans.
  - eapply io_post_weaken; [apply process_post|]. cbn [kad_join kn_host kn_table].
    intros [n' ev'] (Hk2 & Hpid & Ht & Hdec). split_and!.
    + by eapply kad_keeps_trans.
    + done.
    + destruct (kad_decode p) as [f|e]; subst ev'; [|done].
      destruct f; cbn; by rewrite Hpid.
  - by apply io_post_pure.
Qed.

Lemma learn_sender_ok h t a : table_ok t -> table_ok (learn_sender h t a).
Proof. intros Ht. unfold learn_sender. case_match; [by apply table_insert_ok|done]. Qed.

Lemma learn_sender_entries h t a e :
  table_ok t -> e ∈ table_entries (learn_sender h t a) ->
  e ∈ table_entries t \/
  exists pid, remote_peer_id_of h e.2 = Some pid /\ e.1 = from_peer_id pid.
Proof.
  intros Ht. unfold learn_sender. destruct (remote_peer_id_of h a) as [pid|] eqn:E; [|by left].
  intros [->|He]%table_insert_entries; [right; by exists pid|by left|done].
Qed.

Lemma learn_advertised_entries ps : forall t e,
  table_ok t -> e ∈ table_entries (foldl learn_advertised t ps) -> e ∈ table_entries t \/ e ∈ ps.
Proof.
  induction ps as [|[id a] ps IH]; intros t e Ht He; [by left|]. cbn in He.
  case_bool_decide.
  - apply IH in He as [?|?]; [by left|right; by right|done].
  - apply IH in He as [He|?]; [|right; by right|by apply table_insert_ok].
    apply table_insert_entries in He as [->|He]; [right; by left|by left|done].
Qed.

Lemma table_after_entries h t ev e :
  table_ok t -> event_peer h ev -> e ∈ table_entries (table_after h t ev) ->
  e ∈ table_entries t \/
  (exists pid, remote_peer_id_of h e.2 = Some pid /\ e.1 = from_peer_id pid) \/
  (exists from peers, ev = FindNodeResponseReceived from peers /\
     is_Some (remote_peer_id_of h from) /\ e ∈ peers).
Proof.
  intros Ht Hev He. destruct ev as [a|a rs pid nid|a|a|a tg r|a ps|a r]; cbn in *;
    try by left.
  2-4: apply learn_sender_entries in He as [?|?]; [by left|right; by left|done].
  - apply table_insert_entries in He as [->|He]; [|by left|done].
    right; left. destruct Hev as [Hp _]. by exists pid.
  - apply learn_advertised_entries in He as [He|He]; [|right; right; by eauto|by apply learn_sender_ok].
    apply learn_sender_entries in He as [?|?]; [by left|right; by left|done].
Qed.

(** ** Answering, as an equation *)

Lemma run_send_frame h t b f bytes h' w w' :
  kad_encode f = Ok bytes ->
  io_run (host_send h b bytes) w = (Returned (Ok h'), w') ->
  io_run (send_frame (MkKademliaNode h t) b f) w = (Returned (Ok (MkKademliaNode h' t)), w').
Proof.
  intros He Hs. unfold send_frame. rewrite run_bind_eq, run_result, He. cbn [run_bind].
  by rewrite run_fmap_eq, Hs.
Qed.

(** The frame a request is answered with, once its sender was learnt. *)
Definition reply_frame (table : RoutingTable) (f : KadFrame) : option KadFrame :=
  match f with
  | PingReq => Some PingResp
  | FindNodeReq target => Some (FindNodeResp (closest_to table target (table_k table)))
  | PingResp | FindNodeResp _ => None
  end.

Lemma run_process_request h t a p wrap f r :
  kad_decode p = Ok f ->
  reply_frame (learn_sender h t a) f = Some r ->
  forall w, io_run (process_plaintext_with_wrap (MkKademliaNode h t) a p wrap) w =
    match kad_encode r with
    | Err e => (Returned (Err e), w)
    | Ok bytes =>
        run_bind (fun h' w' => (Returned (Ok (MkKademliaNode h' (learn_sender h t a),
            frame_event (learn_sender h t a) a f)), w')) (io_run (host_send h a (wrap bytes)) w)
    end.
Proof.
  intros Hd Hr w. unfold process_plaintext_with_wrap, handle_datagram.
  rewrite Hd. fold (learn_sender h t a).
  destruct f as [| |target|peers]; cbn [reply_frame] in Hr; simplify_eq;
    cbn [dispatch_frame frame_event]; unfold auto_reply_ping, auto_reply_find_node;
    rewrite run_bind_eq, run_result; cbn [kad_encode run_bind].
  - by rewrite run_fmap_eq.
  - destruct (encode_find_node_resp _); cbn [run_bind]; [|done]. by rewrite run_fmap_eq.
Qed.

(** A response is absorbed without a reply. *)
Lemma run_process_response h t a p wrap f :
  kad_decode p = Ok f -> (f = PingResp \/ exists ps, f = FindNodeResp ps) ->
  exists t', forall w, io_run (process_plaintext_with_wrap (MkKademliaNode h t) a p wrap) w =
    (Returned (Ok (MkKademliaNode h t', match f with
       | FindNodeResp ps => FindNodeResponseReceived a ps
       | _ => PingResponseReceived a
       end)), w).
Proof.
  intros Hd Hf. unfold process_plaintext_with_wrap, handle_datagram.
  rewrite Hd. fold (learn_sender h t a).
  destruct Hf as [->|[ps ->]]; cbn [dispatch_frame]; eexists; intros w; by rewrite run_pure.
Qed.

(** The requests, and the event of their answer: the peers of a
    [find_node] come as the wire carries them. *)
Definition is_request (f : KadFrame) : Prop := f = PingReq \/ exists target, f = FindNodeReq target.
Definition answer_event (table : RoutingTable) (from : UdpAddr) (f : KadFrame) : KadEvent :=
  match f with
  | FindNodeReq target =>
      FindNodeResponseReceived from (wire_peer <$> closest_to table target (table_k table))
  | _ => PingResponseReceived from
  end.

(** A request's frame, its answer's frame, and what the asker makes of it. *)
Lemma request_frames table b f :
  is_request f -> table_k table <= MAX_PEERS_PER_RESP ->
  exists req r rep, kad_encode f = Ok req /\ length req <= 1 + NODE_ID_LEN /\ kad_decode req = Ok f /\
    reply_frame table f = Some r /\ kad_encode r = Ok rep /\
    length rep <= 2 + ENTRY_V6_LEN * table_k table /\
    forall h t wrap, exists t', forall w,
      io_run (process_plaintext_with_wrap (MkKademliaNode h t) b rep wrap) w =
        (Returned (Ok (MkKademliaNode h t', answer_event table b f)), w).
Proof.
  intros Hf Hk.
  assert (Hreq : exists req, kad_encode f = Ok req /\ length req <= 1 + NODE_ID_LEN /\
    kad_decode req = Ok f).
  { destruct Hf as [->|[target ->]]; eexists; (split; [done|]); split.
    - cbn. unfold NODE_ID_LEN. lia.
    - exact (kad_decode_encode PingReq _ eq_refl).
    - rewrite length_app, length_arr. done.
    - exact (kad_decode_encode (FindNodeReq target) _ eq_refl). }
  destruct Hreq as (req & H1 & H2 & H3). exists req.
  assert (Hrep : exists r rep, reply_frame table f = Some r /\ kad_encode r = Ok rep /\
    length rep <= 2 + ENTRY_V6_LEN * table_k table /\
    (wire_frame r = PingResp \/ exists ps, wire_frame r = FindNodeResp ps) /\
    match wire_frame r with
    | FindNodeResp ps => FindNodeResponseReceived b ps
    | _ => PingResponseReceived b
    end = answer_event table b f).
  { destruct Hf as [->|[target ->]].
    - exists PingResp, [x01]. split_and!; try done; [cbn; lia|by left].
    - pose proof (length_closest_to table target (table_k table)) as Hlen.
      pose proof (encode_resp_eq (closest_to table target (table_k table))) as He.
      destruct (Nat.leb_spec (length (closest_to table target (table_k table))) MAX_PEERS_PER_RESP)
        as [_|Hgt]; [|lia].
      eexists _, _. split_and!; [done|exact He| |right; by eexists|done].
      pose proof (length_entries (closest_to table target (table_k table))) as Hel.
      rewrite length_app. cbn [length]. nia. }
  destruct Hrep as (r & rep & H4 & H5 & H6 & H7 & <-). exists r, rep. split_and!; try done.
  intros h t wrap. by apply run_process_response; [apply kad_decode_encode|].
Qed.

Lemma run_kad_recv h t h' seed a p w w' :
  io_run (recv_one h seed) w = (Returned (Ok (h', DatagramDelivered a p)), w') ->
  io_run (kad_recv_one (MkKademliaNode h t) seed) w =
    io_run (process_plaintext (MkKademliaNode h' t) a p) w'.
Proof.
  intros Hr. unfold kad_recv_one. rewrite run_bind_eq, Hr. cbn [run_bind]. done.
Qed.

End lemmas.

(** ** Properties *)

Section properties.
Context `{C : Crypto, RT : IoRuntime, !IoLaws RT}.

(** C24: one [recv_one] of a Kademlia node keeps its invariant and updates the
    routing table exactly as the event says; every event but a rejection or a
    handshake step names an established peer; and every entry the table
    gains is either the PeerId verified for the very address it is filed
    under, or was advertised in a response by such a peer. *)
Theorem kad_recv_learns (n : KademliaNode) (seed : arr 32) (w w' : World)
    (n' : KademliaNode) (ev : KadEvent) :
  kad_ok n -> io_run (kad_recv_one n seed) w = (Returned (Ok (n', ev)), w') ->
  kad_ok n' /\ kad_frame n n' /\
  kn_table n' = table_after (kn_host n') (kn_table n) ev /\
  event_peer (kn_host n') ev /\
  forall e, e ∈ table_entries (kn_table n') ->
    e ∈ table_entries (kn_table n) \/
    (exists pid, remote_peer_id_of (kn_host n') e.2 = Some pid /\ e.1 = from_peer_id pid) \/
    (exists from peers, ev = FindNodeResponseReceived from peers /\
       is_Some (remote_peer_id_of (kn_host n') from) /\ e ∈ peers).
Proof.
  intros Hok Hr. destruct (kad_recv_post n seed w (n', ev) w' Hr) as ([Hk Hf] & Ht & Hev).
  split_and!; [by apply Hk|done|done|done|]. intros e. rewrite Ht.
  apply table_after_entries; [apply Hok|done].
Qed.

Context `{!CryptoLaws C}.

Lemma learn_sender_k h t a : table_k (learn_sender h t a) = table_k t.
Proof. unfold learn_sender. case_match; [apply table_insert_k|done]. Qed.

(** Frames that fit the socket, with up to one byte in front. *)
Lemma request_fits h (p : list byte) :
  length p <= 2 + NODE_ID_LEN ->
  (N.of_nat (length p + TRANSPORT_OVERHEAD) <= max_send_payload (host_socket h))%N ->
  payload_fits h p.
Proof. intros Hp Hm. split; [done|]. unfold NODE_ID_LEN in *. apply (N.le_lt_trans _ 34); [lia|done]. Qed.

Lemma reply_fits h (p : list byte) k :
  length p <= 3 + ENTRY_V6_LEN * k -> k <= MAX_PEERS_PER_RESP ->
  (N.of_nat (length p + TRANSPORT_OVERHEAD) <= max_send_payload (host_socket h))%N ->
  payload_fits h p.
Proof.
  intros Hp Hk Hm. split; [done|].
  assert (N.of_nat (length p) <= 3 + 51 * 255)%N.
  { unfold ENTRY_V6_LEN, NODE_ID_LEN, ADDR_V6_BODY_LEN, MAX_PEERS_PER_RESP in *. lia. }
  by eapply N.le_lt_trans.
Qed.

(** C23: a request over an established session is answered and the answer
    arrives: [ping] makes the peer's next [recv_one] report the ping and send
    one datagram, which makes the caller's [recv_one] report the response;
    [find_node] likewise, and the caller receives exactly the peers of the
    responder's table closest to the target (with the caller in it), as the
    wire carries them.  The responder's table has room for 255 entries in a
    reply and its socket for a reply of that length. *)
Theorem kad_request_answered (nA nB : KademliaNode) (a b : UdpAddr) (f : KadFrame) (sA sB : arr 32) :
  linked (kn_host nA) a (kn_host nB) b 2 ->
  f = PingReq \/ (exists target, f = FindNodeReq target) ->
  table_k (kn_table nB) <= MAX_PEERS_PER_RESP ->
  (N.of_nat (1 + NODE_ID_LEN + TRANSPORT_OVERHEAD) <= max_send_payload (host_socket (kn_host nA)))%N ->
  (N.of_nat (2 + ENTRY_V6_LEN * table_k (kn_table nB) + TRANSPORT_OVERHEAD)
     <= max_send_payload (host_socket (kn_host nB)))%N ->
  let tB := learn_sender (kn_host nB) (kn_table nB) a in
  exists nA' d nB' d' nA'',
    (forall w, send_fault w = None ->
       io_run (send_frame nA b f) w = (Returned (Ok nA'), world_sent w b d)) /\
    (forall w inbox, w_inbox w = Ok (socket_of_udp a, d) :: inbox -> send_fault w = None ->
       io_run (kad_recv_one nB sB) w =
         (Returned (Ok (nB', frame_event tB a f)), world_sent (world_received w) a d')) /\
    (forall w inbox, w_inbox w = Ok (socket_of_udp b, d') :: inbox ->
       io_run (kad_recv_one nA' sA) w =
         (Returned (Ok (nA'', match f with
            | FindNodeReq target =>
                FindNodeResponseReceived b (wire_peer <$> closest_to tB target (table_k tB))
            | _ => PingResponseReceived b
            end)), world_received w)) /\
    kn_table nB' = tB /\ linked (kn_host nA'') a (kn_host nB') b 0.
Proof.
  destruct nA as [hA tA], nB as [hB tB0]. cbn [kn_host kn_table].
  intros Hl Hf Hk255 HmaxA HmaxB. set (tB := learn_sender hB tB0 a).
  assert (HtBk : table_k tB = table_k tB0) by apply learn_sender_k.
  destruct (request_frames tB b f) as (req & r & rep & Hreq & Hlen & Hdec & Hr & Hrep & Hrlen & Hresp);
    [done|by rewrite HtBk|].
  rewrite HtBk in Hrlen.
  destruct (linked_exchange hA a hB b 0 req rep Hl)
    as (hA1 & d & hB1 & hB2 & d' & hA2 & S1 & R1 & S2 & R2 & Hl2 & PB).
  { apply request_fits; [lia|lia]. }
  { apply reply_fits with (k := table_k tB0); [lia|lia|lia]. }
  assert (HtB1 : learn_sender hB1 tB0 a = tB) by (by apply learn_sender_ext).
  destruct (Hresp hA2 tA identity_wrap) as [tA' HrespA].
  exists (MkKademliaNode hA1 tA), d, (MkKademliaNode hB2 tB), d', (MkKademliaNode hA2 tA').
  split_and!.
  - intros w Hw. by apply (run_send_frame _ _ _ _ req); [|apply S1].
  - intros w inbox Hw Hfault. rewrite (run_kad_recv _ _ _ _ _ _ _ _ (R1 _ w inbox Hw)).
    unfold process_plaintext. rewrite (run_process_request hB1 tB0 a req _ f r Hdec) by (by rewrite HtB1).
    rewrite HtB1, Hrep. unfold identity_wrap. rewrite S2 by done. done.
  - intros w inbox Hw. rewrite (run_kad_recv _ _ _ _ _ _ _ _ (R2 _ w inbox Hw)).
    unfold process_plaintext. rewrite HrespA. by destruct Hf as [->|[target ->]].
  - done.
  - done.
Qed.

(** What bounds [k]: when the requester's closest peers number more
    than 255, or their reply exceeds the socket's ceiling (31 IPv4 peers do at
    the default 1200 bytes), answering a [FIND_NODE] request fails with an
    error, and the node, which the call consumed, is lost with it. *)
Theorem find_node_reply_too_large (h : Host) (t : RoutingTable) (addr : UdpAddr)
    (conn : EstablishedConnection) (p : list byte) (target : NodeId) (w : World) :
  host_established h !! addr = Some conn -> nonces_left (conn_transport conn) 1 ->
  kad_decode p = Ok (FindNodeReq target) ->
  let t' := learn_sender h t addr in
  let m := Nat.min (table_k t') (table_len t') in
  (255 < m -> exists reason,
     io_run (process_plaintext (MkKademliaNode h t) addr p) w =
       (Returned (Err (PubsubProtocol reason)), w)) /\
  (m <= 255 ->
   (max_send_payload (host_socket h) < N.of_nat (2 + 39 * m + TRANSPORT_OVERHEAD))%N ->
   exists len, (max_send_payload (host_socket h) < len)%N /\
     io_run (process_plaintext (MkKademliaNode h t) addr p) w =
       (Returned (Err (DatagramTooLarge len (max_send_payload (host_socket h)))), w)).
Proof.
  intros Hc Hn Hd t' m.
  unfold process_plaintext. rewrite (run_process_request h t addr p _ (FindNodeReq target) _ Hd eq_refl).
  cbn [kad_encode]. unfold identity_wrap at 1 2.
  fold t'. set (peers := closest_to t' target (table_k t')).
  assert (Hlen : length peers = m) by apply length_closest_to.
  rewrite encode_resp_eq, Hlen.
  destruct (Nat.leb_spec m MAX_PEERS_PER_RESP) as [Hm|Hm]; unfold MAX_PEERS_PER_RESP in Hm;
    (split; [intros H1|intros H1 H2]); try lia.
  - rewrite run_host_send, Hc. set (rep := _ ++ concat _).
    assert (Hrep : 2 + 39 * m <= length rep <= 2 + 51 * m).
    { pose proof (length_entries peers). pose proof (length_entries_lower peers).
      unfold rep. rewrite length_app. cbn [length].
      unfold ENTRY_V6_LEN, ENTRY_V4_LEN, NODE_ID_LEN, ADDR_V6_BODY_LEN, ADDR_V4_BODY_LEN in *. lia. }
    destruct (transport_encrypt_total (conn_transport conn) rep Hn) as (t1 & d & He).
    { apply (N.le_lt_trans _ (2 + 51 * 255)); [lia|done]. }
    rewrite He. pose proof (transport_encrypt_length _ _ _ _ He) as Hdl.
    unfold after_reply.
    destruct (N.ltb_spec (max_send_payload (host_socket h)) (N.of_nat (length d))); [|lia].
    cbn [run_bind]. by eexists.
  - by eexists.
Qed.

End properties.

(** ** Witnesses *)

Lemma kad_recv_learns_witness :
  let n := kad_new (C:=toy_crypto) (toy_host 4001 x01 x02) 20 in
  let w := quiet_world [(socket_of_udp (loopback 4002), [x00])] in
  exists n' reason w',
    io_run (IoRuntime:=direct_io)
      (kad_recv_one (C:=toy_crypto) (RT:=direct_io) n (arr_repeat 32 x03)) w =
      (Returned (Ok (n', KadRejected (loopback 4002) reason)), w') /\
    kad_ok (C:=toy_crypto) n' /\ kn_table n' = kn_table n.
Proof.
  intros n w.
  destruct (recv_one_unknown (C:=toy_crypto) (RT:=direct_io) (IoLaws0:=direct_io_laws)
    (toy_host 4001 x01 x02) (loopback 4002) [x00] (arr_repeat 32 x03) w [] eq_refl)
    as [reason Hr]; [change (1 <= N.to_nat 65507); lia|done|done|done|done|].
  assert (E : exists n' w', io_run (IoRuntime:=direct_io)
    (kad_recv_one (C:=toy_crypto) (RT:=direct_io) n (arr_repeat 32 x03)) w =
    (Returned (Ok (n', KadRejected (loopback 4002) reason)), w')).
  { eexists _, _. unfold n, kad_new, kad_recv_one.
    rewrite (run_bind_eq (IoLaws0:=direct_io_laws)), Hr. reflexivity. }
  destruct E as (n' & w' & E). exists n', reason, w'. split; [exact E|].
  destruct (kad_recv_learns (C:=toy_crypto) (RT:=direct_io) (IoLaws0:=direct_io_laws)
    n _ w w' n' _ (kad_new_ok (C:=toy_crypto) _ 20 (toy_host_ok 4001 x01 x02)) E)
    as (Hok & _ & Ht & _).
  exact (conj Hok Ht).
Defined.

Lemma kad_request_answered_witness :
  let nA := kad_new (C:=toy_crypto) toy_A 20 in
  let nB := kad_new (C:=toy_crypto) toy_B 20 in
  let a := loopback 4001 in
  let b := loopback 4002 in
  exists nA' d nB' d' nA'',
    io_run (IoRuntime:=direct_io) (kad_ping (C:=toy_crypto) (RT:=direct_io) nA b) (quiet_world []) =
      (Returned (Ok nA'), world_sent (quiet_world []) b d) /\
    (let w := quiet_world [(socket_of_udp a, d)] in
     io_run (IoRuntime:=direct_io)
       (kad_recv_one (C:=toy_crypto) (RT:=direct_io) nB (arr_repeat 32 x03)) w =
       (Returned (Ok (nB', PingRequestReceived a)), world_sent (world_received w) a d')) /\
    (let w := quiet_world [(socket_of_udp b, d')] in
     io_run (IoRuntime:=direct_io)
       (kad_recv_one (C:=toy_crypto) (RT:=direct_io) nA' (arr_repeat 32 x03)) w =
       (Returned (Ok (nA'', PingResponseReceived b)), world_received w)).
Proof.
  intros nA nB a b.
  destruct (kad_request_answered (C:=toy_crypto) (RT:=direct_io) (IoLaws0:=direct_io_laws)
    (CryptoLaws0:=toy_crypto_laws) nA nB a b PingReq (arr_repeat 32 x03) (arr_repeat 32 x03))
    as (nA' & d & nB' & d' & nA'' & H1 & H2 & H3 & _).
  - apply toy_linked. done.
  - by left.
  - apply Nat.leb_le. reflexivity.
  - done.
  - done.
  - exists nA', d, nB', d', nA''. split; [|split].
    + by apply H1.
    + exact (H2 (quiet_world [(socket_of_udp a, d)]) [] eq_refl eq_refl).
    + exact (H3 (quiet_world [(socket_of_udp b, d')]) [] eq_refl).
Defined.

(** Thirty-one peers in one bucket of a table with [k = 40]. *)
Definition toy_crowd : RoutingTable :=
  foldl (fun t i => (table_insert t (toy_id (n2b (N.of_nat i))) (loopback 5000)).1)
    (table_new (toy_id x00) 40) (seq 128 31).

Lemma find_node_reply_too_large_witness :
  exists p len,
    kad_encode (FindNodeReq (toy_id x05)) = Ok p /\ (1200 < len)%N /\
    io_run (IoRuntime:=direct_io)
      (process_plaintext (C:=toy_crypto) (RT:=direct_io)
         (MkKademliaNode toy_B toy_crowd) (loopback 4001) p) (quiet_world []) =
      (Returned (Err (DatagramTooLarge len 1200)), quiet_world []).
Proof.
  eexists. assert (Hp : forall p, kad_encode (FindNodeReq (toy_id x05)) = Ok p ->
    kad_decode p = Ok (FindNodeReq (toy_id x05))) by (intros p Hp; by apply kad_decode_encode in Hp).
  assert (Hm : Nat.min (table_k (learn_sender (C:=toy_crypto) toy_B toy_crowd (loopback 4001)))
    (table_len (learn_sender (C:=toy_crypto) toy_B toy_crowd (loopback 4001))) = 32)
    by (vm_compute; reflexivity).
  destruct (find_node_reply_too_large (C:=toy_crypto) (RT:=direct_io) (IoLaws0:=direct_io_laws)
    (CryptoLaws0:=toy_crypto_laws) toy_B toy_crowd (loopback 4001) _ _ (toy_id x05) (quiet_world [])
    (lookup_singleton_eq _ _) eq_refl (Hp _ eq_refl)) as [_ H].
  rewrite Hm in H. destruct H as (len & Hlen & Hrun); [apply Nat.leb_le; reflexivity|done|].
  exists len. split; [reflexivity|]. split; [exact Hlen|exact Hrun].
Defined.
