(* ===== verification/LookupDriver.v ===== *)
(** * Driving a lookup, over any node

    The Kademlia node and the multi-protocol node drive a lookup with the
    same loop, written twice in the source: rounds of queries and dials, each
    drained within a budget.  [LookupDriver] lists what the loop asks of a
    node, [LookupDriverLaws] what its results rest on; [KadDrive.v] and
    [MuxLookup.v] show that the two loops of the source are instances of this
    one and discharge the laws.  [lookup_run] is the trace of a lookup: its
    result is the nearest of the candidates the trace names. *)

From S2P Require Export KadProps KadLookup.

(** A round's decision for one peer. *)
Inductive RoundAction : Type :=
| ActQuery (addr : UdpAddr)
| ActDial (addr : UdpAddr) (seed : arr 32).

Class LookupDriver `{C : Crypto, RT : IoRuntime} (Nd Ev : Type) : Type := {
  ld_host : Nd -> Host;
  ld_find_node : Nd -> UdpAddr -> NodeId -> Io Error Nd;
  ld_dial : Nd -> UdpAddr -> arr 32 -> Io Error Nd;
  ld_recv : Nd -> arr 32 -> Io Error (Nd * Ev);
  ld_observe : Lookup -> Ev -> Lookup;
  (** The peers an event tells the lookup of. *)
  ld_peers : Ev -> list Peer
}.

Section driver.
Context `{C : Crypto, RT : IoRuntime} {Nd Ev : Type} `{D : !LookupDriver Nd Ev}.

Fixpoint ld_round_actions (node : Nd) (seed_factory : SeedFactory) (to_act : list Peer)
    : Io Error (list (NodeId * RoundAction)) :=
  match to_act with
  | [] => io_pure []
  | (id, addr) :: to_act' =>
      action ←
        (if is_established (ld_host node) addr then io_pure (ActQuery addr)
         else seed ← next_seed seed_factory; io_pure (ActDial addr seed));
      actions ← ld_round_actions node seed_factory to_act';
      io_pure ((id, action) :: actions)
  end.

Definition mark_action (acc : Lookup) (a : NodeId * RoundAction) : Lookup :=
  match a with
  | (id, ActQuery addr) => mark_in_flight acc id addr
  | (id, ActDial addr _) => mark_dialing acc id addr
  end.

Definition ld_send_action (target : NodeId) (acc : Io Error Nd) (a : NodeId * RoundAction)
    : Io Error Nd :=
  n ← acc;
  match a.2 with
  | ActQuery addr => ld_find_node n addr target
  | ActDial addr seed => ld_dial n addr seed
  end.

Fixpoint ld_drain (node : Nd) (lookup : Lookup) (seed_factory : SeedFactory) (budget : nat)
    : Io Error (Nd * Lookup) :=
  match budget with
  | 0 => io_pure (node, lookup)
  | S budget' =>
      if negb (has_pending lookup) then io_pure (node, lookup)
      else
        seed ← next_seed seed_factory;
        '(node, ev) ← ld_recv node seed;
        ld_drain node (ld_observe lookup ev) seed_factory budget'
  end.

Fixpoint ld_drive (node : Nd) (lookup : Lookup) (seed_factory : SeedFactory) (rounds_left : nat)
    : Io Error (Nd * Lookup) :=
  match rounds_left with
  | 0 => io_pure (node, lookup)
  | S rounds_left' =>
      if is_done lookup then io_pure (node, lookup)
      else
        let to_act := pick_next_alpha lookup in
        match to_act with
        | [] => io_pure (node, lookup)
        | _ =>
            actions ← ld_round_actions node seed_factory to_act;
            let lookup_after_marks := foldl mark_action lookup actions in
            let target := lk_target lookup_after_marks in
            let send_chain := foldl (ld_send_action target) (io_pure node) actions in
            node ← send_chain;
            let budget := lc_max_recv_per_round (lk_config lookup_after_marks) in
            '(node, lookup_after_drain) ←
              ld_drain node lookup_after_marks seed_factory budget;
            let lookup := skip_pending_dials (skip_pending_queries lookup_after_drain) in
            ld_drive node lookup seed_factory rounds_left'
        end
  end.

(** What the driver does to the node and the world, one call after the
    other, with the event each receive gave, in order. *)
Inductive lookup_run : Nd -> World -> list Ev -> Nd -> World -> Prop :=
| lr_end n w : lookup_run n w [] n w
| lr_seed n w f s w1 log n' w' :
    io_run (next_seed (E:=Error) f) w = (Returned (Ok s), w1) ->
    lookup_run n w1 log n' w' -> lookup_run n w log n' w'
| lr_ask n w a target n1 w1 log n' w' :
    io_run (ld_find_node n a target) w = (Returned (Ok n1), w1) ->
    lookup_run n1 w1 log n' w' -> lookup_run n w log n' w'
| lr_dial n w a s n1 w1 log n' w' :
    io_run (ld_dial n a s) w = (Returned (Ok n1), w1) ->
    lookup_run n1 w1 log n' w' -> lookup_run n w log n' w'
| lr_recv n w s n1 ev w1 log n' w' :
    io_run (ld_recv n s) w = (Returned (Ok (n1, ev)), w1) ->
    lookup_run n1 w1 log n' w' -> lookup_run n w (ev :: log) n' w'.

End driver.

(** ** What a lookup rests on *)

Class LookupDriverLaws `{C : Crypto, RT : IoRuntime} {Nd Ev : Type} `{D : !LookupDriver Nd Ev} : Type := {
  (** What every operation of the node keeps. *)
  ld_keeps : Nd -> Nd -> Prop;
  ld_keeps_refl n : ld_keeps n n;
  ld_keeps_trans n1 n2 n3 : ld_keeps n1 n2 -> ld_keeps n2 n3 -> ld_keeps n1 n3;
  ld_find_post n a target : io_post (ld_find_node n a target) (ld_keeps n);
  ld_dial_post n a s : io_post (ld_dial n a s) (ld_keeps n);
  ld_recv_post n s : io_post (ld_recv n s) (fun '(n', _) => ld_keeps n n');
  (** An event moves the lookup by the machine's steps. *)
  ld_observe_reach l ev : lookup_reaches l (ld_observe l ev);
  (** The peers it names are the candidates it adds. *)
  ld_observe_names l ev cs : lookup_ok l -> made_of l cs -> made_of (ld_observe l ev) (cs ++ ld_peers ev);
  (** A receive takes one datagram and draws at most [ld_draws] seeds. *)
  ld_draws : nat;
  ld_find_cost n a target : io_cost (ld_find_node n a target) 0 0;
  ld_dial_cost n a s : io_cost (ld_dial n a s) 0 0;
  ld_recv_cost n s : io_cost (ld_recv n s) 1 ld_draws;
  (** Dialing an address with a handshake in flight fails. *)
  ld_dial_known n a s w :
    is_Some (host_handshakes (ld_host n) !! a) ->
    io_run (ld_dial n a s) w =
      (Returned (Err (HostState
         ("dial: address " ++ udp_addr_display a ++ " already known to host")%string)), w)
}.

(** ** The states the driver reaches *)

Section post.
Context `{C : Crypto, RT : IoRuntime, !IoLaws RT}
  {Nd Ev : Type} `{D : !LookupDriver Nd Ev, DL : !LookupDriverLaws}.

Definition action_of (a : NodeId * RoundAction) : Peer :=
  (a.1, match a.2 with ActQuery addr | ActDial addr _ => addr end).

Lemma round_actions_post node f to_act :
  io_post (ld_round_actions node f to_act) (fun actions => action_of <$> actions = to_act).
Proof.
  induction to_act as [|[id addr] to_act IH]; cbn [ld_round_actions]; [by apply io_post_pure|].
  eapply (io_post_bind _ _ (fun a => action_of (id, a) = (id, addr))).
  - destruct (is_established _ _); [by apply io_post_pure|].
    eapply (io_post_bind _ _ (fun _ => True)); [by intros ?|]. intros s _. by apply io_post_pure.
  - intros a Ha. eapply io_post_bind; [exact IH|]. intros actions Hacts.
    apply io_post_pure. cbn [fmap list_fmap]. by rewrite Ha, <- Hacts.
Qed.

(** ** What a lookup heard *)

Lemma lookup_run_app (n1 n2 n3 : Nd) (w1 w2 w3 : World) (l1 l2 : list Ev) :
  lookup_run n1 w1 l1 n2 w2 -> lookup_run n2 w2 l2 n3 w3 -> lookup_run n1 w1 (l1 ++ l2) n3 w3.
Proof.
  induction 1; intros H2; [done|by eapply lr_seed; eauto|by eapply lr_ask; eauto|by eapply lr_dial; eauto|].
  eapply lr_recv; eauto.
Qed.

Lemma round_actions_run (n : Nd) f to_act : forall w actions w',
  io_run (ld_round_actions n f to_act) w = (Returned (Ok actions), w') -> lookup_run n w [] n w'.
Proof.
  induction to_act as [|[id addr] to_act IH]; intros w actions w'; cbn [ld_round_actions].
  - rewrite run_pure. intros [= _ <-]. apply lr_end.
  - rewrite run_bind_eq. intros (act & w1 & Ha & Hr)%run_bind_Ok.
    rewrite run_bind_eq in Hr. apply run_bind_Ok in Hr as (acts & w2 & Hr & Hp).
    rewrite run_pure in Hp. injection Hp as _ <-. apply IH in Hr.
    destruct (is_established _ _).
    + rewrite run_pure in Ha. by injection Ha as _ <-.
    + rewrite run_bind_eq in Ha. apply run_bind_Ok in Ha as (s & w3 & Hs & Hp).
      rewrite run_pure in Hp. injection Hp as _ <-. by eapply lr_seed.
Qed.

Lemma send_chain_run target actions : forall (m : Io Error Nd) w n' w',
  io_run (foldl (ld_send_action target) m actions) w = (Returned (Ok n'), w') ->
  exists n1 w1, io_run m w = (Returned (Ok n1), w1) /\ lookup_run n1 w1 [] n' w'.
Proof.
  induction actions as [|[id act] actions IH]; intros m w n' w' Hr.
  - exists n', w'. split; [done|apply lr_end].
  - apply IH in Hr as (n2 & w2 & Hr & Hrun). unfold ld_send_action in Hr. rewrite run_bind_eq in Hr.
    apply run_bind_Ok in Hr as (n1 & w1 & Hm & Ha). exists n1, w1. split; [done|].
    destruct act; [by eapply lr_ask; [exact Ha|]|by eapply lr_dial; [exact Ha|]].
Qed.

Lemma drain_run budget : forall n l f w n' l' w',
  io_run (ld_drain n l f budget) w = (Returned (Ok (n', l')), w') ->
  exists log, lookup_run n w log n' w' /\ l' = foldl ld_observe l log /\ length log <= budget.
Proof.
  induction budget as [|budget IH]; intros n l f w n' l' w'; cbn [ld_drain].
  - rewrite run_pure. intros [= <- <- <-]. exists []. split_and!; [apply lr_end|done|done].
  - destruct (negb _).
    + rewrite run_pure. intros [= <- <- <-]. exists []. split_and!; [apply lr_end|done|cbn; lia].
    + rewrite run_bind_eq. intros (s & w1 & Hs & Hr)%run_bind_Ok.
      rewrite run_bind_eq in Hr. apply run_bind_Ok in Hr as ([n1 ev] & w2 & Hv & Hr).
      apply IH in Hr as (log & Hrun & -> & Hlen). exists (ev :: log).
      split_and!; [|done|cbn; lia]. eapply lr_seed; [exact Hs|]. by eapply lr_recv.
Qed.

(** Events add the peers they name to the candidates. *)
Lemma observe_all_names log : forall l cs,
  lookup_ok l -> made_of l cs -> made_of (foldl ld_observe l log) (cs ++ (log ≫= ld_peers)).
Proof.
  induction log as [|ev log IH]; intros l cs Hok Hm; cbn [foldl mbind list_bind]; [by rewrite app_nil_r|].
  rewrite app_assoc. apply IH; [|by apply ld_observe_names].
  by apply (lookup_reaches_facts _ _ Hok (ld_observe_reach l ev)).
Qed.

(** Marking distinct unqueried entries is a run of the machine, and leaves
    the same peers in the shortlist. *)
Lemma marks_reach actions : forall l,
  lookup_ok l -> NoDup actions.*1 ->
  (forall id addr, (id, addr) ∈ action_of <$> actions ->
     lk_entries l !! distance id (lk_target l) = Some (MkLookupEntry id addr Unqueried)) ->
  lookup_reaches l (foldl mark_action l actions) /\
  forall cs, made_of l cs -> made_of (foldl mark_action l actions) cs.
Proof.
  induction actions as [|[id act] actions IH]; intros l Hok Hnd Hall; [split; [apply rtc_refl|done]|].
  cbn [foldl]. cbn in Hnd. apply NoDup_cons in Hnd as [Hni Hnd].
  set (addr := match act with ActQuery addr | ActDial addr _ => addr end).
  assert (Hid : lk_entries l !! distance id (lk_target l) = Some (MkLookupEntry id addr Unqueried))
    by (apply Hall; by left).
  assert (Hs : lookup_step l (mark_action l (id, act))).
  { destruct act; cbn [mark_action]; [by apply ls_in_flight|by apply ls_dialing]. }
  pose proof (lookup_step_facts _ _ Hok Hs) as Hf. pose proof Hf as [Hok' (_ & Ht & _) _].
  destruct (IH (mark_action l (id, act))) as [Hr Hm]; [done|done| |].
  - intros id' addr' Hin. rewrite Ht.
    assert (Hne : distance id' (lk_target l) <> distance id (lk_target l)).
    { intros Heq%distance_inj_l. subst id'. apply Hni.
      apply list_elem_of_fmap in Hin as ([i a] & [= -> _] & Hin).
      apply list_elem_of_fmap. by eexists (_, _). }
    assert (Hother : lk_entries (mark_action l (id, act)) !! distance id' (lk_target l) =
      lk_entries l !! distance id' (lk_target l)).
    { destruct act, l; cbn; by rewrite lookup_alter_ne. }
    rewrite Hother. apply Hall. by right.
  - split; [by eapply rtc_l|]. intros cs Hcs. apply Hm. revert Hcs.
    apply made_of_same; [done|done|]. intros d. destruct act, l; apply alter_is_Some.
Qed.

(** The actions of a round are for the peers picked. *)
Lemma round_marks l n f w actions w' :
  lookup_ok l -> io_run (ld_round_actions n f (pick_next_alpha l)) w = (Returned (Ok actions), w') ->
  lookup_reaches l (foldl mark_action l actions) /\
  forall cs, made_of l cs -> made_of (foldl mark_action l actions) cs.
Proof.
  intros Hok Ha%round_actions_post. apply marks_reach; [done| |].
  - pose proof (pick_NoDup l Hok) as Hnd. rewrite <- Ha, <- list_fmap_compose in Hnd. exact Hnd.
  - intros id addr. rewrite Ha. by apply elem_of_pick.
Qed.

Definition drove (n : Nd) (l : Lookup) (r : Nd * Lookup) : Prop :=
  ld_keeps n r.1 /\ lookup_reaches l r.2.

Lemma drove_refl n l : drove n l (n, l).
Proof. split; [apply ld_keeps_refl|apply rtc_refl]. Qed.

Lemma drain_post budget : forall n l f, io_post (ld_drain n l f budget) (drove n l).
Proof.
  induction budget as [|budget IH]; intros n l f; cbn [ld_drain];
    [apply io_post_pure, drove_refl|].
  destruct (negb _); [apply io_post_pure, drove_refl|].
  eapply (io_post_bind _ _ (fun _ => True)); [by intros ?|]. intros seed _.
  eapply io_post_bind; [apply ld_recv_post|]. intros [n1 ev] Hk.
  eapply io_post_weaken; [apply IH|]. intros [n2 l2] [Hk2 Hr2]. split; cbn in *.
  - by eapply ld_keeps_trans.
  - etrans; [apply ld_observe_reach|exact Hr2].
Qed.

Lemma send_chain_post target actions : forall m n,
  io_post m (ld_keeps n) -> io_post (foldl (ld_send_action target) m actions) (ld_keeps n).
Proof.
  induction actions as [|[id act] actions IH]; intros m n Hm; [done|]. cbn [foldl]. apply IH.
  eapply io_post_bind; [exact Hm|]. intros n1 Hk.
  destruct act; cbn [snd]; (eapply io_post_weaken; [first [apply ld_find_post|apply ld_dial_post]|]);
    intros n2 Hk2; by eapply ld_keeps_trans.
Qed.

(** One round: its outcome, the rest of the lookup, and what it read. *)
Lemma drive_round n l f rounds w n' l' w' :
  lookup_ok l -> io_run (ld_drive n l f (S rounds)) w = (Returned (Ok (n', l')), w') ->
  (n', l', w') = (n, l, w) \/
  exists actions w1 n1 w2 n2 l2 w3,
    let l1 := foldl mark_action l actions in
    io_run (ld_round_actions n f (pick_next_alpha l)) w = (Returned (Ok actions), w1) /\
    io_run (foldl (ld_send_action (lk_target l1)) (io_pure n) actions) w1 = (Returned (Ok n1), w2) /\
    io_run (ld_drain n1 l1 f (lc_max_recv_per_round (lk_config l))) w2 = (Returned (Ok (n2, l2)), w3) /\
    lookup_reaches l (skip_pending_dials (skip_pending_queries l2)) /\
    io_run (ld_drive n2 (skip_pending_dials (skip_pending_queries l2)) f rounds) w3 =
      (Returned (Ok (n', l')), w').
Proof.
  intros Hok. cbn [ld_drive]. destruct (is_done l); [rewrite run_pure; intros [= <- <- <-]; by left|].
  destruct (pick_next_alpha l) as [|p ps] eqn:Ep; [rewrite run_pure; intros [= <- <- <-]; by left|].
  rewrite <- Ep. rewrite run_bind_eq. intros (actions & w1 & Ha & Hr)%run_bind_Ok. right.
  rewrite run_bind_eq in Hr. apply run_bind_Ok in Hr as (n1 & w2 & Hn1 & Hr).
  rewrite run_bind_eq in Hr. apply run_bind_Ok in Hr as ([n2 l2] & w3 & Hd & Hr).
  destruct (round_marks l n f w actions w1 Hok Ha) as [Hm _].
  destruct (lookup_reaches_facts _ _ Hok Hm) as (_ & _ & _ & Hcfg & _).
  rewrite Hcfg in Hd. exists actions, w1, n1, w2, n2, l2, w3. split_and!; try done.
  destruct (drain_post _ _ _ _ _ _ _ Hd) as [_ Hr2]. cbn [snd] in Hr2.
  etrans; [exact Hm|]. etrans; [exact Hr2|].
  eapply rtc_l; [apply ls_skip_queries|]. apply rtc_once, ls_skip_dials.
Qed.

Lemma drive_post rounds : forall n l f, lookup_ok l ->
  io_post (ld_drive n l f rounds) (drove n l).
Proof.
  induction rounds as [|rounds IH]; intros n l f Hok; [apply io_post_pure, drove_refl|].
  intros w [n' l'] w' [[= -> -> ->]|(acts & w1 & n1 & w2 & n2 & l2 & w3 & _ & Hs & Hd & Hr & Hn)]%drive_round;
    [apply drove_refl| |done].
  apply IH in Hn as [Hk3 Hr4]; [|by apply (lookup_reaches_facts _ _ Hok Hr)]. cbn [fst snd] in *.
  pose proof (send_chain_post _ _ _ _ (io_post_pure _ _ (ld_keeps_refl n)) _ _ _ Hs) as Hk1.
  destruct (drain_post _ _ _ _ _ _ _ Hd) as [Hk2 _]. split; cbn [fst snd] in *; [|by etrans].
  eapply ld_keeps_trans; [exact Hk1|]. by eapply ld_keeps_trans.
Qed.

(** A lookup's shortlist is what it was seeded with and what it was told in
    the receives of its run. *)
Lemma drive_run rounds : forall n l f cs w n' l' w',
  lookup_ok l -> made_of l cs -> io_run (ld_drive n l f rounds) w = (Returned (Ok (n', l')), w') ->
  exists log, lookup_run n w log n' w' /\ made_of l' (cs ++ (log ≫= ld_peers)) /\
    length log <= rounds * lc_max_recv_per_round (lk_config l).
Proof.
  induction rounds as [|rounds IH]; intros n l f cs w n' l' w' Hok Hm.
  { cbn [ld_drive]. rewrite run_pure. intros [= <- <- <-]. exists [].
    split_and!; [apply lr_end|by rewrite app_nil_r|done]. }
  intros [[= -> -> ->]|(acts & w1 & n1 & w2 & n2 & l2 & w3 & Ha & Hs & Hd & Hr & Hn)]%drive_round; [| |done].
  { exists []. split_and!; [apply lr_end|by rewrite app_nil_r|cbn; lia]. }
  destruct (round_marks l n f w acts w1 Hok Ha) as [Hreach1 Hm1]. specialize (Hm1 cs Hm).
  pose proof (proj1 (lookup_reaches_facts _ _ Hok Hreach1)) as Hok1.
  apply send_chain_run in Hs as (n0 & w0 & Hp & Hrun1). rewrite run_pure in Hp. injection Hp as <- <-.
  pose proof (drain_post _ _ _ _ _ _ _ Hd) as [_ Hr2]. cbn [snd] in Hr2.
  apply drain_run in Hd as (log1 & Hrun2 & -> & Hlen1).
  pose proof (observe_all_names log1 _ _ Hok1 Hm1) as Hm2.
  pose proof (proj1 (lookup_reaches_facts _ _ Hok1 Hr2)) as Hok2.
  destruct (lookup_reaches_facts _ _ Hok Hr) as (Hok3 & _ & _ & Hcfg & _).
  eapply IH in Hn as (log2 & Hrun3 & Hm3 & Hlen2); [|done|by apply made_of_skip].
  exists (log1 ++ log2). split_and!.
  - apply (lookup_run_app n n n' w w1 w' [] (log1 ++ log2)); [by eapply round_actions_run|].
    apply (lookup_run_app n n1 n' w1 w2 w' [] (log1 ++ log2)); [exact Hrun1|]. by eapply lookup_run_app.
  - by rewrite bind_app, app_assoc.
  - rewrite Hcfg in Hlen2. rewrite length_app. cbn [Nat.mul]. lia.
Qed.

(** ** The cost of a lookup *)

Lemma send_cost h a p : io_cost (host_send h a p) 0 0.
Proof. intros w h' w' (? & ? & ? & _ & _ & _ & ->)%send_sound. unfold costs. cbn. lia. Qed.

Lemma dial_cost h a s : io_cost (dial h a s) 0 0.
Proof. intros w h' w' (? & ? & _ & _ & _ & _ & ->)%dial_sound. unfold costs. cbn. lia. Qed.

Lemma run_dial_known h a s w :
  is_Some (host_handshakes h !! a) ->
  io_run (dial h a s) w =
    (Returned (Err (HostState
       ("dial: address " ++ udp_addr_display a ++ " already known to host")%string)), w).
Proof.
  intros Hh. unfold dial, prepare_dial.
  rewrite run_bind_eq, run_result. apply contains_key_true in Hh. by rewrite Hh.
Qed.

Lemma recv_cost h s : io_cost (recv_one h s) 1 0.
Proof.
  intros w [h' ev] w' (from & d & inbox & reply & Hin & _ & ->)%recv_one_sound.
  unfold costs, world_received. destruct reply; cbn; rewrite Hin; cbn; lia.
Qed.

Lemma round_actions_cost n f to_act : io_cost (ld_round_actions n f to_act) 0 (length to_act).
Proof.
  induction to_act as [|[id a] to_act IH]; [apply io_cost_pure|].
  apply (io_cost_bind _ _ 0 1 0 (length to_act)).
  - destruct (is_established _ _); [apply io_cost_pure|].
    apply (io_cost_bind _ _ 0 1 0 0); [apply next_seed_cost|]. intros s. apply io_cost_pure.
  - intros act. rewrite <- (Nat.add_0_r (length to_act)).
    apply (io_cost_bind _ _ 0 _ 0 0); [exact IH|]. intros acts. apply io_cost_pure.
Qed.

Lemma send_chain_cost target actions : forall m,
  io_cost m 0 0 -> io_cost (foldl (ld_send_action target) m actions) 0 0.
Proof.
  induction actions as [|[id act] actions IH]; intros m Hm; [done|]. cbn [foldl]. apply IH.
  apply (io_cost_bind _ _ 0 0 0 0); [exact Hm|]. intros n.
  destruct act; [apply ld_find_cost|apply ld_dial_cost].
Qed.

Lemma drain_cost budget : forall n l f,
  io_cost (ld_drain n l f budget) budget (budget * (1 + ld_draws)).
Proof.
  induction budget as [|budget IH]; intros n l f; cbn [ld_drain]; [apply io_cost_pure|].
  destruct (negb _); [apply io_cost_pure|].
  apply (io_cost_bind _ _ 0 1 (S budget) (ld_draws + budget * (1 + ld_draws))); [apply next_seed_cost|].
  intros seed. apply (io_cost_bind _ _ 1 ld_draws budget (budget * (1 + ld_draws)));
    [apply ld_recv_cost|]. intros [n1 ev]. apply IH.
Qed.

Lemma length_pick l : length (pick_next_alpha l) <= lc_alpha (lk_config l).
Proof. unfold pick_next_alpha. rewrite length_fmap, length_take. lia. Qed.

Lemma drive_cost rounds : forall n l f, lookup_ok l ->
  let cfg := lk_config l in
  io_cost (ld_drive n l f rounds) (rounds * lc_max_recv_per_round cfg)
    (rounds * (lc_alpha cfg + lc_max_recv_per_round cfg * (1 + ld_draws))).
Proof.
  induction rounds as [|rounds IH]; intros n l f Hok cfg; [apply io_cost_pure|].
  intros w [n' l'] w' [[= -> -> ->]|(acts & w1 & n1 & w2 & n2 & l2 & w3 & Ha & Hs & Hd & Hr & Hn)]%drive_round;
    [unfold costs; cbn; lia| |done].
  pose proof (round_actions_cost _ _ _ _ _ _ Ha) as C1.
  pose proof (send_chain_cost _ _ _ (io_cost_pure _ _ _) _ _ _ Hs) as C2.
  pose proof (drain_cost _ _ _ _ _ _ _ Hd) as C3.
  destruct (lookup_reaches_facts _ _ Hok Hr) as (Hok3 & _ & _ & Hcfg3 & _).
  specialize (IH n2 _ f Hok3 _ _ _ Hn). rewrite Hcfg3 in IH.
  pose proof (length_pick l). unfold cfg in *. unfold costs in *. cbn [Nat.mul].
  set (q := lc_max_recv_per_round (lk_config l) * (1 + ld_draws)) in *. lia.
Qed.

End post.

Section nearest.
Context `{C : Crypto, RT : IoRuntime, !IoLaws RT}
  {Nd Ev : Type} `{D : !LookupDriver Nd Ev, DL : !LookupDriverLaws}.

(** The first peer a fresh lookup contacts is the nearest it was seeded with. *)
Lemma pick_first self target cfg id a rest :
  0 < lc_k cfg -> 0 < lc_alpha cfg -> id <> self ->
  (forall p, p ∈ rest -> (dval (distance id target) < dval (distance p.1 target))%N) ->
  exists ps, pick_next_alpha (lookup_new self target cfg ((id, a) :: rest)) = (id, a) :: ps.
Proof.
  intros Hk Ha Hself Hfar. set (l := lookup_new self target cfg ((id, a) :: rest)).
  pose proof (lookup_new_ok self target cfg ((id, a) :: rest)) as Hok. fold l in Hok.
  assert (Hfirst : lk_entries l !! distance id target = Some (MkLookupEntry id a Unqueried)).
  { destruct (lk_entries l !! distance id target) as [e|] eqn:E.
    - apply lookup_new_entry in E as (Hs & Hd & _ & Hin). apply distance_inj_l in Hd. subst id.
      apply elem_of_cons in Hin as [Heq|Hin].
      + destruct e. cbn in *. by simplify_eq.
      + specialize (Hfar _ Hin). cbn in Hfar. lia.
    - assert (Hin : is_Some (lk_entries l !! distance id target)); [|rewrite E in Hin; by destruct Hin].
      apply bt_collect_is_Some. rewrite filter_cons_True by done. by left. }
  pose proof (lookup_entries_sorted l Hok) as Hs.
  assert (Hin : MkLookupEntry id a Unqueried ∈ lookup_entries l) by by apply elem_of_lookup_entries.
  unfold pick_next_alpha. fold (lookup_entries l).
  destruct (lookup_entries l) as [|e0 es] eqn:El; [by apply elem_of_nil in Hin|].
  assert (He0 : e0 = MkLookupEntry id a Unqueried).
  { apply elem_of_cons in Hin as [Hin|Hin]; [done|].
    apply StronglySorted_cons in Hs as [Hall _]. rewrite Forall_forall in Hall.
    specialize (Hall _ Hin). unfold entry_far in Hall. cbn [le_node_id lk_target l lookup_new] in Hall.
    assert (H0 : e0 ∈ lookup_entries l) by (rewrite El; by left).
    apply elem_of_lookup_entries in H0; [|done]. apply lookup_new_entry in H0 as (_ & _ & _ & Hin0).
    apply elem_of_cons in Hin0 as [Heq|Hin0].
    - injection Heq as Hid _. rewrite Hid in Hall. lia.
    - specialize (Hfar _ Hin0). cbn [fst] in Hfar. lia. }
  subst e0. cbn [lk_config l lookup_new].
  destruct (lc_k cfg) as [|k]; [lia|]. destruct (lc_alpha cfg) as [|al]; [lia|].
  cbn [take]. rewrite filter_cons_True by done. cbn. by eexists.
Qed.

Lemma closest_to_head_far t target k id a rest :
  table_ok t -> closest_to t target k = (id, a) :: rest ->
  forall p, p ∈ rest -> (dval (distance id target) < dval (distance p.1 target))%N.
Proof.
  intros Hok Hc p Hp. destruct (closest_to_sorted t target k Hok) as (tl & _ & Hs).
  rewrite Hc in Hs. apply StronglySorted_cons in Hs as [Hall _]. rewrite Forall_forall in Hall.
  apply (Hall p). apply elem_of_app. by left.
Qed.

Lemma send_chain_Err target actions : forall (m : Io Error Nd) w e w',
  io_run m w = (Returned (Err e), w') ->
  io_run (foldl (ld_send_action target) m actions) w = (Returned (Err e), w').
Proof.
  induction actions as [|act actions IH]; intros m w e w' Hm; [done|]. cbn [foldl]. apply IH.
  unfold ld_send_action. by rewrite run_bind_eq, Hm.
Qed.

Lemma run_next_seed {E} (f : SeedFactory) w :
  exists s w', io_run (next_seed (E:=E) f) w = (Returned (Ok s), w') /\ w_sent w' = w_sent w.
Proof. unfold next_seed. eexists _, _. by rewrite run_suspend. Qed.

(** Deciding the actions only draws seeds. *)
Lemma run_ld_round_actions n f to_act : forall w,
  exists actions w', io_run (ld_round_actions n f to_act) w = (Returned (Ok actions), w') /\
    w_sent w' = w_sent w.
Proof.
  induction to_act as [|[id a] to_act IH]; intros w; cbn [ld_round_actions].
  - exists [], w. by rewrite run_pure.
  - rewrite run_bind_eq. destruct (is_established (ld_host n) a).
    + rewrite run_pure. cbn [run_bind]. rewrite run_bind_eq.
      destruct (IH w) as (acts & w1 & -> & Hs). cbn [run_bind]. rewrite run_pure. by eexists _, _.
    + rewrite run_bind_eq. destruct (run_next_seed (E:=Error) f w) as (s & w0 & -> & Hs0).
      cbn [run_bind]. rewrite run_pure. cbn [run_bind]. rewrite run_bind_eq.
      destruct (IH w0) as (acts & w1 & -> & Hs). cbn [run_bind]. rewrite run_pure.
      eexists _, _. split; [done|congruence].
Qed.

Lemma round_actions_dial n f id a ps w actions w' :
  is_established (ld_host n) a = false ->
  io_run (ld_round_actions n f ((id, a) :: ps)) w = (Returned (Ok actions), w') ->
  exists s acts, actions = (id, ActDial a s) :: acts.
Proof.
  intros He. cbn [ld_round_actions]. rewrite He, run_bind_eq, run_bind_eq.
  destruct (run_next_seed (E:=Error) f w) as (s & w0 & -> & _). cbn [run_bind]. rewrite run_pure.
  cbn [run_bind]. rewrite run_bind_eq. destruct (run_ld_round_actions n f ps w0) as (acts & w1 & -> & _).
  cbn [run_bind]. rewrite run_pure. intros [= <- _]. by eexists _, _.
Qed.

(** ** Whole lookups *)

(** The result of a lookup from the [k] closest entries of a table: the [k]
    nearest of these and of the peers it was told of, and what it may cost. *)
Lemma ld_lookup_result n n' self t target cfg f w w' l :
  let initial := closest_to t target (lc_k cfg) in
  let far (p : Peer) := dval (distance p.1 target) in
  (forall p, p ∈ initial -> p.1 <> self) ->
  io_run (ld_drive n (lookup_new self target cfg initial) f (lc_max_rounds cfg)) w =
    (Returned (Ok (n', l)), w') ->
  let results := top_k_results l in
  (exists log, lookup_run n w log n' w' /\
     length log <= lc_max_rounds cfg * lc_max_recv_per_round cfg /\
     let candidates := initial ++ (log ≫= ld_peers) in
     (forall p, p ∈ results -> p ∈ candidates /\ p.1 <> self) /\
     (forall p, p ∈ candidates -> p.1 <> self -> in_or_farther (lc_k cfg) target results p)) /\
  length results <= lc_k cfg /\ StronglySorted (fun p q => far p < far q)%N results /\
  (forall p, p ∈ initial -> in_or_farther (lc_k cfg) target results p) /\
  costs (lc_max_rounds cfg * lc_max_recv_per_round cfg)
    (lc_max_rounds cfg * (lc_alpha cfg + lc_max_recv_per_round cfg * (1 + ld_draws))) w w' /\
  ld_keeps n n'.
Proof.
  intros initial far Hself Hd results. pose proof (lookup_new_ok self target cfg initial) as Hl0.
  destruct (drive_post _ _ _ _ Hl0 _ _ _ Hd) as [Hk Hr]. cbn [fst snd] in Hk, Hr.
  pose proof (drive_cost _ _ _ _ Hl0 _ _ _ Hd) as Hc. cbn [lk_config lookup_new] in Hc.
  destruct (drive_run _ _ _ _ _ _ _ _ _ Hl0 (made_of_new self target cfg initial) Hd)
    as (log & Hrun & Hm & Hlen). cbn [lk_config lookup_new] in Hlen.
  destruct (lookup_reaches_facts _ _ Hl0 Hr) as (Hlok & E1 & E2 & E3 & He).
  cbn [lookup_new lk_self_id lk_target lk_config] in E1, E2, E3.
  destruct (made_of_results l _ Hlok Hm) as [Hfrom Hall]. rewrite E1, ?E2, ?E3 in *.
  pose proof (top_k_sorted l Hlok) as Hs. rewrite E2 in Hs. split_and!; try done.
  - by exists log.
  - unfold results, top_k_results. rewrite length_fmap, length_take, E3. lia.
  - intros p Hp. apply Hall; [apply elem_of_app; by left|by apply Hself].
Qed.

(** The nearest candidate is being dialed already: the lookup fails. *)
Lemma ld_lookup_stuck n self target cfg f w t id a rest :
  table_ok t -> closest_to t target (lc_k cfg) = (id, a) :: rest -> id <> self ->
  is_established (ld_host n) a = false -> is_Some (host_handshakes (ld_host n) !! a) ->
  0 < lc_alpha cfg -> 0 < lc_max_rounds cfg ->
  exists w', io_run (ld_drive n (lookup_new self target cfg (closest_to t target (lc_k cfg))) f
      (lc_max_rounds cfg)) w =
    (Returned (Err (HostState
       ("dial: address " ++ udp_addr_display a ++ " already known to host")%string)), w') /\
    w_sent w' = w_sent w.
Proof.
  intros Hok Hc Hself He Hh Halpha Hrounds. rewrite Hc.
  assert (Hk : 0 < lc_k cfg).
  { pose proof (length_closest_to t target (lc_k cfg)) as Hlen. rewrite Hc in Hlen. cbn in Hlen. lia. }
  destruct (pick_first self target cfg id a rest Hk Halpha Hself
    (closest_to_head_far _ _ _ _ _ _ Hok Hc)) as [ps Hp].
  set (l := lookup_new self target cfg ((id, a) :: rest)) in *.
  destruct (lc_max_rounds cfg) as [|rounds]; [lia|]. cbn [ld_drive].
  assert (Hdone : is_done l = false).
  { apply not_true_is_false. intros Hd. apply is_done_iff in Hd; [by rewrite Hp in Hd|done|done]. }
  rewrite Hdone, Hp, run_bind_eq.
  destruct (run_ld_round_actions n f ((id, a) :: ps) w) as (actions & w1 & Hra & Hsent).
  rewrite Hra. cbn [run_bind].
  destruct (round_actions_dial n f id a ps w actions w1 He Hra) as (s & acts & ->).
  cbn [foldl]. rewrite run_bind_eq.
  rewrite (send_chain_Err _ acts _ _ (HostState
    ("dial: address " ++ udp_addr_display a ++ " already known to host")%string) w1).
  - by exists w1.
  - unfold ld_send_action. rewrite run_bind_eq, run_pure. cbn [run_bind snd]. by apply ld_dial_known.
Qed.

End nearest.

