(* ===== verification/KadMesh.v ===== *)
(** * The shortlist of a lookup among peers that answer

    A lookup that only meets peers which answer its queries and complete its
    dials, as its shortlist sees it: [running] is what holds between two
    datagrams, with the queries and dials still open and the addresses asked
    so far; [settled], that there is nobody left to ask. *)

From S2P Require Export HostFlight LookupDriver.

(** ** The shortlist *)

Section shortlist.
Context (self target : NodeId) (cfg : LookupConfig) (bs : list UdpAddr)
  (nid : UdpAddr -> NodeId) (answer : UdpAddr -> list Peer).

(** A peer under its own name. *)
Definition named (p : Peer) : Prop := p.2 ∈ bs /\ p.1 = nid p.2.

(** What is on its way for an entry: a query or a dial with its answer still to
    come, or nothing. *)
Definition on_its_way (e : LookupEntry) (qs ds : list Peer) (asked : gset UdpAddr) : Prop :=
  match le_status e with
  | Unqueried => le_addr e ∉ asked
  | Dialing => le_addr e ∉ asked /\ (le_node_id e, le_addr e) ∈ ds
  | InFlight => le_addr e ∈ asked /\ (le_node_id e, le_addr e) ∈ qs
  | Done => le_addr e ∈ asked
  | Skipped => False
  end.

Record running (l : Lookup) (qs ds : list Peer) (asked : gset UdpAddr) : Prop := Running {
  run_ok : lookup_ok l;
  run_frame : lk_self_id l = self /\ lk_target l = target /\ lk_config l = cfg;
  run_queries a id : lk_pending_queries l !! a = Some id <-> (id, a) ∈ qs;
  run_dials a id : lk_pending_dials l !! a = Some id <-> (id, a) ∈ ds;
  run_entries d e : lk_entries l !! d = Some e -> named (le_node_id e, le_addr e) /\ on_its_way e qs ds asked;
  run_asked b : b ∈ asked -> exists e, lk_entries l !! distance (nid b) target = Some e /\ le_addr e = b;
  run_answers d e p : lk_entries l !! d = Some e -> le_status e = Done ->
    p ∈ answer (le_addr e) -> p.1 <> self -> is_Some (lk_entries l !! distance p.1 target)
}.

Lemma running_new init :
  (forall p, p ∈ init -> p.1 = self \/ named p) -> running (lookup_new self target cfg init) [] [] ∅.
Proof.
  intros Hin. split; [apply lookup_new_ok|done|..].
  1-2: intros a id; cbn; rewrite lookup_empty; split; [done|]; by intros ?%elem_of_nil.
  - intros d e (Hs & _ & Hne & Hp)%lookup_new_entry. unfold on_its_way. rewrite Hs. split; [|set_solver].
    by destruct (Hin _ Hp).
  - set_solver.
  - intros d e p (Hs & _)%lookup_new_entry Hd. congruence.
Qed.

(** Only the sets of what is on its way matter. *)
Lemma running_ext l qs ds qs' ds' asked :
  (forall p, p ∈ qs <-> p ∈ qs') -> (forall p, p ∈ ds <-> p ∈ ds') ->
  running l qs ds asked -> running l qs' ds' asked.
Proof.
  intros Hqs Hds [H1 H2 H3 H4 H5 H6 H7]. split; try done.
  - intros a id. by rewrite H3, Hqs.
  - intros a id. by rewrite H4, Hds.
  - intros d e He. destruct (H5 d e He) as [Hn Hw]. split; [done|]. unfold on_its_way in *.
    destruct (le_status e); try done; by rewrite <- ?Hqs, <- ?Hds.
Qed.

(** An entry is known by its address. *)
Lemma running_entry l qs ds asked d e :
  running l qs ds asked -> lk_entries l !! d = Some e ->
  d = distance (nid (le_addr e)) target /\ le_node_id e = nid (le_addr e) /\ le_addr e ∈ bs.
Proof.
  intros Hr He. destruct (run_entries _ _ _ _ Hr _ _ He) as [[Hb Hn] _]. cbn in Hb, Hn.
  pose proof (lok_key _ (run_ok _ _ _ _ Hr) _ _ He) as Hk.
  destruct (run_frame _ _ _ _ Hr) as (_ & Ht & _). rewrite Hn, Ht in Hk. done.
Qed.

(** An open query is for an entry in flight, an open dial for one dialing. *)
Lemma running_query l qs ds asked id b :
  running l qs ds asked -> (id, b) ∈ qs ->
  lk_entries l !! distance id target = Some (MkLookupEntry id b InFlight).
Proof.
  intros Hr Hin. apply (run_queries _ _ _ _ Hr), (lok_queries _ (run_ok _ _ _ _ Hr)) in Hin.
  destruct (run_frame _ _ _ _ Hr) as (_ & Ht & _). by rewrite Ht in Hin.
Qed.

Lemma running_dial l qs ds asked id b :
  running l qs ds asked -> (id, b) ∈ ds ->
  lk_entries l !! distance id target = Some (MkLookupEntry id b Dialing).
Proof.
  intros Hr Hin. apply (run_dials _ _ _ _ Hr), (lok_dials _ (run_ok _ _ _ _ Hr)) in Hin.
  destruct (run_frame _ _ _ _ Hr) as (_ & Ht & _). by rewrite Ht in Hin.
Qed.

(** The status of the entry at [id] changes: what remains to be shown of it. *)
Lemma running_alter l l' qs ds qs' ds' asked asked' id b st st' :
  running l qs ds asked -> step_facts l l' ->
  lk_entries l !! distance id target = Some (MkLookupEntry id b st) ->
  lk_entries l' = alter (set_status st') (distance id target) (lk_entries l) -> st' <> Done ->
  (forall a i, lk_pending_queries l' !! a = Some i <-> (i, a) ∈ qs') ->
  (forall a i, lk_pending_dials l' !! a = Some i <-> (i, a) ∈ ds') ->
  on_its_way (MkLookupEntry id b st') qs' ds' asked' ->
  (forall p, p ∈ qs -> p.2 <> b -> p ∈ qs') -> (forall p, p ∈ ds -> p.2 <> b -> p ∈ ds') ->
  (forall x, x <> b -> (x ∈ asked' <-> x ∈ asked)) ->
  running l' qs' ds' asked'.
Proof.
  intros Hr [Hok' (F1 & F2 & F3) _] Hid El Hst Hq' Hd' Hway Hqs Hds Hask.
  pose proof (run_frame _ _ _ _ Hr) as (Hs & Ht & Hc). split; [done| |done|done|..].
  - by rewrite F1, F2, F3.
  - intros d e. rewrite El. intros [(-> & e0 & He0 & ->)|[Hne Hde]]%alter_status_lookup.
    + rewrite Hid in He0. injection He0 as <-. cbn. split; [|done].
      by destruct (run_entries _ _ _ _ Hr _ _ Hid).
    + destruct (run_entries _ _ _ _ Hr _ _ Hde) as [Hn Hw]. split; [done|].
      assert (Hb : le_addr e <> b).
      { intros Hb. destruct (running_entry _ _ _ _ _ _ Hr Hde) as (-> & _ & _).
        destruct (running_entry _ _ _ _ _ _ Hr Hid) as (Heq & _ & _). cbn in Heq. by rewrite Hb, Heq in Hne. }
      unfold on_its_way in *. destruct (le_status e); rewrite ?Hask by done; try done;
        destruct Hw; (split; [done|]); [by apply Hds|by apply Hqs].
  - intros x Hx. rewrite El. destruct (decide (x = b)) as [->|Hne].
    + destruct (running_entry _ _ _ _ _ _ Hr Hid) as (Heq & _ & _). cbn in Heq.
      rewrite <- Heq, lookup_alter_eq, Hid. by eexists.
    + apply Hask in Hx as Hx'; [|done]. destruct (run_asked _ _ _ _ Hr _ Hx') as (e & He & Ha).
      destruct (decide (distance (nid x) target = distance id target)) as [Heq|Hned].
      * rewrite Heq, Hid in He. injection He as <-. by destruct Hne.
      * exists e. by rewrite lookup_alter_ne.
  - intros d e p. rewrite El. intros [(-> & e0 & He0 & ->)|[Hne Hde]]%alter_status_lookup Hst' Hp Hps; [done|].
    apply lookup_alter_is_Some. by eapply (run_answers _ _ _ _ Hr).
Qed.

(** No action is open for an entry that is not queried. *)
Lemma running_free l qs ds asked id b p :
  running l qs ds asked -> lk_entries l !! distance id target = Some (MkLookupEntry id b Unqueried) ->
  p ∈ qs \/ p ∈ ds -> p.2 <> b.
Proof.
  intros Hr Hid Hp Hb. destruct (running_entry _ _ _ _ _ _ Hr Hid) as (Hk & _ & _). cbn in Hk. destruct p as [i a].
  cbn in Hb. subst a. destruct Hp as [Hp|Hp]; [eapply running_query in Hp as He|eapply running_dial in Hp as He];
    try done; destruct (running_entry _ _ _ _ _ _ Hr He) as (Hk' & _ & _); cbn in Hk'; congruence.
Qed.

Lemma running_mark l qs ds asked id b :
  running l qs ds asked -> lk_entries l !! distance id target = Some (MkLookupEntry id b Unqueried) ->
  running (mark_in_flight l id b) (qs ++ [(id, b)]) ds ({[b]} ∪ asked).
Proof.
  intros Hr Hid. pose proof (run_frame _ _ _ _ Hr) as (Hs & Ht & Hc).
  assert (Hfree := fun p => running_free _ _ _ _ _ _ p Hr Hid).
  eapply (running_alter l _ qs ds _ _ asked _ id b Unqueried InFlight); [done| |done|..].
  - apply mark_in_flight_facts; [apply Hr|]. by rewrite Ht.
  - destruct l. cbn in *. by subst.
  - done.
  - intros a i. pose proof (run_queries _ _ _ _ Hr) as Hq. destruct l; cbn in *.
    rewrite lookup_insert_Some, Hq, elem_of_app, list_elem_of_singleton.
    split; [naive_solver|]. intros [Hin|[= -> ->]]; [|by left]. right. split; [|done].
    intros Hab. apply (Hfree (i, a)); auto.
  - intros a i. pose proof (run_dials _ _ _ _ Hr) as Hd. by destruct l.
  - cbn. split; [set_solver|]. apply elem_of_app. right. apply list_elem_of_here.
  - intros p Hp _. apply elem_of_app. by left.
  - done.
  - set_solver.
Qed.

Lemma running_mark_dial l qs ds asked id b :
  running l qs ds asked -> lk_entries l !! distance id target = Some (MkLookupEntry id b Unqueried) ->
  running (mark_dialing l id b) qs (ds ++ [(id, b)]) asked.
Proof.
  intros Hr Hid. pose proof (run_frame _ _ _ _ Hr) as (Hs & Ht & Hc).
  assert (Hfree := fun p => running_free _ _ _ _ _ _ p Hr Hid).
  eapply (running_alter l _ qs ds _ _ asked _ id b Unqueried Dialing); [done| |done|..].
  - apply mark_dialing_facts; [apply Hr|]. by rewrite Ht.
  - destruct l. cbn in *. by subst.
  - done.
  - intros a i. pose proof (run_queries _ _ _ _ Hr) as Hq. by destruct l.
  - intros a i. pose proof (run_dials _ _ _ _ Hr) as Hd. destruct l; cbn in *.
    rewrite lookup_insert_Some, Hd, elem_of_app, list_elem_of_singleton.
    split; [naive_solver|]. intros [Hin|[= -> ->]]; [|by left]. right. split; [|done].
    intros Hab. apply (Hfree (i, a)); auto.
  - destruct (run_entries _ _ _ _ Hr _ _ Hid) as [_ Hw]. cbn in *. split; [done|].
    apply elem_of_app. right. apply list_elem_of_here.
  - done.
  - intros p Hp _. apply elem_of_app. by left.
  - done.
Qed.

(** A dial that completes leaves its peer to be queried. *)
Lemma running_complete l qs ds asked id b :
  running l qs ((id, b) :: ds) asked -> b ∉ ds.*2 ->
  is_pending_dial l b = true /\ running (complete_dial l b) qs ds asked.
Proof.
  intros Hr Hni. pose proof (run_frame _ _ _ _ Hr) as (Hs & Ht & Hc).
  pose proof (running_dial _ _ _ _ id b Hr (list_elem_of_here _ _)) as Hid.
  assert (Hpd : lk_pending_dials l !! b = Some id) by (apply (run_dials _ _ _ _ Hr), list_elem_of_here).
  split; [unfold is_pending_dial; apply contains_key_true; by exists id|].
  eapply (running_alter l _ qs _ _ _ asked _ id b Dialing Unqueried); [done| |done|..].
  - apply complete_dial_facts, Hr.
  - destruct l. cbn in *. rewrite Hpd. by subst.
  - done.
  - intros a i. pose proof (run_queries _ _ _ _ Hr) as Hq. by destruct l.
  - intros a i. pose proof (run_dials _ _ _ _ Hr) as Hd. destruct l; cbn in *.
    rewrite lookup_delete_Some, Hd, elem_of_cons. split; [naive_solver|].
    intros Hin. split; [|by right]. intros Hab. apply Hni. apply list_elem_of_fmap. exists (i, a). by rewrite Hab.
  - destruct (run_entries _ _ _ _ Hr _ _ Hid) as [_ Hw]. cbn in *. by destruct Hw.
  - done.
  - intros p [->|Hp]%elem_of_cons Hne; done.
  - done.
Qed.

Lemma running_answer l qs ds asked id b :
  (forall p, p ∈ answer b -> p.1 = self \/ named p) ->
  running l ((id, b) :: qs) ds asked -> b ∉ qs.*2 ->
  running (record_response l b (answer b)).1 qs ds asked.
Proof.
  intros Hgood Hr Hni. pose proof (run_frame _ _ _ _ Hr) as (Hs & Ht & Hc).
  pose proof (running_query _ _ _ _ id b Hr (list_elem_of_here _ _)) as Hid.
  assert (Hpq : lk_pending_queries l !! b = Some id) by (apply (run_queries _ _ _ _ Hr), list_elem_of_here).
  destruct (run_entries _ _ _ _ Hr _ _ Hid) as [_ [Hbask _]]. cbn in Hbask.
  assert (Hfacts : step_facts l (record_response l b (answer b)).1) by (apply record_response_facts, Hr).
  assert (Hkey := fun d e => running_entry _ _ _ _ d e Hr).
  pose proof (sf_ok _ _ Hfacts) as Hok'. clear Hfacts.
  pose proof (run_queries _ _ _ _ Hr) as Hq. pose proof (run_entries _ _ _ _ Hr) as He.
  pose proof (run_asked _ _ _ _ Hr) as Ha. pose proof (run_answers _ _ _ _ Hr) as Hans.
  pose proof (run_dials _ _ _ _ Hr) as Hd. clear Hr.
  destruct l as [self' target' cfg' m pq pd]. cbn in *. subst self' target' cfg'.
  rewrite Hpq in *. cbn in *. set (good := filter (fun e : Peer => e.1 <> self) (answer b)) in *.
  pose proof (merge_keeps target good m) as Hkeep.
  assert (Hnew : forall d e, foldl (merge_peer target) m good !! d = Some e ->
    m !! d = Some e \/ (m !! d = None /\ le_status e = Unqueried /\ d = distance (le_node_id e) target /\
      named (le_node_id e, le_addr e))).
  { intros d e [Hde|(Hn & Hst & Hdd & Hp)]%merge_lookup; [by left|right]. split_and!; [done|done|done|].
    apply list_elem_of_filter in Hp as [Hps Hp]. by destruct (Hgood _ Hp). }
  split; [done|done| |done| | |]; cbn.
  - intros a i. rewrite lookup_delete_Some, Hq, elem_of_cons. split; [naive_solver|].
    intros Hin. split; [|by right]. intros Hab. apply Hni. apply list_elem_of_fmap. exists (i, a). by rewrite Hab.
  - intros d e [(-> & e0 & He0 & ->)|[Hne [Hde|(Hn & Hst & Hdd & Hnm)]%Hnew]]%alter_status_lookup.
    + rewrite (Hkeep _ _ Hid) in He0. injection He0 as <-. cbn. split; [by apply (He _ _ Hid)|done].
    + destruct (He _ _ Hde) as [Hnm Hw]. split; [done|]. unfold on_its_way in *.
      destruct (le_status e); try done. destruct Hw as [Hask Hto]. split; [done|].
      apply elem_of_cons in Hto as [Heq|?]; [|done]. injection Heq as Heq Hb. destruct Hne.
      destruct (Hkey _ _ Hde) as (-> & _ & _), (Hkey _ _ Hid) as (Hk & _ & _). cbn in Hk. congruence.
    + split; [done|]. unfold on_its_way. rewrite Hst. intros Hin. destruct (Ha _ Hin) as (e' & He' & _).
      destruct Hnm as [_ Hnm]. cbn in Hnm. rewrite Hnm in Hdd. rewrite <- Hdd in He'. congruence.
  - intros b' Hin. destruct (Ha _ Hin) as (e & Hde & Hb').
    destruct (decide (distance (nid b') target = distance id target)) as [Heq|Hne].
    + rewrite Heq in Hde |- *. exists (set_status Done e). by rewrite lookup_alter_eq, (Hkeep _ _ Hde).
    + exists e. rewrite lookup_alter_ne by done. by rewrite (Hkeep _ _ Hde).
  - intros d e p [(-> & e0 & He0 & ->)|[Hne Hde]]%alter_status_lookup Hst Hp Hps; apply lookup_alter_is_Some.
    + rewrite (Hkeep _ _ Hid) in He0. injection He0 as <-. cbn in Hp.
      apply merge_known. by apply list_elem_of_filter.
    + apply Hnew in Hde as [Hde|(_ & Hst' & _)]; [|congruence].
      destruct (Hans _ _ _ Hde Hst Hp Hps) as [e' He']. exists e'. by apply Hkeep.
Qed.

(** ** A round's actions *)

Definition queried (acts : list (NodeId * RoundAction)) : list Peer :=
  omap (fun a => match a.2 with ActQuery b => Some (a.1, b) | ActDial _ _ => None end) acts.
Definition dialed (acts : list (NodeId * RoundAction)) : list Peer :=
  omap (fun a => match a.2 with ActQuery _ => None | ActDial b _ => Some (a.1, b) end) acts.

Lemma running_marks acts : forall l qs ds asked,
  running l qs ds asked -> NoDup acts.*1 ->
  (forall id b, (id, b) ∈ action_of <$> acts ->
     lk_entries l !! distance id target = Some (MkLookupEntry id b Unqueried)) ->
  running (foldl mark_action l acts) (qs ++ queried acts) (ds ++ dialed acts)
    (list_to_set (queried acts).*2 ∪ asked).
Proof.
  induction acts as [|[id act] acts IH]; intros l qs ds asked Hr Hnd Hps; cbn [foldl].
  { cbn. rewrite !app_nil_r. by replace (∅ ∪ asked) with asked by set_solver. }
  cbn in Hnd. apply NoDup_cons in Hnd as [Hni Hnd].
  assert (Hrest : forall l', lk_entries l' = alter (set_status match act with ActQuery _ => InFlight | _ => Dialing end)
      (distance id target) (lk_entries l) ->
    forall id' b', (id', b') ∈ action_of <$> acts ->
    lk_entries l' !! distance id' target = Some (MkLookupEntry id' b' Unqueried)).
  { intros l' -> id' b' Hin. rewrite lookup_alter_ne; [apply Hps; by right|]. intros ->%distance_inj_l.
    apply Hni. apply list_elem_of_fmap in Hin as (x & [= -> _] & Hx). by apply list_elem_of_fmap_2. }
  destruct (run_frame _ _ _ _ Hr) as (_ & Ht & _). destruct act as [b|b s].
  - assert (Hid := Hps id b (list_elem_of_here _ _)).
    replace (qs ++ queried ((id, ActQuery b) :: acts)) with ((qs ++ [(id, b)]) ++ queried acts) by (by rewrite <- app_assoc).
    replace (list_to_set (queried ((id, ActQuery b) :: acts)).*2 ∪ asked) with
      (list_to_set (queried acts).*2 ∪ ({[b]} ∪ asked)) by (cbn; set_solver).
    apply IH; [by apply running_mark|done|]. apply Hrest. destruct l. cbn in *. by subst.
  - assert (Hid := Hps id b (list_elem_of_here _ _)).
    replace (ds ++ dialed ((id, ActDial b s) :: acts)) with ((ds ++ [(id, b)]) ++ dialed acts) by (by rewrite <- app_assoc).
    apply IH; [by apply running_mark_dial|done|]. apply Hrest. destruct l. cbn in *. by subst.
Qed.

(** ** Between rounds *)

Lemma running_pending l qs ds asked :
  running l qs ds asked -> has_pending l = negb (bool_decide (qs = []) && bool_decide (ds = [])).
Proof.
  intros Hr. unfold has_pending. rewrite negb_andb.
  assert (H : forall (m : gmap UdpAddr NodeId) (ps : list Peer),
    (forall a id, m !! a = Some id <-> (id, a) ∈ ps) -> bool_decide (m = ∅) = bool_decide (ps = [])).
  { intros m ps Hm. apply bool_decide_ext. split.
    - intros ->. destruct ps as [|[id a] ps]; [done|]. specialize (Hm a id). rewrite lookup_empty in Hm.
      destruct Hm as [_ Hm]. by specialize (Hm (list_elem_of_here _ _)).
    - intros ->. apply map_empty. intros a. apply eq_None_not_Some. intros [id Hid%Hm]. by apply elem_of_nil in Hid. }
  by rewrite (H _ _ (run_queries _ _ _ _ Hr)), (H _ _ (run_dials _ _ _ _ Hr)).
Qed.

Lemma running_skip l asked :
  running l [] [] asked -> skip_pending_dials (skip_pending_queries l) = l.
Proof.
  intros Hr. pose proof (running_pending _ _ _ _ Hr) as Hp. unfold has_pending in Hp.
  apply orb_false_iff in Hp as [Hq%negb_false_iff%bool_decide_eq_true Hd%negb_false_iff%bool_decide_eq_true].
  destruct l. cbn in *. by subst.
Qed.

Lemma running_pick l asked id b :
  running l [] [] asked -> (id, b) ∈ pick_next_alpha l ->
  lk_entries l !! distance id target = Some (MkLookupEntry id b Unqueried) /\
  id = nid b /\ b ∈ bs /\ b ∉ asked.
Proof.
  intros Hr Hp%elem_of_pick; [|apply Hr]. destruct (run_frame _ _ _ _ Hr) as (_ & Ht & _).
  rewrite Ht in Hp. split; [done|]. destruct (run_entries _ _ _ _ Hr _ _ Hp) as [_ Hw].
  by destruct (running_entry _ _ _ _ _ _ Hr Hp) as (_ & ? & ?).
Qed.

(** The lookup has nobody left to ask among the [k] closest. *)
Definition settled (l : Lookup) : Prop :=
  forall e, e ∈ take (lc_k cfg) (lookup_entries l) -> le_status e <> Unqueried.

Lemma settled_done l asked : running l [] [] asked -> is_done l = true -> settled l.
Proof.
  intros Hr Hd e He. destruct (run_frame _ _ _ _ Hr) as (_ & _ & Hc). unfold is_done in Hd.
  apply andb_prop in Hd as [_ Hd]. rewrite Hc, forallb_forall in Hd.
  apply list_elem_of_In in He. apply Hd in He. by apply bool_decide_eq_true in He.
Qed.

Lemma settled_pick l asked :
  running l [] [] asked -> 0 < lc_alpha cfg -> pick_next_alpha l = [] -> settled l.
Proof.
  intros Hr Ha Hp. eapply settled_done; [done|]. destruct (run_frame _ _ _ _ Hr) as (_ & _ & Hc).
  apply is_done_iff; [by rewrite Hc|by rewrite (running_pending _ _ _ _ Hr)|done].
Qed.

Lemma settled_all l asked : running l [] [] asked -> (forall b, b ∈ bs -> b ∈ asked) -> settled l.
Proof.
  intros Hr Hall e He Hs. apply (sublist_subseteq _ _ (sublist_take _ _)) in He.
  apply elem_of_lookup_entries in He; [|apply Hr].
  destruct (running_entry _ _ _ _ _ _ Hr He) as (_ & _ & Hb).
  destruct (run_entries _ _ _ _ Hr _ _ He) as [_ Hw]. unfold on_its_way in Hw. rewrite Hs in Hw. by apply Hw, Hall.
Qed.

(** What a settled lookup returns: peers that were asked, under their own
    names, none of whom named anyone closer that is not returned too. *)
Lemma settled_results l asked p :
  running l [] [] asked -> settled l -> p ∈ top_k_results l ->
  p.2 ∈ asked /\ p.1 = nid p.2 /\
  forall q, q ∈ answer p.2 -> q.1 <> self -> in_or_farther (lc_k cfg) target (top_k_results l) q.
Proof.
  intros Hr Hset (e & -> & He)%list_elem_of_fmap. pose proof (run_ok _ _ _ _ Hr) as Hok.
  destruct (run_frame _ _ _ _ Hr) as (_ & Ht & Hc). rewrite Hc in He. apply Hset in He as Hst.
  apply (sublist_subseteq _ _ (sublist_take _ _)) in He. apply elem_of_lookup_entries in He; [|done].
  destruct (running_entry _ _ _ _ _ _ Hr He) as (_ & Hn & _). cbn [fst snd].
  destruct (run_entries _ _ _ _ Hr _ _ He) as [_ Hw]. unfold on_its_way in Hw.
  assert (Hd : le_status e = Done /\ le_addr e ∈ asked).
  { destruct (le_status e); try done; destruct Hw as [_ Hw]; by apply elem_of_nil in Hw. }
  destruct Hd as [Hd Ha]. split_and!; [done|done|]. intros q Hq Hqs.
  destruct (run_answers _ _ _ _ Hr _ _ _ He Hd Hq Hqs) as [eq Heq].
  assert (Hid : le_node_id eq = q.1).
  { pose proof (lok_key _ Hok _ _ Heq) as Hk. rewrite Ht in Hk. symmetry. by apply distance_inj_l in Hk. }
  rewrite <- Ht at 1. rewrite <- Hc. apply (top_k_in_or_farther l eq); [done| |done].
  apply elem_of_lookup_entries; [done|]. by rewrite Ht, Hid.
Qed.

End shortlist.
