(* ===== verification/KadNet.v ===== *)
(** * Driving a lookup among peers that answer

    The driver of [LookupDriver.v] on a network that delivers in order:
    [takes] is a run with the datagrams it sends and reads, [exchange] one
    datagram with what its receiver made of it, and [answering] what the
    driver needs of its surroundings: a peer it has a session with answers a
    query, any other peer completes a handshake. *)

From S2P Require Export KadMesh.

(** ** Runs that send and receive *)

Abbreviation Sent := (list (SocketAddr * list byte)).
Abbreviation Arriving := (list (result io_error (SocketAddr * list byte))).

(** After [k] calls to the entropy source, [m] returns [a], having sent [out]
    and taken [inn] from the inbox, in any world where that arrives and
    sending works; [k'] calls were made then. *)
Definition takes `{RT : IoRuntime} {E A} (k : nat) (m : Io E A) (out : Sent) (inn : Arriving)
    (k' : nat) (a : A) : Prop :=
  forall w rest, w_calls w = k -> w_send_faults w = [] -> w_inbox w = inn ++ rest ->
  exists w', io_run m w = (Returned (Ok a), w') /\ w_inbox w' = rest /\ w_send_faults w' = [] /\
    w_sent w' = w_sent w ++ out /\ w_calls w' = k'.

Section takes.
Context `{RT : IoRuntime, !IoLaws RT} {E : Type}.

Lemma takes_pure {A} k (a : A) : takes k (io_pure (E:=E) a) [] [] k a.
Proof. intros w rest Hk Hf Hi. exists w. by rewrite run_pure, app_nil_r. Qed.

Lemma takes_bind {A B} (m : Io E A) (c : A -> Io E B) k1 o1 i1 k2 o2 i2 k3 a b :
  takes k1 m o1 i1 k2 a -> takes k2 (c a) o2 i2 k3 b -> takes k1 (m ≫= c) (o1 ++ o2) (i1 ++ i2) k3 b.
Proof.
  intros Hm Hc w rest Hk Hf Hi. rewrite <- app_assoc in Hi.
  destruct (Hm w _ Hk Hf Hi) as (w1 & Hr1 & Hi1 & Hf1 & Hs1 & Hk1).
  destruct (Hc w1 _ Hk1 Hf1 Hi1) as (w2 & Hr2 & Hi2 & Hf2 & Hs2 & Hk2).
  exists w2. rewrite run_bind_eq, Hr1. cbn [run_bind]. split_and!; try done.
  by rewrite Hs2, Hs1, app_assoc.
Qed.

Lemma takes_fmap {A B} (m : Io E A) (f : A -> B) k o i k' a :
  takes k m o i k' a -> takes k (f <$> m) o i k' (f a).
Proof.
  intros Hm w rest Hk Hf Hi. destruct (Hm w _ Hk Hf Hi) as (w1 & Hr1 & H1).
  exists w1. by rewrite run_fmap_eq, Hr1.
Qed.

Lemma takes_seed {A} (f : SeedFactory) (c : arr 32 -> Io E A) k o i k' a :
  takes (S k) (c (f k)) o i k' a -> takes k (s ← next_seed f; c s) o i k' a.
Proof.
  intros Hc w rest Hk Hf Hi. rewrite run_bind_eq. unfold next_seed. rewrite run_suspend. cbn [call_seed run_bind].
  rewrite Hk. by apply (Hc (MkWorld (w_bind w) (w_inbox w) (w_send_faults w) (w_sent w) (S k)) rest).
Qed.

Lemma takes_foldl {A B} (f : A -> B -> Io E A) b l a a1 r k1 o1 i1 k2 o2 i2 k3 :
  takes k1 (f a b) o1 i1 k2 a1 ->
  takes k2 (foldl (fun acc b => a ← acc; f a b) (io_pure a1) l) o2 i2 k3 r ->
  takes k1 (foldl (fun acc b => a ← acc; f a b) (io_pure a) (b :: l)) (o1 ++ o2) (i1 ++ i2) k3 r.
Proof.
  intros H1 H2 w rest Hk Hf Hi. rewrite <- app_assoc in Hi.
  destruct (H1 w _ Hk Hf Hi) as (w1 & Hr1 & Hi1 & Hf1 & Hs1 & Hk1).
  destruct (H2 w1 _ Hk1 Hf1 Hi1) as (w2 & Hr2 & Hi2 & Hf2 & Hs2 & Hk2).
  exists w2. cbn [foldl]. rewrite run_foldl, run_bind_eq, run_pure. cbn [run_bind]. rewrite Hr1.
  cbn [run_bind]. split_and!; try done. by rewrite Hs2, Hs1, app_assoc.
Qed.

End takes.

(** ** Exchanges *)

(** A datagram to a peer, what the peer sent back, and the event it saw. *)
Record exchange (X : Type) : Type := MkExchange {
  ex_to : UdpAddr;
  ex_sent : list byte;
  ex_reply : option (list byte);
  ex_event : X
}.
Arguments MkExchange {X}.
Arguments ex_to {X}.
Arguments ex_sent {X}.
Arguments ex_reply {X}.
Arguments ex_event {X}.

(** What is to come from a peer: the answer to a query, or a step of a
    handshake. *)
Inductive due : Type := DueAnswer | DueChallenge | DueMsg2.
Notation coming := (UdpAddr * due * list byte)%type.

Definition due_weight (x : coming) : nat := match x.1.2 with DueChallenge => 2 | _ => 1 end.
Definition weight (q : list coming) : nat := foldr (fun x n => due_weight x + n) 0 q.

Definition arrivals (q : list coming) : Arriving := (fun x => Ok (socket_of_udp x.1.1, x.2)) <$> q.

Section logs.
Context {X : Type}.
Implicit Types log : list (exchange X).

Definition questions log : Sent := (fun x => (socket_of_udp (ex_to x), ex_sent x)) <$> log.
Definition replies log : Arriving :=
  omap (fun x => (fun d => Ok (socket_of_udp (ex_to x), d)) <$> ex_reply x) log.
(** The exchanges with one peer. *)
Definition log_at (b : UdpAddr) log : list (exchange X) := filter (fun x => ex_to x = b) log.

Lemma questions_app l1 l2 : questions (l1 ++ l2) = questions l1 ++ questions l2.
Proof. apply fmap_app. Qed.
Lemma replies_app l1 l2 : replies (l1 ++ l2) = replies l1 ++ replies l2.
Proof. apply omap_app. Qed.
Lemma log_at_app b l1 l2 : log_at b (l1 ++ l2) = log_at b l1 ++ log_at b l2.
Proof. apply filter_app. Qed.
Lemma log_at_all b log : (forall x, x ∈ log -> ex_to x = b) -> log_at b log = log.
Proof.
  induction log as [|x log IH]; intros Hb; [done|]. unfold log_at.
  rewrite filter_cons_True by (apply Hb, list_elem_of_here). f_equal. apply IH. intros y Hy. apply Hb. by right.
Qed.
Lemma log_at_none b log : (forall x, x ∈ log -> ex_to x <> b) -> log_at b log = [].
Proof.
  induction log as [|x log IH]; intros Hb; [done|]. unfold log_at.
  rewrite filter_cons_False by (apply Hb, list_elem_of_here). apply IH. intros y Hy. apply Hb. by right.
Qed.

End logs.

Lemma arrivals_app q1 q2 : arrivals (q1 ++ q2) = arrivals q1 ++ arrivals q2.
Proof. apply fmap_app. Qed.
Lemma weight_cons x q : weight (x :: q) = due_weight x + weight q.
Proof. done. Qed.
Lemma weight_app q1 q2 : weight (q1 ++ q2) = weight q1 + weight q2.
Proof. induction q1 as [|x q1 IH]; [done|]. cbn [app]. rewrite !weight_cons. lia. Qed.

(** ** The driver among its peers *)

Section converse.
Context `{C : Crypto, RT : IoRuntime, !IoLaws RT} {Nd Ev : Type} `{D : !LookupDriver Nd Ev}.
Context (self target : NodeId) (cfg : LookupConfig) (bs : list UdpAddr)
  (nid : UdpAddr -> NodeId) (answer : UdpAddr -> list Peer).
Context {X : Type}
  (among : Nd -> list coming -> gset UdpAddr -> gset UdpAddr -> list (exchange X) -> Prop).

(** What the driver needs of a node [among] its peers, with [q] on its way to
    it, [asked] the peers queried, [met] those dialed or connected before, and
    [log] what was exchanged. *)
Record answering : Prop := Answering {
  an_nodup n q asked met log : among n q asked met log -> NoDup q.*1.*1;
  an_established n asked met log b :
    among n [] asked met log -> b ∈ bs -> b ∉ asked -> is_established (ld_host n) b = bool_decide (b ∈ met);
  an_query n q asked met log b :
    among n q asked met log -> b ∈ bs -> b ∈ met -> b ∉ asked -> b ∉ q.*1.*1 ->
    exists n' x d, ex_to x = b /\ ex_reply x = Some d /\
      (forall k, takes k (ld_find_node n b target) [(socket_of_udp b, ex_sent x)] [] k n') /\
      among n' (q ++ [(b, DueAnswer, d)]) ({[b]} ∪ asked) met (log ++ [x]);
  an_dial n q asked met log b s :
    among n q asked met log -> b ∈ bs -> b ∉ met ->
    exists n' x d, ex_to x = b /\ ex_reply x = Some d /\
      (forall k, takes k (ld_dial n b s) [(socket_of_udp b, ex_sent x)] [] k n') /\
      among n' (q ++ [(b, DueChallenge, d)]) asked ({[b]} ∪ met) (log ++ [x]);
  an_answer n b d q asked met log :
    among n ((b, DueAnswer, d) :: q) asked met log ->
    exists n' ev, (forall s k, takes k (ld_recv n s) [] [Ok (socket_of_udp b, d)] k (n', ev)) /\
      (forall l, ld_observe l ev = (record_response l b (answer b)).1) /\ among n' q asked met log;
  an_challenge n b d q asked met log :
    among n ((b, DueChallenge, d) :: q) asked met log ->
    exists n' ev x d', ex_to x = b /\ ex_reply x = Some d' /\
      (forall s k, takes k (ld_recv n s) [(socket_of_udp b, ex_sent x)] [Ok (socket_of_udp b, d)] k (n', ev)) /\
      (forall l, ld_observe l ev = l) /\ among n' (q ++ [(b, DueMsg2, d')]) asked met (log ++ [x]);
  an_msg2 n b d q asked met log :
    among n ((b, DueMsg2, d) :: q) asked met log ->
    exists n' ev x, ex_to x = b /\ ex_reply x = None /\
      (forall s k, takes k (ld_recv n s) [(socket_of_udp b, ex_sent x)] [Ok (socket_of_udp b, d)] k (n', ev)) /\
      (forall l, ld_observe l ev = if is_pending_dial l b then complete_dial l b else l) /\
      among n' q asked met (log ++ [x])
}.

Context (Han : answering) (Hans : forall b p, b ∈ bs -> p ∈ answer b -> p.1 = self \/ named bs nid p).
Local Abbreviation running := (running self target cfg bs nid answer).

(** The open queries and dials of what is on its way. *)
Definition awaited (q : list coming) : list Peer :=
  omap (fun x => match x.1.2 with DueAnswer => Some (nid x.1.1, x.1.1) | _ => None end) q.
Definition dialing (q : list coming) : list Peer :=
  omap (fun x => match x.1.2 with DueAnswer => None | _ => Some (nid x.1.1, x.1.1) end) q.

Lemma coming_addr (x : coming) q : x ∈ q -> x.1.1 ∈ q.*1.*1.
Proof. intros Hx. by do 2 apply list_elem_of_fmap_2. Qed.

Lemma awaited_from b q : b ∈ (awaited q).*2 -> b ∈ q.*1.*1.
Proof.
  intros ([i a] & -> & (x & Hin & Hx)%list_elem_of_omap)%list_elem_of_fmap.
  apply coming_addr in Hin. destruct (x.1.2); by simplify_eq.
Qed.

Lemma dialing_from b q : b ∈ (dialing q).*2 -> b ∈ q.*1.*1.
Proof.
  intros ([i a] & -> & (x & Hin & Hx)%list_elem_of_omap)%list_elem_of_fmap.
  apply coming_addr in Hin. destruct (x.1.2); by simplify_eq.
Qed.

Lemma drain_step f n l budget k n1 ev o1 i1 o2 i2 k' r :
  has_pending l = true -> (forall s k, takes k (ld_recv n s) o1 i1 k (n1, ev)) ->
  takes (S k) (ld_drain n1 (ld_observe l ev) f budget) o2 i2 k' r ->
  takes k (ld_drain n l f (S budget)) (o1 ++ o2) (i1 ++ i2) k' r.
Proof.
  intros Hp Hr Hd. cbn [ld_drain]. rewrite Hp. cbn [negb]. apply takes_seed.
  eapply takes_bind; [apply Hr|exact Hd].
Qed.

(** Draining: everything on its way is heard, handshakes included, within a
    budget of their weight. *)
Lemma drain_takes f asked met budget : forall q n l log k,
  running l (awaited q) (dialing q) asked -> among n q asked met log -> weight q <= budget ->
  exists n' l' log' k', takes k (ld_drain n l f budget) (questions log') (arrivals q ++ replies log') k' (n', l') /\
    running l' [] [] asked /\ among n' [] asked met (log ++ log').
Proof.
  induction budget as [|budget IH]; intros [|[[b u] d] q] n l log k Hr Hm Hw.
  - exists n, l, [], k. rewrite (app_nil_r log). split_and!; [apply takes_pure|exact Hr|exact Hm].
  - destruct u; cbn in Hw; lia.
  - exists n, l, [], k. rewrite (app_nil_r log). split_and!; [|exact Hr|exact Hm]. cbn [ld_drain].
    rewrite (running_pending _ _ _ _ _ _ _ _ _ _ Hr). apply takes_pure.
  - assert (Hp : has_pending l = true).
    { rewrite (running_pending _ _ _ _ _ _ _ _ _ _ Hr). apply negb_true_iff, andb_false_iff.
      destruct u; [left|right|right]; by apply bool_decide_eq_false. }
    pose proof (an_nodup Han _ _ _ _ _ Hm) as Hnd. cbn in Hnd.
    apply NoDup_cons in Hnd as [Hni Hnd]. rewrite weight_cons in Hw.
    destruct u; cbn [awaited dialing omap list_omap fst snd] in Hr; cbn [due_weight fst snd] in Hw.
    + destruct (an_answer Han _ _ _ _ _ _ _ Hm) as (n1 & ev & Ht & Hobs & Hm1).
      assert (Hb : b ∈ bs).
      { eapply running_query in Hr as He; [|by apply list_elem_of_here].
        by destruct (running_entry _ _ _ _ _ _ _ _ _ _ _ _ Hr He) as (_ & _ & ?). }
      apply running_answer in Hr; [|by intros p; apply Hans|by intros ?%awaited_from]. rewrite <- Hobs in Hr.
      destruct (IH q n1 _ log (S k) Hr Hm1) as (n' & l' & log' & k' & Hts & Hr' & Hm'); [lia|].
      exists n', l', log', k'. split_and!; [|done|done].
      exact (drain_step f n l budget k n1 ev [] [_] _ _ _ _ Hp Ht Hts).
    + destruct (an_challenge Han _ _ _ _ _ _ _ Hm) as (n1 & ev & x & d' & Hx & Hd' & Ht & Hobs & Hm1).
      assert (Hr1 : running (ld_observe l ev) (awaited (q ++ [(b, DueMsg2, d')]))
        (dialing (q ++ [(b, DueMsg2, d')])) asked).
      { rewrite Hobs. unfold awaited, dialing. rewrite !omap_app. cbn. rewrite app_nil_r.
        eapply running_ext; [| |exact Hr]; [done|]. intros p. rewrite elem_of_cons, elem_of_app, list_elem_of_singleton.
        clear. tauto. }
      destruct (IH _ n1 _ (log ++ [x]) (S k) Hr1 Hm1) as (n' & l' & log' & k' & Hts & Hr' & Hm').
      { rewrite weight_app, weight_cons. cbn [due_weight weight foldr fst snd]. lia. }
      exists n', l', (x :: log'), k'. split_and!; [|done|by rewrite <- app_assoc in Hm'].
      pose proof (drain_step f n l budget k n1 ev [_] [_] _ _ _ _ Hp Ht Hts) as Hgoal.
      rewrite arrivals_app, <- app_assoc in Hgoal. cbn [questions fmap list_fmap]. rewrite Hx.
      cbn [replies omap list_omap]. rewrite Hd', Hx. exact Hgoal.
    + destruct (an_msg2 Han _ _ _ _ _ _ _ Hm) as (n1 & ev & x & Hx & Hd' & Ht & Hobs & Hm1).
      destruct (running_complete _ _ _ _ _ _ _ _ _ _ _ _ Hr) as [Hpd Hr1]; [by intros ?%dialing_from|].
      specialize (Hobs l). rewrite Hpd in Hobs. rewrite <- Hobs in Hr1.
      destruct (IH q n1 _ (log ++ [x]) (S k) Hr1 Hm1) as (n' & l' & log' & k' & Hts & Hr' & Hm'); [lia|].
      exists n', l', (x :: log'), k'. split_and!; [|done|by rewrite <- app_assoc in Hm'].
      pose proof (drain_step f n l budget k n1 ev [_] [_] _ _ _ _ Hp Ht Hts) as Hgoal.
      cbn [questions fmap list_fmap]. rewrite Hx. cbn [replies omap list_omap]. rewrite Hd'. exact Hgoal.
Qed.

(** The actions of a round: a query for a peer met before, a dial for another. *)
Definition apt (met : gset UdpAddr) (a : NodeId * RoundAction) : Prop :=
  match a.2 with ActQuery b => b ∈ met | ActDial b _ => b ∉ met end.

Lemma actions_take f n asked met log ps : forall k,
  among n [] asked met log -> (forall p, p ∈ ps -> p.2 ∈ bs /\ p.2 ∉ asked) ->
  exists acts k', takes k (ld_round_actions n f ps) [] [] k' acts /\ action_of <$> acts = ps /\
    forall a, a ∈ acts -> apt met a.
Proof.
  induction ps as [|[id b] ps IH]; intros k Hm Hps; cbn [ld_round_actions].
  { exists [], k. split_and!; [apply takes_pure|done|]. by intros a ?%elem_of_nil. }
  destruct (Hps (id, b) (list_elem_of_here _ _)) as [Hb Hn]. cbn in Hb, Hn.
  rewrite (an_established Han _ _ _ _ _ Hm Hb Hn).
  assert (Hact : exists act k1, takes (E:=Error) k (if bool_decide (b ∈ met) then io_pure (ActQuery b)
      else seed ← next_seed f; io_pure (ActDial b seed)) [] [] k1 act /\
    action_of (id, act) = (id, b) /\ apt met (id, act)).
  { case_bool_decide as Hmet.
    - exists (ActQuery b), k. split_and!; [apply takes_pure|done|done].
    - exists (ActDial b (f k)), (S k). split_and!; [|done|done]. apply takes_seed, takes_pure. }
  destruct Hact as (act & k1 & Ht & Hof & Hapt).
  destruct (IH k1 Hm) as (acts & k' & Hts & Hofs & Hapts); [intros p Hp; apply Hps; by right|].
  exists ((id, act) :: acts), k'. split_and!.
  - eapply (takes_bind _ _ _ [] [] _ [] []); [exact Ht|]. eapply (takes_bind _ _ _ [] [] _ [] []); [exact Hts|].
    apply takes_pure.
  - cbn. by rewrite Hof, Hofs.
  - by intros a [->|Ha]%elem_of_cons; [|apply Hapts].
Qed.

(** One action: what it sends and what is then on its way. *)
Lemma action_takes n q asked met log id act :
  among n q asked met log -> let b := (action_of (id, act)).2 in
  b ∈ bs -> b ∉ asked -> b ∉ q.*1.*1 -> apt met (id, act) ->
  exists n' x d u, ex_to x = b /\ ex_reply x = Some d /\
    (forall k, takes k (match act with ActQuery addr => ld_find_node n addr target
                        | ActDial addr seed => ld_dial n addr seed end)
       [(socket_of_udp b, ex_sent x)] [] k n') /\
    among n' (q ++ [(b, u, d)]) (list_to_set (queried [(id, act)]).*2 ∪ asked)
      (list_to_set (dialed [(id, act)]).*2 ∪ met) (log ++ [x]) /\
    u = match act with ActQuery _ => DueAnswer | ActDial _ _ => DueChallenge end.
Proof.
  intros Hm b Hb Hn Hq Hapt. destruct act as [addr|addr s]; cbn in *.
  - destruct (an_query Han _ _ _ _ _ addr Hm Hb Hapt Hn Hq) as (n' & x & d & H1 & H2 & H3 & H4).
    exists n', x, d, DueAnswer. split_and!; try done.
    by replace ({[addr]} ∪ ∅ ∪ asked) with ({[addr]} ∪ asked) by set_solver;
      replace (∅ ∪ met) with met by set_solver.
  - destruct (an_dial Han _ _ _ _ _ addr s Hm Hb Hapt) as (n' & x & d & H1 & H2 & H3 & H4).
    exists n', x, d, DueChallenge. split_and!; try done.
    by replace ({[addr]} ∪ ∅ ∪ met) with ({[addr]} ∪ met) by set_solver;
      replace (∅ ∪ asked) with asked by set_solver.
Qed.

Lemma list_to_set_cons_split (acts : list (NodeId * RoundAction)) a (g : list (NodeId * RoundAction) -> list Peer)
    (s : gset UdpAddr) :
  g (a :: acts) = g [a] ++ g acts ->
  list_to_set (g (a :: acts)).*2 ∪ s = list_to_set (g acts).*2 ∪ (list_to_set (g [a]).*2 ∪ s).
Proof. intros ->. rewrite fmap_app, list_to_set_app_L. set_solver. Qed.

Definition named_as (p : Peer) : Peer := (nid p.2, p.2).

Lemma chain_takes acts : forall n q asked met log k,
  among n q asked met log -> NoDup (action_of <$> acts).*2 ->
  (forall a, a ∈ acts -> (action_of a).2 ∈ bs /\ (action_of a).2 ∉ asked /\ (action_of a).2 ∉ q.*1.*1 /\ apt met a) ->
  exists n' log' q', takes k (foldl (ld_send_action target) (io_pure n) acts) (questions log') [] k n' /\
    among n' (q ++ q') (list_to_set (queried acts).*2 ∪ asked) (list_to_set (dialed acts).*2 ∪ met) (log ++ log') /\
    arrivals q' = replies log' /\ awaited q' = named_as <$> queried acts /\ dialing q' = named_as <$> dialed acts /\
    weight q' <= 2 * length acts.
Proof.
  induction acts as [|[id act] acts IH]; intros n q asked met log k Hm Hnd Hacts.
  { exists n, [], []. change (list_to_set (queried []).*2) with (∅ : gset UdpAddr).
    change (list_to_set (dialed []).*2) with (∅ : gset UdpAddr).
    rewrite (app_nil_r q), (app_nil_r log), !(left_id_L ∅ (∪)).
    split_and!; try done. apply takes_pure. }
  destruct (Hacts (id, act) (list_elem_of_here _ _)) as (Hb & Hn & Hq & Hapt).
  cbn [fmap list_fmap] in Hnd. apply NoDup_cons in Hnd as [Hni Hnd].
  destruct (action_takes n q asked met log id act Hm Hb Hn Hq Hapt) as (n1 & x & d & u & Hx & Hd & Ht & Hm1 & Hu).
  set (b := (action_of (id, act)).2) in *.
  assert (Hne : forall a, a ∈ acts -> (action_of a).2 <> b).
  { intros a Ha Heq. apply Hni. rewrite <- Heq. by do 2 apply list_elem_of_fmap_2. }
  destruct (IH n1 _ _ _ _ k Hm1 Hnd) as (n' & log' & q' & Hts & Hm' & Ha & Hq1 & Hq2 & Hw).
  { intros a Ha. destruct (Hacts a ltac:(by right)) as (H1 & H2 & H3 & H4). specialize (Hne a Ha).
    assert (Hact : list_to_set (queried [(id, act)]).*2 ∪ list_to_set (dialed [(id, act)]).*2 ⊆ ({[b]} : gset UdpAddr)).
    { destruct act; cbn; set_solver. }
    split_and!; [done|set_solver|rewrite !fmap_app; set_solver|].
    unfold apt in *. destruct a as [i [c|c s]]; cbn in *; set_solver. }
  exists n', (x :: log'), ((b, u, d) :: q').
  rewrite (list_to_set_cons_split acts (id, act) queried) by (by destruct act).
  rewrite (list_to_set_cons_split acts (id, act) dialed) by (by destruct act).
  rewrite <- !app_assoc in Hm'. split_and!; [|exact Hm'|..].
  - change (questions (x :: log')) with ([(socket_of_udp (ex_to x), ex_sent x)] ++ questions log'). rewrite Hx.
    apply (takes_foldl (fun n a => match a.2 with
      | ActQuery addr => ld_find_node n addr target | ActDial addr seed => ld_dial n addr seed end)
      (id, act) _ n n1 n' k [(socket_of_udp b, ex_sent x)] [] k _ [] k); [apply Ht|exact Hts].
  - cbn [replies omap list_omap arrivals fmap list_fmap]. rewrite Hd, Hx. cbn. by f_equal.
  - subst u. destruct act; cbn; by f_equal.
  - subst u. destruct act; cbn; by f_equal.
  - rewrite weight_cons. subst u. destruct act; cbn; lia.
Qed.

(** [m] asks and dials peers until the lookup has nobody to ask. *)
Definition concludes (m : Io Error (Nd * Lookup)) (k : nat) (log : list (exchange X)) : Prop :=
  exists n' l' log' k' asked' met',
    takes k m (questions log') (replies log') k' (n', l') /\
    running l' [] [] asked' /\ settled cfg l' /\ among n' [] asked' met' (log ++ log').

Lemma concludes_now n l k asked met log :
  running l [] [] asked -> among n [] asked met log -> settled cfg l -> concludes (io_pure (n, l)) k log.
Proof.
  intros Hr Hm Hs. exists n, l, [], k, asked, met. rewrite (app_nil_r log). split_and!; try done. apply takes_pure.
Qed.

Lemma concludes_then (m c : Io Error (Nd * Lookup)) k1 k2 log log1 :
  (forall out inn k' r, takes k2 c out inn k' r -> takes k1 m (questions log1 ++ out) (replies log1 ++ inn) k' r) ->
  concludes c k2 (log ++ log1) -> concludes m k1 log.
Proof.
  intros Ht (n' & l' & log' & k' & asked' & met' & Ht' & Hr & Hs & Hm).
  exists n', l', (log1 ++ log'), k', asked', met'. rewrite questions_app, replies_app.
  split_and!; [by apply Ht|done|done|by rewrite <- app_assoc in Hm].
Qed.

(** A round: everybody picked is dialed or queried, and heard. *)
Lemma round_takes f n l asked met log k budget :
  running l [] [] asked -> among n [] asked met log -> 2 * lc_alpha cfg <= budget ->
  exists acts k1 n1 l1 log1 n2 l2 log2 k2,
    action_of <$> acts = pick_next_alpha l /\ (forall a, a ∈ acts -> apt met a) /\
    takes k (ld_round_actions n f (pick_next_alpha l)) [] [] k1 acts /\
    l1 = foldl mark_action l acts /\ lk_target l1 = target /\ lk_config l1 = cfg /\
    takes k1 (foldl (ld_send_action target) (io_pure n) acts) (questions log1) [] k1 n1 /\
    takes k1 (ld_drain n1 l1 f budget) (questions log2) (replies log1 ++ replies log2) k2 (n2, l2) /\
    let asked' := list_to_set (queried acts).*2 ∪ asked in
    let met' := list_to_set (dialed acts).*2 ∪ met in
    running l2 [] [] asked' /\ among n2 [] asked' met' (log ++ log1 ++ log2).
Proof.
  intros Hr Hm Hbud. pose proof (run_ok _ _ _ _ _ _ _ _ _ _ Hr) as Hok.
  set (ps := pick_next_alpha l).
  assert (Hps : forall p, p ∈ ps -> named_as p = p /\ p.2 ∈ bs /\ p.2 ∉ asked).
  { intros [id b] Hp. destruct (running_pick _ _ _ _ _ _ _ _ _ _ Hr Hp) as (_ & -> & ?). done. }
  destruct (actions_take f n asked met log ps k Hm) as (acts & k1 & T1 & Hofs & Hapt);
    [intros p Hp; by apply Hps|].
  assert (Hsub : forall p, p ∈ queried acts \/ p ∈ dialed acts -> p ∈ ps).
  { rewrite <- Hofs. intros p [(a & Ha & Hp)%list_elem_of_omap|(a & Ha & Hp)%list_elem_of_omap];
      apply list_elem_of_fmap; exists a; destruct a as [i [c|c s]]; cbn in *; by simplify_eq. }
  assert (Hnamed : forall qs : list Peer, (forall p, p ∈ qs -> p ∈ ps) -> named_as <$> qs = qs).
  { intros qs Hqs. etransitivity; [|apply list_fmap_id]. apply list_fmap_ext.
    intros i p Hp%list_elem_of_lookup_2. by apply Hps, Hqs. }
  assert (Hnd1 : NoDup (action_of <$> acts).*1) by (rewrite Hofs; by apply pick_NoDup).
  assert (Hnd2 : NoDup (action_of <$> acts).*2).
  { apply (NoDup_fmap_1 nid). rewrite Hofs, <- list_fmap_compose in *. erewrite list_fmap_ext; [exact Hnd1|].
    intros i p Hp%list_elem_of_lookup_2%Hps. destruct Hp as [Hp _]. cbn. by rewrite <- Hp at 2. }
  destruct (chain_takes acts n [] asked met log k1 Hm Hnd2) as (n1 & log1 & q & T2 & Hm1 & Ha & Hq1 & Hq2 & Hw).
  { intros a Hin. assert (Hp : action_of a ∈ ps) by (rewrite <- Hofs; by apply list_elem_of_fmap_2).
    split_and!; [by apply Hps..|by intros ?%elem_of_nil|by apply Hapt]. }
  rewrite Hnamed in Hq1, Hq2 by (intros p Hp; apply Hsub; auto).
  rewrite <- list_fmap_compose in Hnd1.
  assert (Hr1 := running_marks self target cfg bs nid answer acts l [] [] asked Hr Hnd1
    (fun id b Hp => proj1 (running_pick _ _ _ _ _ _ _ _ _ _ Hr (eq_rect _ (fun ps => (id, b) ∈ ps) Hp _ Hofs)))).
  destruct (run_frame _ _ _ _ _ _ _ _ _ _ Hr1) as (_ & Ht & Hc).
  destruct (drain_takes f _ _ budget q n1 _ _ k1 ltac:(rewrite Hq1, Hq2; exact Hr1) Hm1)
    as (n2 & l2 & log2 & k2 & T3 & Hr2 & Hm2).
  { pose proof (length_pick l) as Hlen. destruct (run_frame _ _ _ _ _ _ _ _ _ _ Hr) as (_ & _ & Hc0).
    fold ps in Hlen. rewrite Hc0, <- Hofs, length_fmap in Hlen. lia. }
  rewrite Ha in T3. rewrite <- app_assoc in Hm2.
  exists acts, k1, n1, (foldl mark_action l acts), log1, n2, l2, log2, k2. by split_and!.
Qed.

(** Who is picked is dialed or asked: fewer are left. *)
Lemma round_progress acts a asked met :
  a ∈ acts -> (action_of a).2 ∈ bs -> (action_of a).2 ∉ asked -> apt met a ->
  let left s := size (list_to_set (C:=gset UdpAddr) bs ∖ s) in
  left (list_to_set (queried acts).*2 ∪ asked) + left (list_to_set (dialed acts).*2 ∪ met) < left asked + left met.
Proof.
  intros Hin Hb Hn Hapt left.
  assert (Hle : forall x s, left (x ∪ s) <= left s) by (intros x s; unfold left; apply subseteq_size; set_solver).
  assert (Hlt : forall c x s, c ∈ bs -> c ∈ x -> c ∉ s -> left (x ∪ s) < left s).
  { intros c x s Hc Hx Hs. unfold left. apply subset_size. split; [set_solver|]. intros Hsub. specialize (Hsub c). set_solver. }
  destruct a as [i [c|c s]]; cbn in Hb, Hn, Hapt.
  - pose proof (Hle (list_to_set (dialed acts).*2) met).
    pose proof (Hlt c (list_to_set (queried acts).*2) asked Hb) as H2.
    apply Nat.add_lt_le_mono; [apply H2; [|done]|done]. apply elem_of_list_to_set, list_elem_of_fmap.
    exists (i, c). split; [done|]. apply list_elem_of_omap. by eexists.
  - pose proof (Hle (list_to_set (queried acts).*2) asked).
    pose proof (Hlt c (list_to_set (dialed acts).*2) met Hb) as H2.
    apply Nat.add_le_lt_mono; [done|apply H2; [|done]]. apply elem_of_list_to_set, list_elem_of_fmap.
    exists (i, c). split; [done|]. apply list_elem_of_omap. by eexists.
Qed.

(** The rounds: one for each peer left to dial and one for each left to ask
    leave the lookup settled. *)
Lemma drive_takes f rounds : forall n l asked met log k,
  running l [] [] asked -> among n [] asked met log ->
  0 < lc_alpha cfg -> 2 * lc_alpha cfg <= lc_max_recv_per_round cfg ->
  size (list_to_set (C:=gset UdpAddr) bs ∖ asked) + size (list_to_set (C:=gset UdpAddr) bs ∖ met) <= rounds ->
  concludes (ld_drive n l f rounds) k log.
Proof.
  induction rounds as [|rounds IH]; intros n l asked met log k Hr Hm Ha Hbud Hsz; cbn [ld_drive].
  - eapply concludes_now; [done|done|]. eapply settled_all; [exact Hr|]. intros b Hb.
    assert (Hz : size (list_to_set (C:=gset UdpAddr) bs ∖ asked) = 0) by lia. apply size_empty_inv in Hz. set_solver.
  - destruct (is_done l) eqn:Ed; [eapply concludes_now; [done|done|by eapply settled_done]|].
    destruct (pick_next_alpha l) as [|p0 ps0] eqn:Ep;
      [eapply concludes_now; [done|done|by eapply settled_pick]|]. rewrite <- Ep.
    destruct (round_takes f n l asked met log k (lc_max_recv_per_round cfg) Hr Hm Hbud) as
      (acts & k1 & n1 & l1 & log1 & n2 & l2 & log2 & k2 & Hofs & Hapt & T1 & El1 & Ht1 & Hc1 & T2 & T3 & Hr2 & Hm2).
    apply (concludes_then _ (ld_drive n2 l2 f rounds) k k2 log (log1 ++ log2)).
    + intros out inn k' r Hk. rewrite questions_app, replies_app, <- !app_assoc.
      eapply (takes_bind _ _ _ [] [] _ (questions log1 ++ questions log2 ++ out)
        (replies log1 ++ replies log2 ++ inn) _ _ _ T1). rewrite <- El1, Ht1, Hc1.
      eapply (takes_bind _ _ _ (questions log1) [] _ (questions log2 ++ out) (replies log1 ++ replies log2 ++ inn)
        _ _ _ T2).
      rewrite app_assoc. eapply (takes_bind _ _ _ (questions log2) (replies log1 ++ replies log2) _ out inn _ _ _ T3).
      cbv beta iota zeta. rewrite (running_skip _ _ _ _ _ _ _ _ Hr2). exact Hk.
    + eapply IH; [exact Hr2|exact Hm2|done|done|].
      assert (Hp0 : p0 ∈ action_of <$> acts) by (rewrite Hofs, Ep; apply list_elem_of_here).
      apply list_elem_of_fmap in Hp0 as (a & -> & Hin).
      assert (Hbn : (action_of a).2 ∈ bs /\ (action_of a).2 ∉ asked).
      { assert (Hp : action_of a ∈ pick_next_alpha l) by (rewrite <- Hofs; by apply list_elem_of_fmap_2).
        destruct (action_of a). by destruct (running_pick _ _ _ _ _ _ _ _ _ _ Hr Hp) as (_ & _ & ?). }
      pose proof (round_progress acts a asked met Hin (proj1 Hbn) (proj2 Hbn) (Hapt a Hin)) as Hlt.
      cbv zeta in Hlt. lia.
Qed.

End converse.

Lemma size_list_to_set_le (l : list UdpAddr) : size (list_to_set (C:=gset UdpAddr) l) <= length l.
Proof.
  induction l as [|x l IH]; [done|]. cbn [list_to_set length].
  rewrite size_union_alt, size_singleton.
  pose proof (subseteq_size (list_to_set l ∖ {[x]}) (list_to_set (C:=gset UdpAddr) l) ltac:(set_solver)). lia.
Qed.

Section converges.
Context `{C : Crypto, RT : IoRuntime, !IoLaws RT} {Nd Ev : Type} `{D : !LookupDriver Nd Ev, DL : !LookupDriverLaws}.
Context (self target : NodeId) (cfg : LookupConfig) (bs : list UdpAddr)
  (nid : UdpAddr -> NodeId) (answer : UdpAddr -> list Peer).
Context {X : Type}
  (among : Nd -> list coming -> gset UdpAddr -> gset UdpAddr -> list (exchange X) -> Prop).

(** A whole lookup: what it returns, and what was exchanged for it. *)
Lemma ld_converges n initial f met k :
  answering target bs answer among -> among n [] ∅ met [] ->
  (forall b p, b ∈ bs -> p ∈ answer b -> p.1 = self \/ named bs nid p) ->
  (forall p, p ∈ initial -> p.1 <> self /\ named bs nid p) ->
  0 < lc_alpha cfg -> 2 * lc_alpha cfg <= lc_max_recv_per_round cfg -> 2 * length bs <= lc_max_rounds cfg ->
  exists n' l log k' asked met',
    takes k (ld_drive n (lookup_new self target cfg initial) f (lc_max_rounds cfg))
      (questions log) (replies log) k' (n', l) /\
    among n' [] asked met' log /\
    (forall p, p ∈ initial -> in_or_farther (lc_k cfg) target (top_k_results l) p) /\
    forall p, p ∈ top_k_results l -> p.2 ∈ asked /\ p.1 = nid p.2 /\
      forall q, q ∈ answer p.2 -> q.1 <> self -> in_or_farther (lc_k cfg) target (top_k_results l) q.
Proof.
  intros Han Hm Hgood Hinit Ha Hbud Hlen.
  destruct (drive_takes self target cfg bs nid answer among Han Hgood f (lc_max_rounds cfg)
    n (lookup_new self target cfg initial) ∅ met [] k) as (n' & l & log & k' & asked & met' & Ht & Hr & Hs & Hm').
  - apply running_new. intros p Hp. right. by apply Hinit.
  - done.
  - done.
  - done.
  - pose proof (size_list_to_set_le bs).
    pose proof (subseteq_size (list_to_set bs ∖ ∅) (list_to_set (C:=gset UdpAddr) bs) ltac:(set_solver)).
    pose proof (subseteq_size (list_to_set bs ∖ met) (list_to_set (C:=gset UdpAddr) bs) ltac:(set_solver)). lia.
  - exists n', l, log, k', asked, met'. split_and!; [exact Ht|exact Hm'|..].
    + destruct (Ht (MkWorld (fun a => Ok (MkSocket (Ok a))) (replies log) [] [] k) [] eq_refl eq_refl)
        as (w' & Hrun & _); [by rewrite app_nil_r|].
      destruct (drive_post _ _ _ _ (lookup_new_ok _ _ _ _) _ _ _ Hrun) as [_ Hreach].
      intros p Hp. destruct (Hinit p Hp) as [Hs' _].
      destruct (lookup_initial_known _ _ _ _ _ _ Hreach Hp Hs') as (e & He & Hid).
      destruct (run_frame _ _ _ _ _ _ _ _ _ _ Hr) as (_ & Ht' & Hc). rewrite <- Ht' at 1. rewrite <- Hc.
      eapply top_k_in_or_farther; [apply Hr|done|done].
    + intros p Hp. exact (settled_results _ _ _ _ _ _ _ _ _ Hr Hs Hp).
Qed.

End converges.
