(* ===== verification/KadPeers.v ===== *)
(** * A node among its peers

    [MeshNode] is what the Kademlia node and the multi-protocol node have in
    common: a host and a routing table, and how a datagram at the host
    becomes an event of the node.  Among such nodes a lookup finds what
    [KadNet.v] needs ([mesh_answering]): peers with a session answer, the
    others shake hands first. *)

From S2P Require Export KadNet.

(** ** The nodes *)

Class MeshNode `{C : Crypto, RT : IoRuntime} (Nd Ev : Type) : Type := {
  mn_driver :: LookupDriver Nd Ev;
  mn_opts : Type;
  mn_default : mn_opts;
  mn_recv : mn_opts -> Nd -> arr 32 -> Io Error (Nd * Ev);
  mn_table : Nd -> RoutingTable;
  mn_with : Nd -> Host -> RoutingTable -> Nd;
  (** How a Kademlia frame travels. *)
  mn_wrap : list byte -> list byte;
  mn_progress : UdpAddr -> Ev;
  mn_complete : UdpAddr -> StaticPublicKey -> PeerId -> Ev;
  mn_answer : UdpAddr -> list Peer -> Ev;
  mn_asked : UdpAddr -> NodeId -> nat -> Ev
}.

(** An effect that sends one datagram and returns. *)
Definition transmits `{RT : IoRuntime} {A} (m : Io Error A) (to : UdpAddr) (d : list byte) (x : A) : Prop :=
  forall w, send_fault w = None -> io_run m w = (Returned (Ok x), world_sent w to d).

(** A node takes a datagram: its next state, its event, its reply. *)
Definition node_receives `{C : Crypto, RT : IoRuntime} {Nd Ev} `{M : !MeshNode Nd Ev} (n : Nd) (s : arr 32)
    (from : UdpAddr) (d : list byte) (n' : Nd) (ev : Ev) (reply : option (list byte)) : Prop :=
  forall o w inbox, w_inbox w = Ok (socket_of_udp from, d) :: inbox -> send_fault w = None ->
    io_run (mn_recv o n s) w = (Returned (Ok (n', ev)), world_reply (world_received w) from reply).

Class MeshNodeLaws `{C : Crypto, RT : IoRuntime} {Nd Ev} `{M : !MeshNode Nd Ev} : Prop := {
  ml_host n h t : ld_host (mn_with n h t) = h;
  ml_table n h t : mn_table (mn_with n h t) = t;
  ml_default n s : ld_recv n s = mn_recv mn_default n s;
  ml_wrap p : length (mn_wrap p) <= 1 + length p;
  ml_dial n b s d h' : sends (dial (ld_host n) b s) b d h' ->
    transmits (ld_dial n b s) b d (mn_with n h' (mn_table n));
  ml_query n b target p d h' :
    kad_encode (FindNodeReq target) = Ok p -> sends (host_send (ld_host n) b (mn_wrap p)) b d h' ->
    transmits (ld_find_node n b target) b d (mn_with n h' (mn_table n));
  ml_progress n s from d h' r :
    receives (ld_host n) s from d h' (HandshakeProgress from) r ->
    node_receives n s from d (mn_with n h' (mn_table n)) (mn_progress from) r;
  ml_complete n s from d h' key pid r :
    receives (ld_host n) s from d h' (HandshakeComplete from key pid) r ->
    node_receives n s from d (mn_with n h' (table_insert (mn_table n) (from_peer_id pid) from).1)
      (mn_complete from key pid) r;
  ml_answer n s from d h' p ps :
    receives (ld_host n) s from d h' (DatagramDelivered from (mn_wrap p)) None ->
    kad_decode p = Ok (FindNodeResp ps) ->
    node_receives n s from d (mn_with n h' (foldl learn_advertised (learn_sender h' (mn_table n) from) ps))
      (mn_answer from ps) None;
  ml_asked n s from d h1 h2 p target p' d' :
    receives (ld_host n) s from d h1 (DatagramDelivered from (mn_wrap p)) None ->
    kad_decode p = Ok (FindNodeReq target) ->
    let t := learn_sender h1 (mn_table n) from in
    let ps := closest_to t target (table_k t) in
    kad_encode (FindNodeResp ps) = Ok p' -> sends (host_send h1 from (mn_wrap p')) from d' h2 ->
    node_receives n s from d (mn_with n h2 t) (mn_asked from target (length ps)) (Some d');
  ml_observe_progress l from : ld_observe l (mn_progress from) = l;
  ml_observe_complete l from key pid :
    ld_observe l (mn_complete from key pid) = if is_pending_dial l from then complete_dial l from else l;
  ml_observe_answer l from ps : ld_observe l (mn_answer from ps) = (record_response l from ps).1
}.

(** ** What a peer tells *)

Section told.
Context `{C : Crypto, RT : IoRuntime, !IoLaws RT}.

(** The table from which a responder with host [h] and table [t] answers an
    asker at [a]: it has learnt the asker, under the PeerId of their session,
    or [pid] if the handshake is still to come. *)
Definition told_table (h : Host) (t : RoutingTable) (a : UdpAddr) (pid : PeerId) : RoutingTable :=
  (table_insert t (from_peer_id (default pid (remote_peer_id_of h a))) a).1.

(** The peers it names, as the wire carries them. *)
Definition told (h : Host) (t : RoutingTable) (a : UdpAddr) (pid : PeerId) (target : NodeId) : list Peer :=
  let t := told_table h t a pid in wire_peer <$> closest_to t target (table_k t).

Lemma told_table_k h t a pid : table_k (told_table h t a pid) = table_k t.
Proof. apply table_insert_k. Qed.

Lemma told_session h t a pid0 pid :
  remote_peer_id_of h a = Some pid -> learn_sender h t a = told_table h t a pid0.
Proof. intros Hp. unfold learn_sender, told_table. by rewrite Hp. Qed.

Lemma told_dialed h h' t a pid :
  remote_peer_id_of h a = None -> remote_peer_id_of h' a = Some pid ->
  learn_sender h' (table_insert t (from_peer_id pid) a).1 a = told_table h t a pid.
Proof. intros Hn Hp. unfold learn_sender, told_table. rewrite Hn, Hp. apply table_insert_again. Qed.

(** The question and the answer on the wire. *)
Lemma question_frame target :
  exists p, kad_encode (FindNodeReq target) = Ok p /\ length p <= 1 + NODE_ID_LEN /\
    kad_decode p = Ok (FindNodeReq target).
Proof.
  eexists. split_and!; [done| |exact (kad_decode_encode (FindNodeReq target) _ eq_refl)].
  by rewrite length_app, length_arr.
Qed.

Lemma answer_frame t target :
  table_k t <= MAX_PEERS_PER_RESP ->
  let ps := closest_to t target (table_k t) in
  exists p, kad_encode (FindNodeResp ps) = Ok p /\ length p <= 2 + ENTRY_V6_LEN * table_k t /\
    kad_decode p = Ok (FindNodeResp (wire_peer <$> ps)).
Proof.
  intros Hk ps. pose proof (length_closest_to t target (table_k t)) as Hlen.
  pose proof (encode_resp_eq ps) as He. unfold ps in *.
  destruct (Nat.leb_spec (length (closest_to t target (table_k t))) MAX_PEERS_PER_RESP) as [_|Hgt]; [|lia].
  eexists. split_and!; [exact He| |exact (kad_decode_encode (FindNodeResp _) _ He)].
  pose proof (length_entries (closest_to t target (table_k t))) as Hel.
  rewrite length_app. cbn [length]. nia.
Qed.

End told.

(** ** Room on the wire *)

(** For a [FIND_NODE] request and for its answer, wrapped or not. *)
Definition room_for_request (h : Host) : Prop :=
  (N.of_nat (2 + NODE_ID_LEN + TRANSPORT_OVERHEAD) <= max_send_payload (host_socket h))%N.
Definition room_for_reply (h : Host) (t : RoutingTable) : Prop :=
  table_k t <= MAX_PEERS_PER_RESP /\
  (N.of_nat (3 + ENTRY_V6_LEN * table_k t + TRANSPORT_OVERHEAD) <= max_send_payload (host_socket h))%N.

(** ** The runs of a peer *)

Section serves.
Context `{C : Crypto, RT : IoRuntime, M : !MeshNode Nd Ev}.

(** [n] takes the datagrams of [log] from [a] one after the other, with the
    events and the replies recorded there. *)
Inductive serves (s : arr 32) (a : UdpAddr) (n : Nd) : list (exchange Ev) -> Nd -> Prop :=
| serves_nil : serves s a n [] n
| serves_snoc log n1 x n2 :
    serves s a n log n1 -> node_receives n1 s a (ex_sent x) n2 (ex_event x) (ex_reply x) ->
    serves s a n (log ++ [x]) n2.

Lemma serves_nil_inv s a n n' : serves s a n [] n' -> n' = n.
Proof. inversion 1 as [|log n1 x n2 _ _ Heq]; [done|]. by apply app_nil in Heq as [_ ?]. Qed.

End serves.

(** ** The mesh *)

Section mesh.
Context `{C : Crypto, RT : IoRuntime, !IoLaws RT, !CryptoLaws C, M : !MeshNode Nd Ev, ML : !MeshNodeLaws}.
Context (h0 : Host) (a : UdpAddr) (bs : list UdpAddr) (peer : UdpAddr -> Nd) (seed : UdpAddr -> arr 32)
  (target : NodeId).

(** The peer at [b] can be dialed. *)
Record dialable (b : UdpAddr) : Prop := Dialable {
  dl_unknown : unknown_to (ld_host (peer b)) a;
  dl_identity : identity_ok (host_identity (ld_host (peer b)));
  dl_socket : socket_ok (host_socket (ld_host (peer b)));
  dl_buf_to : (max_send_payload (host_socket h0) <= recv_buf_size (host_socket (ld_host (peer b))))%N;
  dl_buf_from : (max_send_payload (host_socket (ld_host (peer b))) <= recv_buf_size (host_socket h0))%N
}.

Context (Hid : identity_ok (host_identity h0)) (Hsock : socket_ok (host_socket h0)).
Context (Hask : room_for_request h0).
Context (Hroom : forall b, b ∈ bs -> room_for_reply (ld_host (peer b)) (mn_table (peer b))).

Definition peer_table (b : UdpAddr) : RoutingTable :=
  told_table (ld_host (peer b)) (mn_table (peer b)) a (id_peer_id (host_identity h0)).
Definition peer_told (b : UdpAddr) : list Peer :=
  told (ld_host (peer b)) (mn_table (peer b)) a (id_peer_id (host_identity h0)) target.
Definition answers_with (b : UdpAddr) (p : list byte) : Prop :=
  kad_encode (FindNodeResp (closest_to (peer_table b) target (table_k (peer_table b)))) = Ok p /\
  kad_decode p = Ok (FindNodeResp (peer_told b)).

(** Where the exchange with a peer stands. *)
Inductive standing : Type :=
| Fresh
| Ready
| Due (u : due) (d : list byte)
| Heard.

(** It is what the lookup makes of the peer. *)
Definition agrees (b : UdpAddr) (st : standing) (q : list coming) (asked met : gset UdpAddr) : Prop :=
  match st with
  | Fresh => b ∉ met /\ b ∉ asked /\ b ∉ q.*1.*1
  | Ready => b ∈ met /\ b ∉ asked /\ b ∉ q.*1.*1
  | Due u d => b ∈ met /\ (b, u, d) ∈ q /\ (b ∈ asked <-> u = DueAnswer)
  | Heard => b ∈ met /\ b ∈ asked /\ b ∉ q.*1.*1
  end.

(** The datagrams a peer gets before it is asked. *)
Definition handshake_len (b : UdpAddr) : nat := if is_established h0 b then 0 else 3.

Definition answered (b : UdpAddr) (log : list (exchange Ev)) : Prop :=
  exists d r k, MkExchange b d (Some r) (mn_asked a target k) ∈ log.

(** The peer at [b], now [g], and the asker's host [h]. *)
Definition stands (h : Host) (b : UdpAddr) (st : standing) (log : list (exchange Ev)) (g : Nd) : Prop :=
  match st with
  | Fresh => length log = 0 /\ handshake_len b = 3 /\ dialable b /\ unknown_to h b
  | Due DueChallenge d =>
      length log = 1 /\ handshake_len b = 3 /\ dialable b /\ mn_table g = mn_table (peer b) /\
      unknown_to (ld_host g) a /\
      exists s m1, dialing_to h b s m1 /\ d = challenge (id_cookie_secret (host_identity (ld_host g))) a m1
  | Due DueMsg2 d =>
      length log = 2 /\ handshake_len b = 3 /\ dialable b /\ mn_table g = mn_table (peer b) /\
      exists s m1, dialing_to h b s m1 /\ responding_to (ld_host g) a (seed b) m1 d
  | Ready =>
      length log = handshake_len b /\ learn_sender (ld_host g) (mn_table g) a = peer_table b /\
      linked h a (ld_host g) b 2
  | Due DueAnswer d =>
      length log = S (handshake_len b) /\ answered b log /\
      exists p, answers_with b p /\ arriving_at (ld_host g) b h a [(d, mn_wrap p)] 0
  | Heard => length log = S (handshake_len b) /\ answered b log
  end.

Definition at_peer (h : Host) (b : UdpAddr) (st : standing) (log : list (exchange Ev)) : Prop :=
  exists g, serves (seed b) a (peer b) log g /\ host_frame (ld_host (peer b)) (ld_host g) /\ stands h b st log g.

Record mesh (n : Nd) (q : list coming) (asked met : gset UdpAddr) (log : list (exchange Ev)) : Prop := Mesh {
  ms_frame : host_frame h0 (ld_host n);
  ms_room : has_room (ld_host n) bs;
  ms_nodup : NoDup q.*1.*1;
  ms_peers x : x ∈ q -> x.1.1 ∈ bs;
  ms_asked b : b ∈ asked -> b ∈ bs;
  ms_log x : x ∈ log -> ex_to x ∈ bs;
  ms_at b : b ∈ bs -> exists st, agrees b st q asked met /\ at_peer (ld_host n) b st (log_at b log)
}.

(** ** What is elsewhere stays *)

Lemma stands_elsewhere h h' x b st log g :
  elsewhere x h h' -> b <> x -> stands h b st log g -> stands h' b st log g.
Proof.
  intros [Hf Hx] Hne. destruct (Hx b Hne) as [E1 E2].
  assert (Hdial : forall s m1, dialing_to h b s m1 -> dialing_to h' b s m1).
  { intros s m1 (ae & la & Hw & Hh & He). exists ae, la. destruct Hf as (_ & -> & _). by rewrite E1, E2. }
  destruct st as [| |[] d|]; cbn [stands].
  - unfold unknown_to. by rewrite E1, E2.
  - intros (H1 & H2 & H3). split_and!; [done|done|]. by apply (linked_frame h).
  - intros (H1 & H2 & p & H3 & H4). split_and!; [done|done|]. exists p. split; [done|].
    by apply (arriving_at_frame _ _ h).
  - intros (H1 & H2 & H3 & H4 & H5 & s & m1 & H6 & H7). split_and!; try done. exists s, m1. auto.
  - intros (H1 & H2 & H3 & H4 & s & m1 & H5 & H6). split_and!; try done. exists s, m1. auto.
  - done.
Qed.

Lemma host_frame_trans h1 h2 h3 : host_frame h1 h2 -> host_frame h2 h3 -> host_frame h1 h3.
Proof. intros (F1 & F2 & F3) (G1 & G2 & G3). unfold host_frame. split_and!; congruence. Qed.

Lemma agrees_other b x st q q' asked asked' met met' :
  b <> x -> (forall y : coming, y.1.1 <> x -> (y ∈ q <-> y ∈ q')) ->
  (forall y, y <> x -> (y ∈ asked <-> y ∈ asked')) -> (forall y, y <> x -> (y ∈ met <-> y ∈ met')) ->
  agrees b st q asked met -> agrees b st q' asked' met'.
Proof.
  intros Hne Hq Ha Hm. assert (Hb : b ∈ q.*1.*1 <-> b ∈ q'.*1.*1).
  { rewrite !list_elem_of_fmap. setoid_rewrite list_elem_of_fmap.
    split; intros (? & -> & y & -> & Hy); (eexists; split; [done|]); exists y; (split; [done|]); by apply Hq. }
  unfold agrees. destruct st as [| |u d|]; rewrite <- ?Hb, <- ?(Hm b), <- ?(Ha b) by done; try done.
  intros (H1 & H2 & H3). split_and!; [done| |done]. by apply (Hq (b, u, d)).
Qed.

(** A step with one peer: what is to be shown of it, and of it alone. *)
Lemma mesh_step n n' q q' asked asked' met met' log new b st :
  mesh n q asked met log -> b ∈ bs -> elsewhere b (ld_host n) (ld_host n') -> has_room (ld_host n') bs ->
  NoDup q'.*1.*1 -> (forall y : coming, y.1.1 <> b -> (y ∈ q <-> y ∈ q')) ->
  (forall y, y <> b -> (y ∈ asked <-> y ∈ asked')) -> (forall y, y <> b -> (y ∈ met <-> y ∈ met')) ->
  (forall x, x ∈ new -> ex_to x = b) -> agrees b st q' asked' met' ->
  at_peer (ld_host n') b st (log_at b log ++ new) -> mesh n' q' asked' met' (log ++ new).
Proof.
  intros [Hf _ _ Hpeers Hasked Hlog Hat] Hb Hel Hroom' Hnd Hq Ha Hm Hnew Hag Hatb.
  split; [apply (host_frame_trans _ (ld_host n)); [done|apply Hel]|done|done| | | |].
  - intros x Hx. destruct (decide (x.1.1 = b)) as [->|Hne]; [done|]. by apply Hpeers, Hq.
  - intros y Hy. destruct (decide (y = b)) as [->|Hne]; [done|]. by apply Hasked, Ha.
  - intros x [Hx|Hx]%elem_of_app; [by apply Hlog|by rewrite (Hnew x Hx)].
  - intros b' Hb'. rewrite log_at_app. destruct (decide (b' = b)) as [->|Hne].
    + exists st. split; [done|]. by rewrite (log_at_all b new).
    + destruct (Hat b' Hb') as (st' & Hag' & g & Hs & Hgf & Hst). exists st'. split; [by eapply agrees_other|].
      rewrite (log_at_none b' new) by (intros x Hx ?; specialize (Hnew x Hx); congruence).
      rewrite app_nil_r. exists g. split_and!; [done|done|]. by eapply stands_elsewhere.
Qed.

(** ** The steps of the lookup *)

Lemma takes_transmits {A} (m : Io Error A) to d x k :
  transmits m to d x -> takes k m [(socket_of_udp to, d)] [] k x.
Proof.
  intros Hm w rest <- Hf Hi. assert (Hs : send_fault w = None) by (unfold send_fault; by rewrite Hf).
  exists (world_sent w to d). split_and!; [by apply Hm|done| |done|done]. cbn. by rewrite Hf.
Qed.

Lemma takes_receives n s from d n' ev r k :
  node_receives n s from d n' ev r ->
  takes k (ld_recv n s) (default [] ((fun r => [(socket_of_udp from, r)]) <$> r)) [Ok (socket_of_udp from, d)] k (n', ev).
Proof.
  intros Hn w rest <- Hf Hi. assert (Hs : send_fault w = None) by (unfold send_fault; by rewrite Hf).
  rewrite ml_default. rewrite (Hn _ w rest Hi Hs). eexists. split; [done|].
  destruct r as [r|]; cbn; rewrite ?Hi, ?Hf, ?app_nil_r; done.
Qed.

Lemma at_most_one_due b u d (q : list coming) st asked met :
  NoDup ((b, u, d) :: q).*1.*1 -> agrees b st ((b, u, d) :: q) asked met ->
  st = Due u d /\ b ∈ met /\ b ∉ q.*1.*1 /\ (b ∈ asked <-> u = DueAnswer).
Proof.
  cbn. intros [Hni Hnd]%NoDup_cons Hag. destruct st as [| |u' d'|]; cbn in Hag.
  - destruct Hag as (_ & _ & [? _]%not_elem_of_cons). done.
  - destruct Hag as (_ & _ & [? _]%not_elem_of_cons). done.
  - destruct Hag as (Hm & [Heq|Hin]%elem_of_cons & Ha); [by injection Heq as -> ->|]. by apply coming_addr in Hin.
  - destruct Hag as (_ & _ & [? _]%not_elem_of_cons). done.
Qed.

Lemma coming_other b u d (q : list coming) (y : coming) : y.1.1 <> b -> (y ∈ q <-> y ∈ q ++ [(b, u, d)]).
Proof. intros Hy. rewrite elem_of_app, list_elem_of_singleton. split; [auto|]. intros [?| ->]; [done|]. by cbn in Hy. Qed.

Lemma heard_other b u d (q : list coming) (y : coming) : y.1.1 <> b -> (y ∈ (b, u, d) :: q <-> y ∈ q).
Proof. intros Hy. rewrite elem_of_cons. split; [|auto]. intros [->|?]; [|done]. by cbn in Hy. Qed.

Lemma coming_nodup b u d (q : list coming) : NoDup q.*1.*1 -> b ∉ q.*1.*1 -> NoDup (q ++ [(b, u, d)]).*1.*1.
Proof.
  intros Hnd Hb. rewrite !fmap_app. apply NoDup_app. split_and!; [done| |apply NoDup_singleton].
  by intros x Hx ->%list_elem_of_singleton.
Qed.

(** The exchange with one peer goes on: the peer's side of [mesh_step]. *)
Lemma at_peer_step h b log g x g' st :
  serves (seed b) a (peer b) log g -> host_frame (ld_host (peer b)) (ld_host g) ->
  node_receives g (seed b) a (ex_sent x) g' (ex_event x) (ex_reply x) -> host_frame (ld_host g) (ld_host g') ->
  stands h b st (log ++ [x]) g' -> at_peer h b st (log ++ [x]).
Proof.
  intros Hs Hf Hr Hf' Hst. exists g'. split_and!; [by econstructor|by eapply host_frame_trans|done].
Qed.

Lemma mesh_query n q asked met log b :
  mesh n q asked met log -> b ∈ bs -> b ∈ met -> b ∉ asked -> b ∉ q.*1.*1 ->
  exists n' x d, ex_to x = b /\ ex_reply x = Some d /\
    (forall k, takes k (ld_find_node n b target) [(socket_of_udp b, ex_sent x)] [] k n') /\
    mesh n' (q ++ [(b, DueAnswer, d)]) ({[b]} ∪ asked) met (log ++ [x]).
Proof.
  intros Hm Hb Hmet Hn Hq. destruct (ms_at _ _ _ _ _ Hm b Hb) as (st & Hag & g & Hsv & Hgf & Hst).
  destruct st as [| |u d|]; cbn in Hag; try (exfalso; clear -Hag Hn Hq Hmet; naive_solver).
  2:{ destruct Hag as (_ & Hin%coming_addr & _). done. }
  destruct Hst as (Hlen & Hls & Hl).
  destruct (question_frame target) as (p & Hp & Hpl & Hpd).
  assert (Hfit : payload_fits (ld_host n) (mn_wrap p)).
  { pose proof (ml_wrap p) as Hw. apply request_fits; [lia|]. destruct (ms_frame _ _ _ _ _ Hm) as (Hs & _).
    rewrite Hs. unfold room_for_request in Hask. lia. }
  destruct (in_flight_send _ a _ b [] 1 _ (linked_in_flight _ _ _ _ _ Hl) Hfit) as (h' & d & Hsend & Hfly & Hat).
  destruct (arriving_at_recv _ a _ b d (mn_wrap p) [] 1 (in_flight_arrives _ _ _ _ _ _ _ Hfly (arrives_all _)))
    as (g1 & Hr & Harr & Hat1).
  destruct (Hroom b Hb) as [Hk Hmax].
  destruct (answer_frame (peer_table b) target) as (p' & Hp' & Hpl' & Hpd').
  { unfold peer_table. by rewrite told_table_k. }
  assert (Hfit' : payload_fits g1 (mn_wrap p')).
  { unfold peer_table in Hpl'. rewrite told_table_k in Hpl'. pose proof (ml_wrap p') as Hw.
    eapply reply_fits; [|exact Hk|]; [lia|].
    rewrite (proj1 (oa_frame _ _ _ Hat1)), (proj1 Hgf). lia. }
  destruct (in_flight_send _ b _ a [] 0 _
    (linked_in_flight _ _ _ _ _ (linked_sym _ _ _ _ _ (arriving_at_linked _ _ _ _ _ Harr))) Hfit')
    as (g2 & d' & Hsend' & Hfly' & Hat2).
  assert (Hls1 : learn_sender g1 (mn_table g) a = peer_table b).
  { rewrite <- Hls. apply learn_sender_ext, Hat1. }
  destruct (only_at_room _ _ _ Hat bs (ms_room _ _ _ _ _ Hm) Hb) as [Hel Hroom'].
  set (x := MkExchange b d (Some d') (mn_asked a target (length (closest_to (peer_table b) target (table_k (peer_table b)))))).
  exists (mn_with n h' (mn_table n)), x, d'. split_and!; [done|done| |].
  - intros k. apply takes_transmits, (ml_query _ _ _ _ _ _ Hp). exact Hsend.
  - eapply (mesh_step n _ q _ asked _ met _ log [x] b (Due DueAnswer d') Hm Hb); rewrite ?ml_host; try done.
    + by apply coming_nodup; [apply Hm|].
    + intros y. apply coming_other.
    + set_solver.
    + by intros y ->%list_elem_of_singleton.
    + cbn. set_solver.
    + eapply (at_peer_step _ _ _ g x (mn_with g g2 (peer_table b))); [done|done|..].
      * pose proof (ml_asked g (seed b) a d g1 g2 p target p' d') as Ha. rewrite Hls1 in Ha. cbv zeta in Ha.
        apply Ha; try done. intros w inbox Hw _. by eapply Hr.
      * rewrite ml_host. eapply host_frame_trans; [apply Hat1|apply Hat2].
      * cbn. rewrite length_app, Hlen, ml_host. split_and!; [cbn; lia| |].
        -- exists d, d'. eexists. apply elem_of_app. right. apply list_elem_of_here.
        -- exists p'. split; [done|]. exact (in_flight_arrives _ _ _ _ _ _ _ Hfly' (arrives_all _)).
Qed.

Lemma mesh_dial n q asked met log b s :
  mesh n q asked met log -> b ∈ bs -> b ∉ met ->
  exists n' x d, ex_to x = b /\ ex_reply x = Some d /\
    (forall k, takes k (ld_dial n b s) [(socket_of_udp b, ex_sent x)] [] k n') /\
    mesh n' (q ++ [(b, DueChallenge, d)]) asked ({[b]} ∪ met) (log ++ [x]).
Proof.
  intros Hm Hb Hn. destruct (ms_at _ _ _ _ _ Hm b Hb) as (st & Hag & g & Hsv & Hgf & Hst).
  destruct st as [| |u d|]; cbn in Hag; try (exfalso; clear -Hag Hn; naive_solver).
  destruct Hag as (_ & Hna & Hnq). destruct Hst as (Hlen & Hhs & Hd & Hu).
  apply nil_length_inv in Hlen. rewrite Hlen in Hsv. apply serves_nil_inv in Hsv as ->.
  destruct (dial_step (ld_host n) (ld_host (peer b)) a b s Hu (dl_unknown _ Hd)) as
    (h' & m1 & g' & Hdial & Hrecv & Hdl & Hug & _ & Hgf' & Hroom').
  { by rewrite (proj1 (ms_frame _ _ _ _ _ Hm)). }
  { apply Hd. }
  destruct (Hroom' bs (ms_room _ _ _ _ _ Hm) Hb) as [Hel Hr'].
  set (c := challenge _ _ _) in *. set (x := MkExchange b m1 (Some c) (mn_progress a)).
  exists (mn_with n h' (mn_table n)), x, c. split_and!; [done|done| |].
  - intros k. by apply takes_transmits, ml_dial.
  - eapply (mesh_step n _ q _ asked _ met _ log [x] b (Due DueChallenge c) Hm Hb); rewrite ?ml_host; try done.
    + by apply coming_nodup; [apply Hm|].
    + intros y. apply coming_other.
    + set_solver.
    + by intros y ->%list_elem_of_singleton.
    + cbn. set_solver.
    + eapply (at_peer_step _ _ _ (peer b) x (mn_with (peer b) g' (mn_table (peer b)))); [rewrite Hlen; constructor|done|..].
      * apply ml_progress, Hrecv.
      * by rewrite ml_host.
      * cbn. rewrite Hlen, ml_host, ml_table. split_and!; try done. exists s, m1. split; [done|].
        unfold c. by destruct Hgf' as (_ & -> & _).
Qed.

(** The next datagram on its way. *)
Lemma mesh_due n b u d q asked met log :
  mesh n ((b, u, d) :: q) asked met log ->
  b ∈ bs /\ b ∈ met /\ b ∉ q.*1.*1 /\ NoDup q.*1.*1 /\ (b ∈ asked <-> u = DueAnswer) /\
  exists g, serves (seed b) a (peer b) (log_at b log) g /\ host_frame (ld_host (peer b)) (ld_host g) /\
    stands (ld_host n) b (Due u d) (log_at b log) g.
Proof.
  intros Hm. assert (Hb : b ∈ bs) by apply (ms_peers _ _ _ _ _ Hm (b, u, d) (list_elem_of_here _ _)).
  destruct (ms_at _ _ _ _ _ Hm b Hb) as (st & Hag & g & Hsv & Hgf & Hst).
  pose proof (ms_nodup _ _ _ _ _ Hm) as Hnd.
  destruct (at_most_one_due b u d q st asked met Hnd Hag) as (-> & Hmet & Hnq & Ha).
  cbn in Hnd. apply NoDup_cons in Hnd as [_ Hnd]. split_and!; try done; try apply Ha. by exists g.
Qed.

Lemma mesh_answer n b d q asked met log :
  mesh n ((b, DueAnswer, d) :: q) asked met log ->
  exists n' ev, (forall s k, takes k (ld_recv n s) [] [Ok (socket_of_udp b, d)] k (n', ev)) /\
    (forall l, ld_observe l ev = (record_response l b (peer_told b)).1) /\ mesh n' q asked met log.
Proof.
  intros Hm. destruct (mesh_due _ _ _ _ _ _ _ _ Hm) as (Hb & Hmet & Hnq & Hnd & Ha & g & Hsv & Hgf & Hst).
  destruct Hst as (Hlen & Hans & p & [Hp Hpd] & Har).
  destruct (arriving_at_recv _ b _ a d (mn_wrap p) [] 0 Har) as (h' & Hr & _ & Hat).
  destruct (only_at_room _ _ _ Hat bs (ms_room _ _ _ _ _ Hm) Hb) as [Hel Hroom'].
  eexists _, (mn_answer b (peer_told b)). split_and!.
  - intros s k. eapply (takes_receives _ s b d _ _ None), ml_answer; [|exact Hpd]. intros w inbox Hw _. by eapply Hr.
  - intros l. apply ml_observe_answer.
  - rewrite <- (app_nil_r log).
    eapply (mesh_step n _ _ q asked asked met met log [] b Heard Hm Hb); rewrite ?ml_host; try done.
    + intros y. apply heard_other.
    + by intros y ?%elem_of_nil.
    + cbn. split_and!; [done|by apply Ha|done].
    + rewrite app_nil_r. by exists g.
Qed.

Lemma both_ready n q b' u d asked met log b g :
  mesh n ((b', u, d) :: q) asked met log -> dialable b -> host_frame (ld_host (peer b)) (ld_host g) ->
  identity_ok (host_identity (ld_host n)) /\ identity_ok (host_identity (ld_host g)) /\
  socket_ok (host_socket (ld_host n)) /\ socket_ok (host_socket (ld_host g)).
Proof.
  intros Hm Hd (G1 & G2 & _). destruct (ms_frame _ _ _ _ _ Hm) as (F1 & F2 & _).
  rewrite F1, F2, G1, G2. by split_and!; try apply Hd.
Qed.

Lemma mesh_challenge n b d q asked met log :
  mesh n ((b, DueChallenge, d) :: q) asked met log ->
  exists n' ev x d', ex_to x = b /\ ex_reply x = Some d' /\
    (forall s k, takes k (ld_recv n s) [(socket_of_udp b, ex_sent x)] [Ok (socket_of_udp b, d)] k (n', ev)) /\
    (forall l, ld_observe l ev = l) /\ mesh n' (q ++ [(b, DueMsg2, d')]) asked met (log ++ [x]).
Proof.
  intros Hm. destruct (mesh_due _ _ _ _ _ _ _ _ Hm) as (Hb & Hmet & Hnq & Hnd & Ha & g & Hsv & Hgf & Hst).
  destruct Hst as (Hlen & Hhs & Hd & Htab & Hug & s0 & m1 & Hdl & ->).
  destruct (both_ready n q _ _ _ asked met log b g Hm Hd Hgf) as (I1 & I2 & S1 & S2).
  destruct (challenge_step (ld_host n) (ld_host g) a b s0 (seed b) m1 I1 I2 Hdl Hug S1 S2) as
    (h' & m1c & g' & m2 & Hr & Hrg & Hdl' & Hrs & _ & Hgf' & Hroom').
  destruct (Hroom' bs (ms_room _ _ _ _ _ Hm) Hb) as [Hel Hr'].
  set (x := MkExchange b m1c (Some m2) (mn_progress a)).
  exists (mn_with n h' (mn_table n)), (mn_progress b), x, m2. split_and!; [done|done|..].
  - intros s k. apply (takes_receives _ s b _ _ _ (Some m1c)), ml_progress, Hr.
  - intros l. apply ml_observe_progress.
  - eapply (mesh_step n _ _ (q ++ [(b, DueMsg2, m2)]) asked asked met met log [x] b (Due DueMsg2 m2) Hm Hb);
      rewrite ?ml_host; try done.
    + by apply coming_nodup.
    + intros y Hy. rewrite (heard_other b DueChallenge _ q y Hy). by apply coming_other.
    + by intros y ->%list_elem_of_singleton.
    + cbn. split_and!; [done|set_solver|]. split; [|done]. by intros Hin%Ha.
    + eapply (at_peer_step _ _ _ g x (mn_with g g' (mn_table g))); [done|done|..].
      * by apply ml_progress.
      * by rewrite ml_host.
      * cbn. rewrite length_app, Hlen, ml_host, ml_table. split_and!; try done. by exists s0, m1.
Qed.

Lemma mesh_msg2 n b d q asked met log :
  mesh n ((b, DueMsg2, d) :: q) asked met log ->
  exists n' ev x, ex_to x = b /\ ex_reply x = None /\
    (forall s k, takes k (ld_recv n s) [(socket_of_udp b, ex_sent x)] [Ok (socket_of_udp b, d)] k (n', ev)) /\
    (forall l, ld_observe l ev = if is_pending_dial l b then complete_dial l b else l) /\
    mesh n' q asked met (log ++ [x]).
Proof.
  intros Hm. destruct (mesh_due _ _ _ _ _ _ _ _ Hm) as (Hb & Hmet & Hnq & Hnd & Ha & g & Hsv & Hgf & Hst).
  destruct Hst as (Hlen & Hhs & Hd & Htab & s0 & m1 & Hdl & Hrs).
  destruct (both_ready n q _ _ _ asked met log b g Hm Hd Hgf) as (I1 & I2 & S1 & S2).
  destruct (ms_frame _ _ _ _ _ Hm) as (F1 & F2 & _). pose proof Hgf as (G1 & _).
  destruct (msg2_step (ld_host n) (ld_host g) a b s0 (seed b) m1 d I1 I2 Hdl Hrs S1 S2) as
    (h' & m3 & g' & cA & cB & k1 & k2 & Hr & Hrg & HA & TA & HB & TB & PB & (E1 & _) & Hgf' & Hroom').
  destruct (Hroom' bs (ms_room _ _ _ _ _ Hm) Hb) as [Hel Hr']. rewrite F2 in Hrg, PB.
  set (pid := id_peer_id (host_identity h0)) in *.
  set (x := MkExchange b m3 None (mn_complete a (keypair_public (id_static_keypair (host_identity h0))) pid)).
  eexists _, (mn_complete b _ _), x. split_and!; [done|done|..].
  - intros s k. eapply (takes_receives _ s b _ _ _ (Some m3)), ml_complete, Hr.
  - intros l. apply ml_observe_complete.
  - eapply (mesh_step n _ _ q asked asked met met log [x] b Ready Hm Hb); rewrite ?ml_host; try done.
    + intros y. apply heard_other.
    + by intros y ->%list_elem_of_singleton.
    + cbn. split_and!; [done| |done]. by intros Hin%Ha.
    + eapply (at_peer_step _ _ _ g x); [done|done|apply ml_complete, Hrg|by rewrite ml_host|].
      cbn. rewrite length_app, Hlen, ml_host, ml_table, Htab. split_and!; [done| |].
      * apply told_dialed; [by unfold remote_peer_id_of; rewrite (proj2 (dl_unknown _ Hd))|].
        unfold remote_peer_id_of. rewrite HB. cbn. by rewrite PB.
      * eapply linked_weaken; [eapply (linked_fresh h' a g' b cA cB k1 k2); try done|lia].
        -- destruct Hgf' as (-> & _). rewrite E1, F1, G1. apply Hd.
        -- destruct Hgf' as (-> & _). rewrite E1, F1, G1. apply Hd.
Qed.

Lemma mesh_established n asked met log b :
  mesh n [] asked met log -> b ∈ bs -> b ∉ asked -> is_established (ld_host n) b = bool_decide (b ∈ met).
Proof.
  intros Hm Hb Hn. destruct (ms_at _ _ _ _ _ Hm b Hb) as (st & Hag & g & Hsv & Hgf & Hst).
  destruct st as [| |u d|]; cbn in Hag.
  - rewrite bool_decide_false by apply Hag. apply contains_key_false. apply Hst.
  - rewrite bool_decide_true by apply Hag. eapply linked_established, Hst.
  - by destruct Hag as (_ & ?%elem_of_nil & _).
  - by destruct Hag as (_ & ? & _).
Qed.

(** So the driver has what it needs. *)
Lemma mesh_answering : answering target bs peer_told mesh.
Proof.
  split.
  - intros n q asked met log Hm. apply Hm.
  - exact mesh_established.
  - exact mesh_query.
  - exact mesh_dial.
  - exact mesh_answer.
  - exact mesh_challenge.
  - exact mesh_msg2.
Qed.

(** The lookup starts with the connected peers met. *)
Lemma mesh_start n :
  ld_host n = h0 -> has_room h0 bs ->
  (forall b, b ∈ bs -> linked h0 a (ld_host (peer b)) b 2 \/ unknown_to h0 b /\ dialable b) ->
  mesh n [] ∅ (list_to_set (filter (fun b => is_established h0 b = true) bs)) [].
Proof.
  intros Hh Hr Hstart. split; rewrite ?Hh; [done|done|apply NoDup_nil_2|by intros x ?%elem_of_nil|set_solver|by intros x ?%elem_of_nil|].
  intros b Hb. destruct (Hstart b Hb) as [Hl|[Hu Hd]].
  - assert (He := linked_established _ _ _ _ _ Hl). exists Ready. split.
    { cbn. split_and!; [|set_solver|apply not_elem_of_nil]. apply elem_of_list_to_set, list_elem_of_filter. auto. }
    exists (peer b). split_and!; [constructor|done|]. cbn. unfold handshake_len. rewrite He. split_and!; [done| |done].
    destruct Hl as [(cA & cB & _ & HB & _) _ _]. eapply told_session. unfold remote_peer_id_of. by rewrite HB.
  - assert (He : is_established h0 b = false) by apply contains_key_false, Hu. exists Fresh. split.
    { cbn. split_and!; [|set_solver|apply not_elem_of_nil].
      rewrite elem_of_list_to_set, list_elem_of_filter, He. naive_solver. }
    exists (peer b). split_and!; [constructor|done|]. cbn. unfold handshake_len. by rewrite He.
Qed.

(** When nothing is on its way, who was asked has answered. *)
Lemma mesh_quiet n asked met log b :
  mesh n [] asked met log -> b ∈ bs ->
  (exists g, serves (seed b) a (peer b) (log_at b log) g) /\ length (log_at b log) <= S (handshake_len b) /\
  (b ∈ asked -> answered b (log_at b log)).
Proof.
  intros Hm Hb. destruct (ms_at _ _ _ _ _ Hm b Hb) as (st & Hag & g & Hsv & Hgf & Hst).
  split; [by exists g|]. destruct st as [| |u d|]; cbn in Hag.
  - destruct Hst as (-> & _). split; [lia|]. by intros ?%Hag.
  - destruct Hst as (-> & _). split; [lia|]. by intros ?%Hag.
  - by destruct Hag as (_ & ?%elem_of_nil & _).
  - destruct Hst as (-> & ?). by split; [lia|].
Qed.

Context `{DL : !LookupDriverLaws (D:=mn_driver)}.

(** The lookup among its peers. *)
Lemma mesh_converges n initial (self : NodeId) (nid : UdpAddr -> NodeId) cfg f k :
  ld_host n = h0 -> has_room h0 bs ->
  (forall b, b ∈ bs -> linked h0 a (ld_host (peer b)) b 2 \/ unknown_to h0 b /\ dialable b) ->
  (forall p, p ∈ initial -> p.1 <> self /\ named bs nid p) ->
  (forall b p, b ∈ bs -> p ∈ peer_told b -> p.1 = self \/ named bs nid p) ->
  0 < lc_alpha cfg -> 2 * lc_alpha cfg <= lc_max_recv_per_round cfg -> 2 * length bs <= lc_max_rounds cfg ->
  exists n' l log k',
    takes k (ld_drive n (lookup_new self target cfg initial) f (lc_max_rounds cfg))
      (questions log) (replies log) k' (n', l) /\
    (forall x, x ∈ log -> ex_to x ∈ bs) /\
    (forall b, b ∈ bs -> (exists g, serves (seed b) a (peer b) (log_at b log) g) /\
       length (log_at b log) <= S (handshake_len b)) /\
    (forall p, p ∈ initial -> in_or_farther (lc_k cfg) target (top_k_results l) p) /\
    forall p, p ∈ top_k_results l -> p.2 ∈ bs /\ p.1 = nid p.2 /\ answered p.2 (log_at p.2 log) /\
      forall q, q ∈ peer_told p.2 -> q.1 <> self -> in_or_farther (lc_k cfg) target (top_k_results l) q.
Proof.
  intros Hh Hr Hstart Hinit Htold Ha Hbud Hlen.
  destruct (ld_converges self target cfg bs nid peer_told mesh n initial f _ k mesh_answering
    (mesh_start n Hh Hr Hstart) Htold Hinit Ha Hbud Hlen) as (n' & l & log & k' & asked & met & Ht & Hm & Hk & Hres).
  exists n', l, log, k'. split_and!; [done|apply Hm| |done|].
  - intros b Hb. destruct (mesh_quiet _ _ _ _ _ Hm Hb) as (? & ? & _). done.
  - intros p Hp. destruct (Hres p Hp) as (Hpa & Hid' & Hq).
    assert (Hb : p.2 ∈ bs) by (by eapply (ms_asked _ _ _ _ _ Hm)).
    split_and!; [done|done| |done]. by apply (mesh_quiet _ _ _ _ _ Hm Hb).
Qed.

End mesh.
