(* ===== verification/KadDrive.v ===== *)
(** * Driving a lookup

    Models [run_lookup], [drive_rounds] and [drain_responses] of
    src/crates/libp2p-cat-kad/src/lookup.rs and [KademliaNode::lookup_node]
    of node.rs.  The recursions are on the source's own counters,
    [rounds_left] and [budget].  The caller's [seed_factory] is called where
    the source calls it; the source makes the first round's calls when the
    effect is described and the others when it runs, which the model does
    not distinguish.  The definitions are the generic ones of
    [LookupDriver.v] at the instance [kad_driver] ([drive_rounds_eq]). *)

From S2P Require Export LookupDriver.

Section drive.
Context `{C : Crypto, RT : IoRuntime}.

(** The actions of a round, decided up front. *)
Fixpoint round_actions (node : KademliaNode) (seed_factory : SeedFactory) (to_act : list Peer)
    : Io Error (list (NodeId * RoundAction)) :=
  match to_act with
  | [] => io_pure []
  | (id, addr) :: to_act' =>
      action ←
        (if is_established (kn_host node) addr then io_pure (ActQuery addr)
         else seed ← next_seed seed_factory; io_pure (ActDial addr seed));
      actions ← round_actions node seed_factory to_act';
      io_pure ((id, action) :: actions)
  end.

Definition send_action (target : NodeId) (acc : Io Error KademliaNode) (a : NodeId * RoundAction)
    : Io Error KademliaNode :=
  n ← acc;
  match a.2 with
  | ActQuery addr => find_node n addr target
  | ActDial addr seed => kad_dial n addr seed
  end.

Definition observe_event (lookup : Lookup) (ev : KadEvent) : Lookup :=
  match ev with
  | FindNodeResponseReceived from peers => (record_response lookup from peers).1
  | KadHandshakeComplete addr _ _ _ =>
      if is_pending_dial lookup addr then complete_dial lookup addr else lookup
  | KadHandshakeProgress _ | PingRequestReceived _ | PingResponseReceived _
  | FindNodeRequestReceived _ _ _ | KadRejected _ _ => lookup
  end.

Fixpoint drain_responses (node : KademliaNode) (lookup : Lookup) (seed_factory : SeedFactory)
    (budget : nat) : Io Error (KademliaNode * Lookup) :=
  match budget with
  | 0 => io_pure (node, lookup)
  | S budget' =>
      if negb (has_pending lookup) then io_pure (node, lookup)
      else
        seed ← next_seed seed_factory;
        '(node, ev) ← kad_recv_one node seed;
        drain_responses node (observe_event lookup ev) seed_factory budget'
  end.

Fixpoint drive_rounds (node : KademliaNode) (lookup : Lookup) (seed_factory : SeedFactory)
    (rounds_left : nat) : Io Error (KademliaNode * Lookup) :=
  match rounds_left with
  | 0 => io_pure (node, lookup)
  | S rounds_left' =>
      if is_done lookup then io_pure (node, lookup)
      else
        let to_act := pick_next_alpha lookup in
        match to_act with
        | [] => io_pure (node, lookup)
        | _ =>
            actions ← round_actions node seed_factory to_act;
            let lookup_after_marks := foldl mark_action lookup actions in
            let target := lk_target lookup_after_marks in
            let send_chain := foldl (send_action target) (io_pure node) actions in
            node ← send_chain;
            let budget := lc_max_recv_per_round (lk_config lookup_after_marks) in
            '(node, lookup_after_drain) ←
              drain_responses node lookup_after_marks seed_factory budget;
            let lookup := skip_pending_dials (skip_pending_queries lookup_after_drain) in
            drive_rounds node lookup seed_factory rounds_left'
        end
  end.

Definition run_lookup (node : KademliaNode) (target : NodeId) (config : LookupConfig)
    (seed_factory : SeedFactory) : Io Error (KademliaNode * list Peer) :=
  let self_id := kad_node_id node in
  let initial := closest_to (kn_table node) target (lc_k config) in
  let lookup := lookup_new self_id target config initial in
  (fun '(node, lookup) => (node, top_k_results lookup))
    <$> drive_rounds node lookup seed_factory (lc_max_rounds config).

Definition lookup_node (n : KademliaNode) (target : NodeId) (config : LookupConfig)
    (seed_factory : SeedFactory) : Io Error (KademliaNode * list Peer) :=
  run_lookup n target config seed_factory.

End drive.

(** ** An instance of the generic driver *)

Section instance.
Context `{C : Crypto, RT : IoRuntime}.

(** The peers an event tells the lookup of. *)
Definition kad_names (ev : KadEvent) : list Peer :=
  match ev with FindNodeResponseReceived _ peers => peers | _ => [] end.

#[export] Instance kad_driver : LookupDriver KademliaNode KadEvent := {|
  ld_host := kn_host;
  ld_find_node := find_node;
  ld_dial := kad_dial;
  ld_recv := kad_recv_one;
  ld_observe := observe_event;
  ld_peers := kad_names
|}.

Lemma drive_rounds_eq n l f rounds : drive_rounds n l f rounds = ld_drive n l f rounds.
Proof. reflexivity. Qed.

Context `{!IoLaws RT}.

Lemma observe_reach l ev : lookup_reaches l (observe_event l ev).
Proof.
  destruct ev; cbn [observe_event]; try apply rtc_refl.
  - destruct (is_pending_dial l addr); [|apply rtc_refl]. apply rtc_once, ls_complete.
  - apply rtc_once, ls_response.
Qed.

Lemma observe_names l ev cs :
  lookup_ok l -> made_of l cs -> made_of (observe_event l ev) (cs ++ kad_names ev).
Proof.
  intros Hok Hm. destruct ev; cbn [observe_event kad_names]; rewrite ?app_nil_r; try done.
  - destruct (is_pending_dial l addr); [by apply made_of_complete|done].
  - by apply made_of_response.
Qed.

Lemma kad_dial_cost n a s : io_cost (kad_dial n a s) 0 0.
Proof. destruct n. apply io_cost_fmap, dial_cost. Qed.

Lemma send_frame_cost n a f : io_cost (send_frame n a f) 0 0.
Proof.
  destruct n. apply (io_cost_bind _ _ 0 0 0 0); [apply io_cost_result|]. intros b.
  apply io_cost_fmap, send_cost.
Qed.

Lemma process_cost n a p wrap : io_cost (process_plaintext_with_wrap n a p wrap) 0 0.
Proof.
  destruct n as [h t]. unfold process_plaintext_with_wrap, handle_datagram.
  destruct (kad_decode p) as [f|e]; [|apply io_cost_pure].
  destruct f; cbn [dispatch_frame]; try apply io_cost_pure;
    (apply (io_cost_bind _ _ 0 0 0 0); [apply io_cost_result|]; intros b; apply io_cost_fmap, send_cost).
Qed.

Lemma kad_recv_cost n s : io_cost (kad_recv_one n s) 1 0.
Proof.
  destruct n as [h t]. apply (io_cost_bind _ _ 1 0 0 0); [apply recv_cost|].
  intros [h' ev]. destruct ev as [a|a rs pid|a p|a r]; cbn [handle_host_event]; try apply io_cost_pure.
  - destruct (table_insert t (from_peer_id pid) a). apply io_cost_pure.
  - apply process_cost.
Qed.

Lemma kad_dial_known n a s w :
  is_Some (host_handshakes (kn_host n) !! a) ->
  io_run (kad_dial n a s) w =
    (Returned (Err (HostState
       ("dial: address " ++ udp_addr_display a ++ " already known to host")%string)), w).
Proof.
  destruct n as [h t]. intros Hh. cbn [kad_dial kn_host] in *. rewrite run_fmap_eq.
  by rewrite run_dial_known.
Qed.

#[export] Instance kad_driver_laws : LookupDriverLaws (D:=kad_driver).
Proof.
  refine {| ld_keeps := kad_keeps; ld_draws := 0 |}.
  - apply kad_keeps_refl.
  - apply kad_keeps_trans.
  - intros n a target. apply send_frame_post.
  - apply kad_dial_post.
  - intros n s. eapply io_post_weaken; [apply kad_recv_post|]. by intros [n' ev] [Hk _].
  - apply observe_reach.
  - apply observe_names.
  - intros n a target. apply send_frame_cost.
  - apply kad_dial_cost.
  - apply kad_recv_cost.
  - apply kad_dial_known.
Defined.

End instance.

(** ** Reachable nodes *)

Section steps.
Context `{C : Crypto, RT : IoRuntime}.

(** Every operation of the node's interface that changes it. *)
Inductive kad_step (n : KademliaNode) : KademliaNode -> Prop :=
| ks_dial a s n' w w' :
    io_run (kad_dial n a s) w = (Returned (Ok n'), w') -> kad_step n n'
| ks_ping a n' w w' :
    io_run (kad_ping n a) w = (Returned (Ok n'), w') -> kad_step n n'
| ks_find_node a target n' w w' :
    io_run (find_node n a target) w = (Returned (Ok n'), w') -> kad_step n n'
| ks_recv s n' ev w w' :
    io_run (kad_recv_one n s) w = (Returned (Ok (n', ev)), w') -> kad_step n n'
| ks_process a p wrap n' ev w w' :
    io_run (process_plaintext_with_wrap n a p wrap) w = (Returned (Ok (n', ev)), w') -> kad_step n n'
| ks_lookup target cfg f n' r w w' :
    io_run (lookup_node n target cfg f) w = (Returned (Ok (n', r)), w') -> kad_step n n'.

End steps.

(** ** Properties *)

Section properties.
Context `{C : Crypto, RT : IoRuntime, !IoLaws RT}.

(** A well-formed node's table does not propose the node itself. *)
Lemma closest_not_self n target k p :
  kad_ok n -> p ∈ closest_to (kn_table n) target k -> p.1 <> kad_node_id n.
Proof.
  intros [_ Ht _]. by apply table_self_not_closest.
Qed.

(** C22: whatever is done with a Kademlia node built on a well-formed host (dial,
    ping, find_node, receive, whole lookups), its host and its routing table
    stay well formed, the table is keyed to the PeerId the host proves, and
    identity, capacity, socket and [k] never change. *)
Theorem kad_invariant (host : Host) (k : nat) (n : KademliaNode) :
  host_ok host -> rtc kad_step (kad_new host k) n ->
  kad_ok n /\ host_frame host (kn_host n) /\ table_k (kn_table n) = k /\
  kad_node_id n = from_peer_id (id_peer_id (host_identity host)).
Proof.
  intros Hok Hr. assert (Hkeep : kad_keeps (kad_new host k) n).
  { induction Hr as [|n1 n2 n3 Hs Hr IH]; [apply kad_keeps_refl|].
    eapply kad_keeps_trans; [|exact IH]. destruct Hs as [a s n' w w' H|a n' w w' H|a tg n' w w' H|
      s n' ev w w' H|a p wrap n' ev w w' H|tg cfg f n' r w w' H].
    - by eapply kad_dial_post.
    - by eapply send_frame_post.
    - by eapply send_frame_post.
    - by destruct (kad_recv_post _ _ _ _ _ H) as [? _].
    - by destruct (process_post _ _ _ _ _ _ _ H) as [? _].
    - unfold lookup_node, run_lookup in H. rewrite run_fmap_eq in H.
      apply run_bind_Ok in H as ([n'' l''] & w1 & Hd & [= <- _ _]).
      rewrite drive_rounds_eq in Hd.
      by destruct (drive_post _ _ _ _ (lookup_new_ok _ _ _ _) _ _ _ Hd) as [? _]. }
  destruct Hkeep as [Hk (F1 & F2 & F3)]. split_and!; [by apply Hk, kad_new_ok|done|done|done].
Qed.

(** C21: a lookup that returns gives exactly the [k] nearest of the
    candidates it had, and says where they came from: its run is a sequence of
    the node's own seeds, asks, dials and receives, whose events are [log]; its
    candidates are the [k] closest entries of the local table and the peers
    named in the [FIND_NODE] responses of [log].  Every peer it returns is one
    of these and not ourselves, in strictly increasing distance to the target,
    and a candidate other than ourselves is left out only when [k] peers are
    returned that are all closer.  It reads at most
    [max_rounds * max_recv_per_round] datagrams and draws at most
    [max_rounds * (alpha + max_recv_per_round)] seeds, and the node keeps its
    invariant. *)
Theorem kad_lookup_result (n : KademliaNode) (target : NodeId) (cfg : LookupConfig)
    (f : SeedFactory) (w w' : World) (n' : KademliaNode) (results : list Peer) :
  kad_ok n -> io_run (lookup_node n target cfg f) w = (Returned (Ok (n', results)), w') ->
  let far (p : Peer) := dval (distance p.1 target) in
  (exists log, lookup_run (D:=kad_driver) n w log n' w' /\
     length log <= lc_max_rounds cfg * lc_max_recv_per_round cfg /\
     let candidates := closest_to (kn_table n) target (lc_k cfg) ++ (log ≫= kad_names) in
     (forall p, p ∈ results -> p ∈ candidates /\ p.1 <> kad_node_id n) /\
     (forall p, p ∈ candidates -> p.1 <> kad_node_id n -> in_or_farther (lc_k cfg) target results p)) /\
  length results <= lc_k cfg /\ StronglySorted (fun p q => far p < far q)%N results /\
  length (w_inbox w) <= length (w_inbox w') + lc_max_rounds cfg * lc_max_recv_per_round cfg /\
  w_calls w' <= w_calls w + lc_max_rounds cfg * (lc_alpha cfg + lc_max_recv_per_round cfg) /\
  kad_ok n' /\ kad_frame n n'.
Proof.
  intros Hok. unfold lookup_node, run_lookup. rewrite run_fmap_eq.
  intros ([n'' l] & w1 & Hd & [= <- <- <-])%run_bind_Ok. cbn zeta.
  rewrite drive_rounds_eq in Hd. apply ld_lookup_result in Hd as (H1 & H2 & H3 & _ & [H5 H6] & H7).
  2: { intros p Hp. by eapply closest_not_self. }
  cbn [ld_draws kad_driver_laws] in H6. rewrite Nat.mul_1_r in H6.
  destruct H7 as [Hk Hf]. split_and!; try done. by apply Hk.
Qed.

(** C38: the nearest candidate of a lookup has an unanswered dial of an earlier
    call still in the host's table: the lookup dials it again, which the
    host refuses, and the whole lookup fails, the node being lost with it. *)
Theorem kad_lookup_stuck_dial (n : KademliaNode) (target : NodeId) (cfg : LookupConfig)
    (f : SeedFactory) (w : World) (id : NodeId) (a : UdpAddr) (rest : list Peer) :
  kad_ok n -> closest_to (kn_table n) target (lc_k cfg) = (id, a) :: rest ->
  is_Some (host_handshakes (kn_host n) !! a) ->
  0 < lc_alpha cfg -> 0 < lc_max_rounds cfg ->
  exists w', io_run (lookup_node n target cfg f) w =
    (Returned (Err (HostState
       ("dial: address " ++ udp_addr_display a ++ " already known to host")%string)), w') /\
    w_sent w' = w_sent w.
Proof.
  intros Hok Hc Hh Halpha Hrounds. unfold lookup_node, run_lookup. rewrite run_fmap_eq, drive_rounds_eq.
  destruct (ld_lookup_stuck n (kad_node_id n) target cfg f w (kn_table n) id a rest)
    as (w' & Hr & Hs); try done.
  - apply Hok.
  - apply (closest_not_self n target (lc_k cfg) (id, a) Hok). rewrite Hc. by left.
  - unfold is_established. apply contains_key_false. by apply (ok_disjoint _ (ko_host _ Hok)).
  - exists w'. cbn zeta in Hr. by rewrite Hr.
Qed.

End properties.

(** ** Witnesses *)

Lemma kad_invariant_witness :
  exists n, rtc (kad_step (C:=toy_crypto) (RT:=direct_io))
      (kad_new (C:=toy_crypto) (toy_host 4001 x01 x02) 20) n /\
    kad_ok (C:=toy_crypto) n /\ host_handshakes (kn_host n) !! loopback 4002 <> None.
Proof.
  destruct (run_dial (C:=toy_crypto) (RT:=direct_io) (IoLaws0:=direct_io_laws)
    (toy_host 4001 x01 x02) (loopback 4002) (arr_repeat 32 x03) (quiet_world []))
    as (ae & m1 & Hw & Hd); [done|done|].
  rewrite write_e_eq in Hw. injection Hw as <- <-.
  assert (E : exists n w', io_run (IoRuntime:=direct_io)
    (kad_dial (C:=toy_crypto) (RT:=direct_io) (kad_new (C:=toy_crypto) (toy_host 4001 x01 x02) 20)
      (loopback 4002) (arr_repeat 32 x03)) (quiet_world []) = (Returned (Ok n), w') /\
    host_handshakes (kn_host n) !! loopback 4002 <> None).
  { eexists _, _. unfold kad_new, kad_dial. rewrite (run_fmap_eq (IoLaws0:=direct_io_laws)), Hd.
    split; [reflexivity|]. cbn [kn_host host_with host_handshakes].
    unfold insert_handshake_with_lru. by rewrite insert_with_lru_lookup. }
  destruct E as (n & w' & E & Hh).
  assert (Hs : rtc (kad_step (C:=toy_crypto) (RT:=direct_io))
    (kad_new (C:=toy_crypto) (toy_host 4001 x01 x02) 20) n) by (eapply rtc_once, ks_dial, E).
  exists n. split; [exact Hs|]. split; [|exact Hh].
  exact (proj1 (kad_invariant (C:=toy_crypto) (RT:=direct_io) (IoLaws0:=direct_io_laws) _ _ _
    (toy_host_ok 4001 x01 x02) Hs)).
Defined.

(** A toy node that knows one peer. *)
Definition toy_knower (h : Host) : KademliaNode :=
  MkKademliaNode h (table_insert
    (table_new (from_peer_id (C:=toy_crypto) (id_peer_id (host_identity h))) 20)
    (toy_id x02) (loopback 4002)).1.

Lemma toy_knower_ok h : host_ok (C:=toy_crypto) h -> kad_ok (C:=toy_crypto) (toy_knower h).
Proof.
  intros Hh. split; [done|apply table_insert_ok, table_new_ok|]. unfold toy_knower.
  cbn [kn_table kn_host]. by rewrite table_insert_self_id.
Qed.

Lemma kad_lookup_stuck_dial_witness :
  exists h w',
    is_Some (host_handshakes h !! loopback 4002) /\
    io_run (IoRuntime:=direct_io)
      (lookup_node (C:=toy_crypto) (RT:=direct_io) (toy_knower h) (toy_id x05)
        lookup_config_default (fun _ => arr_repeat 32 x03)) (quiet_world []) =
      (Returned (Err (HostState
        ("dial: address " ++ udp_addr_display (loopback 4002) ++ " already known to host")%string)), w').
Proof.
  destruct (run_dial (C:=toy_crypto) (RT:=direct_io) (IoLaws0:=direct_io_laws)
    (toy_host 4001 x01 x02) (loopback 4002) (arr_repeat 32 x03) (quiet_world []))
    as (ae & m1 & Hw & Hd); [done|done|].
  rewrite write_e_eq in Hw. injection Hw as <- <-.
  match type of Hd with _ = after_reply _ _ _ ?h _ => set (h1 := h) in Hd end.
  assert (Hok : host_ok (C:=toy_crypto) h1).
  { eapply (host_step_ok (C:=toy_crypto) (RT:=direct_io) (IoLaws0:=direct_io_laws));
      [apply (toy_host_ok 4001 x01 x02)|]. eapply op_dial. rewrite Hd. reflexivity. }
  assert (Hh : is_Some (host_handshakes h1 !! loopback 4002)).
  { unfold h1. cbn [host_with host_handshakes]. unfold insert_handshake_with_lru.
    rewrite insert_with_lru_lookup. by eexists. }
  assert (Hc : closest_to (kn_table (toy_knower h1)) (toy_id x05) (lc_k lookup_config_default) =
    (toy_id x02, loopback 4002) :: []).
  { change (id_peer_id (host_identity h1)) with (from_ed25519 (arr_repeat 32 x02)).
    unfold toy_knower. change (id_peer_id (host_identity h1)) with (from_ed25519 (arr_repeat 32 x02)).
    vm_compute. reflexivity. }
  destruct (kad_lookup_stuck_dial (C:=toy_crypto) (RT:=direct_io) (IoLaws0:=direct_io_laws)
    (toy_knower h1) (toy_id x05) lookup_config_default (fun _ => arr_repeat 32 x03) (quiet_world [])
    (toy_id x02) (loopback 4002) [] (toy_knower_ok _ Hok) Hc Hh) as (w' & Hrun & _);
    [apply Nat.ltb_lt; reflexivity|apply Nat.ltb_lt; reflexivity|].
  exists h1, w'. split; [exact Hh|exact Hrun].
Defined.
