(* ===== verification/KadSilent.v ===== *)
(** * A lookup waits for every peer it asked

    A drain ends early only when nothing is pending, and a receive waits
    until a datagram comes: a peer that stays silent keeps its query or dial
    pending, so the lookup ends only if others send enough to use up the
    round's budget. *)

From S2P Require Export KadDrive.

(** ** What leaves the inbox alone *)

Section quiet.
Context `{RT : IoRuntime, !IoLaws RT} {E : Type}.

Definition io_quiet {A} (m : Io E A) : Prop :=
  forall w a w', io_run m w = (Returned (Ok a), w') -> w_inbox w' = w_inbox w.

Lemma io_quiet_pure {A} (a : A) : io_quiet (io_pure (E:=E) a).
Proof. intros w a' w'. rewrite run_pure. by intros [= _ <-]. Qed.

Lemma io_quiet_result {A} (x : result E A) : io_quiet (io_result x).
Proof. intros w a' w'. rewrite run_result. by intros [= _ <-]. Qed.

Lemma io_quiet_bind {A B} (m : Io E A) (k : A -> Io E B) :
  io_quiet m -> (forall a, io_quiet (k a)) -> io_quiet (m ≫= k).
Proof.
  intros Hm Hk w b w'. rewrite run_bind_eq. intros (a & w1 & Ha & Hb)%run_bind_Ok.
  rewrite (Hk _ _ _ _ Hb). by eapply Hm.
Qed.

Lemma io_quiet_fmap {A B} (m : Io E A) (f : A -> B) : io_quiet m -> io_quiet (f <$> m).
Proof.
  intros Hm w b w'. rewrite run_fmap_eq. intros (a & w1 & Ha & [= _ <-])%run_bind_Ok. by eapply Hm.
Qed.

Lemma io_quiet_seed (f : SeedFactory) : io_quiet (next_seed (E:=E) f).
Proof. intros w a w'. unfold next_seed. rewrite run_suspend. by intros [= _ <-]. Qed.

End quiet.

(** ** The driver *)

(** The lookup waits for something from [a]. *)
Definition awaits (l : Lookup) (a : UdpAddr) : Prop :=
  is_Some (lk_pending_queries l !! a) \/ is_Some (lk_pending_dials l !! a).

Lemma awaits_pending l a : awaits l a -> has_pending l = true.
Proof.
  unfold has_pending. intros [[x Hx]|[x Hx]]; apply orb_true_iff; [left|right];
    apply negb_true_iff, bool_decide_eq_false; intros He; by rewrite He, lookup_empty in Hx.
Qed.

Lemma awaits_mark l act a : awaits l a \/ (action_of act).2 = a -> awaits (mark_action l act) a.
Proof.
  destruct l as [s t c es qs ds], act as [id [b|b sd]]; unfold awaits; cbn;
    destruct (decide (b = a)) as [<-|Hne]; rewrite ?lookup_insert_eq, ?lookup_insert_ne by done; eauto; naive_solver.
Qed.

Lemma awaits_marks acts a : forall l,
  awaits l a \/ a ∈ (action_of <$> acts).*2 -> awaits (foldl mark_action l acts) a.
Proof.
  induction acts as [|act acts IH]; intros l [Hl|Hin]; cbn [foldl]; [done|by apply elem_of_nil in Hin|..]; apply IH.
  - left. apply awaits_mark. by left.
  - apply elem_of_cons in Hin as [->|Hin]; [left; apply awaits_mark; by right|by right].
Qed.

Lemma awaits_response l from ps a : from <> a -> awaits l a -> awaits (record_response l from ps).1 a.
Proof. destruct l. unfold awaits. cbn. intros Hne. by rewrite lookup_delete_ne. Qed.

Lemma awaits_complete l from a : from <> a -> awaits l a -> awaits (complete_dial l from) a.
Proof. destruct l. unfold awaits. cbn. intros Hne. by rewrite lookup_delete_ne. Qed.

Section driver.
Context `{C : Crypto, RT : IoRuntime, !IoLaws RT} {Nd Ev : Type} `{D : !LookupDriver Nd Ev, DL : !LookupDriverLaws}.

Definition silent (a : UdpAddr) (w : World) : Prop := forall d, Ok (socket_of_udp a, d) ∉ w_inbox w.

(** What the driver's receive takes, and whom it concerns. *)
Context (Hfind : forall n b target, io_quiet (ld_find_node n b target)) (Hdial : forall n b s, io_quiet (ld_dial n b s)).
Context (Hrecv : forall n s w n' ev w', io_run (ld_recv n s) w = (Returned (Ok (n', ev)), w') ->
  exists from d, w_inbox w = Ok (socket_of_udp from, d) :: w_inbox w' /\
    forall l a, from <> a -> awaits l a -> awaits (ld_observe l ev) a).

Lemma ld_drain_silent f a budget : forall n l w r w',
  awaits l a -> silent a w -> length (w_inbox w) < budget ->
  io_run (ld_drain n l f budget) w <> (Returned (Ok r), w').
Proof.
  induction budget as [|budget IH]; intros n l w r w' Ha Hs Hlen; [lia|]. cbn [ld_drain].
  rewrite (awaits_pending _ _ Ha). cbn [negb]. rewrite run_bind_eq. intros (s & w1 & Hsd & Hr)%run_bind_Ok.
  apply io_quiet_seed in Hsd. rewrite run_bind_eq in Hr. apply run_bind_Ok in Hr as ([n1 ev] & w2 & Hr & Hd).
  apply Hrecv in Hr as (from & d & Hin & Hobs). rewrite Hsd in Hin. revert Hd. apply IH.
  - apply Hobs; [|done]. intros ->. apply (Hs d). rewrite Hin. by left.
  - intros d' Hd'. apply (Hs d'). rewrite Hin. by right.
  - rewrite Hin in Hlen. cbn in Hlen. lia.
Qed.

Lemma round_actions_quiet n f to_act : io_quiet (ld_round_actions n f to_act).
Proof.
  induction to_act as [|[id b] to_act IH]; [apply io_quiet_pure|]. cbn [ld_round_actions]. apply io_quiet_bind.
  - destruct (is_established _ _); [apply io_quiet_pure|].
    apply io_quiet_bind; [apply io_quiet_seed|]. intros s. apply io_quiet_pure.
  - intros act. apply io_quiet_bind; [exact IH|]. intros acts. apply io_quiet_pure.
Qed.

Lemma send_chain_quiet target actions : forall m,
  io_quiet m -> io_quiet (foldl (ld_send_action target) m actions).
Proof.
  induction actions as [|[id act] actions IH]; intros m Hm; [done|]. cbn [foldl]. apply IH.
  apply io_quiet_bind; [exact Hm|]. intros n. destruct act; [apply Hfind|apply Hdial].
Qed.

(** A picked peer that stays silent. *)
Lemma ld_drive_silent n l f rounds a w r w' :
  a ∈ (pick_next_alpha l).*2 -> is_done l = false -> lookup_ok l -> silent a w ->
  length (w_inbox w) < lc_max_recv_per_round (lk_config l) -> 0 < rounds ->
  io_run (ld_drive n l f rounds) w <> (Returned (Ok r), w').
Proof.
  intros Ha Hdone Hok Hs Hlen Hrounds. destruct rounds as [|rounds]; [lia|]. cbn [ld_drive]. rewrite Hdone.
  destruct (pick_next_alpha l) as [|p ps] eqn:Ep; [by apply elem_of_nil in Ha|]. rewrite <- Ep in *.
  rewrite run_bind_eq. intros (acts & w1 & Hra & Hr)%run_bind_Ok.
  pose proof (round_actions_post _ _ _ _ _ _ Hra) as Hacts. apply round_actions_quiet in Hra.
  rewrite run_bind_eq in Hr. apply run_bind_Ok in Hr as (n1 & w2 & Hc & Hr).
  apply send_chain_quiet in Hc; [|apply io_quiet_pure].
  rewrite run_bind_eq in Hr. apply run_bind_Ok in Hr as ([n2 l2] & w3 & Hd & _). revert Hd.
  assert (Hcfg : lk_config (foldl mark_action l acts) = lk_config l).
  { clear. revert l. induction acts as [|[id act] acts IH]; intros l; [done|]. cbn [foldl]. rewrite IH. by destruct l, act. }
  apply (ld_drain_silent f a).
  - apply awaits_marks. right. by rewrite Hacts.
  - intros d. rewrite Hc, Hra. apply Hs.
  - by rewrite Hc, Hra, Hcfg.
Qed.

End driver.

(** ** The Kademlia node *)

Section node.
Context `{C : Crypto, RT : IoRuntime, !IoLaws RT}.

Lemma send_quiet h a p : io_quiet (host_send h a p).
Proof. by intros w h' w' (? & ? & ? & _ & _ & _ & ->)%send_sound. Qed.

Lemma find_node_quiet n a target : io_quiet (find_node n a target).
Proof.
  destruct n as [h t]. apply io_quiet_bind; [apply io_quiet_result|]. intros p. apply io_quiet_fmap, send_quiet.
Qed.

Lemma kad_dial_quiet n a s : io_quiet (kad_dial n a s).
Proof. destruct n as [h t]. apply io_quiet_fmap. by intros w h' w' (? & ? & _ & _ & _ & _ & ->)%dial_sound. Qed.

Lemma process_quiet n a p wrap : io_quiet (process_plaintext_with_wrap n a p wrap).
Proof.
  destruct n as [h t]. unfold process_plaintext_with_wrap, handle_datagram.
  destruct (kad_decode p) as [f|e]; [|apply io_quiet_pure].
  destruct f; cbn [dispatch_frame]; try apply io_quiet_pure;
    (apply io_quiet_bind; [apply io_quiet_result|]; intros b; apply io_quiet_fmap, send_quiet).
Qed.

(** A receive takes one datagram; its event concerns its source alone. *)
Lemma kad_recv_from n s w n' ev w' :
  io_run (kad_recv_one n s) w = (Returned (Ok (n', ev)), w') ->
  exists from d, w_inbox w = Ok (socket_of_udp from, d) :: w_inbox w' /\
    forall l a, from <> a -> awaits l a -> awaits (observe_event l ev) a.
Proof.
  destruct n as [h t]. unfold kad_recv_one. rewrite run_bind_eq. intros ([h1 hev] & w1 & Hr & Hh)%run_bind_Ok.
  apply recv_one_sound in Hr as (from & d & inbox & reply & Hin & Hs & ->).
  assert (Hw1 : w_inbox (world_reply (world_received w) from reply) = inbox).
  { destruct reply; cbn; by rewrite Hin. }
  assert (Hevent : match hev with HandshakeProgress a | HandshakeComplete a _ _ | Rejected a _
    | DatagramDelivered a _ => a end = from) by (by destruct Hs).
  exists from, d. destruct hev as [b|b key pid|b p|b reason]; cbn [handle_host_event] in Hh; subst b.
  - rewrite run_pure in Hh. injection Hh as _ <- <-. rewrite Hw1. by split.
  - destruct (table_insert _ _ _) as [t' ins]. rewrite run_pure in Hh. injection Hh as _ <- <-. rewrite Hw1.
    split; [done|]. intros l a Hne Ha. cbn. case_match; [by apply awaits_complete|done].
  - pose proof (process_quiet _ _ _ _ _ _ _ Hh) as Hq. rewrite Hq, Hw1. split; [done|].
    pose proof (process_post _ _ _ _ _ _ _ Hh) as (_ & _ & _ & Hev). intros l a Hne Ha.
    destruct (kad_decode p) as [[| |target|ps]|e]; rewrite Hev; try done. by apply awaits_response.
  - rewrite run_pure in Hh. injection Hh as _ <- <-. rewrite Hw1. by split.
Qed.

End node.

(** ** Property *)

Section property.
Context `{C : Crypto, RT : IoRuntime, !IoLaws RT}.

(** C39: a peer that stays silent keeps a lookup from ending.  When the nearest
    candidate, connected or to be dialed, sends nothing, and fewer datagrams
    arrive from anybody than one round may read, the lookup gives no result,
    however few rounds it was allowed: it blocks, unless a send or a receive
    fails and takes the node with it. *)
Theorem kad_lookup_silent_peer (n : KademliaNode) (target : NodeId) (cfg : LookupConfig)
    (f : SeedFactory) (w w' : World) (id : NodeId) (a : UdpAddr) (rest : list Peer)
    (r : KademliaNode * list Peer) :
  kad_ok n -> closest_to (kn_table n) target (lc_k cfg) = (id, a) :: rest ->
  0 < lc_alpha cfg -> 0 < lc_max_rounds cfg -> silent a w ->
  length (w_inbox w) < lc_max_recv_per_round cfg ->
  io_run (lookup_node n target cfg f) w <> (Returned (Ok r), w').
Proof.
  intros Hok Hc Halpha Hrounds Hs Hlen. unfold lookup_node, run_lookup.
  rewrite run_fmap_eq, drive_rounds_eq, Hc. intros ([n' l'] & w1 & Hd & _)%run_bind_Ok. revert Hd.
  assert (Hself : id <> kad_node_id n).
  { apply (closest_not_self n target (lc_k cfg) (id, a) Hok). rewrite Hc. by left. }
  assert (Hk : 0 < lc_k cfg).
  { pose proof (length_closest_to (kn_table n) target (lc_k cfg)) as Hl. rewrite Hc in Hl. cbn in Hl. lia. }
  destruct (pick_first (kad_node_id n) target cfg id a rest Hk Halpha Hself
    (closest_to_head_far _ _ _ _ _ _ (ko_table _ Hok) Hc)) as [ps Hp].
  pose proof (lookup_new_ok (kad_node_id n) target cfg ((id, a) :: rest)) as Hl.
  apply (ld_drive_silent (D:=kad_driver) find_node_quiet kad_dial_quiet kad_recv_from _ _ _ _ a); try done.
  - rewrite Hp. by left.
  - apply not_true_is_false. intros Hd. apply is_done_iff in Hd; [by rewrite Hp in Hd|done|done].
Qed.

End property.

(** ** Witness *)

(** One round, one datagram to read, and nobody answers. *)
Lemma kad_lookup_silent_peer_witness :
  let n := toy_knower (toy_host 4001 x01 x02) in
  let w := quiet_world [(socket_of_udp (loopback 4003), [x00])] in
  closest_to (kn_table n) (toy_id x05) 20 = [(toy_id x02, loopback 4002)] /\
  forall r w', io_run (IoRuntime:=direct_io)
    (lookup_node (C:=toy_crypto) (RT:=direct_io) n (toy_id x05) (MkLookupConfig 3 20 1 24)
      (fun _ => arr_repeat 32 x03)) w <> (Returned (Ok r), w').
Proof.
  intros n w.
  assert (Hc : closest_to (kn_table n) (toy_id x05) 20 = [(toy_id x02, loopback 4002)])
    by (vm_compute; reflexivity).
  split; [exact Hc|]. intros r w'.
  apply (kad_lookup_silent_peer (C:=toy_crypto) (RT:=direct_io) (IoLaws0:=direct_io_laws)
    n (toy_id x05) (MkLookupConfig 3 20 1 24) _ w w' (toy_id x02) (loopback 4002) [] r).
  - apply toy_knower_ok, toy_host_ok.
  - exact Hc.
  - cbn. lia.
  - cbn. lia.
  - intros d [Hd|Hd]%elem_of_cons; [discriminate Hd|by apply elem_of_nil in Hd].
  - cbn. lia.
Defined.
