(* ===== verification/KadConverge.v ===== *)
(** * A lookup converges among peers that answer

    The node of [KadNode.v] as a [MeshNode]: what its driver does with each
    datagram of a handshake, of a question and of an answer.  Among peers it
    has sessions with, and peers it can dial, its lookup ends with the closest
    peers it was told of. *)

From S2P Require Export KadPeers KadDrive.

Section node.
Context `{C : Crypto, RT : IoRuntime}.

#[export] Instance kad_mesh : MeshNode KademliaNode KadEvent := {|
  mn_driver := kad_driver;
  mn_opts := unit;
  mn_default := ();
  mn_recv _ := kad_recv_one;
  mn_table := kn_table;
  mn_with _ := MkKademliaNode;
  mn_wrap := identity_wrap;
  mn_progress := KadHandshakeProgress;
  mn_complete addr key pid := KadHandshakeComplete addr key pid (from_peer_id pid);
  mn_answer := FindNodeResponseReceived;
  mn_asked := FindNodeRequestReceived
|}.

Context `{!IoLaws RT}.

(** A datagram at the host that the node takes without answering itself. *)
Lemma run_kad_event h t h' s from d ev r n' ev' w inbox :
  receives h s from d h' ev r -> (forall w, io_run (handle_host_event h' t ev) w = (Returned (Ok (n', ev')), w)) ->
  w_inbox w = Ok (socket_of_udp from, d) :: inbox -> send_fault w = None ->
  io_run (kad_recv_one (MkKademliaNode h t) s) w =
    (Returned (Ok (n', ev')), world_reply (world_received w) from r).
Proof.
  intros Hr He Hw Hf. unfold kad_recv_one. rewrite run_bind_eq, (Hr w inbox Hw Hf). cbn [run_bind]. apply He.
Qed.

#[export] Instance kad_mesh_laws : MeshNodeLaws (M:=kad_mesh).
Proof.
  split; try done.
  - intros p. cbn. unfold identity_wrap. lia.
  - intros [h t] b s d h' Hs w Hf. specialize (Hs w Hf). cbn in *. by rewrite run_fmap_eq, Hs.
  - intros [h t] b target p d h' Hp Hs w Hf. apply (run_send_frame _ _ _ _ p _ _ _ Hp). by apply Hs.
  - intros [h t] s from d h' r Hr o w inbox. eapply run_kad_event; [exact Hr|]. intros w'. apply run_pure.
  - intros [h t] s from d h' key pid r Hr o w inbox. eapply run_kad_event; [exact Hr|]. intros w'.
    cbn. destruct (table_insert t _ _) as [t' ins]. apply run_pure.
  - intros [h t] s from d h' p ps Hr Hd o w inbox. eapply run_kad_event; [exact Hr|]. intros w'.
    cbn [handle_host_event kad_join]. unfold process_plaintext, process_plaintext_with_wrap, handle_datagram.
    cbn [mn_wrap kad_mesh] in *. unfold identity_wrap. rewrite Hd. apply run_pure.
  - intros [h t] s from d h1 h2 p target p' d' Hr Hd t1 ps Hp Hs o w inbox Hw Hf.
    etransitivity; [apply (run_kad_recv h t h1 s from p w (world_received w)); by eapply (Hr w inbox)|].
    unfold process_plaintext. rewrite (run_process_request h1 t from p _ _ _ Hd eq_refl).
    change (learn_sender h1 t from) with t1. unfold ps in Hp. rewrite Hp. cbn [mn_wrap kad_mesh] in Hs. unfold identity_wrap in *.
    by rewrite (Hs (world_received w)).
Qed.

End node.

(** ** Properties *)

Section properties.
Context `{C : Crypto, RT : IoRuntime, !IoLaws RT, !CryptoLaws C}.

(** C19: a lookup among peers that answer converges.  The node has a session
    with each peer of [bs], or neither knows the other and it can be dialed;
    and the peers its table and theirs name are itself and these, under their
    own ids.  Then the lookup returns, whatever seeds it is given: it sends
    just what [log] says, dialing the peers it has no session with, and reads
    just what they send back.  Each peer takes its part of [log] in order,
    the one question or three datagrams of a handshake and then the question.
    The peers the lookup returns have answered that question, and whoever one
    of them, or its own table, told it of is returned too, unless [k] peers
    closer to the target are.  Room for two datagrams from each peer asked in
    a round, and rounds enough to dial and to ask each peer alone, suffice. *)
Theorem kad_lookup_converges (n : KademliaNode) (peer : UdpAddr -> KademliaNode) (a : UdpAddr)
    (bs : list UdpAddr) (target : NodeId) (cfg : LookupConfig) (f : SeedFactory)
    (seed : UdpAddr -> arr 32) (calls : nat) :
  let met (p : Peer) := p.2 ∈ bs /\ p.1 = kad_node_id (peer p.2) in
  let known := closest_to (kn_table n) target (lc_k cfg) in
  let told_by b :=
    told (kn_host (peer b)) (kn_table (peer b)) a (id_peer_id (host_identity (kn_host n))) target in
  table_ok (kn_table n) -> identity_ok (host_identity (kn_host n)) -> socket_ok (host_socket (kn_host n)) ->
  room_for_request (kn_host n) -> has_room (kn_host n) bs ->
  (forall b, b ∈ bs ->
     (linked (kn_host n) a (kn_host (peer b)) b 2 \/
      unknown_to (kn_host n) b /\ dialable (kn_host n) a peer b) /\
     room_for_reply (kn_host (peer b)) (kn_table (peer b))) ->
  (forall p, p ∈ known -> met p) ->
  (forall b p, b ∈ bs -> p ∈ told_by b -> p.1 = kad_node_id n \/ met p) ->
  0 < lc_alpha cfg -> 2 * lc_alpha cfg <= lc_max_recv_per_round cfg -> 2 * length bs <= lc_max_rounds cfg ->
  exists n' results log calls',
    takes calls (lookup_node n target cfg f) (questions log) (replies log) calls' (n', results) /\
    (forall x, x ∈ log -> ex_to x ∈ bs) /\
    (forall b, b ∈ bs -> (exists n_b, serves (seed b) a (peer b) (log_at b log) n_b) /\
       length (log_at b log) <= if is_established (kn_host n) b then 1 else 4) /\
    (forall p, p ∈ known -> in_or_farther (lc_k cfg) target results p) /\
    forall p, p ∈ results -> p.2 ∈ bs /\ p.1 = kad_node_id (peer p.2) /\
      answered a target p.2 (log_at p.2 log) /\
      forall q, q ∈ told_by p.2 -> q.1 <> kad_node_id n -> in_or_farther (lc_k cfg) target results q.
Proof.
  intros met known told_by Hok Hid Hsock HroomN Hrm Hpeers Hknown Htold Ha Hbud Hlen.
  destruct (mesh_converges (M:=kad_mesh) (kn_host n) a bs peer seed target Hid Hsock HroomN (fun b Hb => proj2 (Hpeers b Hb))
    n known (kad_node_id n) (fun b => kad_node_id (peer b)) cfg f calls)
    as (n' & l & log & calls' & Ht & Hlog & Hsv & Hk & Hres); try done.
  - intros b Hb. by apply Hpeers.
  - intros p Hp. split; [by apply (table_self_not_closest _ target _ _ Hok Hp)|by apply Hknown].
  - exists n', (top_k_results l), log, calls'. split_and!; try done.
    + apply (takes_fmap _ (fun '(node, lookup) => (node, top_k_results lookup)) _ _ _ _ (n', l)). exact Ht.
    + intros b Hb. destruct (Hsv b Hb) as [Hs Hl]. split; [done|]. etransitivity; [exact Hl|].
      unfold handshake_len. by destruct (is_established _ _).
Qed.

End properties.

(** ** Witness *)

Section toy.
#[local] Existing Instance direct_io.
#[local] Existing Instance direct_io_laws.
#[local] Existing Instance toy_crypto.
#[local] Existing Instance toy_crypto_laws.

Definition toy_name (h : Host) : NodeId := from_peer_id (id_peer_id (host_identity h)).
Definition toy_told_of (h : Host) (ps : list Peer) : KademliaNode :=
  MkKademliaNode h (foldl (fun t p => (table_insert t p.1 p.2).1) (table_new (toy_name h) 20) ps).

(** The node at 4003 has a session with the one at 4001, which knows the one
    at 4002; that one has to be dialed. *)
Definition toy_caller : Host := toy_session 4003 x05 x06 4001 x01 x02 x0b x0a.
Definition toy_stranger : Host := toy_host 4002 x03 x04.
Definition toy_asker : KademliaNode := toy_told_of toy_caller [(toy_name toy_client1, loopback 4001)].
Definition toy_teller : KademliaNode := toy_told_of toy_client1 [(toy_name toy_stranger, loopback 4002)].
Definition toy_target : KademliaNode := toy_told_of toy_stranger [].
Definition toy_peers (b : UdpAddr) : KademliaNode :=
  if decide (b = loopback 4001) then toy_teller else toy_target.

Lemma toy_told_of_frame h ps :
  kad_node_id (toy_told_of h ps) = toy_name h /\ table_k (kn_table (toy_told_of h ps)) = 20.
Proof.
  unfold kad_node_id, toy_told_of. cbn [kn_table].
  assert (H : forall t, table_self (foldl (fun t (p : Peer) => (table_insert t p.1 p.2).1) t ps) = table_self t /\
    table_k (foldl (fun t (p : Peer) => (table_insert t p.1 p.2).1) t ps) = table_k t).
  { induction ps as [|p ps IH]; intros t; [done|]. cbn [foldl].
    destruct (IH (table_insert t p.1 p.2).1) as [-> ->]. by rewrite table_insert_self_id, table_insert_k. }
  by destruct (H (table_new (toy_name h) 20)).
Qed.

Lemma toy_told_of_id h ps : kad_node_id (toy_told_of h ps) = toy_name h.
Proof. apply toy_told_of_frame. Qed.

Lemma toy_told_of_room h ps :
  max_send_payload (host_socket h) = DEFAULT_MAX_DATAGRAM ->
  room_for_reply (kn_host (toy_told_of h ps)) (kn_table (toy_told_of h ps)).
Proof.
  intros Hs. unfold room_for_reply. destruct (toy_told_of_frame h ps) as [_ ->]. cbn [kn_host toy_told_of].
  rewrite Hs. split; [apply Nat.leb_le; reflexivity|done].
Qed.

Definition toy_bs : list UdpAddr := [loopback 4001; loopback 4002].

Lemma toy_peers_cases b :
  b ∈ toy_bs -> (b = loopback 4001 /\ toy_peers b = toy_teller) \/ (b = loopback 4002 /\ toy_peers b = toy_target).
Proof.
  intros [Hb|Hb%list_elem_of_singleton]%elem_of_cons; subst b; [left|right]; (split; [reflexivity|]);
    unfold toy_peers.
  - by rewrite decide_True.
  - rewrite decide_False; [reflexivity|discriminate].
Qed.

Lemma toy_peers_ready b :
  b ∈ toy_bs ->
  (linked (kn_host toy_asker) (loopback 4003) (kn_host (toy_peers b)) b 2 \/
   unknown_to (kn_host toy_asker) b /\ dialable (kn_host toy_asker) (loopback 4003) toy_peers b) /\
  room_for_reply (kn_host (toy_peers b)) (kn_table (toy_peers b)).
Proof.
  intros [[-> E]|[-> E]]%toy_peers_cases.
  - rewrite E. split; [left|by apply toy_told_of_room]. split; [|done..]. eexists _, _.
    split_and!; try apply lookup_singleton_eq; try apply hears_new; unfold nonces_left; cbn; lia.
  - split; [right|rewrite E; by apply toy_told_of_room].
    change (kn_host toy_asker) with toy_caller. split; [split; [apply lookup_empty|by apply lookup_singleton_ne]|].
    assert (Eh : ld_host (LookupDriver:=mn_driver) (toy_peers (loopback 4002)) = toy_stranger) by (by rewrite E).
    split; rewrite Eh; clear E Eh;
      [split; apply lookup_empty|apply toy_identity_ok|by split|by apply N.leb_le..].
Qed.

Lemma toy_asker_knows :
  closest_to (kn_table toy_asker) (toy_id x05) 20 = [(toy_name toy_client1, loopback 4001)].
Proof. vm_compute. reflexivity. Qed.

Definition toy_met (p : Peer) : Prop := p.2 ∈ toy_bs /\ p.1 = kad_node_id (toy_peers p.2).

Lemma toy_known_met p : p ∈ closest_to (kn_table toy_asker) (toy_id x05) 20 -> toy_met p.
Proof.
  rewrite toy_asker_knows. intros ->%list_elem_of_singleton. split; [apply list_elem_of_here|]. cbn [snd fst].
  destruct (toy_peers_cases (loopback 4001)) as [[_ ->]|[Hx _]]; [apply list_elem_of_here| |discriminate Hx].
  symmetry. apply toy_told_of_id.
Qed.

Definition toy_told_by (b : UdpAddr) : list Peer :=
  told (kn_host (toy_peers b)) (kn_table (toy_peers b)) (loopback 4003)
    (id_peer_id (host_identity (kn_host toy_asker))) (toy_id x05).

Lemma toy_told_by_teller :
  toy_told_by (loopback 4001) = [(toy_name toy_stranger, loopback 4002); (toy_name toy_caller, loopback 4003)].
Proof. vm_compute. reflexivity. Qed.

Lemma toy_told_by_target : toy_told_by (loopback 4002) = [(toy_name toy_caller, loopback 4003)].
Proof. vm_compute. reflexivity. Qed.

Lemma toy_told_met b p : b ∈ toy_bs -> p ∈ toy_told_by b -> p.1 = kad_node_id toy_asker \/ toy_met p.
Proof.
  intros [[-> _]|[-> _]]%toy_peers_cases; [rewrite toy_told_by_teller|rewrite toy_told_by_target]; intros Hin.
  - apply elem_of_cons in Hin as [Hin|Hin%list_elem_of_singleton];
      rewrite Hin; [right|left; symmetry; apply toy_told_of_id].
    split; [right; apply list_elem_of_here|]. cbn [snd fst].
    destruct (toy_peers_cases (loopback 4002)) as [[Hx _]|[_ ->]];
      [right; apply list_elem_of_here|discriminate Hx|]. symmetry. apply toy_told_of_id.
  - apply list_elem_of_singleton in Hin as ->. left. symmetry. apply toy_told_of_id.
Qed.

Lemma toy_has_room : has_room (kn_host toy_asker) toy_bs.
Proof. split; apply Nat.leb_le; vm_compute; reflexivity. Qed.

Lemma kad_lookup_converges_witness :
  exists n' results log calls',
    takes 0 (lookup_node toy_asker (toy_id x05) lookup_config_default (fun _ => arr_repeat 32 x03))
      (questions log) (replies log) calls' (n', results) /\
    in_or_farther 20 (toy_id x05) results (toy_name toy_client1, loopback 4001) /\
    forall p, p ∈ results -> answered (loopback 4003) (toy_id x05) p.2 (log_at p.2 log).
Proof.
  destruct (kad_lookup_converges toy_asker toy_peers (loopback 4003) toy_bs (toy_id x05)
    lookup_config_default (fun _ => arr_repeat 32 x03) (fun _ => arr_repeat 32 x07) 0)
    as (n' & results & log & calls' & Ht & _ & _ & Hk & Hr).
  - apply table_insert_ok, table_new_ok.
  - apply toy_identity_ok.
  - done.
  - done.
  - exact toy_has_room.
  - exact toy_peers_ready.
  - exact toy_known_met.
  - exact toy_told_met.
  - apply Nat.leb_le; reflexivity.
  - apply Nat.leb_le; reflexivity.
  - apply Nat.leb_le; reflexivity.
  - exists n', results, log, calls'. split; [exact Ht|]. split; [|intros p Hin; by apply Hr].
    apply Hk. change (lc_k lookup_config_default) with 20. rewrite toy_asker_knows. apply list_elem_of_here.
Defined.

(** Two peers cannot be twenty. *)
Lemma two_found target (results : list Peer) (p1 p2 q : Peer) :
  StronglySorted (fun p q => dval (distance p.1 target) < dval (distance q.1 target))%N results ->
  (forall p, p ∈ results -> p = p1 \/ p = p2) -> in_or_farther 20 target results q -> q.1 ∈ results.*1.
Proof.
  intros Hs Hall [?|[Hlen _]]; [done|exfalso]. destruct results as [|x [|y [|z rest]]]; try discriminate Hlen.
  apply StronglySorted_cons in Hs as [Hx [Hy _]%StronglySorted_cons]. rewrite Forall_forall in Hx, Hy.
  pose proof (Hx y ltac:(by left)). pose proof (Hx z ltac:(by right; left)). pose proof (Hy z ltac:(by left)).
  pose proof (Hall x ltac:(by left)). pose proof (Hall y ltac:(by right; left)).
  pose proof (Hall z ltac:(by right; right; left)).
  destruct_or!; subst; lia.
Qed.

(** The caller's lookup in a world that holds what its peers send back. *)
Lemma toy_lookup_runs :
  exists n' l (log : list (exchange KadEvent)) w',
    io_run (lookup_node toy_asker (toy_id x05) lookup_config_default (fun _ => arr_repeat 32 x03))
      (MkWorld (fun a => Ok (MkSocket (Ok a))) (replies log) [] [] 0) = (Returned (Ok (n', top_k_results l)), w') /\
    in_or_farther 20 (toy_id x05) (top_k_results l) (toy_name toy_client1, loopback 4001) /\
    forall p, p ∈ top_k_results l -> toy_met p /\
      forall q, q ∈ toy_told_by p.2 -> q.1 <> toy_name toy_caller ->
        in_or_farther 20 (toy_id x05) (top_k_results l) q.
Proof.
  assert (Hsock : socket_ok (host_socket toy_caller)) by done.
  assert (Hask : room_for_request toy_caller) by done.
  destruct (mesh_converges (M:=kad_mesh) toy_caller (loopback 4003) toy_bs toy_peers
    (fun _ => arr_repeat 32 x07) (toy_id x05) (toy_identity_ok 4003 x05 x06) Hsock Hask
    (fun b Hb => proj2 (toy_peers_ready b Hb)) toy_asker
    (closest_to (kn_table toy_asker) (toy_id x05) 20) (toy_name toy_caller)
    (fun b => kad_node_id (toy_peers b)) lookup_config_default (fun _ => arr_repeat 32 x03) 0)
    as (n' & l & log & k' & Ht & _ & _ & Hk & Hr).
  - reflexivity.
  - exact toy_has_room.
  - intros b Hb. exact (proj1 (toy_peers_ready b Hb)).
  - intros p Hp. split; [|by apply toy_known_met]. rewrite <- (toy_told_of_id toy_caller
      [(toy_name toy_client1, loopback 4001)]).
    by apply (table_self_not_closest _ (toy_id x05) 20 _ (table_insert_ok _ _ _ (table_new_ok _ _)) Hp).
  - intros b p Hb Hp. destruct (toy_told_met b p Hb Hp) as [->|Hm]; [left; apply toy_told_of_id|by right].
  - apply Nat.leb_le; reflexivity.
  - apply Nat.leb_le; reflexivity.
  - apply Nat.leb_le; reflexivity.
  - assert (Ht' : takes 0 (lookup_node toy_asker (toy_id x05) lookup_config_default (fun _ => arr_repeat 32 x03))
      (questions log) (replies log) k' (n', top_k_results l)).
    { apply (takes_fmap _ (fun '(node, lookup) => (node, top_k_results lookup)) _ _ _ _ (n', l)). exact Ht. }
    destruct (Ht' (MkWorld (fun a => Ok (MkSocket (Ok a))) (replies log) [] [] 0) [] eq_refl eq_refl)
      as (w' & Hrun & _); [symmetry; apply app_nil_r|].
    exists n', l, log, w'. split_and!; [exact Hrun| |].
    + apply Hk. rewrite toy_asker_knows. apply list_elem_of_here.
    + intros p Hp. destruct (Hr p Hp) as (H1 & H2 & _ & H3). split; [by split|exact H3].
Qed.

(** The caller asks the one peer it knows, is told of the other, dials it and
    asks it: its lookup returns both. *)
Lemma kad_lookup_result_witness :
  exists n' results w w' log,
    io_run (lookup_node toy_asker (toy_id x05) lookup_config_default (fun _ => arr_repeat 32 x03)) w =
      (Returned (Ok (n', results)), w') /\
    lookup_run (D:=kad_driver) toy_asker w log n' w' /\
    toy_name toy_client1 ∈ results.*1 /\ toy_name toy_stranger ∈ results.*1 /\
    (toy_name toy_stranger, loopback 4002) ∈ log ≫= kad_names /\ kad_ok n'.
Proof.
  destruct toy_lookup_runs as (n' & l & ex & w' & Hrun & H1 & Hres).
  assert (Hok : kad_ok toy_asker).
  { split.
    - exact (toy_session_ok 4003 x05 x06 4001 x01 x02 x0b x0a).
    - exact (table_insert_ok _ _ _ (table_new_ok (toy_name toy_caller) 20)).
    - exact (toy_told_of_id toy_caller [(toy_name toy_client1, loopback 4001)]). }
  destruct (kad_lookup_result toy_asker (toy_id x05) lookup_config_default _ _ _ _ _ Hok Hrun)
    as ((log & Hlog & _ & Hfrom & _) & _ & Hs & _ & _ & Hok' & _).
  assert (Htwo : forall p, p ∈ top_k_results l ->
    p = (toy_name toy_client1, loopback 4001) \/ p = (toy_name toy_stranger, loopback 4002)).
  { intros [i b] Hp. destruct (Hres _ Hp) as [[Hb Hi] _]. cbn [fst snd] in Hb, Hi.
    destruct (toy_peers_cases b Hb) as [[-> E]|[-> E]]; rewrite E in Hi; [left|right]; f_equal;
      (etransitivity; [exact Hi|apply toy_told_of_id]). }
  assert (Hc : toy_name toy_client1 ∈ (top_k_results l).*1)
    by exact (two_found _ _ _ _ _ Hs Htwo H1).
  assert (Hx : toy_name toy_stranger ∈ (top_k_results l).*1).
  { apply list_elem_of_fmap in Hc as (p & Hi & Hp). assert (p.2 = loopback 4001).
    { destruct (Htwo p Hp) as [->| ->]; [done|]. exfalso. revert Hi. cbn [fst].
      apply (bool_decide_unpack (toy_name toy_client1 <> toy_name toy_stranger)). vm_compute. exact I. }
    destruct (Hres p Hp) as [_ Hq].
    apply (two_found _ _ _ _ (toy_name toy_stranger, loopback 4002) Hs Htwo), Hq.
    - rewrite H, toy_told_by_teller. apply list_elem_of_here.
    - apply (bool_decide_unpack (toy_name toy_stranger <> toy_name toy_caller)). vm_compute. exact I. }
  eexists n', (top_k_results l), _, w', log. split_and!; [exact Hrun|exact Hlog|exact Hc|exact Hx| |exact Hok'].
  apply list_elem_of_fmap in Hx as (p & Hi & Hp).
  assert (Ep : p = (toy_name toy_stranger, loopback 4002)).
  { destruct (Htwo p Hp) as [->| ->]; [|done]. exfalso. revert Hi. cbn [fst].
    apply (bool_decide_unpack (toy_name toy_stranger <> toy_name toy_client1)). vm_compute. exact I. }
  destruct (Hfrom p Hp) as [[Hin|Hin]%elem_of_app _]; [|by rewrite <- Ep].
  change (lc_k lookup_config_default) with 20 in Hin. rewrite toy_asker_knows, Ep in Hin.
  exfalso. apply list_elem_of_singleton in Hin. discriminate Hin.
Defined.

End toy.
