(* ===== verification/RendezvousCodec.v ===== *)
(** * Rendezvous frames on the wire

    Models src/crates/libp2p-cat-rendezvous/src/codec.rs.  The crate repeats
    the Kademlia codec's address functions; so does the model, with lemmas
    that identify the two copies.  Names shared with the other codecs carry
    the prefix [rv]. *)

From S2P Require Export AddrWire.

#[local] Open Scope string_scope.

Inductive RvOpcode : Type :=
| OpObserveReq | OpObserveResp | OpPunchReq | OpPunchForward
| OpRelayDataReq | OpRelayDataDeliver | OpRelayFail.

Definition rv_to_byte (op : RvOpcode) : byte :=
  match op with
  | OpObserveReq => x00
  | OpObserveResp => x01
  | OpPunchReq => x02
  | OpPunchForward => x03
  | OpRelayDataReq => x04
  | OpRelayDataDeliver => x05
  | OpRelayFail => x06
  end.

Definition rv_protocol_error (reason : string) : Error := PubsubProtocol reason.

Definition rv_from_byte (b : byte) : result Error RvOpcode :=
  match b with
  | x00 => Ok OpObserveReq
  | x01 => Ok OpObserveResp
  | x02 => Ok OpPunchReq
  | x03 => Ok OpPunchForward
  | x04 => Ok OpRelayDataReq
  | x05 => Ok OpRelayDataDeliver
  | x06 => Ok OpRelayFail
  | n => Err (rv_protocol_error ("unknown rendezvous opcode 0x" ++ hex02 n))
  end.

Inductive RvFrame : Type :=
| ObserveReq
| ObserveResp (observed : UdpAddr)
| PunchReq (target : UdpAddr)
| PunchForward (initiator : UdpAddr)
| RelayDataReq (target : UdpAddr) (payload : list byte)
| RelayDataDeliver (originator : UdpAddr) (payload : list byte)
| RelayFail (peer : UdpAddr) (reason : string).

Definition RV_ADDR_KIND_V4 : byte := x04.
Definition RV_ADDR_KIND_V6 : byte := x06.
Definition RV_ADDR_V4_BODY_LEN : nat := 4 + 2.
Definition RV_ADDR_V6_BODY_LEN : nat := 16 + 2.
Definition OBSERVE_RESP_V4_LEN : nat := 1 + 1 + RV_ADDR_V4_BODY_LEN.
Definition OBSERVE_RESP_V6_LEN : nat := 1 + 1 + RV_ADDR_V6_BODY_LEN.

Definition rv_encode_addr (addr : UdpAddr) : list byte :=
  match addr with
  | V4 s => ([RV_ADDR_KIND_V4] ++ arr_list (v4_ip s) ++ be_bytes 2 (v4_port s))%list
  | V6 s => ([RV_ADDR_KIND_V6] ++ arr_list (v6_ip s) ++ be_bytes 2 (v6_port s))%list
  end.

Definition rv_encode (frame : RvFrame) : result Error (list byte) :=
  match frame with
  | ObserveReq => Ok [rv_to_byte OpObserveReq]
  | ObserveResp observed => Ok ([rv_to_byte OpObserveResp] ++ rv_encode_addr observed)%list
  | PunchReq target => Ok ([rv_to_byte OpPunchReq] ++ rv_encode_addr target)%list
  | PunchForward initiator => Ok ([rv_to_byte OpPunchForward] ++ rv_encode_addr initiator)%list
  | RelayDataReq target payload =>
      Ok ([rv_to_byte OpRelayDataReq] ++ rv_encode_addr target ++ payload)%list
  | RelayDataDeliver originator payload =>
      Ok ([rv_to_byte OpRelayDataDeliver] ++ rv_encode_addr originator ++ payload)%list
  | RelayFail peer reason =>
      Ok ([rv_to_byte OpRelayFail] ++ rv_encode_addr peer ++ str_bytes reason)%list
  end.

Definition rv_decode_addr_v4 (body : list byte) : result Error UdpAddr :=
  ip_slice ← ok_or_else (get_to 4 body) (rv_protocol_error "V4 addr needs 4 IP bytes");
  port_slice ← ok_or_else (get_range 4 RV_ADDR_V4_BODY_LEN body)
    (rv_protocol_error "V4 addr needs 2 port bytes");
  ip_arr ← ok_or_else (arr_try (n:=4) ip_slice) (rv_protocol_error "V4 IP slice not 4 bytes wide");
  port_arr ← ok_or_else (arr_try (n:=2) port_slice)
    (rv_protocol_error "V4 port slice not 2 bytes wide");
  let port := from_be (arr_list port_arr) in
  Ok (V4 (MkV4 ip_arr port)).

Definition rv_decode_addr_v6 (body : list byte) : result Error UdpAddr :=
  ip_slice ← ok_or_else (get_to 16 body) (rv_protocol_error "V6 addr needs 16 IP bytes");
  port_slice ← ok_or_else (get_range 16 RV_ADDR_V6_BODY_LEN body)
    (rv_protocol_error "V6 addr needs 2 port bytes");
  ip_arr ← ok_or_else (arr_try (n:=16) ip_slice) (rv_protocol_error "V6 IP slice not 16 bytes wide");
  port_arr ← ok_or_else (arr_try (n:=2) port_slice)
    (rv_protocol_error "V6 port slice not 2 bytes wide");
  let port := from_be (arr_list port_arr) in
  Ok (V6 (MkV6 ip_arr port u32_zero u32_zero)).

Definition rv_decode_addr (buf : list byte) : result Error (UdpAddr * nat) :=
  kind ← ok_or_else (head buf) (rv_protocol_error "addr kind byte missing");
  let body := default [] (get_from 1 buf) in
  if bool_decide (kind = RV_ADDR_KIND_V4) then
    addr ← rv_decode_addr_v4 body; Ok (addr, 1 + RV_ADDR_V4_BODY_LEN)
  else if bool_decide (kind = RV_ADDR_KIND_V6) then
    addr ← rv_decode_addr_v6 body; Ok (addr, 1 + RV_ADDR_V6_BODY_LEN)
  else Err (rv_protocol_error ("unknown addr kind 0x" ++ hex02 kind)).

Definition decode_relay_data_req (body : list byte) : result Error RvFrame :=
  '(target, consumed) ← rv_decode_addr body;
  let payload := default [] (get_from consumed body) in
  Ok (RelayDataReq target payload).

Definition decode_relay_data_deliver (body : list byte) : result Error RvFrame :=
  '(originator, consumed) ← rv_decode_addr body;
  let payload := default [] (get_from consumed body) in
  Ok (RelayDataDeliver originator payload).

Definition decode_relay_fail (body : list byte) : result Error RvFrame :=
  '(peer, consumed) ← rv_decode_addr body;
  let reason_bytes := default [] (get_from consumed body) in
  reason ← map_err (fun e =>
      rv_protocol_error ("RelayFail reason is not valid UTF-8: " ++ utf8_error_display e))
    (from_utf8 reason_bytes);
  Ok (RelayFail peer reason).

Definition decode_observe_req (body : list byte) : result Error RvFrame :=
  if (length body =? 0)%nat then Ok ObserveReq
  else Err (rv_protocol_error ("ObserveReq expects an empty body, got " ++ decn (length body)
         ++ " bytes")).

Definition decode_addr_body (body : list byte) (wrap : UdpAddr -> RvFrame) : result Error RvFrame :=
  '(addr, consumed) ← rv_decode_addr body;
  let trailing := default [] (get_from consumed body) in
  if (length trailing =? 0)%nat then Ok (wrap addr)
  else Err (rv_protocol_error ("addr-bearing frame has " ++ decn (length trailing)
         ++ " unexpected trailing bytes")).

Definition rv_decode (bytes : list byte) : result Error RvFrame :=
  opcode_byte ← ok_or_else (head bytes) (rv_protocol_error "rendezvous frame is empty");
  opcode ← rv_from_byte opcode_byte;
  let body := default [] (get_from 1 bytes) in
  match opcode with
  | OpObserveReq => decode_observe_req body
  | OpObserveResp => decode_addr_body body (fun observed => ObserveResp observed)
  | OpPunchReq => decode_addr_body body (fun target => PunchReq target)
  | OpPunchForward => decode_addr_body body (fun initiator => PunchForward initiator)
  | OpRelayDataReq => decode_relay_data_req body
  | OpRelayDataDeliver => decode_relay_data_deliver body
  | OpRelayFail => decode_relay_fail body
  end.

#[local] Close Scope string_scope.

(** ** The two copies of the address code are one function *)

Lemma rv_encode_addr_eq : rv_encode_addr = encode_addr.
Proof. reflexivity. Qed.
Lemma rv_decode_addr_eq : rv_decode_addr = decode_addr.
Proof. reflexivity. Qed.

(** ** What the wire keeps of a frame *)

Definition rv_wire (f : RvFrame) : RvFrame :=
  match f with
  | ObserveReq => ObserveReq
  | ObserveResp a => ObserveResp (wire_addr a)
  | PunchReq a => PunchReq (wire_addr a)
  | PunchForward a => PunchForward (wire_addr a)
  | RelayDataReq a p => RelayDataReq (wire_addr a) p
  | RelayDataDeliver a p => RelayDataDeliver (wire_addr a) p
  | RelayFail a r => RelayFail (wire_addr a) r
  end.

(** Frames the source can hold: a reason is a [String], so valid UTF-8. *)
Definition rv_frame_ok (f : RvFrame) : Prop :=
  match f with RelayFail _ reason => is_str reason = true | _ => True end.

(** The bytes of a frame: never an error. *)
Definition rv_bytes (f : RvFrame) : list byte :=
  match f with
  | ObserveReq => [x00]
  | ObserveResp a => x01 :: encode_addr a
  | PunchReq a => x02 :: encode_addr a
  | PunchForward a => x03 :: encode_addr a
  | RelayDataReq a p => x04 :: encode_addr a ++ p
  | RelayDataDeliver a p => x05 :: encode_addr a ++ p
  | RelayFail a r => x06 :: encode_addr a ++ str_bytes r
  end.

Lemma rv_encode_eq f : rv_encode f = Ok (rv_bytes f).
Proof. by destruct f. Qed.

Lemma decode_addr_body_encode a wrap :
  decode_addr_body (encode_addr a) wrap = Ok (wrap (wire_addr a)).
Proof.
  unfold decode_addr_body. rewrite rv_decode_addr_eq.
  pose proof (decode_encode_addr a []) as H. rewrite app_nil_r in H. rewrite H.
  cbn [mbind result_bind]. by rewrite get_from_unwrap_or, drop_ge.
Qed.

Lemma decode_addr_body_Ok body wrap f :
  decode_addr_body body wrap = Ok f ->
  exists a, f = wrap a /\ body = encode_addr a /\ wire_addr a = a.
Proof.
  unfold decode_addr_body. rewrite rv_decode_addr_eq.
  destruct (decode_addr body) as [[a n]|] eqn:E; [|done]. cbn [mbind result_bind].
  apply decode_addr_Ok in E as (rest & -> & -> & Ha).
  rewrite get_from_unwrap_or, drop_app_length. destruct rest; [|done]. intros [= <-].
  exists a. by rewrite app_nil_r.
Qed.

Lemma rv_decode_bytes f : rv_frame_ok f -> rv_decode (rv_bytes f) = Ok (rv_wire f).
Proof.
  unfold rv_decode. destruct f as [|a|a|a|a p|a p|a r]; intros Hf;
    cbn [rv_bytes head ok_or_else mbind result_bind rv_from_byte];
    rewrite get_from_unwrap_or, skipn_cons, drop_0; try apply decode_addr_body_encode; try done.
  - unfold decode_relay_data_req. rewrite rv_decode_addr_eq, decode_encode_addr.
    cbn [mbind result_bind]. by rewrite get_from_unwrap_or, drop_app_length.
  - unfold decode_relay_data_deliver. rewrite rv_decode_addr_eq, decode_encode_addr.
    cbn [mbind result_bind]. by rewrite get_from_unwrap_or, drop_app_length.
  - unfold decode_relay_fail. rewrite rv_decode_addr_eq, decode_encode_addr.
    cbn [mbind result_bind]. rewrite get_from_unwrap_or, drop_app_length.
    assert (Hr : from_utf8 (str_bytes r) = Ok r) by by apply from_utf8_Ok. by rewrite Hr.
Qed.

Lemma rv_decode_inv bytes f :
  rv_decode bytes = Ok f -> bytes = rv_bytes f /\ rv_wire f = f /\ rv_frame_ok f.
Proof.
  destruct bytes as [|op body]; [done|]. unfold rv_decode. cbn [head ok_or_else mbind result_bind].
  rewrite get_from_unwrap_or, skipn_cons, drop_0.
  destruct (rv_from_byte op) as [opcode|] eqn:Eop; [|done]. cbn [mbind result_bind].
  assert (Hop : op = rv_to_byte opcode) by (destruct op; cbn in Eop; by simplify_eq).
  clear Eop. subst op. destruct opcode; cbn [rv_to_byte].
  - unfold decode_observe_req. destruct body; [|done]. by intros [= <-].
  - intros (a & -> & -> & Ha)%decode_addr_body_Ok. cbn. by rewrite Ha.
  - intros (a & -> & -> & Ha)%decode_addr_body_Ok. cbn. by rewrite Ha.
  - intros (a & -> & -> & Ha)%decode_addr_body_Ok. cbn. by rewrite Ha.
  - unfold decode_relay_data_req. rewrite rv_decode_addr_eq.
    destruct (decode_addr body) as [[a n]|] eqn:E; [|done]. cbn [mbind result_bind].
    apply decode_addr_Ok in E as (rest & -> & -> & Ha).
    rewrite get_from_unwrap_or, drop_app_length. intros [= <-]. cbn. by rewrite Ha.
  - unfold decode_relay_data_deliver. rewrite rv_decode_addr_eq.
    destruct (decode_addr body) as [[a n]|] eqn:E; [|done]. cbn [mbind result_bind].
    apply decode_addr_Ok in E as (rest & -> & -> & Ha).
    rewrite get_from_unwrap_or, drop_app_length. intros [= <-]. cbn. by rewrite Ha.
  - unfold decode_relay_fail. rewrite rv_decode_addr_eq.
    destruct (decode_addr body) as [[a n]|] eqn:E; [|done]. cbn [mbind result_bind].
    apply decode_addr_Ok in E as (rest & -> & -> & Ha).
    rewrite get_from_unwrap_or, drop_app_length.
    destruct (from_utf8 rest) as [r|] eqn:Er; [|done]. cbn [map_err mbind result_bind].
    apply from_utf8_Ok in Er as [<- Hr]. intros [= <-]. cbn. by rewrite Ha.
Qed.

Lemma length_rv_bytes f :
  length (rv_bytes f) = match f with
    | ObserveReq => 1
    | ObserveResp a | PunchReq a | PunchForward a => 1 + addr_wire_len a
    | RelayDataReq a p | RelayDataDeliver a p => 1 + addr_wire_len a + length p
    | RelayFail a r => 1 + addr_wire_len a + length (str_bytes r)
    end.
Proof.
  destruct f; cbn [rv_bytes length]; rewrite ?length_app, ?length_encode_addr; done.
Qed.

(** ** Properties *)

(** C34: the rendezvous decoder accepts exactly the encodings of the frames the
    wire can carry (addresses without IPv6 flow and scope, reasons in UTF-8),
    so nothing may trail an address-bearing frame and no two byte strings
    decode to one frame; encoding never fails, and decoding what was encoded
    gives the frame back up to the IPv6 flow and scope. *)
Theorem rv_codec_exact (bytes : list byte) (f : RvFrame) :
  (rv_decode bytes = Ok f <-> rv_encode f = Ok bytes /\ rv_wire f = f /\ rv_frame_ok f) /\
  (rv_frame_ok f -> exists b, rv_encode f = Ok b /\ rv_decode b = Ok (rv_wire f) /\
     match f with
     | ObserveResp (V4 _) => length b = OBSERVE_RESP_V4_LEN
     | ObserveResp (V6 _) => length b = OBSERVE_RESP_V6_LEN
     | _ => True
     end).
Proof.
  split.
  - split.
    + intros (-> & Hw & Hf)%rv_decode_inv. by rewrite rv_encode_eq.
    + rewrite rv_encode_eq. intros ([= <-] & Hw & Hf). rewrite rv_decode_bytes by done. by rewrite Hw.
  - intros Hf. exists (rv_bytes f). split_and!; [apply rv_encode_eq|by apply rv_decode_bytes|].
    destruct f as [|[]| | | | |]; try done; by rewrite length_rv_bytes.
Qed.

Lemma rv_codec_exact_witness :
  let f := RelayFail (V4 (MkV4 (arr_repeat 4 x01) (uint_wrap 7))) "no session" in
  exists b, rv_encode f = Ok b /\ rv_decode b = Ok f.
Proof.
  intros f. destruct (rv_codec_exact [] f) as [_ H].
  destruct H as (b & He & Hd & _); [reflexivity|]. exists b. split; [exact He|exact Hd].
Defined.
