(* ===== verification/RendezvousNode.v ===== *)
(** * The rendezvous node

    Models src/crates/libp2p-cat-rendezvous/src/{event,node}.rs: a host that
    reports observed addresses, forwards punch requests and relays payloads.
    Names shared with the other protocols carry the prefix [rv]. *)

From S2P Require Export RendezvousCodec HostLink.

#[local] Open Scope string_scope.

Inductive RendezvousEvent : Type :=
| RvHandshakeProgress (addr : UdpAddr)
| RvHandshakeComplete (addr : UdpAddr) (remote_static : StaticPublicKey) (remote_peer_id : PeerId)
| ObserveRequestReceived (from : UdpAddr)
| ObserveResponseReceived (from observed : UdpAddr)
| PunchRequestReceived (from target : UdpAddr) (forwarded : bool)
| PunchForwardReceived (from initiator : UdpAddr)
| RelayForwarded (from target : UdpAddr) (forwarded : bool) (payload_len : nat)
| RelayReceived (from originator : UdpAddr) (payload : list byte)
| RelayFailed (from peer : UdpAddr) (reason : string)
| RvRejected (addr : UdpAddr) (reason : string).

Record RendezvousNode : Type := MkRendezvousNode { rv_host : Host }.

Definition PUNCH_BYTE : byte := x00.

Section node.
Context `{C : Crypto, RT : IoRuntime}.

Definition rv_new (host : Host) : RendezvousNode := MkRendezvousNode host.
Definition rv_split (n : RendezvousNode) : Host * () := (rv_host n, ()).
Definition rv_join (host : Host) (state : ()) : RendezvousNode := MkRendezvousNode host.
Definition rv_peer_id (n : RendezvousNode) : PeerId := id_peer_id (host_identity (rv_host n)).
Definition rv_local_addr (n : RendezvousNode) : result Error UdpAddr := host_local_addr (rv_host n).

Definition rv_dial (n : RendezvousNode) (addr : UdpAddr) (ephemeral_seed : arr 32)
    : Io Error RendezvousNode :=
  MkRendezvousNode <$> dial (rv_host n) addr ephemeral_seed.

Definition rv_send (n : RendezvousNode) (addr : UdpAddr) (plaintext : list byte)
    : Io Error RendezvousNode :=
  MkRendezvousNode <$> host_send (rv_host n) addr plaintext.

Definition send_observe_req (n : RendezvousNode) (server_addr : UdpAddr) : Io Error RendezvousNode :=
  bytes ← io_result (rv_encode ObserveReq);
  MkRendezvousNode <$> host_send (rv_host n) server_addr bytes.

Definition punch_via (n : RendezvousNode) (server_addr target_addr : UdpAddr)
    : Io Error RendezvousNode :=
  let frame := PunchReq target_addr in
  bytes ← io_result (rv_encode frame);
  MkRendezvousNode <$> host_send (rv_host n) server_addr bytes.

Definition relay_via (n : RendezvousNode) (server_addr target_addr : UdpAddr) (payload : list byte)
    : Io Error RendezvousNode :=
  let frame := RelayDataReq target_addr payload in
  bytes ← io_result (rv_encode frame);
  MkRendezvousNode <$> host_send (rv_host n) server_addr bytes.

(** ** Reacting to a frame *)

Definition auto_reply_observe (host : Host) (addr : UdpAddr) (wrap : list byte -> list byte)
    : Io Error (RendezvousNode * RendezvousEvent) :=
  let frame := ObserveResp addr in
  bytes ← io_result (rv_encode frame);
  (fun host => (MkRendezvousNode host, ObserveRequestReceived addr))
    <$> host_send host addr (wrap bytes).

Definition auto_forward_punch (host : Host) (from target : UdpAddr) (wrap : list byte -> list byte)
    : Io Error (RendezvousNode * RendezvousEvent) :=
  if is_established host target then
    let frame := PunchForward from in
    bytes ← io_result (rv_encode frame);
    (fun host => (MkRendezvousNode host, PunchRequestReceived from target true))
      <$> host_send host target (wrap bytes)
  else
    io_pure (MkRendezvousNode host, PunchRequestReceived from target false).

Definition auto_send_punch (host : Host) (from initiator : UdpAddr)
    : Io Error (RendezvousNode * RendezvousEvent) :=
  (fun host => (MkRendezvousNode host, PunchForwardReceived from initiator))
    <$> send_raw host initiator [PUNCH_BYTE].

Definition auto_forward_relay (host : Host) (from target : UdpAddr) (payload : list byte)
    (wrap : list byte -> list byte) : Io Error (RendezvousNode * RendezvousEvent) :=
  let payload_len := length payload in
  if is_established host target then
    let frame := RelayDataDeliver from payload in
    bytes ← io_result (rv_encode frame);
    (fun host => (MkRendezvousNode host, RelayForwarded from target true payload_len))
      <$> host_send host target (wrap bytes)
  else
    let frame := RelayFail target
      ("relay: no established session with " ++ udp_addr_display target) in
    bytes ← io_result (rv_encode frame);
    (fun host => (MkRendezvousNode host, RelayForwarded from target false payload_len))
      <$> host_send host from (wrap bytes).

Definition rv_handle_datagram (host : Host) (addr : UdpAddr) (plaintext : list byte)
    (wrap : list byte -> list byte) : Io Error (RendezvousNode * RendezvousEvent) :=
  match rv_decode plaintext with
  | Err e =>
      io_pure (MkRendezvousNode host,
               RvRejected addr ("rendezvous decode failed: " ++ error_display e))
  | Ok ObserveReq => auto_reply_observe host addr wrap
  | Ok (ObserveResp observed) =>
      io_pure (MkRendezvousNode host, ObserveResponseReceived addr observed)
  | Ok (PunchReq target) => auto_forward_punch host addr target wrap
  | Ok (PunchForward initiator) => auto_send_punch host addr initiator
  | Ok (RelayDataReq target payload) => auto_forward_relay host addr target payload wrap
  | Ok (RelayDataDeliver originator payload) =>
      io_pure (MkRendezvousNode host, RelayReceived addr originator payload)
  | Ok (RelayFail peer reason) => io_pure (MkRendezvousNode host, RelayFailed addr peer reason)
  end.

Definition rv_process_plaintext_with_wrap (n : RendezvousNode) (addr : UdpAddr)
    (plaintext : list byte) (wrap : list byte -> list byte)
    : Io Error (RendezvousNode * RendezvousEvent) :=
  rv_handle_datagram (rv_host n) addr plaintext wrap.

Definition rv_identity_wrap (bytes : list byte) : list byte := bytes.

Definition rv_process_plaintext (n : RendezvousNode) (addr : UdpAddr) (plaintext : list byte)
    : Io Error (RendezvousNode * RendezvousEvent) :=
  rv_process_plaintext_with_wrap n addr plaintext rv_identity_wrap.

(** ** Receiving *)

Definition rv_handle_host_event (host : Host) (event : HostEvent)
    : Io Error (RendezvousNode * RendezvousEvent) :=
  match event with
  | HandshakeProgress addr => io_pure (MkRendezvousNode host, RvHandshakeProgress addr)
  | HandshakeComplete addr remote_static remote_peer_id =>
      io_pure (MkRendezvousNode host, RvHandshakeComplete addr remote_static remote_peer_id)
  | Rejected addr reason => io_pure (MkRendezvousNode host, RvRejected addr reason)
  | DatagramDelivered addr plaintext => rv_process_plaintext (MkRendezvousNode host) addr plaintext
  end.

Definition rv_recv_one (n : RendezvousNode) (ephemeral_seed : arr 32)
    : Io Error (RendezvousNode * RendezvousEvent) :=
  '(host, host_event) ← recv_one (rv_host n) ephemeral_seed;
  rv_handle_host_event host host_event.

(** The source's recursion has no bound: it ends when the response arrives
    or a call fails.  Every turn takes a datagram from the inbox, so fuel
    beyond the inbox is never used up ([drain_fuel_enough]); a run that
    would exhaust it is one that never returns. *)
Fixpoint drain_for_observe_response (fuel : nat) (node : RendezvousNode) (server_addr : UdpAddr)
    (seed_factory : SeedFactory) : Io Error (RendezvousNode * UdpAddr) :=
  match fuel with
  | 0 => io_suspend (fun w => (Blocked, w))
  | S fuel' =>
      seed ← next_seed seed_factory;
      '(node, ev) ← rv_recv_one node seed;
      let continue_ := drain_for_observe_response fuel' node server_addr seed_factory in
      match ev with
      | ObserveResponseReceived from observed =>
          if bool_decide (from = server_addr) then io_pure (node, observed) else continue_
      | RvHandshakeProgress _ | RvHandshakeComplete _ _ _ | ObserveRequestReceived _
      | PunchRequestReceived _ _ _ | PunchForwardReceived _ _ | RelayForwarded _ _ _ _
      | RelayReceived _ _ _ | RelayFailed _ _ _ | RvRejected _ _ => continue_
      end
  end.

Definition observe_self (fuel : nat) (n : RendezvousNode) (server_addr : UdpAddr)
    (seed_factory : SeedFactory) : Io Error (RendezvousNode * UdpAddr) :=
  node ← send_observe_req n server_addr;
  drain_for_observe_response fuel node server_addr seed_factory.

End node.

#[local] Close Scope string_scope.

(** ** The host under the node *)

Section post.
Context `{C : Crypto, RT : IoRuntime, !IoLaws RT}.

(** Every operation is a run of host steps. *)
Definition rv_runs (n n' : RendezvousNode) : Prop := rtc host_step (rv_host n) (rv_host n').

Lemma rv_send_post {A} h a p (f : Host -> A) (P : A -> Prop) :
  (forall h', host_step h h' -> P (f h')) -> io_post (f <$> host_send h a p) P.
Proof.
  intros HP. eapply io_post_fmap with (P := host_step h); [|done].
  intros w h' w' Hr. by econstructor.
Qed.

Lemma rv_send_frame_post {A} h a frame wrap (f : Host -> A) (P : A -> Prop) :
  (forall h', host_step h h' -> P (f h')) ->
  io_post (bytes ← io_result (rv_encode frame); f <$> host_send h a (wrap bytes)) P.
Proof.
  intros HP. eapply (io_post_bind _ _ (fun _ => True)); [by apply io_post_result|].
  intros bytes _. by apply rv_send_post.
Qed.

(** The event of a plaintext from [a]: what its frame asks or says, a request
    to forward saying whether its target has a session. *)
Definition rv_event (h : Host) (a : UdpAddr) (p : list byte) : RendezvousEvent :=
  match rv_decode p with
  | Err e => RvRejected a ("rendezvous decode failed: " ++ error_display e)%string
  | Ok ObserveReq => ObserveRequestReceived a
  | Ok (ObserveResp o) => ObserveResponseReceived a o
  | Ok (PunchReq t) => PunchRequestReceived a t (is_established h t)
  | Ok (PunchForward i) => PunchForwardReceived a i
  | Ok (RelayDataReq t pl) => RelayForwarded a t (is_established h t) (length pl)
  | Ok (RelayDataDeliver o pl) => RelayReceived a o pl
  | Ok (RelayFail p r) => RelayFailed a p r
  end.

Lemma rv_process_post n a p wrap :
  io_post (rv_process_plaintext_with_wrap n a p wrap)
    (fun '(n', ev) => rv_runs n n' /\ ev = rv_event (rv_host n) a p).
Proof.
  destruct n as [h]. unfold rv_process_plaintext_with_wrap, rv_handle_datagram, rv_runs, rv_event. cbn [rv_host].
  destruct (rv_decode p) as [[|o|t|i|t pl|o pl|pr r]|e];
    try (apply io_post_pure; by split; [apply rtc_refl|]).
  - apply rv_send_frame_post. intros h' Hs. by split; [apply rtc_once|].
  - unfold auto_forward_punch. destruct (is_established h t); [|by apply io_post_pure; split; [apply rtc_refl|]].
    apply rv_send_frame_post. intros h' Hs. by split; [apply rtc_once|].
  - eapply io_post_fmap with (P := host_step h); [intros w h' w' Hr; by econstructor|].
    intros h' Hs. by split; [apply rtc_once|].
  - unfold auto_forward_relay. destruct (is_established h t);
      apply rv_send_frame_post; intros h' Hs; by split; [apply rtc_once|].
Qed.

Lemma rv_recv_post n seed :
  io_post (rv_recv_one n seed) (fun '(n', _) => rv_runs n n').
Proof.
  eapply (io_post_bind _ _ (fun '(h', _) => host_step (rv_host n) h')).
  { intros w [h' ev] w' Hr. by econstructor. }
  intros [h' ev] Hs. destruct ev as [a|a rs pid|a p|a r]; cbn [rv_handle_host_event];
    try (apply io_post_pure; by apply rtc_once).
  eapply io_post_weaken; [apply rv_process_post|]. intros [n' ev'] [Hr _]. cbn in Hr |- *.
  eapply rtc_l; [exact Hs|exact Hr].
Qed.

Lemma drain_observe_post fuel : forall n s f,
  io_post (drain_for_observe_response fuel n s f) (fun '(n', _) => rv_runs n n').
Proof.
  induction fuel as [|fuel IH]; intros n s f; cbn [drain_for_observe_response].
  { intros w r w'. by rewrite run_suspend. }
  eapply (io_post_bind _ _ (fun _ => True)); [by intros ?|]. intros seed _.
  eapply io_post_bind; [apply rv_recv_post|]. intros [n1 ev] Hr.
  assert (Hrec : io_post (drain_for_observe_response fuel n1 s f) (fun '(n', _) => rv_runs n n')).
  { eapply io_post_weaken; [apply IH|]. intros [n2 o] Hr2. unfold rv_runs in *. by etrans. }
  destruct ev; try exact Hrec. case_bool_decide; [by apply io_post_pure|exact Hrec].
Qed.

(** ** Reading: each turn takes one datagram *)

Lemma rv_process_inbox n a p wrap w r w' :
  io_run (rv_process_plaintext_with_wrap n a p wrap) w = (Returned (Ok r), w') ->
  w_inbox w' = w_inbox w.
Proof.
  destruct n as [h]. unfold rv_process_plaintext_with_wrap, rv_handle_datagram. cbn [rv_host].
  assert (Hsend : forall {A} b frame (f : Host -> A) x w1, io_run (bytes ← io_result (rv_encode frame);
      f <$> host_send h b (wrap bytes)) w = (Returned (Ok x), w1) -> w_inbox w1 = w_inbox w).
  { intros A b frame f x w1. rewrite run_bind_eq, run_result, rv_encode_eq. cbn [run_bind].
    rewrite run_fmap_eq. intros (h' & w2 & Hs & [= _ <-])%run_bind_Ok.
    by apply send_sound in Hs as (? & ? & ? & _ & _ & _ & ->). }
  destruct (rv_decode p) as [[|o|t|i|t pl|o pl|pr rs]|e];
    try (rewrite run_pure; by intros [= _ <-]).
  - apply Hsend.
  - unfold auto_forward_punch. destruct (is_established h t); [apply Hsend|].
    rewrite run_pure. by intros [= _ <-].
  - unfold auto_send_punch. rewrite run_fmap_eq. intros (h' & w2 & Hs & [= _ <-])%run_bind_Ok.
    by apply send_raw_sound in Hs as [_ ->].
  - unfold auto_forward_relay. destruct (is_established h t); apply Hsend.
Qed.

Lemma rv_recv_inbox n seed w r w' :
  io_run (rv_recv_one n seed) w = (Returned (Ok r), w') -> exists m, w_inbox w = m :: w_inbox w'.
Proof.
  unfold rv_recv_one. rewrite run_bind_eq. intros ([h ev] & w1 & Hr & Hh)%run_bind_Ok.
  apply recv_one_sound in Hr as (from & d & inbox & reply & Hin & _ & ->).
  assert (Hw1 : w_inbox (world_reply (world_received w) from reply) = inbox).
  { destruct reply; cbn; by rewrite Hin. }
  exists (Ok (socket_of_udp from, d)). rewrite Hin. f_equal. rewrite <- Hw1.
  destruct ev as [a|a rs pid|a p|a r']; cbn [rv_handle_host_event] in Hh.
  1, 2, 4: rewrite run_pure in Hh; by injection Hh as _ <-.
  symmetry. by eapply rv_process_inbox.
Qed.

(** More fuel than datagrams is never used up. *)
Lemma drain_fuel_enough fuel : forall fuel' n s f w,
  length (w_inbox w) < fuel -> length (w_inbox w) < fuel' ->
  io_run (drain_for_observe_response fuel n s f) w = io_run (drain_for_observe_response fuel' n s f) w.
Proof.
  induction fuel as [|fuel IH]; intros fuel' n s f w Hf Hf'; [lia|].
  destruct fuel' as [|fuel']; [lia|]. cbn [drain_for_observe_response].
  rewrite !run_bind_eq. destruct (io_run (next_seed f) w) as [[[seed|e]|] w1] eqn:Es; try done.
  cbn [run_bind]. rewrite !run_bind_eq.
  assert (Hw1 : w_inbox w1 = w_inbox w).
  { unfold next_seed in Es. rewrite run_suspend in Es. cbn in Es. by injection Es as _ <-. }
  destruct (io_run (rv_recv_one n seed) w1) as [[[[n1 ev]|e]|] w2] eqn:Er; try done.
  cbn [run_bind]. apply rv_recv_inbox in Er as [m Hm]. rewrite Hw1 in Hm.
  assert (H2 : length (w_inbox w) = S (length (w_inbox w2))) by (by rewrite Hm).
  assert (Hrec : io_run (drain_for_observe_response fuel n1 s f) w2 =
    io_run (drain_for_observe_response fuel' n1 s f) w2) by (apply IH; lia).
  destruct ev; try exact Hrec. by case_bool_decide.
Qed.

End post.
