(* ===== verification/RendezvousProps.v ===== *)
(** * Rendezvous nodes at work

    What the exchanges of src/crates/libp2p-cat-rendezvous achieve: a client
    learns its observed address, a server forwards punches and payloads or
    says why not, and what every operation keeps of the host. *)

From S2P Require Export RendezvousNode.

#[local] Open Scope string_scope.

(** ** One frame over a link *)

Section lemmas.
Context `{C : Crypto, RT : IoRuntime, !IoLaws RT}.

Lemma run_rv_send h b f w r w' :
  io_run (host_send h b (rv_bytes f)) w = (Returned (Ok r), w') ->
  io_run (bytes ← io_result (rv_encode f); MkRendezvousNode <$> host_send h b bytes) w =
    (Returned (Ok (MkRendezvousNode r)), w').
Proof.
  intros Hs. rewrite run_bind_eq, run_result, rv_encode_eq. cbn [run_bind].
  by rewrite run_fmap_eq, Hs.
Qed.

Lemma run_rv_reply {A} h b f (g : Host -> A) w r w' :
  io_run (host_send h b (rv_bytes f)) w = (Returned (Ok r), w') ->
  io_run (bytes ← io_result (rv_encode f); g <$> host_send h b (rv_identity_wrap bytes)) w =
    (Returned (Ok (g r)), w').
Proof.
  intros Hs. unfold rv_identity_wrap. rewrite run_bind_eq, run_result, rv_encode_eq. cbn [run_bind].
  by rewrite run_fmap_eq, Hs.
Qed.

Lemma run_rv_recv h h' seed a p w w' :
  io_run (recv_one h seed) w = (Returned (Ok (h', DatagramDelivered a p)), w') ->
  io_run (rv_recv_one (MkRendezvousNode h) seed) w =
    io_run (rv_process_plaintext (MkRendezvousNode h') a p) w'.
Proof. intros Hr. unfold rv_recv_one. cbn [rv_host]. by rewrite run_bind_eq, Hr. Qed.

(** The bare byte. *)
Lemma run_punch h addr w :
  (1 <= max_send_payload (host_socket h))%N -> send_fault w = None ->
  io_run (send_raw h addr [PUNCH_BYTE]) w =
    (Returned (Ok (host_with h (host_handshakes h) (host_established h) (next_tick h))),
     world_sent w addr [PUNCH_BYTE]).
Proof.
  intros Hmax Hf. unfold send_raw. destruct h as [sock ident hs es cap tick].
  cbn [host_socket] in Hmax. rewrite run_send_map. unfold after_reply. rewrite Hf.
  destruct (N.ltb_spec (max_send_payload sock) (N.of_nat (length [PUNCH_BYTE]))) as [H|]; [|done].
  cbn in H. lia.
Qed.

Context `{!CryptoLaws C}.

(** A frame sent over a link reaches [rv_process_plaintext] as its wire form. *)
Lemma rv_transfer hA a hB b k f :
  linked hA a hB b (k + 1) -> payload_fits hA (rv_bytes f) -> rv_frame_ok f ->
  exists hA' d hB',
    (forall w, send_fault w = None ->
       io_run (bytes ← io_result (rv_encode f); MkRendezvousNode <$> host_send hA b bytes) w =
         (Returned (Ok (MkRendezvousNode hA')), world_sent w b d)) /\
    (forall w, send_fault w = None ->
       io_run (host_send hA b (rv_bytes f)) w = (Returned (Ok hA'), world_sent w b d)) /\
    (forall seed w inbox, w_inbox w = Ok (socket_of_udp a, d) :: inbox ->
       io_run (rv_recv_one (MkRendezvousNode hB) seed) w =
         io_run (rv_process_plaintext (MkRendezvousNode hB') a (rv_bytes f)) (world_received w)) /\
    rv_decode (rv_bytes f) = Ok (rv_wire f) /\
    linked hA' a hB' b k /\ host_frame hA hA' /\ host_frame hB hB' /\
    (forall x, x <> b -> host_established hA' !! x = host_established hA !! x) /\
    (forall x, x <> a -> host_established hB' !! x = host_established hB !! x).
Proof.
  intros Hl Hfit Hf.
  destruct (linked_transfer hA a hB b k (rv_bytes f) Hl Hfit)
    as (hA' & d & hB' & Hs & Hr & Hl' & FA & FB & _ & _ & EA & EB).
  exists hA', d, hB'. split_and!; try done.
  - intros w Hw. by apply run_rv_send, Hs.
  - intros seed w inbox Hw. by eapply run_rv_recv, Hr.
  - by apply rv_decode_bytes.
Qed.

(** Both ends of a link know each other as established. *)
Lemma linked_is_established_r hA a hB b k : linked hA a hB b k -> is_established hB a = true.
Proof. intros Hl%linked_sym. by eapply linked_established. Qed.

End lemmas.

(** ** What a client asks of a server, and what comes of it *)

Inductive RvTask : Type :=
| AskPunch
| AskRelay (payload : list byte).

Definition task_frame (target : UdpAddr) (k : RvTask) : RvFrame :=
  match k with AskPunch => PunchReq target | AskRelay p => RelayDataReq target p end.

(** The frame the server sends to the target of a request from [from]. *)
Definition task_forward (from : UdpAddr) (k : RvTask) : RvFrame :=
  match k with AskPunch => PunchForward from | AskRelay p => RelayDataDeliver from p end.

Definition task_event (from target : UdpAddr) (forwarded : bool) (k : RvTask) : RendezvousEvent :=
  match k with
  | AskPunch => PunchRequestReceived from target forwarded
  | AskRelay p => RelayForwarded from target forwarded (length p)
  end.

Definition no_session_reason (target : UdpAddr) : string :=
  "relay: no established session with " ++ udp_addr_display target.

Lemma no_session_str target : is_str (no_session_reason target) = true.
Proof. apply is_ascii_is_str. unfold no_session_reason. by rewrite is_ascii_app, is_ascii_addr. Qed.

Section exchanges.
Context `{C : Crypto, RT : IoRuntime, !IoLaws RT, !CryptoLaws C}.

Definition rv_ask (n : RendezvousNode) (server target : UdpAddr) (k : RvTask)
    : Io Error RendezvousNode :=
  match k with
  | AskPunch => punch_via n server target
  | AskRelay p => relay_via n server target p
  end.

Lemma rv_ask_eq n s t k :
  rv_ask n s t k =
    (bytes ← io_result (rv_encode (task_frame t k)); MkRendezvousNode <$> host_send (rv_host n) s bytes).
Proof. by destruct k. Qed.

Lemma task_frame_ok t k : rv_frame_ok (task_frame t k).
Proof. by destruct k. Qed.
Lemma task_forward_ok t k : rv_frame_ok (task_forward t k).
Proof. by destruct k. Qed.
Lemma task_frame_wire t k : rv_wire (task_frame t k) = task_frame (wire_addr t) k.
Proof. by destruct k. Qed.
Lemma task_forward_wire t k : rv_wire (task_forward t k) = task_forward (wire_addr t) k.
Proof. by destruct k. Qed.

(** The server's side of a request it can forward. *)
Lemma run_process_forward h a t k p h' w w' :
  rv_decode p = Ok (task_frame t k) -> is_established h t = true ->
  io_run (host_send h t (rv_bytes (task_forward a k))) w = (Returned (Ok h'), w') ->
  io_run (rv_process_plaintext (MkRendezvousNode h) a p) w =
    (Returned (Ok (MkRendezvousNode h', task_event a t true k)), w').
Proof.
  intros Hd He Hs. unfold rv_process_plaintext, rv_process_plaintext_with_wrap, rv_handle_datagram.
  rewrite Hd. destruct k; cbn [task_frame]; unfold auto_forward_punch, auto_forward_relay;
    cbn [rv_host]; rewrite He;
    [exact (run_rv_reply h t (PunchForward a) _ w h' w' Hs)
    |exact (run_rv_reply h t (RelayDataDeliver a payload) _ w h' w' Hs)].
Qed.

(** ** Properties *)

(** C25: a punch or relay request is carried through: the client's
    call sends one datagram; the server, which holds a session with the
    target, reports the request as forwarded and sends one datagram to the
    target; the target then reports exactly the payload relayed, with the
    client's address as the wire carries it, or answers the punch with one
    bare byte to that address; and both sessions remain usable. *)
Theorem rv_request_forwarded (nA nS nB : RendezvousNode) (a s b : UdpAddr) (k : RvTask)
    (sS sB : arr 32) :
  linked (rv_host nA) a (rv_host nS) s 1 -> linked (rv_host nS) s (rv_host nB) b 1 ->
  a <> b -> wire_addr b = b ->
  payload_fits (rv_host nA) (rv_bytes (task_frame b k)) ->
  payload_fits (rv_host nS) (rv_bytes (task_forward a k)) ->
  (1 <= max_send_payload (host_socket (rv_host nB)))%N ->
  exists nA' d nS' d' nB',
    (forall w, send_fault w = None ->
       io_run (rv_ask nA s b k) w = (Returned (Ok nA'), world_sent w s d)) /\
    (forall w inbox, w_inbox w = Ok (socket_of_udp a, d) :: inbox -> send_fault w = None ->
       io_run (rv_recv_one nS sS) w =
         (Returned (Ok (nS', task_event a b true k)), world_sent (world_received w) b d')) /\
    (forall w inbox, w_inbox w = Ok (socket_of_udp s, d') :: inbox -> send_fault w = None ->
       io_run (rv_recv_one nB sB) w =
         match k with
         | AskPunch =>
             (Returned (Ok (nB', PunchForwardReceived s (wire_addr a))),
              world_sent (world_received w) (wire_addr a) [PUNCH_BYTE])
         | AskRelay p =>
             (Returned (Ok (nB', RelayReceived s (wire_addr a) p)), world_received w)
         end) /\
    linked (rv_host nA') a (rv_host nS') s 0 /\ linked (rv_host nS') s (rv_host nB') b 0.
Proof.
  destruct nA as [hA], nS as [hS], nB as [hB]. cbn [rv_host].
  intros HAS HSB Hab Hb HfA HfS HmaxB.
  destruct (rv_transfer hA a hS s 0 (task_frame b k) HAS HfA (task_frame_ok b k))
    as (hA1 & d & hS1 & Hs1 & _ & Hr1 & Hd1 & HAS1 & _ & FS1 & _ & ES1).
  rewrite task_frame_wire, Hb in Hd1.
  assert (HSB1 : linked hS1 s hB b 1) by (eapply linked_frame; [done..|by apply ES1]).
  assert (HfS1 : payload_fits hS1 (rv_bytes (task_forward a k))).
  { unfold payload_fits in *. destruct FS1 as (-> & _). done. }
  destruct (rv_transfer hS1 s hB b 0 (task_forward a k) HSB1 HfS1 (task_forward_ok a k))
    as (hS2 & d' & hB1 & _ & Hs2 & Hr2 & Hd2 & HSB2 & FS2 & FB & ES2 & _).
  rewrite task_forward_wire in Hd2.
  assert (HAS2 : linked hA1 a hS2 s 0).
  { apply linked_sym. eapply linked_frame; [by apply linked_sym|done|by apply ES2]. }
  set (hB2 := match k with
    | AskPunch => host_with hB1 (host_handshakes hB1) (host_established hB1) (next_tick hB1)
    | AskRelay _ => hB1 end).
  exists (MkRendezvousNode hA1), d, (MkRendezvousNode hS2), d', (MkRendezvousNode hB2). split_and!.
  - intros w Hw. rewrite rv_ask_eq. by apply Hs1.
  - intros w inbox Hw Hf. rewrite (Hr1 _ _ _ Hw). apply run_process_forward; [done| |by apply Hs2].
    by eapply linked_established.
  - intros w inbox Hw Hf. rewrite (Hr2 _ _ _ Hw).
    unfold rv_process_plaintext, rv_process_plaintext_with_wrap, rv_handle_datagram. rewrite Hd2.
    destruct k; cbn [task_forward]; [|by rewrite run_pure]. unfold auto_send_punch.
    rewrite run_fmap_eq. cbn [rv_host]. rewrite run_punch; [done| |done].
    destruct FB as (-> & _). done.
  - done.
  - apply linked_sym. eapply linked_frame; [by apply linked_sym|..]; by destruct k.
Qed.

(** A request whose target has no session with the server is
    reported as not forwarded; a punch request then sends nothing, and a
    relay request is answered over the requester's own session, who reports
    the failure with the target and the server's reason. *)
Theorem rv_request_refused (nA nS : RendezvousNode) (a s t : UdpAddr) (k : RvTask)
    (sS sA : arr 32) :
  linked (rv_host nA) a (rv_host nS) s 2 -> is_established (rv_host nS) (wire_addr t) = false ->
  payload_fits (rv_host nA) (rv_bytes (task_frame t k)) ->
  payload_fits (rv_host nS)
    (rv_bytes (RelayFail (wire_addr t) (no_session_reason (wire_addr t)))) ->
  exists nA' d nS',
    (forall w, send_fault w = None ->
       io_run (rv_ask nA s t k) w = (Returned (Ok nA'), world_sent w s d)) /\
    match k with
    | AskPunch =>
        (forall w inbox, w_inbox w = Ok (socket_of_udp a, d) :: inbox ->
           io_run (rv_recv_one nS sS) w =
             (Returned (Ok (nS', PunchRequestReceived a (wire_addr t) false)), world_received w)) /\
        linked (rv_host nA') a (rv_host nS') s 1
    | AskRelay p =>
        exists d' nA'',
        (forall w inbox, w_inbox w = Ok (socket_of_udp a, d) :: inbox -> send_fault w = None ->
           io_run (rv_recv_one nS sS) w =
             (Returned (Ok (nS', RelayForwarded a (wire_addr t) false (length p))),
              world_sent (world_received w) a d')) /\
        (forall w inbox, w_inbox w = Ok (socket_of_udp s, d') :: inbox ->
           io_run (rv_recv_one nA' sA) w =
             (Returned (Ok (nA'', RelayFailed s (wire_addr t) (no_session_reason (wire_addr t)))),
              world_received w)) /\
        linked (rv_host nA'') a (rv_host nS') s 0
    end.
Proof.
  destruct nA as [hA], nS as [hS]. cbn [rv_host]. intros HAS Ht HfA HfS.
  assert (Hta : wire_addr t <> a).
  { intros E. by rewrite E, (linked_is_established_r _ _ _ _ _ HAS) in Ht. }
  destruct (rv_transfer hA a hS s 1 (task_frame t k) HAS HfA (task_frame_ok t k))
    as (hA1 & d & hS1 & Hs1 & _ & Hr1 & Hd1 & HAS1 & _ & FS1 & _ & ES1).
  rewrite task_frame_wire in Hd1.
  assert (Ht1 : is_established hS1 (wire_addr t) = false).
  { revert Ht. unfold is_established, contains_key. by rewrite ES1. }
  set (fail := RelayFail (wire_addr t) (no_session_reason (wire_addr t))) in *.
  destruct k as [|p]; cbn [task_frame] in Hd1, Hr1.
  - exists (MkRendezvousNode hA1), d, (MkRendezvousNode hS1). split_and!; [|..|done].
    + intros w Hw. rewrite rv_ask_eq. by apply Hs1.
    + intros w inbox Hw. rewrite (Hr1 _ _ _ Hw).
      unfold rv_process_plaintext, rv_process_plaintext_with_wrap, rv_handle_datagram. rewrite Hd1.
      unfold auto_forward_punch. cbn [rv_host]. by rewrite Ht1, run_pure.
  - assert (HfS1 : payload_fits hS1 (rv_bytes fail)).
    { unfold payload_fits in *. destruct FS1 as (-> & _). done. }
    destruct (rv_transfer hS1 s hA1 a 0 fail (linked_sym _ _ _ _ _ HAS1) HfS1 (no_session_str _))
      as (hS2 & d' & hA2 & _ & Hs2 & Hr2 & Hd2 & HSA2 & _).
    exists (MkRendezvousNode hA1), d, (MkRendezvousNode hS2).
    split; [intros w Hw; rewrite rv_ask_eq; by apply Hs1|].
    exists d', (MkRendezvousNode hA2). split_and!; [..|by apply linked_sym].
    + intros w inbox Hw Hf. rewrite (Hr1 _ _ _ Hw).
      unfold rv_process_plaintext, rv_process_plaintext_with_wrap, rv_handle_datagram. rewrite Hd1.
      unfold auto_forward_relay. cbn [rv_host]. rewrite Ht1.
      apply (run_rv_reply hS1 a fail (fun host =>
        (MkRendezvousNode host, RelayForwarded a (wire_addr t) false (length p)))). by apply Hs2.
    + intros w inbox Hw. rewrite (Hr2 _ _ _ Hw).
      unfold rv_process_plaintext, rv_process_plaintext_with_wrap, rv_handle_datagram. rewrite Hd2.
      unfold fail. cbn [rv_wire]. by rewrite wire_addr_idem, run_pure.
Qed.

(** One turn of the drain that does not end it. *)
Lemma drain_turn fuel n s f w seed w1 n' ev w2 :
  io_run (next_seed (E:=Error) f) w = (Returned (Ok seed), w1) ->
  io_run (rv_recv_one n seed) w1 = (Returned (Ok (n', ev)), w2) ->
  io_run (drain_for_observe_response (S fuel) n s f) w =
    match ev with
    | ObserveResponseReceived from observed =>
        if bool_decide (from = s) then (Returned (Ok (n', observed)), w2)
        else io_run (drain_for_observe_response fuel n' s f) w2
    | _ => io_run (drain_for_observe_response fuel n' s f) w2
    end.
Proof.
  intros Hs Hr. cbn [drain_for_observe_response]. rewrite run_bind_eq, Hs. cbn [run_bind].
  rewrite run_bind_eq, Hr. cbn [run_bind]. destruct ev; try done.
  case_bool_decide; [apply run_pure|done].
Qed.

(** [observe_self] tells a client the address its server sees it
    at: the client sends one request; the server's [recv_one] reports it and
    sends one answer; and with that answer next in the client's inbox,
    [observe_self] returns the client's address, as the wire carries it,
    having sent the request, read that one datagram and drawn one seed.  Any
    fuel beyond the inbox gives the same run. *)
Theorem rv_observe_self (nA nS : RendezvousNode) (a s : UdpAddr) (sS : arr 32) :
  linked (rv_host nA) a (rv_host nS) s 2 ->
  payload_fits (rv_host nA) (rv_bytes ObserveReq) ->
  payload_fits (rv_host nS) (rv_bytes (ObserveResp a)) ->
  exists d nS' d' nA',
    (forall w inbox, w_inbox w = Ok (socket_of_udp a, d) :: inbox -> send_fault w = None ->
       io_run (rv_recv_one nS sS) w =
         (Returned (Ok (nS', ObserveRequestReceived a)), world_sent (world_received w) a d')) /\
    (forall fuel f w inbox, w_inbox w = Ok (socket_of_udp s, d') :: inbox -> send_fault w = None ->
       length (w_inbox w) < fuel ->
       io_run (observe_self fuel nA s f) w =
         (Returned (Ok (nA', wire_addr a)), world_received (call_seed f (world_sent w s d)).2)) /\
    (forall fuel fuel' f w, length (w_inbox w) < fuel -> length (w_inbox w) < fuel' ->
       io_run (observe_self fuel nA s f) w = io_run (observe_self fuel' nA s f) w) /\
    linked (rv_host nA') a (rv_host nS') s 0.
Proof.
  destruct nA as [hA], nS as [hS]. cbn [rv_host]. intros HAS HfA HfS.
  destruct (rv_transfer hA a hS s 1 ObserveReq HAS HfA I)
    as (hA1 & d & hS1 & Hs1 & _ & Hr1 & Hd1 & HAS1 & _ & FS1 & _ & _).
  assert (HfS1 : payload_fits hS1 (rv_bytes (ObserveResp a))).
  { unfold payload_fits in *. destruct FS1 as (-> & _). done. }
  destruct (rv_transfer hS1 s hA1 a 0 (ObserveResp a) (linked_sym _ _ _ _ _ HAS1) HfS1 I)
    as (hS2 & d' & hA2 & _ & Hs2 & Hr2 & Hd2 & HSA2 & _).
  exists d, (MkRendezvousNode hS2), d', (MkRendezvousNode hA2).
  split_and!; [..|by apply linked_sym].
  - intros w inbox Hw Hf. rewrite (Hr1 _ _ _ Hw).
    unfold rv_process_plaintext, rv_process_plaintext_with_wrap, rv_handle_datagram. rewrite Hd1.
    apply (run_rv_reply hS1 a (ObserveResp a)
      (fun host => (MkRendezvousNode host, ObserveRequestReceived a))). by apply Hs2.
  - intros fuel f w inbox Hw Hf Hfuel. destruct fuel as [|fuel]; [rewrite Hw in Hfuel; cbn in Hfuel; lia|].
    unfold observe_self, send_observe_req. rewrite run_bind_eq. cbn [rv_host].
    rewrite Hs1 by done. cbn [run_bind].
    destruct (call_seed f (world_sent w s d)) as [seed w1] eqn:Ecs.
    assert (Hw1 : w_inbox w1 = Ok (socket_of_udp s, d') :: inbox) by (by injection Ecs as _ <-).
    rewrite (drain_turn _ _ _ _ _ seed w1 (MkRendezvousNode hA2)
      (ObserveResponseReceived s (wire_addr a)) (world_received w1)).
    + by rewrite bool_decide_eq_true_2.
    + unfold next_seed. rewrite run_suspend. by rewrite Ecs.
    + rewrite (Hr2 _ _ _ Hw1).
      unfold rv_process_plaintext, rv_process_plaintext_with_wrap, rv_handle_datagram. rewrite Hd2.
      cbn [rv_wire]. by rewrite run_pure.
  - intros fuel fuel' f w Hf Hf'. unfold observe_self. rewrite !run_bind_eq.
    destruct (io_run (send_observe_req _ s) w) as [[[n1|e]|] w1] eqn:E; try done. cbn [run_bind].
    assert (Hin : w_inbox w1 = w_inbox w).
    { revert E. unfold send_observe_req. rewrite run_bind_eq, run_result, rv_encode_eq. cbn [run_bind].
      rewrite run_fmap_eq. intros (h' & w2 & Hs & [= _ <-])%run_bind_Ok.
      by apply send_sound in Hs as (? & ? & ? & _ & _ & _ & ->). }
    apply drain_fuel_enough; by rewrite Hin.
Qed.

(** A malformed reply does not end [observe_self]: the drain goes on to the
    next datagram, as it does after every event but the response. *)
Theorem observe_skips_malformed (n n' : RendezvousNode) (from s : UdpAddr) (p : list byte) e
    (fuel : nat) (f : SeedFactory) (w w1 w2 : World) (seed : arr 32) :
  call_seed f w = (seed, w1) ->
  io_run (recv_one (rv_host n) seed) w1 = (Returned (Ok (rv_host n', DatagramDelivered from p)), w2) ->
  rv_decode p = Err e ->
  io_run (drain_for_observe_response (S fuel) n s f) w =
    io_run (drain_for_observe_response fuel n' s f) w2.
Proof.
  destruct n as [h], n' as [h']. cbn [rv_host]. intros Hs Hr Hd.
  rewrite (drain_turn fuel _ s f w seed w1 (MkRendezvousNode h')
    (RvRejected from ("rendezvous decode failed: " ++ error_display e)) w2); [done|..].
  - unfold next_seed. by rewrite run_suspend, Hs.
  - rewrite (run_rv_recv _ _ _ _ _ _ _ Hr).
    unfold rv_process_plaintext, rv_process_plaintext_with_wrap, rv_handle_datagram.
    by rewrite Hd, run_pure.
Qed.

(** A relay request the server can read but whose delivery exceeds
    its socket's ceiling makes the server's [recv_one] fail: the node, which
    the call consumed, is lost with every session it held. *)
Theorem rv_relay_too_large (nA nS : RendezvousNode) (a s b : UdpAddr)
    (conn : EstablishedConnection) (p : list byte) (sS : arr 32) :
  linked (rv_host nA) a (rv_host nS) s 1 ->
  host_established (rv_host nS) !! wire_addr b = Some conn -> wire_addr b <> a ->
  nonces_left (conn_transport conn) 1 ->
  payload_fits (rv_host nA) (rv_bytes (RelayDataReq b p)) ->
  (N.of_nat (1 + addr_wire_len a + length p) < AEAD_SAFE_LEN)%N ->
  let len := N.of_nat (1 + addr_wire_len a + length p + TRANSPORT_OVERHEAD) in
  (max_send_payload (host_socket (rv_host nS)) < len)%N ->
  exists nA' d,
    (forall w, send_fault w = None ->
       io_run (relay_via nA s b p) w = (Returned (Ok nA'), world_sent w s d)) /\
    (forall w inbox, w_inbox w = Ok (socket_of_udp a, d) :: inbox ->
       io_run (rv_recv_one nS sS) w =
         (Returned (Err (DatagramTooLarge len (max_send_payload (host_socket (rv_host nS))))),
          world_received w)).
Proof.
  destruct nA as [hA], nS as [hS]. intros HAS Hb Hba Hn HfA Hsafe len Hlen. cbn [rv_host] in *.
  destruct (rv_transfer hA a hS s 0 (RelayDataReq b p) HAS HfA I)
    as (hA1 & d & hS1 & Hs1 & _ & Hr1 & Hd1 & _ & _ & FS1 & _ & ES1).
  rewrite <- (ES1 _ Hba) in Hb.
  exists (MkRendezvousNode hA1), d. split; [done|]. intros w inbox Hw. rewrite (Hr1 _ _ _ Hw).
  unfold rv_process_plaintext, rv_process_plaintext_with_wrap, rv_handle_datagram. rewrite Hd1.
  cbn [rv_wire rv_host]. unfold auto_forward_relay, is_established.
  assert (Hk : contains_key (host_established hS1) (wire_addr b) = true)
    by (apply contains_key_true; by eexists).
  rewrite Hk, run_bind_eq, run_result, rv_encode_eq. cbn [run_bind].
  rewrite run_fmap_eq. unfold rv_identity_wrap. rewrite run_host_send, Hb.
  set (bytes := rv_bytes (RelayDataDeliver a p)).
  assert (Hbl : length bytes = 1 + addr_wire_len a + length p) by apply length_rv_bytes.
  destruct (transport_encrypt_total (conn_transport conn) bytes) as (t1 & dd & He);
    [done|by rewrite Hbl|].
  rewrite He. pose proof (transport_encrypt_length _ _ _ _ He) as Hdl. unfold after_reply.
  destruct FS1 as (-> & _).
  assert (Hdn : N.of_nat (length dd) = len) by (unfold len; rewrite Hdl, Hbl; lia).
  rewrite Hdn. destruct (N.ltb_spec (max_send_payload (host_socket hS)) len); [done|lia].
Qed.

(** ** Every operation *)

Inductive rv_step (n : RendezvousNode) : RendezvousNode -> Prop :=
| rvs_dial a seed n' w w' : io_run (rv_dial n a seed) w = (Returned (Ok n'), w') -> rv_step n n'
| rvs_send a p n' w w' : io_run (rv_send n a p) w = (Returned (Ok n'), w') -> rv_step n n'
| rvs_ask s t k n' w w' : io_run (rv_ask n s t k) w = (Returned (Ok n'), w') -> rv_step n n'
| rvs_observe fuel s f n' o w w' :
    io_run (observe_self fuel n s f) w = (Returned (Ok (n', o)), w') -> rv_step n n'
| rvs_recv seed n' ev w w' :
    io_run (rv_recv_one n seed) w = (Returned (Ok (n', ev)), w') -> rv_step n n'
| rvs_process a p wrap n' ev w w' :
    io_run (rv_process_plaintext_with_wrap n a p wrap) w = (Returned (Ok (n', ev)), w') -> rv_step n n'.

Lemma rv_request_post n s frame :
  io_post (bytes ← io_result (rv_encode frame); MkRendezvousNode <$> host_send (rv_host n) s bytes)
    (rv_runs n).
Proof.
  apply (rv_send_frame_post (rv_host n) s frame (fun b => b)). intros h' Hs. by apply rtc_once.
Qed.

Lemma rv_step_runs n n' : rv_step n n' -> rv_runs n n'.
Proof.
  intros [a s n1 w w' H|a p n1 w w' H|s t k n1 w w' H|fuel s f n1 o w w' H|s n1 ev w w' H|
    a p wrap n1 ev w w' H].
  - assert (Hp : io_post (rv_dial n a s) (rv_runs n)); [|by eapply Hp].
    eapply io_post_fmap with (P := host_step (rv_host n)); [intros w0 h' w1 Hr; by econstructor|].
    intros h' Hs. by apply rtc_once.
  - assert (Hp : io_post (rv_send n a p) (rv_runs n)); [|by eapply Hp].
    apply rv_send_post. intros h' Hs. by apply rtc_once.
  - rewrite rv_ask_eq in H. by eapply (rv_request_post n s (task_frame t k)).
  - assert (Hp : io_post (observe_self fuel n s f) (fun '(n', _) => rv_runs n n')); [|by apply Hp in H].
    eapply io_post_bind; [apply (rv_request_post n s ObserveReq)|]. intros n2 H2.
    eapply io_post_weaken; [apply drain_observe_post|]. intros [n3 o3] H3.
    unfold rv_runs in *. by etrans.
  - by apply (rv_recv_post n s w (n1, ev) w') in H.
  - by apply (rv_process_post n a p wrap w (n1, ev) w') in H as [H _].
Qed.

(** Whatever is done with a rendezvous node built on a well-formed
    host (dial, send, ask, observe, receive), the host stays well formed and
    its socket, identity and capacity never change. *)
Theorem rv_invariant (host : Host) (n : RendezvousNode) :
  host_ok host -> rtc rv_step (rv_new host) n ->
  host_ok (rv_host n) /\ host_frame host (rv_host n) /\ rv_peer_id n = id_peer_id (host_identity host).
Proof.
  intros Hok Hr. assert (Hruns : rtc host_step host (rv_host n)).
  { change host with (rv_host (rv_new host)) at 1. clear Hok.
    induction Hr as [|n1 n2 n3 Hs Hr IH]; [done|]. etrans; [by apply rv_step_runs|exact IH]. }
  destruct (host_steps_ok _ _ Hruns Hok) as [Hok' Hf]. split_and!; [done..|].
  unfold rv_peer_id. by destruct Hf as (_ & -> & _).
Qed.

End exchanges.

#[local] Close Scope string_scope.

(** ** Witnesses *)

Lemma rv_request_forwarded_witness :
  exists nA' d nS' d' nB',
    io_run (IoRuntime:=direct_io) (relay_via (C:=toy_crypto) (RT:=direct_io)
      (rv_new toy_client1) (loopback 4003) (loopback 4002) [x07; x08]) (quiet_world []) =
      (Returned (Ok nA'), world_sent (quiet_world []) (loopback 4003) d) /\
    (let w := quiet_world [(socket_of_udp (loopback 4001), d)] in
     io_run (IoRuntime:=direct_io)
       (rv_recv_one (C:=toy_crypto) (RT:=direct_io) (rv_new toy_server) (arr_repeat 32 x09)) w =
       (Returned (Ok (nS', RelayForwarded (loopback 4001) (loopback 4002) true 2)),
        world_sent (world_received w) (loopback 4002) d')) /\
    (let w := quiet_world [(socket_of_udp (loopback 4003), d')] in
     io_run (IoRuntime:=direct_io)
       (rv_recv_one (C:=toy_crypto) (RT:=direct_io) (rv_new toy_client2) (arr_repeat 32 x09)) w =
       (Returned (Ok (nB', RelayReceived (loopback 4003) (loopback 4001) [x07; x08])),
        world_received w)).
Proof.
  destruct (rv_request_forwarded (C:=toy_crypto) (RT:=direct_io) (IoLaws0:=direct_io_laws)
    (CryptoLaws0:=toy_crypto_laws) (rv_new toy_client1) (rv_new toy_server) (rv_new toy_client2)
    (loopback 4001) (loopback 4003) (loopback 4002) (AskRelay [x07; x08])
    (arr_repeat 32 x09) (arr_repeat 32 x09))
    as (nA' & d & nS' & d' & nB' & H1 & H2 & H3 & _).
  - apply toy_linked_1. done.
  - apply toy_linked_2. done.
  - done.
  - done.
  - split; vm_compute; done.
  - split; vm_compute; done.
  - done.
  - exists nA', d, nS', d', nB'. split; [|split].
    + by apply H1.
    + exact (H2 (quiet_world [(socket_of_udp (loopback 4001), d)]) [] eq_refl eq_refl).
    + exact (H3 (quiet_world [(socket_of_udp (loopback 4003), d')]) [] eq_refl eq_refl).
Defined.

Lemma rv_request_refused_witness :
  exists nA' d nS' d' nA'',
    io_run (IoRuntime:=direct_io) (relay_via (C:=toy_crypto) (RT:=direct_io)
      (rv_new toy_client1) (loopback 4003) (loopback 4009) [x07]) (quiet_world []) =
      (Returned (Ok nA'), world_sent (quiet_world []) (loopback 4003) d) /\
    (let w := quiet_world [(socket_of_udp (loopback 4001), d)] in
     io_run (IoRuntime:=direct_io)
       (rv_recv_one (C:=toy_crypto) (RT:=direct_io) (rv_new toy_server) (arr_repeat 32 x09)) w =
       (Returned (Ok (nS', RelayForwarded (loopback 4001) (loopback 4009) false 1)),
        world_sent (world_received w) (loopback 4001) d')) /\
    (let w := quiet_world [(socket_of_udp (loopback 4003), d')] in
     io_run (IoRuntime:=direct_io)
       (rv_recv_one (C:=toy_crypto) (RT:=direct_io) nA' (arr_repeat 32 x09)) w =
       (Returned (Ok (nA'', RelayFailed (loopback 4003) (loopback 4009)
          "relay: no established session with /ip4/127.0.0.1/udp/4009")), world_received w)).
Proof.
  destruct (rv_request_refused (C:=toy_crypto) (RT:=direct_io) (IoLaws0:=direct_io_laws)
    (CryptoLaws0:=toy_crypto_laws) (rv_new toy_client1) (rv_new toy_server)
    (loopback 4001) (loopback 4003) (loopback 4009) (AskRelay [x07])
    (arr_repeat 32 x09) (arr_repeat 32 x09))
    as (nA' & d & nS' & H1 & d' & nA'' & H2 & H3 & _).
  - apply toy_linked_1. done.
  - vm_compute. reflexivity.
  - split; vm_compute; done.
  - split; vm_compute; done.
  - exists nA', d, nS', d', nA''. split; [|split].
    + by apply H1.
    + exact (H2 (quiet_world [(socket_of_udp (loopback 4001), d)]) [] eq_refl eq_refl).
    + exact (H3 (quiet_world [(socket_of_udp (loopback 4003), d')]) [] eq_refl).
Defined.

Lemma rv_observe_self_witness :
  exists d nS' d' nA' w',
    (let w := quiet_world [(socket_of_udp (loopback 4001), d)] in
     io_run (IoRuntime:=direct_io)
       (rv_recv_one (C:=toy_crypto) (RT:=direct_io) (rv_new toy_server) (arr_repeat 32 x09)) w =
       (Returned (Ok (nS', ObserveRequestReceived (loopback 4001))),
        world_sent (world_received w) (loopback 4001) d')) /\
    io_run (IoRuntime:=direct_io) (observe_self (C:=toy_crypto) (RT:=direct_io) 2
      (rv_new toy_client1) (loopback 4003) (fun _ => arr_repeat 32 x0e))
      (quiet_world [(socket_of_udp (loopback 4003), d')]) =
      (Returned (Ok (nA', loopback 4001)), w').
Proof.
  destruct (rv_observe_self (C:=toy_crypto) (RT:=direct_io) (IoLaws0:=direct_io_laws)
    (CryptoLaws0:=toy_crypto_laws) (rv_new toy_client1) (rv_new toy_server)
    (loopback 4001) (loopback 4003) (arr_repeat 32 x09))
    as (d & nS' & d' & nA' & H1 & H2 & _).
  - apply toy_linked_1. done.
  - split; vm_compute; done.
  - split; vm_compute; done.
  - exists d, nS', d', nA'. eexists. split.
    + exact (H1 (quiet_world [(socket_of_udp (loopback 4001), d)]) [] eq_refl eq_refl).
    + exact (H2 2 (fun _ => arr_repeat 32 x0e)
        (quiet_world [(socket_of_udp (loopback 4003), d')]) [] eq_refl eq_refl (le_n 2)).
Defined.

(** The client at 4001 with a ceiling of 9000 bytes. *)
Definition toy_client_big : Host :=
  MkHost (MkUdpTransport (socket (host_socket toy_client1)) 9000 (recv_buf_size (host_socket toy_client1)))
    (host_identity toy_client1) (host_handshakes toy_client1) (host_established toy_client1)
    (host_capacity toy_client1) (host_tick toy_client1).

Lemma toy_linked_big k : (k < 2 ^ 64)%N -> linked toy_client_big (loopback 4001) toy_server (loopback 4003) k.
Proof.
  intros Hk. split; [|done..]. eexists _, _.
  split_and!; [apply lookup_singleton_eq|apply toy_server_1|apply hears_new|apply hears_new|..];
    unfold nonces_left; cbn; lia.
Qed.

Lemma rv_relay_too_large_witness :
  exists nA' d,
    io_run (IoRuntime:=direct_io) (relay_via (C:=toy_crypto) (RT:=direct_io)
      (rv_new toy_client_big) (loopback 4003) (loopback 4002) (replicate 1200 x07)) (quiet_world []) =
      (Returned (Ok nA'), world_sent (quiet_world []) (loopback 4003) d) /\
    (let w := quiet_world [(socket_of_udp (loopback 4001), d)] in
     io_run (IoRuntime:=direct_io)
       (rv_recv_one (C:=toy_crypto) (RT:=direct_io) (rv_new toy_server) (arr_repeat 32 x09)) w =
       (Returned (Err (DatagramTooLarge 1232 1200)), world_received w)).
Proof.
  destruct (rv_relay_too_large (C:=toy_crypto) (RT:=direct_io) (IoLaws0:=direct_io_laws)
    (CryptoLaws0:=toy_crypto_laws) (rv_new toy_client_big) (rv_new toy_server)
    (loopback 4001) (loopback 4003) (loopback 4002) (toy_conn x03 x04 x0d x0c)
    (replicate 1200 x07) (arr_repeat 32 x09)) as (nA' & d & H1 & H2).
  - apply toy_linked_big. done.
  - apply toy_server_2.
  - done.
  - unfold nonces_left. cbn. lia.
  - split; vm_compute; done.
  - vm_compute. done.
  - vm_compute. done.
  - exists nA', d. split; [by apply H1|].
    exact (H2 (quiet_world [(socket_of_udp (loopback 4001), d)]) [] eq_refl).
Defined.

Lemma rv_invariant_witness :
  exists n, rtc (rv_step (C:=toy_crypto) (RT:=direct_io)) (rv_new (toy_host 4001 x01 x02)) n /\
    host_ok (C:=toy_crypto) (rv_host n) /\ host_handshakes (rv_host n) !! loopback 4002 <> None.
Proof.
  destruct (run_dial (C:=toy_crypto) (RT:=direct_io) (IoLaws0:=direct_io_laws)
    (toy_host 4001 x01 x02) (loopback 4002) (arr_repeat 32 x03) (quiet_world []))
    as (ae & m1 & Hw & Hd); [done|done|].
  rewrite write_e_eq in Hw. injection Hw as <- <-.
  assert (E : exists n w', io_run (IoRuntime:=direct_io)
    (rv_dial (C:=toy_crypto) (RT:=direct_io) (rv_new (toy_host 4001 x01 x02))
      (loopback 4002) (arr_repeat 32 x03)) (quiet_world []) = (Returned (Ok n), w') /\
    host_handshakes (rv_host n) !! loopback 4002 <> None).
  { eexists _, _. unfold rv_dial. cbn [rv_host rv_new].
    rewrite (run_fmap_eq (IoLaws0:=direct_io_laws)), Hd.
    split; [reflexivity|]. cbn [rv_host host_with host_handshakes].
    unfold insert_handshake_with_lru. by rewrite insert_with_lru_lookup. }
  destruct E as (n & w' & E & Hh).
  assert (Hs : rtc (rv_step (C:=toy_crypto) (RT:=direct_io)) (rv_new (toy_host 4001 x01 x02)) n)
    by (eapply rtc_once, rvs_dial, E).
  exists n. split; [exact Hs|]. split; [|exact Hh].
  exact (proj1 (rv_invariant (C:=toy_crypto) (RT:=direct_io) (IoLaws0:=direct_io_laws) _ _
    (toy_host_ok 4001 x01 x02) Hs)).
Defined.
