(* ===== verification/Rlnc.v ===== *)
(** * The network-coding library

    The gossip layer codes its messages with the external crate
    [rlnc_cat_rs]: a generation of [k] pieces of [b] bytes is sent as random
    linear combinations, and any [k] independent ones restore it.  [Rlnc]
    lists the types and calls the crate's users need, [Authenticator] the
    trait that tags pieces, and the two classes of laws their documented
    behaviour.  A toy instance, whose only combinations are the pieces
    themselves, serves to evaluate the development. *)

From S2P Require Export Io.

(** A caller's source of coefficients: [Fn(usize) -> Result<Vec<u8>, _>]; its
    answers may depend on how many calls were made. *)
Definition RngFactory (E : Type) : Type := nat -> nat -> result E (list byte).

Class Rlnc `{IoRuntime} : Type := {
  (** [rlnc_cat_rs::error::Error], known by its [Display] and one variant. *)
  RlncError : Type;
  rlnc_display : RlncError -> string;
  RandomGenerationFailed : string -> RlncError;
  (** [coding::piece]. *)
  OriginalData : Type;
  od_piece_count : OriginalData -> nat;
  od_piece_byte_len : OriginalData -> nat;
  CodedPiece : Type;
  cp_coding_vector : CodedPiece -> list byte;
  cp_data : CodedPiece -> list byte;
  cp_to_bytes : CodedPiece -> list byte;
  cp_from_bytes : list byte -> nat -> result RlncError CodedPiece;
  (** [coding::decode::DecoderState]. *)
  DecoderState : Type;
  ds_new : nat -> nat -> DecoderState;
  ds_absorb : DecoderState -> CodedPiece -> result RlncError DecoderState;
  ds_is_complete : DecoderState -> bool;
  ds_useful_count : DecoderState -> nat;
  ds_decode : DecoderState -> result RlncError (list byte);
  (** [coding::recode::Recoder]. *)
  Recoder : Type;
  rc_new : nat -> nat -> Recoder;
  rc_add_piece : Recoder -> CodedPiece -> result RlncError Recoder;
  rc_recode_one : Recoder -> RngFactory RlncError -> Io RlncError CodedPiece;
  (** [gossip::WirePiece<A>], over the commitments and tags of [A]. *)
  WirePiece : Type -> Type -> Type;
  wp_new {Com Tg} : Com -> CodedPiece -> Tg -> WirePiece Com Tg;
  wp_commitment {Com Tg} : WirePiece Com Tg -> Com;
  wp_piece {Com Tg} : WirePiece Com Tg -> CodedPiece;
  wp_tag {Com Tg} : WirePiece Com Tg -> Tg
}.

(** [auth::Authenticator], and [gossip::source] for it: the commitment of a
    generation and the stream of its pieces, of which [take(n).collect()]
    gives the first [n]. *)
Class Authenticator `{Rlnc} : Type := {
  Auth : Type;
  Commitment : Type;
  Tag : Type;
  auth_commit : Auth -> OriginalData -> Commitment;
  auth_verify : Auth -> Commitment -> CodedPiece -> Tag -> result RlncError ();
  auth_tag : Auth -> Commitment -> CodedPiece -> Tag;
  PieceStream : Type;
  gossip_source : Auth -> OriginalData -> RngFactory RlncError -> Commitment * PieceStream;
  stream_take_collect : nat -> PieceStream -> Io RlncError (list (WirePiece Commitment Tag))
}.

(** ** Histories of a decoder and of a recoder *)

Section histories.
Context `{R : Rlnc}.

(** [d] is what a fresh decoder became by absorbing [ps]. *)
Inductive absorbed (k b : nat) : DecoderState -> list CodedPiece -> Prop :=
| absorbed_new : absorbed k b (ds_new k b) []
| absorbed_piece d ps p d' :
    absorbed k b d ps -> ds_absorb d p = Ok d' -> absorbed k b d' (ps ++ [p]).

(** [r] is what a fresh recoder became by adding [ps]. *)
Inductive buffered (k b : nat) : Recoder -> list CodedPiece -> Prop :=
| buffered_new : buffered k b (rc_new k b) []
| buffered_piece r ps p r' :
    buffered k b r ps -> rc_add_piece r p = Ok r' -> buffered k b r' (ps ++ [p]).

End histories.

(** An effect that may call the caller's randomness and nothing else. *)
Definition only_draws `{IoRuntime} {E A} (m : Io E A) : Prop :=
  forall w, exists r n, io_run m w =
    (Returned r, MkWorld (w_bind w) (w_inbox w) (w_send_faults w) (w_sent w) n).

Class RlncLaws `{R : Rlnc} : Type := {
  (** A wire piece is its three parts. *)
  wp_commitment_new {Com Tg} (c : Com) p (t : Tg) : wp_commitment (wp_new c p t) = c;
  wp_piece_new {Com Tg} (c : Com) p (t : Tg) : wp_piece (wp_new c p t) = p;
  wp_tag_new {Com Tg} (c : Com) p (t : Tg) : wp_tag (wp_new c p t) = t;
  wp_new_eta {Com Tg} (wp : WirePiece Com Tg) :
    wp_new (wp_commitment wp) (wp_piece wp) (wp_tag wp) = wp;
  (** A piece on the wire is its coding vector and its data. *)
  cp_to_bytes_eq p : cp_to_bytes p = cp_coding_vector p ++ cp_data p;
  cp_from_to p : cp_from_bytes (cp_to_bytes p) (length (cp_coding_vector p)) = Ok p;
  cp_from_bytes_Ok bytes k p :
    cp_from_bytes bytes k = Ok p -> cp_to_bytes p = bytes /\ length (cp_coding_vector p) = k;
  (** A decoder counts the independent pieces it absorbed and is complete when
      they are [k]; it accepts pieces of its dimensions and no others. *)
  useful_count_new k b : ds_useful_count (ds_new k b) = 0;
  useful_count_absorb k b d ps p d' :
    absorbed k b d ps -> ds_absorb d p = Ok d' ->
    ds_useful_count d <= ds_useful_count d' <= S (ds_useful_count d);
  useful_count_bound k b d ps : absorbed k b d ps -> ds_useful_count d <= k;
  is_complete_iff k b d ps :
    absorbed k b d ps -> (ds_is_complete d = true <-> ds_useful_count d = k);
  absorb_dims k b d ps p :
    absorbed k b d ps ->
    (is_ok (ds_absorb d p) = true <-> length (cp_coding_vector p) = k /\ length (cp_data p) = b);
  add_piece_dims k b r ps p :
    buffered k b r ps -> length (cp_coding_vector p) = k -> length (cp_data p) = b ->
    is_ok (rc_add_piece r p) = true;
  (** The linear combinations of a generation's pieces, and its bytes. *)
  piece_of : OriginalData -> CodedPiece -> Prop;
  od_bytes : OriginalData -> list byte;
  piece_of_dims data p :
    piece_of data p ->
    length (cp_coding_vector p) = od_piece_count data /\ length (cp_data p) = od_piece_byte_len data;
  (** A complete decoder that absorbed only combinations of a generation's
      pieces restores the generation. *)
  decode_restores data d ps :
    absorbed (od_piece_count data) (od_piece_byte_len data) d ps ->
    Forall (piece_of data) ps -> ds_is_complete d = true -> ds_decode d = Ok (od_bytes data);
  (** Recoding draws coefficients and combines what was buffered. *)
  recode_one_draws r rng : only_draws (rc_recode_one r rng);
  (** The randomness is an [FnOnce]. *)
  recode_one_once r rng : io_cost (rc_recode_one r rng) 0 1;
  recode_one_piece k b r ps data rng :
    buffered k b r ps -> Forall (piece_of data) ps ->
    io_post (rc_recode_one r rng) (piece_of data);
  recode_one_dims k b r ps rng :
    buffered k b r ps ->
    io_post (rc_recode_one r rng)
      (fun p => length (cp_coding_vector p) = k /\ length (cp_data p) = b)
}.

Class AuthLaws `{R : Rlnc, RL : !RlncLaws, A : !Authenticator} : Prop := {
  (** A source emits pieces of its generation, each under the generation's
      commitment with a tag that verifies. *)
  source_draws auth data rng n :
    only_draws (stream_take_collect n (gossip_source auth data rng).2);
  source_pieces auth data rng n c s :
    gossip_source auth data rng = (c, s) ->
    io_post (stream_take_collect n s) (Forall (fun wp =>
      wp_commitment wp = c /\ piece_of data (wp_piece wp) /\
      auth_verify auth c (wp_piece wp) (wp_tag wp) = Ok tt))
}.
