(* ===== verification/RlncToy.v ===== *)
(** * A concrete network-coding library

    An instance of [Rlnc] whose only combinations are the pieces themselves
    (unit coding vectors) and of [Authenticator] with a keyed checksum, both
    with their laws: the hypotheses of the gossip theorems can hold. *)

From S2P Require Export Rlnc Crypto.

(** ** Pieces *)

Record ToyData : Type := MkToyData {
  td_len : nat;
  td_pieces : list (list byte);
  td_ok : forallb (fun p => length p =? td_len) td_pieces = true
}.

Record ToyPiece : Type := MkToyPiece { tp_vector : list byte; tp_data : list byte }.
#[export] Instance toy_piece_eq_dec : EqDecision ToyPiece.
Proof. solve_decision. Defined.

Definition toy_unit (k i : nat) : list byte := <[i := x01]> (replicate k x00).
Definition toy_is_unit (k : nat) (v : list byte) : bool :=
  existsb (fun i => bool_decide (v = toy_unit k i)) (seq 0 k).

Lemma toy_unit_inj k i j : i < k -> toy_unit k i = toy_unit k j -> i = j.
Proof.
  unfold toy_unit. intros Hi Heq. destruct (decide (i = j)) as [|Hne]; [done|].
  assert (H : <[j := x01]> (replicate k x00) !! i = Some x01).
  { rewrite <- Heq. apply list_lookup_insert_eq. by rewrite length_replicate. }
  rewrite list_lookup_insert_ne in H by done. by apply lookup_replicate in H as [? _].
Qed.

Lemma length_toy_unit k i : length (toy_unit k i) = k.
Proof. unfold toy_unit. by rewrite length_insert, length_replicate. Qed.

Lemma toy_is_unit_true k v : toy_is_unit k v = true <-> exists i, i < k /\ v = toy_unit k i.
Proof.
  unfold toy_is_unit. rewrite existsb_exists. setoid_rewrite <- list_elem_of_In.
  setoid_rewrite elem_of_seq. setoid_rewrite bool_decide_eq_true. split.
  - intros (i & Hi & ->). exists i. split; [lia|done].
  - intros (i & Hi & ->). exists i. split; [lia|done].
Qed.

Definition toy_piece_of (data : ToyData) (p : ToyPiece) : Prop :=
  exists i, td_pieces data !! i = Some (tp_data p) /\
    tp_vector p = toy_unit (length (td_pieces data)) i.

Definition toy_systematic (data : ToyData) (i : nat) : ToyPiece :=
  let k := length (td_pieces data) in
  MkToyPiece (toy_unit k (i mod k)) (default [] (td_pieces data !! (i mod k))).

(** ** Decoder and recoder *)

Record ToyDecoder : Type := MkToyDecoder { tds_k : nat; tds_b : nat; tds_got : list ToyPiece }.

Definition toy_dims (k b : nat) (p : ToyPiece) : bool :=
  (length (tp_vector p) =? k) && (length (tp_data p) =? b).

Definition toy_absorb (d : ToyDecoder) (p : ToyPiece) : result string ToyDecoder :=
  let '(MkToyDecoder k b got) := d in
  if toy_dims k b p then
    if toy_is_unit k (tp_vector p) && bool_decide (tp_vector p ∉ tp_vector <$> got)
    then Ok (MkToyDecoder k b (p :: got)) else Ok d
  else Err "piece of the wrong dimensions"%string.

Definition toy_find (d : ToyDecoder) (i : nat) : list byte :=
  match list_find (fun p => tp_vector p = toy_unit (tds_k d) i) (tds_got d) with
  | Some (_, p) => tp_data p
  | None => []
  end.

Definition toy_complete (d : ToyDecoder) : bool := length (tds_got d) =? tds_k d.

Definition toy_decode (d : ToyDecoder) : result string (list byte) :=
  if toy_complete d then Ok (concat (toy_find d <$> seq 0 (tds_k d)))
  else Err "decoder is not complete"%string.

Definition toy_add (r : ToyDecoder) (p : ToyPiece) : result string ToyDecoder :=
  let '(MkToyDecoder k b got) := r in
  if toy_dims k b p then Ok (MkToyDecoder k b (p :: got))
  else Err "piece of the wrong dimensions"%string.

(** One call of a caller's randomness. *)
Definition toy_rng (rng : RngFactory string) (n : nat) : effect string (list byte) := fun w =>
  (Returned (rng (w_calls w) n),
   MkWorld (w_bind w) (w_inbox w) (w_send_faults w) (w_sent w) (S (w_calls w))).

(** The newest piece buffered, if the randomness is willing. *)
Definition toy_recode (r : ToyDecoder) (rng : RngFactory string) : effect string ToyPiece := fun w =>
  run_bind (fun _ w' => (Returned (ok_or_else (head (tds_got r)) "nothing to recode"%string), w'))
    (toy_rng rng (length (tds_got r)) w).

Section toy.
Context `{RT : IoRuntime, !IoLaws RT}.

Definition toy_rlnc : Rlnc := {|
  RlncError := string;
  rlnc_display e := e;
  RandomGenerationFailed e := e;
  OriginalData := ToyData;
  od_piece_count d := length (td_pieces d);
  od_piece_byte_len := td_len;
  CodedPiece := ToyPiece;
  cp_coding_vector := tp_vector;
  cp_data := tp_data;
  cp_to_bytes p := tp_vector p ++ tp_data p;
  cp_from_bytes bytes k :=
    if k <=? length bytes then Ok (MkToyPiece (take k bytes) (drop k bytes))
    else Err "too few bytes for a coded piece"%string;
  DecoderState := ToyDecoder;
  ds_new k b := MkToyDecoder k b [];
  ds_absorb := toy_absorb;
  ds_is_complete := toy_complete;
  ds_useful_count d := length (tds_got d);
  ds_decode := toy_decode;
  Recoder := ToyDecoder;
  rc_new k b := MkToyDecoder k b [];
  rc_add_piece := toy_add;
  rc_recode_one r rng := io_suspend (toy_recode r rng);
  WirePiece Com Tg := (Com * ToyPiece * Tg)%type;
  wp_new Com Tg c p t := (c, p, t);
  wp_commitment Com Tg wp := wp.1.1;
  wp_piece Com Tg wp := wp.1.2;
  wp_tag Com Tg wp := wp.2
|}.

#[local] Existing Instance toy_rlnc.

Definition toy_auth_tag (key c : arr 32) (p : ToyPiece) : arr 32 :=
  Toy.spread (arr_list key ++ arr_list c ++ tp_vector p ++ tp_data p).

Definition toy_auth_commit (key : arr 32) (data : ToyData) : arr 32 :=
  Toy.spread (arr_list key ++ concat (td_pieces data)).

Definition toy_source (key : arr 32) (data : ToyData) : list (arr 32 * ToyPiece * arr 32) :=
  let c := toy_auth_commit key data in
  (fun i => let p := toy_systematic data i in (c, p, toy_auth_tag key c p))
    <$> seq 0 (2 * length (td_pieces data)).

Definition toy_auth : Authenticator := {|
  Auth := arr 32;
  Commitment := arr 32;
  Tag := arr 32;
  auth_commit := toy_auth_commit;
  auth_verify key c p t :=
    if bool_decide (t = toy_auth_tag key c p) then Ok tt else Err "tag mismatch"%string;
  auth_tag := toy_auth_tag;
  PieceStream := list (arr 32 * ToyPiece * arr 32);
  gossip_source key data rng := (toy_auth_commit key data, toy_source key data);
  stream_take_collect n s := io_pure (take n s)
|}.

#[local] Existing Instance toy_auth.

(** ** Its laws *)

(** The vectors of all pieces there are. *)
Definition toy_units (k : nat) : list (list byte) := toy_unit k <$> seq 0 k.

Lemma elem_of_toy_units k v : v ∈ toy_units k <-> exists i, i < k /\ v = toy_unit k i.
Proof.
  unfold toy_units. rewrite list_elem_of_fmap. setoid_rewrite elem_of_seq.
  split; intros (i & H1 & H2); exists i; (split; [first [lia|done]|first [lia|done]]).
Qed.

Lemma toy_absorbed k b d ps :
  absorbed k b d ps ->
  exists got, d = MkToyDecoder k b got /\ got ⊆ ps /\
    NoDup (tp_vector <$> got) /\ tp_vector <$> got ⊆ toy_units k.
Proof.
  induction 1 as [|d ps p d' _ (got & -> & Hgot & Hnd & Hu) Ha]; cbn in *.
  - exists []. split_and!; [done|apply list_subseteq_nil|constructor|apply list_subseteq_nil].
  - unfold toy_absorb in Ha. destruct (toy_dims k b p); [|done].
    destruct (toy_is_unit k (tp_vector p)) eqn:Eu; cbn [andb] in Ha.
    2: { injection Ha as <-. exists got. split_and!; [done|set_solver|done|done]. }
    case_bool_decide as Hin; injection Ha as <-.
    + exists (p :: got). split_and!; [done|set_solver| |].
      * cbn. by constructor.
      * apply toy_is_unit_true, elem_of_toy_units in Eu. cbn. set_solver.
    + exists got. split_and!; [done|set_solver|done|done].
Qed.

Lemma toy_absorbed_bound k b got ps :
  absorbed k b (MkToyDecoder k b got) ps -> length got <= k.
Proof.
  intros (got' & [= <-] & _ & Hnd & Hu)%toy_absorbed.
  assert (Hp : tp_vector <$> got ⊆+ toy_units k) by by apply NoDup_submseteq.
  apply submseteq_length in Hp. unfold toy_units in Hp.
  by rewrite !length_fmap, length_seq in Hp.
Qed.

Lemma toy_buffered k b r ps :
  buffered k b r ps ->
  exists got, r = MkToyDecoder k b got /\ got ⊆ ps /\ Forall (fun p => toy_dims k b p = true) got.
Proof.
  induction 1 as [|r ps p r' _ (got & -> & Hgot & Hd) Ha]; cbn in *.
  - exists []. split_and!; [done|apply list_subseteq_nil|constructor].
  - unfold toy_add in Ha. destruct (toy_dims k b p) eqn:E; [|done]. injection Ha as <-.
    exists (p :: got). split_and!; [done|set_solver|by constructor].
Qed.

Lemma toy_piece_dims (data : ToyData) p :
  toy_piece_of data p ->
  length (tp_vector p) = length (td_pieces data) /\ length (tp_data p) = td_len data.
Proof.
  intros (i & Hi & ->). split; [apply length_toy_unit|].
  pose proof (td_ok data) as Hok. rewrite forallb_forall in Hok.
  apply Nat.eqb_eq, Hok, list_elem_of_In. by apply list_elem_of_lookup_2 in Hi.
Qed.

(** With every vector present, each position holds its own piece. *)
Lemma toy_restores (data : ToyData) d ps :
  absorbed (length (td_pieces data)) (td_len data) d ps ->
  Forall (toy_piece_of data) ps -> toy_complete d = true ->
  toy_decode d = Ok (concat (td_pieces data)).
Proof.
  intros Ha Hps Hc. unfold toy_decode. rewrite Hc. f_equal. f_equal.
  destruct (toy_absorbed _ _ _ _ Ha) as (got & -> & Hgot & Hnd & Hu).
  apply Nat.eqb_eq in Hc. cbn in Hc |- *. set (k := length (td_pieces data)) in *.
  assert (Hall : tp_vector <$> got ≡ₚ toy_units k).
  { apply submseteq_length_Permutation; [by apply NoDup_submseteq|].
    unfold toy_units. by rewrite !length_fmap, length_seq, Hc. }
  apply list_eq. intros i. rewrite list_lookup_fmap.
  destruct (decide (i < k)) as [Hi|Hi].
  2: { rewrite (lookup_ge_None_2 (seq 0 k)) by (rewrite length_seq; lia).
       cbn. symmetry. apply lookup_ge_None_2. fold k. lia. }
  rewrite lookup_seq_lt by done. cbn. unfold toy_find. cbn.
  destruct (list_find _ got) as [[j p]|] eqn:Ef.
  - apply list_find_Some in Ef as (Hj & Hv & _).
    apply list_elem_of_lookup_2, Hgot in Hj. rewrite Forall_forall in Hps.
    destruct (Hps _ Hj) as (i' & Hi' & Hv'). fold k in Hv'. rewrite Hv in Hv'.
    apply toy_unit_inj in Hv'; [|done]. by subst i'.
  - apply list_find_None in Ef. exfalso.
    assert (Hin : toy_unit k i ∈ tp_vector <$> got).
    { rewrite Hall. apply elem_of_toy_units. by exists i. }
    apply list_elem_of_fmap in Hin as (p & Hp & Hin). rewrite Forall_forall in Ef.
    by apply (Ef _ Hin).
Qed.

Lemma toy_recode_run r rng w :
  exists o n, io_run (rc_recode_one r rng) w =
    (Returned o, MkWorld (w_bind w) (w_inbox w) (w_send_faults w) (w_sent w) n) /\
    forall p, o = Ok p -> p ∈ tds_got r.
Proof.
  cbn. rewrite run_suspend. unfold toy_recode, toy_rng.
  destruct (rng _ _) as [l|e]; cbn; eexists _, _; (split; [done|]); [|done].
  intros p. destruct (tds_got r); cbn; [done|]. intros [= ->]. set_solver.
Qed.

Lemma toy_recode_post r rng (P : ToyPiece -> Prop) :
  Forall P (tds_got r) -> io_post (rc_recode_one r rng) P.
Proof.
  intros HP w p w' Hr. destruct (toy_recode_run r rng w) as (o & n & Hr' & Ho).
  rewrite Hr in Hr'. injection Hr' as <- _. rewrite Forall_forall in HP. by apply HP, Ho.
Qed.

Definition toy_rlnc_laws : RlncLaws.
Proof.
  refine {| piece_of := (toy_piece_of : OriginalData -> CodedPiece -> Prop);
            od_bytes := (fun d : OriginalData => concat (td_pieces d)) |}; try done.
  - by intros Com Tg [[c p] t].
  - intros [v d]. cbn. rewrite length_app.
    destruct (Nat.leb_spec (length v) (length v + length d)); [|lia].
    by rewrite take_app_length, drop_app_length.
  - intros bytes k p. cbn. destruct (Nat.leb_spec k (length bytes)) as [Hk|]; [|done].
    intros [= <-]. cbn. rewrite take_drop, length_take. split; [done|lia].
  - intros k b d ps p d' Ha Hp. destruct (toy_absorbed _ _ _ _ Ha) as (got & -> & _).
    cbn in *. unfold toy_absorb in Hp. destruct (toy_dims k b p); [|done].
    destruct (_ && _); injection Hp as <-; cbn; lia.
  - intros k b d ps Ha. destruct (toy_absorbed _ _ _ _ Ha) as (got & -> & _).
    by eapply toy_absorbed_bound.
  - intros k b d ps Ha. destruct (toy_absorbed _ _ _ _ Ha) as (got & -> & _). apply Nat.eqb_eq.
  - intros k b d ps p Ha. destruct (toy_absorbed _ _ _ _ Ha) as (got & -> & _).
    cbn. unfold toy_absorb, toy_dims.
    destruct (Nat.eqb_spec (length (tp_vector p)) k), (Nat.eqb_spec (length (tp_data p)) b); cbn;
      try (split; [done|naive_solver]). by destruct (toy_is_unit _ _ && _).
  - intros k b r ps p Hb Hv Hd. destruct (toy_buffered _ _ _ _ Hb) as (got & -> & _).
    cbn in *. unfold toy_dims. by rewrite Hv, Hd, !Nat.eqb_refl.
  - apply toy_piece_dims.
  - apply toy_restores.
  - intros r rng w. destruct (toy_recode_run r rng w) as (o & n & Hr & _). eauto.
  - intros r rng w p w' Hr. cbn in Hr. rewrite run_suspend in Hr. unfold toy_recode, toy_rng in Hr.
    destruct (rng _ _); cbn in Hr; injection Hr as _ <-; unfold costs; cbn; lia.
  - intros k b r ps data rng Hb Hps. destruct (toy_buffered _ _ _ _ Hb) as (got & -> & Hgot & _).
    apply toy_recode_post. rewrite Forall_forall in *. intros p Hp. by apply Hps, Hgot.
  - intros k b r ps rng Hb. destruct (toy_buffered _ _ _ _ Hb) as (got & -> & _ & Hd).
    apply toy_recode_post. eapply Forall_impl; [exact Hd|]. intros p Hp.
    unfold toy_dims in Hp. bool_to_prop. cbn in *. naive_solver.
Defined.

Lemma toy_systematic_of (data : ToyData) i :
  td_pieces data <> [] -> toy_piece_of data (toy_systematic data i).
Proof.
  intros Hne. assert (Hk : length (td_pieces data) <> 0) by by destruct (td_pieces data).
  pose proof (Nat.mod_upper_bound i _ Hk) as Hi. exists (i mod length (td_pieces data)).
  unfold toy_systematic. cbn. split; [|done].
  destruct (lookup_lt_is_Some_2 (td_pieces data) _ Hi) as [d Hd]. by rewrite Hd.
Qed.

Lemma toy_auth_laws : AuthLaws (RL:=toy_rlnc_laws) (A:=toy_auth).
Proof.
  split.
  - intros auth data rng n w. cbn. rewrite run_pure. exists (Ok (take n (toy_source auth data))), (w_calls w). by destruct w.
  - intros auth data rng n c s [= <- <-] w r w'. cbn. rewrite run_pure. intros [= <- _].
    apply Forall_take. unfold toy_source. apply Forall_fmap, Forall_forall. intros i Hi.
    apply elem_of_seq in Hi. cbn. split_and!; [done|apply toy_systematic_of; intros Hn; rewrite Hn in Hi; cbn in Hi; lia|].
    by rewrite bool_decide_eq_true_2.
Qed.

End toy.
