(* ===== verification/PubsubAuth.v ===== *)
(** * Commitments and tags on the wire

    Models src/crates/libp2p-cat-pubsub/src/auth.rs: the trait
    [WireAuthenticator] and its implementations for the three stock
    authenticators of [rlnc_cat_rs], whose commitments, tags and signatures
    are known by the conversions the source calls. *)

From S2P Require Export Types.
From Stdlib Require Import ZArith.

#[local] Open Scope string_scope.

(** ** [i64] *)

Record i64 : Type := I64 {
  i64_val : Z;
  i64_ok : ((- 2 ^ 63 <=? i64_val)%Z && (i64_val <? 2 ^ 63)%Z) = true
}.

Lemma i64_eq (a b : i64) : i64_val a = i64_val b -> a = b.
Proof. destruct a as [a Ha], b as [b Hb]. cbn. intros ->. f_equal. apply proof_irrel. Qed.

(** Two's complement: [n] below [2^64] as a signed number. *)
Definition signed_64 (n : N) : Z :=
  if (n <? 2 ^ 63)%N then Z.of_N n else (Z.of_N n - 2 ^ 64)%Z.

Lemma signed_64_ok (a : u64) :
  ((- 2 ^ 63 <=? signed_64 (uval a))%Z && (signed_64 (uval a) <? 2 ^ 63)%Z) = true.
Proof.
  pose proof (uint_lt a) as H. unfold signed_64. apply andb_true_iff.
  rewrite Z.leb_le, Z.ltb_lt. destruct (N.ltb_spec (uval a) (2 ^ 63)); lia.
Qed.

(** [e.to_le_bytes()] and [i64::from_le_bytes]. *)
Definition i64_to_le_bytes (e : i64) : list byte :=
  le_encode 8 (Z.to_N (i64_val e mod 2 ^ 64)).
Definition i64_from_le_bytes (a : arr 8) : i64 :=
  let n : u64 := uint_wrap (le_decode (arr_list a)) in
  I64 (signed_64 (uval n)) (by_eval _ (signed_64_ok n)).

Lemma length_i64_to_le_bytes e : length (i64_to_le_bytes e) = 8.
Proof. apply length_le_encode. Qed.

Lemma i64_from_to e a : arr_list a = i64_to_le_bytes e -> i64_from_le_bytes a = e.
Proof.
  intros Ha. apply i64_eq. cbn. rewrite Ha. unfold i64_to_le_bytes.
  rewrite le_decode_encode. change (2 ^ (8 * N.of_nat 8))%N with (2 ^ 64)%N.
  pose proof (i64_ok e) as Hok. apply andb_true_iff in Hok as [Hlo Hhi].
  apply Z.leb_le in Hlo. apply Z.ltb_lt in Hhi.
  set (z := i64_val e) in *. pose proof (Z.mod_pos_bound z (2 ^ 64) ltac:(lia)) as Hm.
  rewrite !N.Div0.mod_mod, N.mod_small by lia. unfold signed_64.
  destruct (decide (0 <= z)%Z) as [Hz|Hz].
  - rewrite Z.mod_small by lia. destruct (N.ltb_spec (Z.to_N z) (2 ^ 63)); lia.
  - rewrite <- (Z.mod_add z 1 (2 ^ 64)) by lia. rewrite Z.mod_small by lia.
    destruct (N.ltb_spec (Z.to_N (z + 1 * 2 ^ 64)) (2 ^ 63)); lia.
Qed.

Lemma i64_to_from a : i64_to_le_bytes (i64_from_le_bytes a) = arr_list a.
Proof.
  unfold i64_to_le_bytes. cbn [i64_val i64_from_le_bytes].
  pose proof (le_decode_lt (arr_list a)) as Hlt. rewrite length_arr in Hlt.
  change (2 ^ (8 * N.of_nat 8))%N with (2 ^ 64)%N in Hlt.
  rewrite uint_wrap_small by done. set (n := le_decode (arr_list a)) in *.
  assert (Hmod : (signed_64 n mod 2 ^ 64)%Z = Z.of_N n).
  { unfold signed_64. destruct (N.ltb_spec n (2 ^ 63)).
    - apply Z.mod_small. lia.
    - rewrite <- (Z.mod_add _ 1 (2 ^ 64)) by lia. rewrite Z.mod_small; lia. }
  rewrite Hmod, N2Z.id. unfold n. rewrite <- (length_arr a) at 1. apply le_encode_decode.
Qed.

(** [usize] arithmetic on a 64-bit platform. *)
Definition usize_checked (n : N) : option N := if (n <? 2 ^ 64)%N then Some n else None.

(** [body.chunks_exact(8)]: whole groups of eight, the remainder dropped. *)
Fixpoint chunks_exact_8 (l : list byte) : list (list byte) :=
  match l with
  | a :: b :: c :: d :: e :: f :: g :: h :: l' => [a; b; c; d; e; f; g; h] :: chunks_exact_8 l'
  | _ => []
  end.

(** ** The trait *)

(** [WireAuthenticator], over the associated types [Commitment] and [Tag]. *)
Class WireAuthenticator (Com Tg : Type) : Type := {
  commitment_to_vec : Com -> list byte;
  commitment_from_bytes : list byte -> result Error (Com * nat);
  tag_to_vec : Tg -> list byte;
  tag_from_bytes : list byte -> result Error (Tg * nat)
}.

(** What the codec relies on: a field is read back from the front of a
    buffer, whatever follows it, and what is read is the encoding of the
    bytes consumed.  [tag_wf] holds of the tags the wire can carry. *)
Class WireAuthLaws {Com Tg} (W : WireAuthenticator Com Tg) : Type := {
  tag_wf : Tg -> Prop;
  commitment_from_to c rest :
    commitment_from_bytes (commitment_to_vec c ++ rest) = Ok (c, length (commitment_to_vec c));
  commitment_from_Ok bytes c n :
    commitment_from_bytes bytes = Ok (c, n) ->
    n = length (commitment_to_vec c) /\ commitment_to_vec c = take n bytes;
  tag_from_to t rest :
    tag_wf t -> tag_from_bytes (tag_to_vec t ++ rest) = Ok (t, length (tag_to_vec t));
  tag_from_Ok bytes t n :
    tag_from_bytes bytes = Ok (t, n) ->
    tag_wf t /\ n = length (tag_to_vec t) /\ tag_to_vec t = take n bytes
}.

Definition BLAKE3_FINGERPRINT_LEN : nat := 32.
Definition KEYED_HASH_TAG_LEN : nat := 32.
Definition LHS_TAG_LEN_PREFIX : nat := 4.
Definition LHS_TAG_ENTRY_LEN : nat := 8.

Definition pubsub_error (reason : string) : Error := PubsubProtocol reason.

(** ** [NullAuthenticator] *)

#[export] Instance null_wire : WireAuthenticator () () := {|
  commitment_to_vec _ := [];
  commitment_from_bytes _ := Ok (tt, 0);
  tag_to_vec _ := [];
  tag_from_bytes _ := Ok (tt, 0)
|}.

(** ** The stock commitments and tags *)

(** Newtypes of the external crate: [From<[u8; 32]>] and [as_bytes], and the
    signature's vector of integers. *)
Class StockAuth : Type := {
  KeyedHashCommitment : Type;
  khc_from : arr 32 -> KeyedHashCommitment;
  khc_as_bytes : KeyedHashCommitment -> arr 32;
  KeyedHashTag : Type;
  kht_from : arr 32 -> KeyedHashTag;
  kht_as_bytes : KeyedHashTag -> arr 32;
  LhsCommitment : Type;
  lhc_from : arr 32 -> LhsCommitment;
  lhc_as_bytes : LhsCommitment -> arr 32;
  ZVec : Type;
  zvec_new : list i64 -> ZVec;
  zvec_entries : ZVec -> list i64;
  LhsSignature : Type;
  signature_new : ZVec -> LhsSignature;
  signature_sigma : LhsSignature -> ZVec
}.

(** They are wrappers: what goes in comes out. *)
Class StockAuthLaws `{StockAuth} : Prop := {
  khc_from_as c : khc_from (khc_as_bytes c) = c;
  khc_as_from a : khc_as_bytes (khc_from a) = a;
  kht_from_as t : kht_from (kht_as_bytes t) = t;
  kht_as_from a : kht_as_bytes (kht_from a) = a;
  lhc_from_as c : lhc_from (lhc_as_bytes c) = c;
  lhc_as_from a : lhc_as_bytes (lhc_from a) = a;
  zvec_new_entries v : zvec_new (zvec_entries v) = v;
  zvec_entries_new l : zvec_entries (zvec_new l) = l;
  signature_new_sigma s : signature_new (signature_sigma s) = s;
  signature_sigma_new v : signature_sigma (signature_new v) = v
}.

Section stock.
Context `{SA : StockAuth}.

(** ** [KeyedHashAuthenticator] *)

Definition khc_from_bytes (bytes : list byte) : result Error (KeyedHashCommitment * nat) :=
  head ← ok_or_else (get_to BLAKE3_FINGERPRINT_LEN bytes)
    (pubsub_error ("KeyedHashAuthenticator commitment needs " ++ decn BLAKE3_FINGERPRINT_LEN ++
       " bytes, got " ++ decn (length bytes)));
  arr ← ok_or_else (arr_try (n:=32) head)
    (pubsub_error ("KeyedHashAuthenticator commitment slice not " ++
       decn BLAKE3_FINGERPRINT_LEN ++ " bytes wide"));
  Ok (khc_from arr, BLAKE3_FINGERPRINT_LEN).

Definition kht_from_bytes (bytes : list byte) : result Error (KeyedHashTag * nat) :=
  head ← ok_or_else (get_to KEYED_HASH_TAG_LEN bytes)
    (pubsub_error ("KeyedHashAuthenticator tag needs " ++ decn KEYED_HASH_TAG_LEN ++
       " bytes, got " ++ decn (length bytes)));
  arr ← ok_or_else (arr_try (n:=32) head)
    (pubsub_error ("KeyedHashAuthenticator tag slice not " ++ decn KEYED_HASH_TAG_LEN ++
       " bytes wide"));
  Ok (kht_from arr, KEYED_HASH_TAG_LEN).

#[export] Instance keyed_hash_wire : WireAuthenticator KeyedHashCommitment KeyedHashTag := {|
  commitment_to_vec c := arr_list (khc_as_bytes c);
  commitment_from_bytes := khc_from_bytes;
  tag_to_vec t := arr_list (kht_as_bytes t);
  tag_from_bytes := kht_from_bytes
|}.

(** ** [LatticeHomomorphicAuthenticator<Q>] *)

Definition lhc_from_bytes (bytes : list byte) : result Error (LhsCommitment * nat) :=
  head ← ok_or_else (get_to BLAKE3_FINGERPRINT_LEN bytes)
    (pubsub_error ("LHS commitment needs " ++ decn BLAKE3_FINGERPRINT_LEN ++
       " bytes, got " ++ decn (length bytes)));
  arr ← ok_or_else (arr_try (n:=32) head)
    (pubsub_error ("LHS commitment slice not " ++ decn BLAKE3_FINGERPRINT_LEN ++ " bytes wide"));
  Ok (lhc_from arr, BLAKE3_FINGERPRINT_LEN).

Definition lhs_tag_to_vec (tag : LhsSignature) : list byte :=
  let entries := zvec_entries (signature_sigma tag) in
  let len_prefix : u32 := default (uint_wrap (2 ^ 32 - 1)) (uint_try (N.of_nat (length entries))) in
  (be_bytes 4 len_prefix ++ concat (i64_to_le_bytes <$> entries))%list.

Definition lhs_entry (chunk : list byte) : result Error i64 :=
  arr ← ok_or_else (arr_try (n:=8) chunk)
    (pubsub_error ("LHS tag entry chunk not " ++ decn LHS_TAG_ENTRY_LEN ++
       " bytes wide (unreachable)"));
  Ok (i64_from_le_bytes arr).

Definition lhs_tag_from_bytes (bytes : list byte) : result Error (LhsSignature * nat) :=
  len_slice ← ok_or_else (get_to LHS_TAG_LEN_PREFIX bytes)
    (pubsub_error ("LHS tag needs " ++ decn LHS_TAG_LEN_PREFIX ++
       "-byte length prefix, got " ++ decn (length bytes)));
  len_arr ← ok_or_else (arr_try (n:=4) len_slice)
    (pubsub_error ("LHS tag length-prefix slice not " ++ decn LHS_TAG_LEN_PREFIX ++ " bytes wide"));
  let entry_count_u32 : u32 := from_be (arr_list len_arr) in
  entry_count ← ok_or_else (usize_checked (uval entry_count_u32))
    (pubsub_error ("LHS tag entry count " ++ dec (uval entry_count_u32) ++ " does not fit usize"));
  body_len ← ok_or_else (usize_checked (entry_count * N.of_nat LHS_TAG_ENTRY_LEN))
    (pubsub_error ("LHS tag entry count " ++ dec entry_count ++ " overflows when scaled by " ++
       decn LHS_TAG_ENTRY_LEN));
  body_end ← ok_or_else (usize_checked (N.of_nat LHS_TAG_LEN_PREFIX + body_len))
    (pubsub_error ("LHS tag body end overflows: " ++ decn LHS_TAG_LEN_PREFIX ++ " + " ++
       dec body_len));
  body ← ok_or_else (get_range LHS_TAG_LEN_PREFIX (N.to_nat body_end) bytes)
    (pubsub_error ("LHS tag body needs " ++ dec body_len ++ " bytes after length prefix, got " ++
       decn (length bytes - LHS_TAG_LEN_PREFIX)));
  entries ← collect_results lhs_entry (chunks_exact_8 body);
  Ok (signature_new (zvec_new entries), N.to_nat body_end).

#[export] Instance lattice_wire : WireAuthenticator LhsCommitment LhsSignature := {|
  commitment_to_vec c := arr_list (lhc_as_bytes c);
  commitment_from_bytes := lhc_from_bytes;
  tag_to_vec := lhs_tag_to_vec;
  tag_from_bytes := lhs_tag_from_bytes
|}.

End stock.

#[local] Close Scope string_scope.

(** ** The laws of the three implementations *)

#[export] Instance null_wire_laws : WireAuthLaws null_wire.
Proof.
  refine {| tag_wf := fun _ => True |}.
  - intros [] rest. done.
  - intros bytes [] n [= <-]. done.
  - intros [] rest _. done.
  - intros bytes [] n [= <-]. done.
Defined.

Section stock_laws.
Context `{SA : StockAuth, !StockAuthLaws}.

(** A fixed-width field: what is read is the field's 32 bytes. *)
Lemma fixed_from_to {A} (from : arr 32 -> A) (as_bytes : A -> arr 32) (a : A) rest e1 e2 :
  from (as_bytes a) = a ->
  (head ← ok_or_else (get_to 32 (arr_list (as_bytes a) ++ rest)) e1;
   arr ← ok_or_else (arr_try (n:=32) head) e2; (Ok (from arr, 32) : result Error (A * nat)))
  = Ok (a, length (arr_list (as_bytes a))).
Proof.
  intros Ha. rewrite get_to_app by apply length_arr. cbn [ok_or_else mbind result_bind].
  rewrite arr_try_arr. cbn [ok_or_else mbind result_bind]. by rewrite Ha, length_arr.
Qed.

Lemma fixed_from_Ok {A} (from : arr 32 -> A) (as_bytes : A -> arr 32) bytes (a : A) n e1 e2 :
  (forall x, as_bytes (from x) = x) ->
  (head ← ok_or_else (get_to 32 bytes) e1;
   arr ← ok_or_else (arr_try (n:=32) head) e2; (Ok (from arr, 32) : result Error (A * nat)))
  = Ok (a, n) ->
  n = length (arr_list (as_bytes a)) /\ arr_list (as_bytes a) = take n bytes.
Proof.
  intros Hx. destruct (get_to 32 bytes) as [s|] eqn:E; [|done].
  cbn [ok_or_else mbind result_bind]. apply get_to_Some in E as [Hl ->].
  destruct (arr_try (take 32 bytes)) as [x|] eqn:Ea; [|done]. cbn. intros [= <- <-].
  apply arr_try_Some in Ea. by rewrite Hx, length_arr, Ea.
Qed.

#[export] Instance keyed_hash_wire_laws : WireAuthLaws keyed_hash_wire.
Proof.
  refine {| tag_wf := fun _ => True |}.
  - intros c rest. by apply fixed_from_to, khc_from_as.
  - intros bytes c n. apply fixed_from_Ok, khc_as_from.
  - intros t rest _. by apply fixed_from_to, kht_from_as.
  - intros bytes t n Hr. split; [done|]. eapply fixed_from_Ok; [apply kht_as_from|exact Hr].
Defined.

(** *** Signatures *)

Lemma chunks_concat es : chunks_exact_8 (concat (i64_to_le_bytes <$> es)) = i64_to_le_bytes <$> es.
Proof.
  induction es as [|e es IH]; [done|]. rewrite fmap_cons. cbn [concat].
  pose proof (length_i64_to_le_bytes e) as Hl.
  destruct (i64_to_le_bytes e) as [|a [|b [|c [|d [|x [|f [|g [|h [|]]]]]]]]]; try done.
  cbn [app chunks_exact_8]. by rewrite IH.
Qed.

(** An eight-byte chunk is an entry, which encodes back to it. *)
Lemma lhs_entry_8 chunk :
  length chunk = 8 -> exists e, lhs_entry chunk = Ok e /\ i64_to_le_bytes e = chunk.
Proof.
  intros Hl. destruct (arr_try_length (n:=8) chunk Hl) as (a & Ha & Hal).
  exists (i64_from_le_bytes a). unfold lhs_entry. rewrite Ha. split; [done|].
  by rewrite i64_to_from.
Qed.

Lemma lhs_entry_to e : lhs_entry (i64_to_le_bytes e) = Ok e.
Proof.
  destruct (arr_try_length (n:=8) _ (length_i64_to_le_bytes e)) as (a & Ha & Hal).
  unfold lhs_entry. rewrite Ha. cbn [ok_or_else mbind result_bind]. by rewrite (i64_from_to _ _ Hal).
Qed.

Lemma entries_of_chunks es : collect_results lhs_entry (i64_to_le_bytes <$> es) = Ok es.
Proof.
  induction es as [|e es IH]; [done|]. rewrite fmap_cons. cbn [collect_results].
  by rewrite lhs_entry_to, IH.
Qed.

Lemma length_entries_bytes es : length (concat (i64_to_le_bytes <$> es)) = 8 * length es.
Proof.
  induction es as [|e es IH]; [done|]. rewrite fmap_cons. cbn [concat].
  rewrite length_app, length_i64_to_le_bytes. cbn [length]. rewrite IH. lia.
Qed.

(** Whole chunks decode, and their entries encode back to the bytes. *)
Lemma chunks_entries l k :
  length l = 8 * k ->
  exists es, collect_results lhs_entry (chunks_exact_8 l) = Ok es /\ length es = k /\
    concat (i64_to_le_bytes <$> es) = l.
Proof.
  revert l. induction k as [|k IH]; intros l Hl.
  { destruct l; [|done]. by exists []. }
  destruct l as [|a [|b [|c [|d [|x [|f [|g [|h l]]]]]]]]; cbn in Hl; try lia.
  destruct (IH l ltac:(lia)) as (es & He & Hlen & Hb). cbn [chunks_exact_8 collect_results].
  destruct (lhs_entry_8 [a; b; c; d; x; f; g; h] eq_refl) as (e & -> & Hl').
  cbn [mbind result_bind]. rewrite He. cbn [mbind result_bind].
  eexists. split_and!; [done|by cbn; f_equal|].
  rewrite fmap_cons. cbn [concat]. by rewrite Hl', Hb.
Qed.

(** Signatures whose length the prefix can carry; longer ones saturate it. *)
Definition lhs_tag_wf (t : LhsSignature) : Prop :=
  (N.of_nat (length (zvec_entries (signature_sigma t))) < 2 ^ 32)%N.

(** The prefix, as the decoder computes with it. *)
Lemma lhs_lengths (n : u32) :
  usize_checked (uval n) = Some (uval n) /\
  usize_checked (uval n * N.of_nat LHS_TAG_ENTRY_LEN) = Some (uval n * 8)%N /\
  usize_checked (N.of_nat LHS_TAG_LEN_PREFIX + uval n * 8) = Some (4 + uval n * 8)%N.
Proof.
  pose proof (uint_lt n) as Hn. unfold usize_checked, LHS_TAG_ENTRY_LEN, LHS_TAG_LEN_PREFIX.
  change (N.of_nat 8) with 8%N. change (N.of_nat 4) with 4%N.
  split_and!; (match goal with |- context [(?x <? ?y)%N] => destruct (N.ltb_spec x y) end);
    [done|lia|done|lia|done|lia].
Qed.

Lemma lhs_tag_from_to t rest :
  lhs_tag_wf t -> lhs_tag_from_bytes (lhs_tag_to_vec t ++ rest) = Ok (t, length (lhs_tag_to_vec t)).
Proof.
  unfold lhs_tag_wf. intros Hwf. unfold lhs_tag_to_vec.
  set (es := zvec_entries (signature_sigma t)) in *.
  destruct (uint_try (w:=32) (N.of_nat (length es))) as [n|] eqn:En.
  2: { apply uint_try_None in En. lia. }
  apply uint_try_Some in En. cbn [default]. unfold id.
  set (body := concat (i64_to_le_bytes <$> es)).
  assert (Hbody : length body = 8 * length es) by apply length_entries_bytes.
  unfold lhs_tag_from_bytes. rewrite <- app_assoc.
  rewrite get_to_app by (rewrite length_be_bytes; done). cbn [ok_or_else mbind result_bind].
  destruct (arr_try_length (n:=4) (be_bytes 4 n) (length_be_bytes 4 n)) as (ar & -> & Har).
  cbn [ok_or_else mbind result_bind]. rewrite Har, from_be_bytes by done.
  destruct (lhs_lengths n) as (-> & H2 & H3). cbn [ok_or_else mbind result_bind].
  rewrite H2. cbn [ok_or_else mbind result_bind]. rewrite H3. cbn [ok_or_else mbind result_bind].
  assert (Hend : N.to_nat (4 + uval n * 8) = 4 + length body) by lia.
  rewrite Hend, get_range_app by (unfold LHS_TAG_LEN_PREFIX; rewrite ?length_be_bytes; done).
  cbn [ok_or_else mbind result_bind]. unfold body. rewrite chunks_concat, entries_of_chunks.
  cbn [mbind result_bind]. fold body. unfold es.
  by rewrite zvec_new_entries, signature_new_sigma, length_app, length_be_bytes.
Qed.

Lemma lhs_tag_from_Ok bytes t n :
  lhs_tag_from_bytes bytes = Ok (t, n) ->
  lhs_tag_wf t /\ n = length (lhs_tag_to_vec t) /\ lhs_tag_to_vec t = take n bytes.
Proof.
  unfold lhs_tag_from_bytes.
  destruct (get_to LHS_TAG_LEN_PREFIX bytes) as [s|] eqn:E; [|done]. cbn [ok_or_else mbind result_bind].
  apply get_to_Some in E as [Hl ->].
  destruct (arr_try (take LHS_TAG_LEN_PREFIX bytes)) as [ar|] eqn:Ea; [|done].
  cbn [ok_or_else mbind result_bind]. apply arr_try_Some in Ea.
  remember (from_be (arr_list ar) : u32) as c eqn:Hc0. destruct (lhs_lengths c) as (-> & H2 & H3).
  cbn [ok_or_else mbind result_bind]. rewrite H2. cbn [ok_or_else mbind result_bind].
  rewrite H3. cbn [ok_or_else mbind result_bind].
  destruct (get_range LHS_TAG_LEN_PREFIX _ bytes) as [body|] eqn:Eb; [|done].
  cbn [ok_or_else mbind result_bind].
  unfold get_range in Eb. destruct (_ && _) eqn:Ebd; [|done].
  assert (Hbody : body = take (8 * N.to_nat (uval c)) (drop 4 bytes) /\
    4 + 8 * N.to_nat (uval c) <= length bytes).
  { bool_to_prop. injection Eb as <-. unfold LHS_TAG_LEN_PREFIX in *. split; [f_equal; lia|lia]. }
  clear Eb Ebd. destruct Hbody as [Hbody Hbl].
  assert (Hl8 : length body = 8 * N.to_nat (uval c)).
  { rewrite Hbody, length_take, length_drop. lia. }
  destruct (chunks_entries body (N.to_nat (uval c)) Hl8) as (es & -> & Hes & Hb).
  cbn [mbind result_bind]. intros [= <- <-].
  unfold lhs_tag_wf, lhs_tag_to_vec. rewrite signature_sigma_new, zvec_entries_new, Hes, Hb.
  assert (Hc : uint_try (w:=32) (N.of_nat (N.to_nat (uval c))) = Some c).
  { apply uint_try_Some. lia. }
  rewrite Hc. cbn [default]. unfold id. pose proof (uint_lt c).
  assert (Hpre : be_bytes 4 c = take 4 bytes).
  { rewrite Hc0. etrans; [apply be_bytes_from_be; [done|apply length_arr]|exact Ea]. }
  rewrite Hpre.
  assert (He : N.to_nat (4 + uval c * 8) = 4 + 8 * N.to_nat (uval c)) by lia. rewrite He.
  split_and!; [lia| |].
  - rewrite length_app, length_take, Hl8. lia.
  - rewrite Hbody. by rewrite take_take_drop.
Qed.

#[export] Instance lattice_wire_laws : WireAuthLaws lattice_wire.
Proof.
  refine {| tag_wf := lhs_tag_wf : LhsSignature -> Prop |}.
  - intros c rest. by apply fixed_from_to, lhc_from_as.
  - intros bytes c n. apply fixed_from_Ok, lhc_as_from.
  - apply lhs_tag_from_to.
  - apply lhs_tag_from_Ok.
Defined.

End stock_laws.
