(* ===== verification/PubsubCodec.v ===== *)
(** * Topics and pubsub frames

    Models src/crates/libp2p-cat-pubsub/src/{topic,codec}.rs.  The codec is
    generic in the authenticator, through [WireAuthenticator], and in the
    network-coding library.  Names shared with the other codecs carry the
    prefix [pubsub]. *)

From S2P Require Export Rlnc PubsubAuth.

#[local] Open Scope string_scope.

(** ** Topics *)

Definition MAX_TOPIC_LEN : nat := 255.
Definition KB_LEN : nat := 8.

(** The check of [Topic::new]: the length in bytes and printable ASCII. *)
Definition topic_rejected (name : string) : bool :=
  let len := length (str_bytes name) in
  let printable := forallb (fun b => (33 <=? b2n b)%N && (b2n b <=? 126)%N) (str_bytes name) in
  (len =? 0)%nat || (MAX_TOPIC_LEN <? len)%nat || negb printable.

(** The field is private and [new] the only constructor, so every topic
    passed the check. *)
Record Topic : Type := MkTopic {
  topic_as_str : string;
  topic_ok : topic_rejected topic_as_str = false
}.

Definition topic_new (name : string) : result Error Topic :=
  match bool_dec (topic_rejected name) false with
  | right _ => Err (pubsub_error ("topic must be 1..=" ++ decn MAX_TOPIC_LEN ++
                 " printable ASCII bytes, got " ++ decn (length (str_bytes name))))
  | left H => Ok (MkTopic name H)
  end.

Definition topic_as_bytes (t : Topic) : list byte := str_bytes (topic_as_str t).
Definition topic_display (t : Topic) : string := topic_as_str t.
(** [TryFrom<&str>] and [TryFrom<String>]. *)
Definition topic_try_from (s : string) : result Error Topic := topic_new s.

Lemma topic_eq (a b : Topic) : topic_as_str a = topic_as_str b -> a = b.
Proof. destruct a as [a Ha], b as [b Hb]. cbn. intros ->. f_equal. apply proof_irrel. Qed.

#[export] Instance topic_eq_dec : EqDecision Topic.
Proof.
  refine (fun a b => match decide (topic_as_str a = topic_as_str b) with
                     | left H => left (topic_eq a b H)
                     | right H => right _ end).
  congruence.
Defined.

Lemma topic_new_Ok s t : topic_new s = Ok t <-> topic_as_str t = s.
Proof.
  unfold topic_new. destruct (bool_dec _ _) as [H|H]; split; intros Ht; simplify_eq/=.
  - done.
  - f_equal. by apply topic_eq.
  - exfalso. apply H, topic_ok.
Qed.

#[export] Program Instance topic_countable : Countable Topic :=
  inj_countable topic_as_str
    (fun s => match topic_new s with Ok t => Some t | Err _ => None end) _.
Next Obligation.
  intros t. cbn. assert (H : topic_new (topic_as_str t) = Ok t) by by apply topic_new_Ok.
  by rewrite H.
Qed.

(** The derived [Ord]: the string's, byte by byte. *)
#[export] Program Instance topic_ord : RustOrd Topic :=
  {| ord_key t := b2n <$> topic_as_bytes t |}.
Next Obligation.
  intros a b Hab. apply topic_eq, (inj str_bytes). revert Hab. apply list_fmap_eq_inj.
  intros x y. apply b2n_inj.
Qed.

(** ** Frames *)

Record PubsubFrame : Type := MkPubsubFrame {
  pf_topic : Topic;
  pf_piece_count : u32;
  pf_piece_byte_len : u32;
  pf_piece_bytes : list byte
}.

Definition parse_4 (slice : list byte) : result Error (arr 4) :=
  ok_or_else (arr_try slice) (pubsub_error ("expected 4 bytes, got " ++ decn (length slice))).

Definition usize_from_u32 (n : u32) : result Error nat :=
  N.to_nat <$> ok_or_else (usize_checked (uval n))
    (pubsub_error ("u32 value " ++ dec (uval n) ++ " does not fit in usize on this platform")).

Section codec.
Context `{R : Rlnc} {Com Tg : Type} `{W : !WireAuthenticator Com Tg}.

Definition pubsub_encode (topic : Topic) (piece_count piece_byte_len : nat)
    (wire_piece : WirePiece Com Tg) : result Error (list byte) :=
  let topic_bytes := topic_as_bytes topic in
  topic_len_byte ← ok_or_else (uint_try (w:=8) (N.of_nat (length topic_bytes)))
    (pubsub_error ("topic length " ++ decn (length topic_bytes) ++ " exceeds u8 range"));
  k ← ok_or_else (uint_try (w:=32) (N.of_nat piece_count))
    (pubsub_error ("piece_count " ++ decn piece_count ++ " exceeds u32 range"));
  b ← ok_or_else (uint_try (w:=32) (N.of_nat piece_byte_len))
    (pubsub_error ("piece_byte_len " ++ decn piece_byte_len ++ " exceeds u32 range"));
  let commitment_bytes := commitment_to_vec (wp_commitment wire_piece) in
  let tag_bytes := tag_to_vec (wp_tag wire_piece) in
  let piece_bytes := cp_to_bytes (wp_piece wire_piece) in
  Ok ([n2b (uval topic_len_byte)] ++ topic_bytes ++ be_bytes 4 k ++ be_bytes 4 b ++
      commitment_bytes ++ tag_bytes ++ piece_bytes)%list.

Definition pubsub_decode (bytes : list byte)
    : result Error (PubsubFrame * WirePiece Com Tg) :=
  topic_len_byte ← ok_or_else (head bytes) (pubsub_error "frame missing topic length byte");
  let topic_len := N.to_nat (b2n topic_len_byte) in
  let fixed_header_end := 1 + topic_len + KB_LEN in
  if (length bytes <? fixed_header_end)%nat then
    Err (pubsub_error ("frame too short for fixed header: " ++ decn (length bytes) ++
           " bytes, need " ++ decn fixed_header_end))
  else
    topic_slice ← ok_or_else (get_range 1 (1 + topic_len) bytes)
      (pubsub_error "frame topic slice unreadable");
    topic_string ← map_err (fun _ => pubsub_error "topic slice is not valid UTF-8")
      (from_utf8 topic_slice);
    topic ← topic_new topic_string;
    k_slice ← ok_or_else (get_range (1 + topic_len) (1 + topic_len + 4) bytes)
      (pubsub_error "frame missing piece-count field");
    b_slice ← ok_or_else (get_range (1 + topic_len + 4) (1 + topic_len + 8) bytes)
      (pubsub_error "frame missing piece-byte-len field");
    k_arr ← parse_4 k_slice;
    b_arr ← parse_4 b_slice;
    let piece_count : u32 := from_be (arr_list k_arr) in
    let piece_byte_len : u32 := from_be (arr_list b_arr) in
    auth_buffer ← ok_or_else (get_from fixed_header_end bytes)
      (pubsub_error "frame missing auth block");
    '(commitment, commitment_consumed) ← commitment_from_bytes auth_buffer;
    after_commitment ← ok_or_else (get_from commitment_consumed auth_buffer)
      (pubsub_error "frame missing tag block after commitment");
    '(tag, tag_consumed) ← tag_from_bytes after_commitment;
    piece_bytes ← ok_or_else (get_from tag_consumed after_commitment)
      (pubsub_error "frame missing piece body");
    piece_count_us ← usize_from_u32 piece_count;
    coded ← map_err (fun e => RlncLayer (rlnc_display e))
      (cp_from_bytes piece_bytes piece_count_us);
    let wire_piece := wp_new commitment coded tag in
    Ok (MkPubsubFrame topic piece_count piece_byte_len piece_bytes, wire_piece).

End codec.

#[local] Close Scope string_scope.

(** ** Round trips *)

Lemma topic_length t : 1 <= length (topic_as_bytes t) <= 255.
Proof.
  pose proof (topic_ok t) as H. unfold topic_rejected in H. fold (topic_as_bytes t) in H.
  apply orb_false_iff in H as [[H1 H2]%orb_false_iff _].
  apply Nat.eqb_neq in H1. apply Nat.ltb_ge in H2. unfold MAX_TOPIC_LEN in H2. lia.
Qed.

Lemma topic_ascii t : is_ascii (topic_as_str t) = true.
Proof.
  pose proof (topic_ok t) as H. unfold topic_rejected in H.
  apply orb_false_iff in H as [_ H%negb_false_iff]. rewrite forallb_forall in H.
  apply forallb_forall. intros x Hx%H. apply andb_true_iff in Hx as [_ Hx%N.leb_le].
  apply N.ltb_lt. lia.
Qed.

Lemma topic_utf8 t : from_utf8 (topic_as_bytes t) = Ok (topic_as_str t).
Proof. apply from_utf8_Ok. split; [done|]. apply is_ascii_is_str, topic_ascii. Qed.

Lemma get_from_Some_app {A} n (l s : list A) :
  get_from n l = Some s -> exists p, l = p ++ s /\ length p = n.
Proof.
  intros [Hl ->]%get_from_Some. exists (take n l). rewrite take_drop, length_take. split; [done|lia].
Qed.

Lemma usize_from_u32_Ok n : usize_from_u32 n = Ok (N.to_nat (uval n)).
Proof.
  unfold usize_from_u32, usize_checked. pose proof (uint_lt n).
  destruct (N.ltb_spec (uval n) (2 ^ 64)); [done|lia].
Qed.

Lemma parse_4_be (n : u32) : exists a, parse_4 (be_bytes 4 n) = Ok a /\ from_be (arr_list a) = n.
Proof.
  destruct (arr_try_length (n:=4) (be_bytes 4 n) (length_be_bytes 4 n)) as (a & Ha & Hl).
  exists a. unfold parse_4. rewrite Ha. split; [done|]. by rewrite Hl, from_be_bytes.
Qed.

Lemma parse_4_Ok slice a : parse_4 slice = Ok a -> be_bytes 4 (from_be (w:=32) (arr_list a)) = slice.
Proof.
  unfold parse_4. destruct (arr_try slice) as [x|] eqn:E; [|done]. cbn. intros [= <-].
  apply arr_try_Some in E. rewrite be_bytes_from_be; [exact E|done|apply length_arr].
Qed.

Section roundtrip.
Context `{R : Rlnc, RL : !RlncLaws} {Com Tg : Type} `{W : !WireAuthenticator Com Tg, WL : !WireAuthLaws W}.
Implicit Types (wp : WirePiece Com Tg) (t : Topic).

(** The bytes of a frame. *)
Definition pubsub_bytes t (k b : u32) wp : list byte :=
  [n2b (N.of_nat (length (topic_as_bytes t)))] ++ topic_as_bytes t ++ be_bytes 4 k ++ be_bytes 4 b ++
    commitment_to_vec (wp_commitment wp) ++ tag_to_vec (wp_tag wp) ++ cp_to_bytes (wp_piece wp).

Lemma pubsub_encode_eq t n m wp (k b : u32) :
  N.of_nat n = uval k -> N.of_nat m = uval b -> pubsub_encode t n m wp = Ok (pubsub_bytes t k b wp).
Proof.
  intros Hk Hb. unfold pubsub_encode. pose proof (topic_length t) as Ht.
  destruct (uint_try (w:=8) _) as [tl|] eqn:E1.
  2: { apply uint_try_None in E1. change (2 ^ 8)%N with 256%N in E1. lia. }
  apply uint_try_Some in E1. symmetry in Hk, Hb. apply uint_try_Some in Hk, Hb.
  cbn [ok_or_else mbind result_bind]. rewrite Hk. cbn [ok_or_else mbind result_bind].
  rewrite Hb. cbn [ok_or_else mbind result_bind]. by rewrite E1.
Qed.

Lemma pubsub_encode_Ok t n m wp bytes :
  pubsub_encode t n m wp = Ok bytes ->
  exists k b : u32, uval k = N.of_nat n /\ uval b = N.of_nat m /\ bytes = pubsub_bytes t k b wp.
Proof.
  intros He. pose proof He as He'. unfold pubsub_encode in He'.
  destruct (uint_try (w:=8) _) as [tl|]; [|done]. cbn [ok_or_else mbind result_bind] in He'.
  destruct (uint_try (w:=32) (N.of_nat n)) as [k|] eqn:Hk; [|done].
  cbn [ok_or_else mbind result_bind] in He'.
  destruct (uint_try (w:=32) (N.of_nat m)) as [b|] eqn:Hb; [|done]. clear He'.
  apply uint_try_Some in Hk, Hb. exists k, b. split_and!; [done..|].
  rewrite (pubsub_encode_eq _ _ _ _ k b) in He by done. by injection He as <-.
Qed.

(** What the wire can carry: the coding vector has the announced length, and
    the tag's length fits its prefix. *)
Definition wire_ok (k : u32) wp : Prop :=
  N.of_nat (length (cp_coding_vector (wp_piece wp))) = uval k /\ tag_wf (wp_tag wp).

Lemma pubsub_decode_bytes t k b wp :
  wire_ok k wp ->
  pubsub_decode (pubsub_bytes t k b wp) =
    Ok (MkPubsubFrame t k b (cp_to_bytes (wp_piece wp)), wp).
Proof.
  intros [Hk Ht]. unfold pubsub_decode, pubsub_bytes. pose proof (topic_length t) as Htl. pose proof (topic_utf8 t) as Hutf.
  set (tb := topic_as_bytes t) in *. set (com := commitment_to_vec _). set (tag := tag_to_vec _).
  set (pc := cp_to_bytes (wp_piece wp)). cbn [app head ok_or_else mbind result_bind].
  rewrite b2n_n2b, N.mod_small, Nat2N.id by lia. unfold KB_LEN.
  destruct (Nat.ltb_spec (length (n2b (N.of_nat (length tb)) :: tb ++ be_bytes 4 k ++ be_bytes 4 b ++
    com ++ tag ++ pc)) (1 + length tb + 8)) as [Hlt|_].
  { cbn [length] in Hlt. rewrite !length_app, !length_be_bytes in Hlt. lia. }
  set (h := n2b (N.of_nat (length tb))).
  change (h :: tb ++ be_bytes 4 k ++ be_bytes 4 b ++ com ++ tag ++ pc)
    with ([h] ++ tb ++ be_bytes 4 k ++ be_bytes 4 b ++ com ++ tag ++ pc).
  rewrite (get_range_app 1 (1 + length tb) [h] tb) by (try done; cbn; lia). cbn [ok_or_else mbind result_bind].
  rewrite Hutf. cbn [map_err mbind result_bind].
  assert (Hnew : topic_new (topic_as_str t) = Ok t) by by apply topic_new_Ok.
  rewrite Hnew. cbn [mbind result_bind].
  replace ([h] ++ tb ++ be_bytes 4 k ++ be_bytes 4 b ++ com ++ tag ++ pc)
    with (([h] ++ tb) ++ be_bytes 4 k ++ be_bytes 4 b ++ com ++ tag ++ pc) by by rewrite <- app_assoc.
  rewrite (get_range_app (1 + length tb)) by (rewrite ?length_app, ?length_be_bytes; cbn; lia).
  cbn [ok_or_else mbind result_bind].
  rewrite (app_assoc ([h] ++ tb)).
  rewrite (get_range_app (1 + length tb + 4))
    by (rewrite ?length_app, ?length_be_bytes; cbn; lia).
  cbn [ok_or_else mbind result_bind].
  destruct (parse_4_be k) as (ka & -> & Hka), (parse_4_be b) as (ba & Hb & Hba).
  cbn [mbind result_bind]. rewrite Hb. cbn [mbind result_bind]. rewrite Hka, Hba.
  rewrite (app_assoc (([h] ++ tb) ++ be_bytes 4 k)).
  rewrite get_from_app by (rewrite !length_app, !length_be_bytes; cbn; lia).
  cbn [ok_or_else mbind result_bind]. unfold com. rewrite commitment_from_to.
  cbn [mbind result_bind]. rewrite get_from_app by done. cbn [ok_or_else mbind result_bind].
  unfold tag. rewrite tag_from_to by done.
  cbn [mbind result_bind]. rewrite get_from_app by done. cbn [ok_or_else mbind result_bind].
  rewrite usize_from_u32_Ok. cbn [mbind result_bind]. unfold pc.
  replace (N.to_nat (uval k)) with (length (cp_coding_vector (wp_piece wp))) by lia.
  rewrite cp_from_to. cbn [map_err mbind result_bind]. by rewrite wp_new_eta.
Qed.

Lemma pubsub_decode_Ok bytes f wp :
  pubsub_decode bytes = Ok (f, wp) ->
  bytes = pubsub_bytes (pf_topic f) (pf_piece_count f) (pf_piece_byte_len f) wp /\
  wire_ok (pf_piece_count f) wp /\ pf_piece_bytes f = cp_to_bytes (wp_piece wp).
Proof.
  unfold pubsub_decode. destruct bytes as [|h rest]; [done|]. cbn [head ok_or_else mbind result_bind].
  set (n := N.to_nat (b2n h)). destruct (Nat.ltb_spec (length (h :: rest)) (1 + n + KB_LEN)) as [|Hl];
    [done|]. unfold KB_LEN in Hl. cbn [length] in Hl.
  destruct (split_list n 8 rest ltac:(lia)) as (tb & kb & auth & -> & Htb & Hkb).
  destruct (split_list 4 4 kb ltac:(lia)) as (ks & bs & e & -> & Hks & Hbs).
  assert (e = []) as -> by (apply nil_length_inv; rewrite !length_app in Hkb; lia).
  rewrite app_nil_r, <- app_assoc. clear Hkb Hl.
  change (h :: tb ++ ks ++ bs ++ auth) with ([h] ++ tb ++ ks ++ bs ++ auth).
  rewrite (get_range_app 1 (1 + n)) by (cbn; lia). cbn [ok_or_else mbind result_bind].
  destruct (from_utf8 tb) as [ts|] eqn:Eu; [|done]. cbn [map_err mbind result_bind].
  destruct (topic_new ts) as [t|] eqn:Et; [|done]. cbn [mbind result_bind].
  rewrite app_assoc. rewrite (get_range_app (1 + n)) by (rewrite ?length_app; cbn; lia).
  cbn [ok_or_else mbind result_bind]. rewrite app_assoc.
  rewrite (get_range_app (1 + n + 4)) by (rewrite ?length_app; cbn; lia).
  cbn [ok_or_else mbind result_bind].
  destruct (parse_4 ks) as [ka|] eqn:Eka; [|done]. cbn [mbind result_bind].
  destruct (parse_4 bs) as [ba|] eqn:Eba; [|done]. cbn [mbind result_bind].
  apply parse_4_Ok in Eka, Eba. rewrite app_assoc.
  rewrite get_from_app by (rewrite !length_app; cbn; unfold KB_LEN; lia).
  cbn [ok_or_else mbind result_bind].
  destruct (commitment_from_bytes auth) as [[c nc]|] eqn:Ec; [|done]. cbn [mbind result_bind].
  apply commitment_from_Ok in Ec as [-> Hc].
  destruct (get_from _ auth) as [after|] eqn:Ea; [|done]. cbn [ok_or_else mbind result_bind].
  apply get_from_Some in Ea as [_ ->].
  destruct (tag_from_bytes _) as [[tg nt]|] eqn:Eg; [|done]. cbn [mbind result_bind].
  apply tag_from_Ok in Eg as (Hwf & -> & Hg).
  destruct (get_from _ (drop _ auth)) as [pb|] eqn:Ep; [|done]. cbn [ok_or_else mbind result_bind].
  apply get_from_Some in Ep as [_ ->]. rewrite usize_from_u32_Ok. cbn [mbind result_bind].
  destruct (cp_from_bytes _ _) as [pc|] eqn:Epc; [|done]. cbn [map_err mbind result_bind].
  apply cp_from_bytes_Ok in Epc as [Hpc Hv]. intros [= <- <-].
  unfold pubsub_bytes, wire_ok. cbn [pf_topic pf_piece_count pf_piece_byte_len pf_piece_bytes].
  rewrite wp_commitment_new, wp_tag_new, wp_piece_new. split_and!; [|lia|done|done].
  apply topic_new_Ok in Et. apply from_utf8_Ok in Eu as [Htb' _]. unfold topic_as_bytes.
  rewrite Et, Htb', Eka, Eba, Htb, Hpc. unfold n. rewrite N2Nat.id, n2b_b2n.
  rewrite <- !app_assoc. do 4 f_equal.
  etrans; [symmetry; apply (take_drop (length (commitment_to_vec c)))|]. f_equal; [by symmetry|].
  etrans; [symmetry; apply (take_drop (length (tag_to_vec tg)))|]. by f_equal.
Qed.

(** ** Properties *)

(** C32: the decoder accepts exactly the encodings of frames whose coding
    vector has the announced length and whose tag fits its prefix: what it
    returns encodes to the bytes it read, and what was encoded is read back,
    for every authenticator whose fields are read back.  The announced data
    length [b] is free: nothing compares it with the data, whatever the
    documentation of [decode] says.  Encoding fails only for [k] or [b]
    beyond [u32]. *)
Theorem pubsub_codec_exact (bytes : list byte) (f : PubsubFrame) (wp : WirePiece Com Tg)
    (t : Topic) (k b : nat) :
  (pubsub_decode bytes = Ok (f, wp) <->
     pubsub_encode (pf_topic f) (N.to_nat (uval (pf_piece_count f)))
       (N.to_nat (uval (pf_piece_byte_len f))) wp = Ok bytes /\
     wire_ok (pf_piece_count f) wp /\ pf_piece_bytes f = cp_to_bytes (wp_piece wp)) /\
  (is_ok (pubsub_encode t k b wp) = true <-> (N.of_nat k < 2 ^ 32 /\ N.of_nat b < 2 ^ 32)%N).
Proof.
  split; [split|].
  - intros (-> & Hok & Hp)%pubsub_decode_Ok. split; [|done]. by apply pubsub_encode_eq; rewrite N2Nat.id.
  - intros (He & Hok & Hp). rewrite (pubsub_encode_eq _ _ _ _ (pf_piece_count f) (pf_piece_byte_len f))
      in He by (by rewrite N2Nat.id). injection He as <-.
    rewrite pubsub_decode_bytes by done. rewrite <- Hp. by destruct f.
  - split.
    + destruct (pubsub_encode t k b wp) as [bs|] eqn:E; [|done]. intros _.
      apply pubsub_encode_Ok in E as (uk & ub & Hk & Hb & _). rewrite <- Hk, <- Hb.
      split; apply uint_lt.
    + intros [Hk Hb]. rewrite (pubsub_encode_eq _ _ _ _ (uint_wrap (N.of_nat k)) (uint_wrap (N.of_nat b)));
        [done|by rewrite uint_wrap_small..].
Qed.

End roundtrip.
