(* ===== verification/PubsubState.v ===== *)
(** * The gossip node's protocol state

    Models src/crates/libp2p-cat-pubsub/src/state.rs: per-topic decoders and
    relays with their commitments, and the tick that ages them. *)

From S2P Require Export PubsubCodec.

Section state.
Context `{A : Authenticator}.

Record DecoderEntry : Type := MkDecoderEntry {
  de_state : DecoderState;
  de_commitment : Commitment;
  de_last_activity : u64
}.

Record RecoderEntry : Type := MkRecoderEntry {
  re_recoder : Recoder;
  re_rank_tracker : DecoderState;
  re_commitment : Commitment;
  re_last_activity : u64
}.

Record PubsubState : Type := MkPubsubState {
  ps_auth : Auth;
  ps_decoders : gmap Topic DecoderEntry;
  ps_recoders : gmap Topic RecoderEntry;
  ps_tick : u64
}.

Definition pubsub_state_new (auth : Auth) : PubsubState := MkPubsubState auth ∅ ∅ u64_zero.

Definition ps_commit (s : PubsubState) (original : OriginalData) : Commitment :=
  auth_commit (ps_auth s) original.

Definition ps_register_topic (s : PubsubState) (topic : Topic) (piece_count piece_byte_len : nat)
    (commitment : Commitment) : PubsubState :=
  let '(MkPubsubState auth decoders recoders tick) := s in
  let next_tick := wrapping_add tick 1 in
  MkPubsubState auth
    (<[topic := MkDecoderEntry (ds_new piece_count piece_byte_len) commitment next_tick]> decoders)
    recoders next_tick.

Definition ps_register_relay (s : PubsubState) (topic : Topic) (piece_count piece_byte_len : nat)
    (commitment : Commitment) : PubsubState :=
  let '(MkPubsubState auth decoders recoders tick) := s in
  let next_tick := wrapping_add tick 1 in
  MkPubsubState auth decoders
    (<[topic := MkRecoderEntry (rc_new piece_count piece_byte_len)
                  (ds_new piece_count piece_byte_len) commitment next_tick]> recoders)
    next_tick.

Definition ps_unregister_topic (s : PubsubState) (topic : Topic) : PubsubState :=
  let '(MkPubsubState auth decoders recoders tick) := s in
  MkPubsubState auth (delete topic decoders) recoders (wrapping_add tick 1).

Definition ps_unregister_relay (s : PubsubState) (topic : Topic) : PubsubState :=
  let '(MkPubsubState auth decoders recoders tick) := s in
  MkPubsubState auth decoders (delete topic recoders) (wrapping_add tick 1).

Definition ps_evict_idle_topics (s : PubsubState) (max_idle_ticks : u64)
    : PubsubState * list Topic :=
  let '(MkPubsubState auth decoders recoders tick) := s in
  let cutoff := saturating_sub tick max_idle_ticks in
  let '(kept, evicted) := sweep_idle de_last_activity decoders cutoff in
  (MkPubsubState auth kept recoders (wrapping_add tick 1), evicted).

Definition ps_evict_idle_relays (s : PubsubState) (max_idle_ticks : u64)
    : PubsubState * list Topic :=
  let '(MkPubsubState auth decoders recoders tick) := s in
  let cutoff := saturating_sub tick max_idle_ticks in
  let '(kept, evicted) := sweep_idle re_last_activity recoders cutoff in
  (MkPubsubState auth decoders kept (wrapping_add tick 1), evicted).

Definition decoder_count (s : PubsubState) : nat := size (ps_decoders s).
Definition relay_count (s : PubsubState) : nat := size (ps_recoders s).
Definition is_decoder_registered (s : PubsubState) (topic : Topic) : bool :=
  contains_key (ps_decoders s) topic.
Definition is_relay_registered (s : PubsubState) (topic : Topic) : bool :=
  contains_key (ps_recoders s) topic.

End state.
