(* ===== verification/PubsubMux.v ===== *)
(** * The gossip node

    Models src/crates/libp2p-cat-pubsub/src/mux.rs: a host with the gossip
    state, a one-byte kind in front of every plaintext, decoders that absorb
    verified pieces and relays that recode and forward the ones that raise
    their rank.  The caller's randomness for a relay is called at most once
    per received datagram. *)

From S2P Require Export PubsubState HostLink.

#[local] Open Scope string_scope.

Definition KIND_APP : byte := x00.
Definition KIND_PUBSUB : byte := x01.

Inductive MuxEvent : Type :=
| AppData (addr : UdpAddr) (bytes : list byte)
| PubsubAbsorbed (addr : UdpAddr) (topic : Topic)
| PubsubRedundant (addr : UdpAddr) (topic : Topic)
| PubsubDelivered (addr : UdpAddr) (topic : Topic) (data : list byte)
| PubsubRelayed (from : UdpAddr) (topic : Topic) (fanout_count : nat)
| PmHandshakeProgress (addr : UdpAddr)
| PmHandshakeComplete (addr : UdpAddr) (remote_static : StaticPublicKey) (remote_peer_id : PeerId)
| PmRejected (addr : UdpAddr) (reason : string).

(** [prefix_kind]. *)
Definition prefix_kind (kind : byte) (payload : list byte) : list byte := kind :: payload.

Section mux.
Context `{C : Crypto, RT : IoRuntime, R : !Rlnc, A : !Authenticator,
          W : !WireAuthenticator Commitment Tag}.

Record PubsubMux : Type := MkPubsubMux { pm_host : Host; pm_state : PubsubState }.

Definition pm_new (host : Host) (auth : Auth) : PubsubMux :=
  MkPubsubMux host (pubsub_state_new auth).
Definition pm_split (m : PubsubMux) : Host * PubsubState := (pm_host m, pm_state m).
Definition pm_join (host : Host) (state : PubsubState) : PubsubMux := MkPubsubMux host state.
Definition pm_into_host (m : PubsubMux) : Host := pm_host m.
Definition pm_commit (m : PubsubMux) (original : OriginalData) : Commitment :=
  ps_commit (pm_state m) original.
Definition pm_local_addr (m : PubsubMux) : result Error UdpAddr := host_local_addr (pm_host m).
Definition pm_is_established (m : PubsubMux) (addr : UdpAddr) : bool :=
  is_established (pm_host m) addr.

Definition pm_dial (m : PubsubMux) (addr : UdpAddr) (ephemeral_seed : arr 32) : Io Error PubsubMux :=
  let '(MkPubsubMux host state) := m in
  (fun host => MkPubsubMux host state) <$> dial host addr ephemeral_seed.

Definition pm_register_topic (m : PubsubMux) (topic : Topic) (piece_count piece_byte_len : nat)
    (commitment : Commitment) : PubsubMux :=
  let '(MkPubsubMux host state) := m in
  MkPubsubMux host (ps_register_topic state topic piece_count piece_byte_len commitment).
Definition pm_register_relay (m : PubsubMux) (topic : Topic) (piece_count piece_byte_len : nat)
    (commitment : Commitment) : PubsubMux :=
  let '(MkPubsubMux host state) := m in
  MkPubsubMux host (ps_register_relay state topic piece_count piece_byte_len commitment).
Definition pm_unregister_topic (m : PubsubMux) (topic : Topic) : PubsubMux :=
  let '(MkPubsubMux host state) := m in MkPubsubMux host (ps_unregister_topic state topic).
Definition pm_unregister_relay (m : PubsubMux) (topic : Topic) : PubsubMux :=
  let '(MkPubsubMux host state) := m in MkPubsubMux host (ps_unregister_relay state topic).
Definition pm_evict_idle_topics (m : PubsubMux) (max_idle_ticks : u64) : PubsubMux * list Topic :=
  let '(MkPubsubMux host state) := m in
  let '(state, evicted) := ps_evict_idle_topics state max_idle_ticks in
  (MkPubsubMux host state, evicted).
Definition pm_evict_idle_relays (m : PubsubMux) (max_idle_ticks : u64) : PubsubMux * list Topic :=
  let '(MkPubsubMux host state) := m in
  let '(state, evicted) := ps_evict_idle_relays state max_idle_ticks in
  (MkPubsubMux host state, evicted).

(** ** Sending *)

Definition send_app (m : PubsubMux) (addr : UdpAddr) (payload : list byte) : Io Error PubsubMux :=
  let '(MkPubsubMux host state) := m in
  let framed := prefix_kind KIND_APP payload in
  (fun host => MkPubsubMux host state) <$> host_send host addr framed.

(** One step of the folds below. *)
Definition send_frame_to (datagram : list byte) (mux : PubsubMux) (addr : UdpAddr)
    : Io Error PubsubMux :=
  let '(MkPubsubMux host state) := mux in
  (fun host => MkPubsubMux host state) <$> host_send host addr datagram.

Definition send_frame_to_each (addrs : list UdpAddr) (mux : PubsubMux) (datagram : list byte)
    : Io Error PubsubMux :=
  foldl (fun acc addr => mux ← acc; send_frame_to datagram mux addr) (io_pure mux) addrs.

Definition send_frame_to_all (mux : PubsubMux) (frame : list byte) : Io Error PubsubMux :=
  let addrs := established_addrs (pm_host mux) in
  send_frame_to_each addrs mux (prefix_kind KIND_PUBSUB frame).

Definition send_frame_excluding (mux : PubsubMux) (frame : list byte) (exclude : UdpAddr)
    : Io Error (PubsubMux * nat) :=
  let addrs := filter (fun a => a <> exclude) (established_addrs (pm_host mux)) in
  let count := length addrs in
  (fun mux => (mux, count)) <$> send_frame_to_each addrs mux (prefix_kind KIND_PUBSUB frame).

Definition fan_out_all (mux : PubsubMux) (frames : list (list byte)) : Io Error PubsubMux :=
  foldl (fun acc frame => mux ← acc; send_frame_to_all mux frame) (io_pure mux) frames.

Definition rlnc_error (e : RlncError) : Error := RlncLayer (rlnc_display e).

Definition broadcast (m : PubsubMux) (topic : Topic) (data : OriginalData) (num_pieces : nat)
    (rng_factory : RngFactory RlncError) : Io Error (PubsubMux * Commitment) :=
  let piece_count := od_piece_count data in
  let piece_byte_len := od_piece_byte_len data in
  let '(commitment, stream) := gossip_source (ps_auth (pm_state m)) data rng_factory in
  pieces ← io_map_error (stream_take_collect num_pieces stream) rlnc_error;
  let frames := collect_results (fun wp => pubsub_encode topic piece_count piece_byte_len wp) pieces in
  frames ← io_result frames;
  (fun mux => (mux, commitment)) <$> fan_out_all m frames.

Definition unused_relay_rng : RngFactory RlncError := fun _ _ =>
  Err (RandomGenerationFailed "relay rng was invoked but no relay was expected").

(** ** Receiving *)

Definition decoder_path (host : Host) (state : PubsubState) (addr : UdpAddr) (topic : Topic)
    (wire_piece : WirePiece Commitment Tag) : PubsubMux * MuxEvent :=
  let '(MkPubsubState auth decoders recoders tick) := state in
  match decoders !! topic with
  | None =>
      (MkPubsubMux host (MkPubsubState auth decoders recoders tick),
       PmRejected addr ("decoder for topic " ++ topic_display topic ++ " vanished mid-dispatch"))
  | Some (MkDecoderEntry decoder commitment last_activity) =>
      let decoders := delete topic decoders in
      match auth_verify auth commitment (wp_piece wire_piece) (wp_tag wire_piece) with
      | Err e =>
          let decoders := <[topic := MkDecoderEntry decoder commitment last_activity]> decoders in
          (MkPubsubMux host (MkPubsubState auth decoders recoders tick),
           PmRejected addr ("auth verify failed for topic " ++ topic_display topic ++ ": " ++
                            rlnc_display e))
      | Ok _ =>
          match ds_absorb decoder (wp_piece wire_piece) with
          | Err e =>
              (MkPubsubMux host (MkPubsubState auth decoders recoders tick),
               PmRejected addr ("absorb failed: " ++ rlnc_display e))
          | Ok next =>
              let next_tick := wrapping_add tick 1 in
              if ds_is_complete next then
                match ds_decode next with
                | Ok data =>
                    (MkPubsubMux host (MkPubsubState auth decoders recoders next_tick),
                     PubsubDelivered addr topic data)
                | Err e =>
                    (MkPubsubMux host (MkPubsubState auth decoders recoders next_tick),
                     PmRejected addr ("decode failed: " ++ rlnc_display e))
                end
              else
                let decoders := <[topic := MkDecoderEntry next commitment next_tick]> decoders in
                (MkPubsubMux host (MkPubsubState auth decoders recoders next_tick),
                 PubsubAbsorbed addr topic)
          end
      end
  end.

Definition relay_path (host : Host) (state : PubsubState) (addr : UdpAddr) (topic : Topic)
    (wire_piece : WirePiece Commitment Tag) (relay_rng : RngFactory RlncError)
    : Io Error (PubsubMux * MuxEvent) :=
  let '(MkPubsubState auth decoders recoders tick) := state in
  match recoders !! topic with
  | None =>
      io_pure (MkPubsubMux host (MkPubsubState auth decoders recoders tick),
               PmRejected addr ("recoder for topic " ++ topic_display topic ++
                                " vanished mid-dispatch"))
  | Some (MkRecoderEntry recoder rank_tracker commitment last_activity) =>
      let recoders := delete topic recoders in
      let piece := wp_piece wire_piece in
      match auth_verify auth commitment piece (wp_tag wire_piece) with
      | Err e =>
          let recoders :=
            <[topic := MkRecoderEntry recoder rank_tracker commitment last_activity]> recoders in
          io_pure (MkPubsubMux host (MkPubsubState auth decoders recoders tick),
                   PmRejected addr ("auth verify failed for topic " ++ topic_display topic ++
                                    ": " ++ rlnc_display e))
      | Ok _ =>
          if ds_is_complete rank_tracker then
            let next_tick := wrapping_add tick 1 in
            let recoders :=
              <[topic := MkRecoderEntry recoder rank_tracker commitment next_tick]> recoders in
            io_pure (MkPubsubMux host (MkPubsubState auth decoders recoders next_tick),
                     PubsubRedundant addr topic)
          else
            match ds_absorb rank_tracker piece with
            | Err e =>
                let recoders :=
                  <[topic := MkRecoderEntry recoder rank_tracker commitment last_activity]>
                    recoders in
                io_pure (MkPubsubMux host (MkPubsubState auth decoders recoders tick),
                         PmRejected addr ("relay rank tracker absorb failed: " ++ rlnc_display e))
            | Ok tracker =>
                if (ds_useful_count tracker =? ds_useful_count rank_tracker)%nat then
                  let next_tick := wrapping_add tick 1 in
                  let recoders :=
                    <[topic := MkRecoderEntry recoder rank_tracker commitment next_tick]>
                      recoders in
                  io_pure (MkPubsubMux host (MkPubsubState auth decoders recoders next_tick),
                           PubsubRedundant addr topic)
                else
                  match rc_add_piece recoder piece with
                  | Err e =>
                      let recoders :=
                        <[topic := MkRecoderEntry recoder rank_tracker commitment last_activity]>
                          recoders in
                      io_pure (MkPubsubMux host (MkPubsubState auth decoders recoders tick),
                               PmRejected addr ("recoder add_piece failed: " ++ rlnc_display e))
                  | Ok next_recoder =>
                      let piece_count := length (cp_coding_vector piece) in
                      let piece_byte_len := length (cp_data piece) in
                      let recode_io := rc_recode_one next_recoder relay_rng in
                      let next_tick := wrapping_add tick 1 in
                      let recoders :=
                        <[topic := MkRecoderEntry next_recoder tracker commitment next_tick]>
                          recoders in
                      recoded ← io_map_error recode_io rlnc_error;
                      let tag := auth_tag auth commitment recoded in
                      let recoded_wire := wp_new commitment recoded tag in
                      frame ← io_result
                        (pubsub_encode topic piece_count piece_byte_len recoded_wire);
                      let mux :=
                        MkPubsubMux host (MkPubsubState auth decoders recoders next_tick) in
                      (fun '(mux, fanout_count) => (mux, PubsubRelayed addr topic fanout_count))
                        <$> send_frame_excluding mux frame addr
                  end
            end
      end
  end.

Definition handle_pubsub_body (host : Host) (state : PubsubState) (addr : UdpAddr)
    (body : list byte) (relay_rng : RngFactory RlncError) : Io Error (PubsubMux * MuxEvent) :=
  match pubsub_decode body with
  | Err e =>
      io_pure (MkPubsubMux host state,
               PmRejected addr ("pubsub frame decode failed: " ++ error_display e))
  | Ok (frame, wire_piece) =>
      let topic := pf_topic frame in
      if contains_key (ps_recoders state) topic then
        relay_path host state addr topic wire_piece relay_rng
      else if contains_key (ps_decoders state) topic then
        io_pure (decoder_path host state addr topic wire_piece)
      else
        io_pure (MkPubsubMux host state,
                 PmRejected addr ("frame received for unregistered topic " ++ topic_display topic))
  end.

Definition pm_dispatch_plaintext (host : Host) (state : PubsubState) (addr : UdpAddr)
    (plaintext : list byte) (relay_rng : RngFactory RlncError) : Io Error (PubsubMux * MuxEvent) :=
  let kind := head plaintext in
  if bool_decide (kind = Some KIND_APP) then
    let bytes := default [] (get_from 1 plaintext) in
    io_pure (MkPubsubMux host state, AppData addr bytes)
  else if bool_decide (kind = Some KIND_PUBSUB) then
    let body := default [] (get_from 1 plaintext) in
    handle_pubsub_body host state addr body relay_rng
  else
    match kind with
    | None =>
        io_pure (MkPubsubMux host state,
                 PmRejected addr "datagram plaintext was empty (no kind byte)")
    | Some unknown =>
        io_pure (MkPubsubMux host state,
                 PmRejected addr ("unknown plaintext kind byte 0x" ++ hex02 unknown))
    end.

Definition process_event (host : Host) (state : PubsubState) (ev : HostEvent)
    (relay_rng : RngFactory RlncError) : Io Error (PubsubMux * MuxEvent) :=
  match ev with
  | HandshakeProgress addr => io_pure (MkPubsubMux host state, PmHandshakeProgress addr)
  | HandshakeComplete addr remote_static remote_peer_id =>
      io_pure (MkPubsubMux host state, PmHandshakeComplete addr remote_static remote_peer_id)
  | Rejected addr reason => io_pure (MkPubsubMux host state, PmRejected addr reason)
  | DatagramDelivered addr plaintext => pm_dispatch_plaintext host state addr plaintext relay_rng
  end.

Definition pm_recv_one (m : PubsubMux) (ephemeral_seed : arr 32)
    (relay_rng : RngFactory RlncError) : Io Error (PubsubMux * MuxEvent) :=
  let '(MkPubsubMux host state) := m in
  '(host, host_event) ← recv_one host ephemeral_seed;
  process_event host state host_event relay_rng.

Definition pm_process_plaintext (m : PubsubMux) (addr : UdpAddr) (plaintext : list byte)
    (relay_rng : RngFactory RlncError) : Io Error (PubsubMux * MuxEvent) :=
  let '(MkPubsubMux host state) := m in
  pm_dispatch_plaintext host state addr plaintext relay_rng.

End mux.

#[local] Close Scope string_scope.
