(* ===== verification/PubsubSpec.v ===== *)
(** * The gossip state as a state machine

    [gossip_step] says, case by case, what a received frame may do to the
    gossip state and which event reports it; [pm_dispatch_spec] ties it to
    the node's code, and [gossip_event] is the event each frame calls for.  The invariant [pubsub_ok] gives every decoder and relay
    the history of pieces it is made of; rule by rule, steps keep it. *)

From S2P Require Export PubsubMux.

Section spec.
Context `{C : Crypto, RT : IoRuntime, R : !Rlnc, A : !Authenticator,
          W : !WireAuthenticator Commitment Tag}.

Definition next_ps_tick (s : PubsubState) : u64 := wrapping_add (ps_tick s) 1.

Definition put_decoder (s : PubsubState) t (e : DecoderEntry) (tick : u64) : PubsubState :=
  MkPubsubState (ps_auth s) (<[t := e]> (ps_decoders s)) (ps_recoders s) tick.
Definition drop_decoder (s : PubsubState) t (tick : u64) : PubsubState :=
  MkPubsubState (ps_auth s) (delete t (ps_decoders s)) (ps_recoders s) tick.
Definition put_relay (s : PubsubState) t (e : RecoderEntry) (tick : u64) : PubsubState :=
  MkPubsubState (ps_auth s) (ps_decoders s) (<[t := e]> (ps_recoders s)) tick.

(** A piece that verifies under a commitment, with some tag. *)
Definition verified (auth : Auth) (c : Commitment) (p : CodedPiece) : Prop :=
  exists tag, auth_verify auth c p tag = Ok tt.

(** Events that say nothing about a generation. *)
Definition passing (ev : MuxEvent) : Prop :=
  match ev with
  | AppData _ _ | PmHandshakeProgress _ | PmHandshakeComplete _ _ _ | PmRejected _ _ => True
  | PubsubAbsorbed _ _ | PubsubRedundant _ _ | PubsubDelivered _ _ _ | PubsubRelayed _ _ _ => False
  end.

Inductive gossip_step (s : PubsubState) : MuxEvent -> PubsubState -> Prop :=
| gs_pass ev : passing ev -> gossip_step s ev s
(* a decoder, which acts only where there is no relay *)
| gs_absorbed a t e p d' :
    ps_recoders s !! t = None -> ps_decoders s !! t = Some e ->
    verified (ps_auth s) (de_commitment e) p -> ds_absorb (de_state e) p = Ok d' ->
    ds_is_complete d' = false ->
    gossip_step s (PubsubAbsorbed a t)
      (put_decoder s t (MkDecoderEntry d' (de_commitment e) (next_ps_tick s)) (next_ps_tick s))
| gs_delivered a t e p d' data :
    ps_recoders s !! t = None -> ps_decoders s !! t = Some e ->
    verified (ps_auth s) (de_commitment e) p -> ds_absorb (de_state e) p = Ok d' ->
    ds_is_complete d' = true -> ds_decode d' = Ok data ->
    gossip_step s (PubsubDelivered a t data) (drop_decoder s t (next_ps_tick s))
| gs_decode_failed a r t e p d' er :
    ps_recoders s !! t = None -> ps_decoders s !! t = Some e ->
    verified (ps_auth s) (de_commitment e) p -> ds_absorb (de_state e) p = Ok d' ->
    ds_is_complete d' = true -> ds_decode d' = Err er ->
    gossip_step s (PmRejected a r) (drop_decoder s t (next_ps_tick s))
| gs_absorb_failed a r t e p er :
    ps_recoders s !! t = None -> ps_decoders s !! t = Some e ->
    verified (ps_auth s) (de_commitment e) p -> ds_absorb (de_state e) p = Err er ->
    gossip_step s (PmRejected a r) (drop_decoder s t (ps_tick s))
(* a relay *)
| gs_redundant a t e p :
    ps_recoders s !! t = Some e -> verified (ps_auth s) (re_commitment e) p ->
    ds_is_complete (re_rank_tracker e) = true \/
      (exists d', ds_absorb (re_rank_tracker e) p = Ok d' /\
         ds_useful_count d' = ds_useful_count (re_rank_tracker e)) ->
    gossip_step s (PubsubRedundant a t)
      (put_relay s t (MkRecoderEntry (re_recoder e) (re_rank_tracker e) (re_commitment e)
         (next_ps_tick s)) (next_ps_tick s))
| gs_relayed a t e p d' r' n :
    ps_recoders s !! t = Some e -> verified (ps_auth s) (re_commitment e) p ->
    ds_is_complete (re_rank_tracker e) = false -> ds_absorb (re_rank_tracker e) p = Ok d' ->
    ds_useful_count d' <> ds_useful_count (re_rank_tracker e) ->
    rc_add_piece (re_recoder e) p = Ok r' ->
    gossip_step s (PubsubRelayed a t n)
      (put_relay s t (MkRecoderEntry r' d' (re_commitment e) (next_ps_tick s)) (next_ps_tick s)).

Context `{!IoLaws RT}.

(** ** The decoder's code *)

Lemma decoder_path_spec h s a t wp :
  ps_recoders s !! t = None ->
  gossip_step s (decoder_path h s a t wp).2 (pm_state (decoder_path h s a t wp).1) /\
  pm_host (decoder_path h s a t wp).1 = h.
Proof.
  destruct s as [auth ds rs tick]. cbn [ps_recoders]. intros Hr. unfold decoder_path.
  destruct (ds !! t) as [[d c la]|] eqn:Ed; [|by split; [apply gs_pass|]].
  destruct (auth_verify auth c _ _) as [[]|er] eqn:Ev.
  2: { rewrite insert_delete_eq, insert_id by done. by split; [apply gs_pass|]. }
  assert (Hver : verified auth c (wp_piece wp)) by by eexists.
  destruct (ds_absorb d (wp_piece wp)) as [d'|er] eqn:Ea.
  2: { split; [|done]. by eapply (gs_absorb_failed (MkPubsubState auth ds rs tick) _ _ t). }
  destruct (ds_is_complete d') eqn:Ec.
  - destruct (ds_decode d') as [data|er] eqn:Edd; (split; [|done]).
    + by eapply (gs_delivered (MkPubsubState auth ds rs tick) a t).
    + by eapply (gs_decode_failed (MkPubsubState auth ds rs tick) _ _ t).
  - rewrite insert_delete_eq. split; [|done].
    by eapply (gs_absorbed (MkPubsubState auth ds rs tick) a t (MkDecoderEntry d c la)).
Qed.

Lemma decoder_path_event h s a t wp :
  match (decoder_path h s a t wp).2 with
  | PubsubAbsorbed _ _ | PubsubDelivered _ _ _ | PmRejected _ _ => True
  | _ => False
  end.
Proof.
  destruct s as [auth ds rs tick]. unfold decoder_path. repeat (case_match; try done).
Qed.

(** ** Sending to several peers *)

Lemma send_frame_to_post datagram m a :
  io_post (send_frame_to datagram m a)
    (fun m' => host_step (pm_host m) (pm_host m') /\ pm_state m' = pm_state m).
Proof.
  destruct m as [h s]. cbn. eapply io_post_fmap with (P := host_step h); [|done].
  intros w h' w' Hr. by econstructor.
Qed.

(** The host went through some steps, the state stayed. *)
Definition same_state (m m' : PubsubMux) : Prop :=
  rtc host_step (pm_host m) (pm_host m') /\ pm_state m' = pm_state m.

Lemma same_state_refl m : same_state m m.
Proof. done. Qed.

Lemma same_state_trans m1 m2 m3 : same_state m1 m2 -> same_state m2 m3 -> same_state m1 m3.
Proof. intros [H1 E1] [H2 E2]. split; [by etrans|congruence]. Qed.

Lemma foldl_bind_post {B} (f : PubsubMux -> B -> Io Error PubsubMux) l : forall (m : Io Error PubsubMux) m0,
  io_post m (same_state m0) -> (forall m1 b, io_post (f m1 b) (same_state m1)) ->
  io_post (foldl (fun acc b => mux ← acc; f mux b) m l) (same_state m0).
Proof.
  induction l as [|b l IH]; intros m m0 Hm Hf; [done|]. cbn [foldl]. apply IH; [|done].
  eapply io_post_bind; [exact Hm|]. intros m1 H1. eapply io_post_weaken; [apply Hf|].
  intros m2 H2. by eapply same_state_trans.
Qed.

Lemma send_each_post addrs m d : io_post (send_frame_to_each addrs m d) (same_state m).
Proof.
  apply foldl_bind_post; [by apply io_post_pure|]. intros m1 a.
  eapply io_post_weaken; [apply send_frame_to_post|]. intros m2 [H1 H2]. split; [by apply rtc_once|done].
Qed.

Lemma run_send_each x xs m d w :
  io_run (send_frame_to_each (x :: xs) m d) w =
    run_bind (fun m1 => io_run (send_frame_to_each xs m1 d)) (io_run (send_frame_to d m x) w).
Proof.
  unfold send_frame_to_each. cbn [foldl]. by rewrite run_foldl, run_bind_eq, run_pure.
Qed.

(** One datagram to each peer, in order. *)
Lemma send_each_sent addrs d : forall m w m' w',
  io_run (send_frame_to_each addrs m d) w = (Returned (Ok m'), w') ->
  exists ds, length ds = length addrs /\ w_inbox w' = w_inbox w /\
    w_sent w' = w_sent w ++ zip (socket_of_udp <$> addrs) ds.
Proof.
  induction addrs as [|x xs IH]; intros m w m' w' Hr.
  - unfold send_frame_to_each in Hr. cbn in Hr. rewrite run_pure in Hr. injection Hr as _ <-.
    exists []. by rewrite app_nil_r.
  - rewrite run_send_each in Hr. apply run_bind_Ok in Hr as (m1 & w1 & H1 & H2).
    destruct m as [h s]. unfold send_frame_to in H1. rewrite run_fmap_eq in H1.
    apply run_bind_Ok in H1 as (h1 & w2 & Hs & [= <- <-]).
    apply send_sound in Hs as (conn & t & dg & _ & _ & _ & ->).
    apply IH in H2 as (ds & Hl & Hi & Hsent). exists (dg :: ds). cbn. split_and!; [lia|done|].
    rewrite Hsent. cbn. by rewrite <- app_assoc.
Qed.

Lemma fan_out_post frames m : io_post (fan_out_all m frames) (same_state m).
Proof.
  apply foldl_bind_post; [by apply io_post_pure|]. intros m1 f. apply send_each_post.
Qed.

Lemma broadcast_post m t data n rng :
  io_post (broadcast m t data n rng) (fun '(m', _) => same_state m m').
Proof.
  unfold broadcast. destruct (gossip_source _ _ _) as [c s].
  eapply (io_post_bind _ _ (fun _ => True)); [by intros ?|]. intros pieces _.
  eapply (io_post_bind _ _ (fun _ => True)); [by intros ?|]. intros frames _.
  eapply io_post_fmap; [apply fan_out_post|done].
Qed.

(** ** The relay's code and the dispatch *)

(** What one dispatched plaintext does: a gossip step, host steps (the fan-out
    of a relay), and a fan-out to every established peer but the source. *)
Definition dispatch_post (h : Host) (s : PubsubState) (from : UdpAddr)
    (r : PubsubMux * MuxEvent) : Prop :=
  gossip_step s r.2 (pm_state r.1) /\ rtc host_step h (pm_host r.1) /\
  match r.2 with
  | PubsubRelayed a _ n =>
      a = from /\ n = length (filter (fun x => x <> from) (established_addrs h))
  | PmHandshakeProgress _ | PmHandshakeComplete _ _ _ => False
  | _ => pm_host r.1 = h
  end.

Lemma relay_path_post h s a t wp rng :
  io_post (relay_path h s a t wp rng) (dispatch_post h s a).
Proof.
  destruct s as [auth ds rs tick]. unfold relay_path.
  set (s := MkPubsubState auth ds rs tick).
  destruct (rs !! t) as [[rc tr c la]|] eqn:Er.
  2: { apply io_post_pure. split_and!; [by apply gs_pass|done|done]. }
  destruct (auth_verify auth c _ _) as [[]|er] eqn:Ev.
  2: { rewrite insert_delete_eq, insert_id by done. apply io_post_pure.
       split_and!; [by apply gs_pass|done|done]. }
  assert (Hver : verified auth c (wp_piece wp)) by by eexists.
  destruct (ds_is_complete tr) eqn:Ec.
  { rewrite insert_delete_eq. apply io_post_pure. split_and!; [|done|done].
    eapply (gs_redundant s a t (MkRecoderEntry rc tr c la)); [done|exact Hver|by left]. }
  destruct (ds_absorb tr (wp_piece wp)) as [tr'|er] eqn:Ea.
  2: { rewrite insert_delete_eq, insert_id by done. apply io_post_pure.
       split_and!; [by apply gs_pass|done|done]. }
  destruct (Nat.eqb_spec (ds_useful_count tr') (ds_useful_count tr)) as [Hu|Hu].
  { rewrite insert_delete_eq. apply io_post_pure. split_and!; [|done|done].
    eapply (gs_redundant s a t (MkRecoderEntry rc tr c la)); [done|exact Hver|right]. by exists tr'. }
  destruct (rc_add_piece rc (wp_piece wp)) as [rc'|er] eqn:Eadd.
  2: { rewrite insert_delete_eq, insert_id by done. apply io_post_pure.
       split_and!; [by apply gs_pass|done|done]. }
  rewrite insert_delete_eq. cbv zeta.
  eapply (io_post_bind _ _ (fun _ => True)); [by intros ?|]. intros recoded _.
  eapply (io_post_bind _ _ (fun _ => True)); [by intros ?|]. intros frame _.
  set (m := MkPubsubMux _ _).
  eapply (io_post_fmap _ _ (fun '(m', n) => same_state m m' /\
    n = length (filter (fun x => x <> a) (established_addrs h)))).
  { eapply io_post_fmap; [apply send_each_post|]. intros m' Hm'. done. }
  intros [m' n] [[Hh Hs] Hn]. unfold dispatch_post. cbn [fst snd]. split; [|split; [exact Hh|done]].
  rewrite Hs. by eapply (gs_relayed s a t (MkRecoderEntry rc tr c la) (wp_piece wp)).
Qed.

(** A plaintext of the pubsub kind is its body's frame. *)
Lemma dispatch_pubsub h s a body rng :
  pm_dispatch_plaintext h s a (prefix_kind KIND_PUBSUB body) rng = handle_pubsub_body h s a body rng.
Proof.
  unfold pm_dispatch_plaintext, prefix_kind. cbn [head].
  rewrite bool_decide_eq_false_2 by done. rewrite bool_decide_eq_true_2 by done.
  by rewrite get_from_unwrap_or, skipn_cons, drop_0.
Qed.

Lemma pm_dispatch_spec h s a p rng :
  io_post (pm_dispatch_plaintext h s a p rng) (dispatch_post h s a).
Proof.
  unfold pm_dispatch_plaintext. case_bool_decide.
  { apply io_post_pure. split_and!; [by apply gs_pass|done|done]. }
  case_bool_decide.
  2: { destruct (head p); apply io_post_pure; (split_and!; [by apply gs_pass|done|done]). }
  unfold handle_pubsub_body. destruct (pubsub_decode _) as [[f wp]|e].
  2: { apply io_post_pure. split_and!; [by apply gs_pass|done|done]. }
  destruct (contains_key (ps_recoders s) (pf_topic f)) eqn:Er; [apply relay_path_post|].
  apply contains_key_false in Er. destruct (contains_key (ps_decoders s) (pf_topic f)).
  - apply io_post_pure. destruct (decoder_path_spec h s a (pf_topic f) wp Er) as [H1 H2].
    pose proof (decoder_path_event h s a (pf_topic f) wp) as H3.
    unfold dispatch_post. rewrite H2. split_and!; [done|done|]. by destruct (decoder_path _ _ _ _ _).2.
  - apply io_post_pure. split_and!; [by apply gs_pass|done|done].
Qed.

(** ** The event of a frame *)

#[local] Open Scope string_scope.

(** A received body says what it leads to: the frame's topic must be
    registered, as a relay or else as a topic, and its piece verify under the
    registered commitment. *)
Definition relay_event (h : Host) (auth : Auth) (a : UdpAddr) (t : Topic) (wp : WirePiece Commitment Tag)
    (e : RecoderEntry) : MuxEvent :=
  match auth_verify auth (re_commitment e) (wp_piece wp) (wp_tag wp) with
  | Err er => PmRejected a ("auth verify failed for topic " ++ topic_display t ++ ": " ++ rlnc_display er)
  | Ok _ =>
      if ds_is_complete (re_rank_tracker e) then PubsubRedundant a t
      else
        match ds_absorb (re_rank_tracker e) (wp_piece wp) with
        | Err er => PmRejected a ("relay rank tracker absorb failed: " ++ rlnc_display er)
        | Ok d =>
            if (ds_useful_count d =? ds_useful_count (re_rank_tracker e))%nat then PubsubRedundant a t
            else
              match rc_add_piece (re_recoder e) (wp_piece wp) with
              | Err er => PmRejected a ("recoder add_piece failed: " ++ rlnc_display er)
              | Ok _ => PubsubRelayed a t (length (filter (fun x => x <> a) (established_addrs h)))
              end
        end
  end.

Definition decoder_event (auth : Auth) (a : UdpAddr) (t : Topic) (wp : WirePiece Commitment Tag)
    (e : DecoderEntry) : MuxEvent :=
  match auth_verify auth (de_commitment e) (wp_piece wp) (wp_tag wp) with
  | Err er => PmRejected a ("auth verify failed for topic " ++ topic_display t ++ ": " ++ rlnc_display er)
  | Ok _ =>
      match ds_absorb (de_state e) (wp_piece wp) with
      | Err er => PmRejected a ("absorb failed: " ++ rlnc_display er)
      | Ok d =>
          if ds_is_complete d then
            match ds_decode d with
            | Ok data => PubsubDelivered a t data
            | Err er => PmRejected a ("decode failed: " ++ rlnc_display er)
            end
          else PubsubAbsorbed a t
      end
  end.

Definition gossip_event (h : Host) (s : PubsubState) (a : UdpAddr) (body : list byte) : MuxEvent :=
  match pubsub_decode body with
  | Err e => PmRejected a ("pubsub frame decode failed: " ++ error_display e)
  | Ok (f, wp) =>
      match ps_recoders s !! pf_topic f, ps_decoders s !! pf_topic f with
      | Some e, _ => relay_event h (ps_auth s) a (pf_topic f) wp e
      | None, Some e => decoder_event (ps_auth s) a (pf_topic f) wp e
      | None, None => PmRejected a ("frame received for unregistered topic " ++ topic_display (pf_topic f))
      end
  end.

Lemma relay_path_event h s a t wp rng e :
  ps_recoders s !! t = Some e ->
  io_post (relay_path h s a t wp rng) (fun r => r.2 = relay_event h (ps_auth s) a t wp e).
Proof.
  destruct s as [auth ds rs tick], e as [rc tr c la]. cbn [ps_recoders ps_auth]. intros Hr.
  unfold relay_path, relay_event. rewrite Hr. cbn [re_commitment re_rank_tracker re_recoder].
  destruct (auth_verify _ _ _ _); [|by apply io_post_pure].
  destruct (ds_is_complete tr); [by apply io_post_pure|].
  destruct (ds_absorb tr _) as [tr'|]; [|by apply io_post_pure].
  destruct (_ =? _)%nat; [by apply io_post_pure|].
  destruct (rc_add_piece rc _); [|by apply io_post_pure]. cbv zeta.
  eapply (io_post_bind _ _ (fun _ => True)); [by intros ?|]. intros recoded _.
  eapply (io_post_bind _ _ (fun _ => True)); [by intros ?|]. intros frame _.
  eapply io_post_fmap with (P := fun r => r.2 = length (filter (fun x => x <> a) (established_addrs h))).
  - eapply io_post_fmap with (P := fun _ => True); [by intros ?|done].
  - intros [m n] Hn. cbn in *. by rewrite Hn.
Qed.

Lemma decoder_path_reports h s a t wp e :
  ps_decoders s !! t = Some e -> (decoder_path h s a t wp).2 = decoder_event (ps_auth s) a t wp e.
Proof.
  destruct s as [auth ds rs tick], e as [d c la]. cbn [ps_decoders ps_auth]. intros Hd.
  unfold decoder_path, decoder_event. rewrite Hd. cbn [de_commitment de_state].
  destruct (auth_verify _ _ _ _); [|done]. destruct (ds_absorb d _) as [d'|]; [|done].
  destruct (ds_is_complete d'); [|done]. by destruct (ds_decode d').
Qed.

Lemma handle_body_event h s a body rng :
  io_post (handle_pubsub_body h s a body rng) (fun r => r.2 = gossip_event h s a body).
Proof.
  unfold handle_pubsub_body, gossip_event. destruct (pubsub_decode body) as [[f wp]|e]; [|by apply io_post_pure].
  destruct (ps_recoders s !! pf_topic f) as [e|] eqn:Er.
  { rewrite (proj2 (contains_key_true _ _)) by by eexists. by apply relay_path_event. }
  rewrite (proj2 (contains_key_false _ _)) by done.
  destruct (ps_decoders s !! pf_topic f) as [e|] eqn:Ed.
  - rewrite (proj2 (contains_key_true _ _)) by by eexists. apply io_post_pure. by apply decoder_path_reports.
  - rewrite (proj2 (contains_key_false _ _)) by done. by apply io_post_pure.
Qed.

#[local] Close Scope string_scope.

(** One [recv_one] of the node. *)
Lemma pm_recv_post m seed rng :
  io_post (pm_recv_one m seed rng) (fun '(m', ev) =>
    gossip_step (pm_state m) ev (pm_state m') /\ rtc host_step (pm_host m) (pm_host m')).
Proof.
  destruct m as [h s]. unfold pm_recv_one.
  eapply (io_post_bind _ _ (fun '(h', _) => host_step h h')).
  { intros w [h' ev] w' Hr. by econstructor. }
  intros [h' ev] Hs. destruct ev as [a|a rs pid|a p|a r]; cbn [process_event];
    try (apply io_post_pure; split; [by apply gs_pass|by apply rtc_once]).
  eapply io_post_weaken; [apply pm_dispatch_spec|]. intros [m' ev'] (H1 & H2 & _).
  split; [done|]. by eapply rtc_l.
Qed.

End spec.
