(* ===== verification/PubsubProps.v ===== *)
(** * What the gossip node guarantees

    The invariant of the gossip state over every operation, what a delivered
    message is made of, the bound on what a relay emits, and the two ways a
    peer's frame does more damage than the documentation says. *)

From S2P Require Export PubsubSpec.

Section invariant.
Context `{C : Crypto, RT : IoRuntime, R : !Rlnc, RL : !RlncLaws, A : !Authenticator,
          W : !WireAuthenticator Commitment Tag}.

(** A decoder is made of pieces that verified under its commitment, and they
    did not yet suffice. *)
Definition decoder_ok (auth : Auth) (e : DecoderEntry) : Prop :=
  exists k b ps, absorbed k b (de_state e) ps /\ Forall (verified auth (de_commitment e)) ps /\
    (ps <> [] -> ds_is_complete (de_state e) = false).

(** A relay's recoder and rank tracker are made of the same verified pieces,
    as many as the rank. *)
Definition relay_ok (auth : Auth) (e : RecoderEntry) : Prop :=
  exists k b ps, buffered k b (re_recoder e) ps /\ absorbed k b (re_rank_tracker e) ps /\
    Forall (verified auth (re_commitment e)) ps /\
    length ps = ds_useful_count (re_rank_tracker e).

Record pubsub_ok (s : PubsubState) : Prop := PubsubOk {
  pok_decoders : map_Forall (fun _ => decoder_ok (ps_auth s)) (ps_decoders s);
  pok_relays : map_Forall (fun _ => relay_ok (ps_auth s)) (ps_recoders s)
}.

Lemma pubsub_new_ok auth : pubsub_ok (pubsub_state_new auth).
Proof. split; apply map_Forall_empty. Qed.

Lemma decoder_ok_new auth k b c tick : decoder_ok auth (MkDecoderEntry (ds_new k b) c tick).
Proof. exists k, b, []. split_and!; [constructor|constructor|done]. Qed.

Lemma relay_ok_new auth k b c tick :
  relay_ok auth (MkRecoderEntry (rc_new k b) (ds_new k b) c tick).
Proof.
  exists k, b, []. split_and!; [constructor|constructor|constructor|].
  cbn. by rewrite useful_count_new.
Qed.

Lemma gossip_step_ok s ev s' :
  gossip_step s ev s' -> pubsub_ok s -> pubsub_ok s' /\ ps_auth s' = ps_auth s.
Proof.
  intros Hs [Hd Hr].
  destruct Hs as [ev _|a t e p d' _ He Hv Ha Hc|a t e p d' data _ He Hv Ha Hc Hdec
    |a r t e p d' er _ He Hv Ha Hc Hdec|a r t e p er _ He Hv Ha|a t e p He Hv Hred
    |a t e p d' r' n He Hv Hc Ha Hu Hadd]; (split; [|done]); split; cbn; try done;
    try by apply map_Forall_delete.
  - apply map_Forall_insert_2; [|done]. destruct (Hd _ _ He) as (k & b & ps & Hab & Hps & _).
    exists k, b, (ps ++ [p]). cbn. split_and!; [by econstructor| |done].
    apply Forall_app_2; [done|]. by constructor.
  - apply map_Forall_insert_2; [|done]. destruct (Hr _ _ He) as (k & b & ps & Hbu & Hab & Hps & Hl).
    by exists k, b, ps.
  - apply map_Forall_insert_2; [|done]. destruct (Hr _ _ He) as (k & b & ps & Hbu & Hab & Hps & Hl).
    exists k, b, (ps ++ [p]). cbn. split_and!; [by econstructor|by econstructor| |].
    + apply Forall_app_2; [done|]. by constructor.
    + pose proof (useful_count_absorb k b _ _ _ _ Hab Ha). rewrite length_app. cbn. lia.
Qed.

(** ** Every operation of the node *)

(** What a step is known by: an event, a relay registration, or nothing. *)
Inductive pm_label : Type :=
| LEvent (ev : MuxEvent)
| LRelay (t : Topic)
| LOther.

Inductive pm_step (m : PubsubMux) : pm_label -> PubsubMux -> Prop :=
| pms_dial a seed m' w w' : io_run (pm_dial m a seed) w = (Returned (Ok m'), w') -> pm_step m LOther m'
| pms_app a p m' w w' : io_run (send_app m a p) w = (Returned (Ok m'), w') -> pm_step m LOther m'
| pms_broadcast t data n rng m' c w w' :
    io_run (broadcast m t data n rng) w = (Returned (Ok (m', c)), w') -> pm_step m LOther m'
| pms_topic t k b c : pm_step m LOther (pm_register_topic m t k b c)
| pms_relay t k b c : pm_step m (LRelay t) (pm_register_relay m t k b c)
| pms_untopic t : pm_step m LOther (pm_unregister_topic m t)
| pms_unrelay t : pm_step m LOther (pm_unregister_relay m t)
| pms_evict_topics n : pm_step m LOther (pm_evict_idle_topics m n).1
| pms_evict_relays n : pm_step m LOther (pm_evict_idle_relays m n).1
| pms_recv seed rng m' ev w w' :
    io_run (pm_recv_one m seed rng) w = (Returned (Ok (m', ev)), w') -> pm_step m (LEvent ev) m'
| pms_process a p rng m' ev w w' :
    io_run (pm_process_plaintext m a p rng) w = (Returned (Ok (m', ev)), w') ->
    pm_step m (LEvent ev) m'.

Inductive pm_run (m : PubsubMux) : list pm_label -> PubsubMux -> Prop :=
| pm_run_nil : pm_run m [] m
| pm_run_snoc ls m1 l m2 : pm_run m ls m1 -> pm_step m1 l m2 -> pm_run m (ls ++ [l]) m2.

Context `{!IoLaws RT}.

(** What a step does to the gossip state, by its label. *)
Definition state_change (l : pm_label) (s s' : PubsubState) : Prop :=
  match l with
  | LEvent ev => gossip_step s ev s'
  | LRelay t => exists k b c, s' = ps_register_relay s t k b c
  | LOther =>
      ps_auth s' = ps_auth s /\
      (forall t e, ps_decoders s' !! t = Some e -> ps_decoders s !! t = Some e \/
         exists k b, de_state e = ds_new k b) /\
      (forall t e, ps_recoders s' !! t = Some e -> ps_recoders s !! t = Some e)
  end.

Lemma same_change m m' :
  same_state m m' -> rtc host_step (pm_host m) (pm_host m') /\ state_change LOther (pm_state m) (pm_state m').
Proof. intros [H ->]. split; [done|]. cbn. eauto. Qed.

Lemma pm_step_change m l m' :
  pm_step m l m' -> rtc host_step (pm_host m) (pm_host m') /\ state_change l (pm_state m) (pm_state m').
Proof.
  destruct m as [h s]. intros [a seed m1 w w' H|a p m1 w w' H|t data n rng m1 c w w' H|t k b c|t k b c|t|t|n|n|
    seed rng m1 ev w w' H|a p rng m1 ev w w' H].
  - apply same_change.
    assert (Hp : io_post (pm_dial (MkPubsubMux h s) a seed) (same_state (MkPubsubMux h s)));
      [|by eapply Hp].
    eapply io_post_fmap with (P := host_step h); [intros w0 h' w1 Hr; by econstructor|].
    intros h' Hs. split; [by apply rtc_once|done].
  - apply same_change.
    assert (Hp : io_post (send_app (MkPubsubMux h s) a p) (same_state (MkPubsubMux h s)));
      [|by eapply Hp].
    eapply io_post_fmap with (P := host_step h); [intros w0 h' w1 Hr; by econstructor|].
    intros h' Hs. split; [by apply rtc_once|done].
  - apply same_change. by apply broadcast_post in H.
  - split; [done|]. destruct s as [auth ds rs tick]. cbn. split_and!; [done| |done].
    intros t' e [[<- <-]|[_ He]]%lookup_insert_Some; [right; by exists k, b|by left].
  - split; [done|]. by exists k, b, c.
  - split; [done|]. destruct s as [auth ds rs tick]. cbn. split_and!; [done| |done].
    intros t' e [_ He]%lookup_delete_Some. by left.
  - split; [done|]. destruct s as [auth ds rs tick]. cbn. split_and!; [done|by left|].
    by intros t' e [_ He]%lookup_delete_Some.
  - destruct s as [auth ds rs tick]. cbn. split_and!; [done|done| |done].
    intros t' e [He _]%map_lookup_filter_Some. by left.
  - destruct s as [auth ds rs tick]. cbn. split_and!; [done|done|by left|].
    by intros t' e [He _]%map_lookup_filter_Some.
  - apply pm_recv_post in H. naive_solver.
  - apply pm_dispatch_spec in H as (H1 & H2 & _). done.
Qed.

Lemma state_change_ok l s s' :
  state_change l s s' -> pubsub_ok s -> pubsub_ok s' /\ ps_auth s' = ps_auth s.
Proof.
  destruct l as [ev|t|]; cbn.
  - apply gossip_step_ok.
  - intros (k & b & c & ->) [Hd Hr]. destruct s as [auth ds rs tick]. split; [|done]. split; [done|].
    apply map_Forall_insert_2; [apply relay_ok_new|done].
  - intros (Ha & Hds & Hrs) [Hd Hr]. split; [|done]. rewrite <- Ha in *. split.
    + intros t e He. destruct (Hds t e He) as [He'|(k & b & Hnew)]; [by apply Hd in He'|].
      destruct e as [d c la]. cbn in Hnew. subst d. apply decoder_ok_new.
    + intros t e He. by apply Hrs, Hr in He.
Qed.

(** ** What a relay emits *)

Definition relayed_on (t : Topic) (l : pm_label) : bool :=
  match l with LEvent (PubsubRelayed _ t' _) => bool_decide (t' = t) | _ => false end.
Definition relays (t : Topic) (ls : list pm_label) : nat :=
  length (filter (fun l => relayed_on t l = true) ls).

Lemma relays_snoc t ls l : relays t (ls ++ [l]) = relays t ls + (if relayed_on t l then 1 else 0).
Proof.
  unfold relays. rewrite filter_app, length_app. f_equal.
  rewrite filter_cons, filter_nil. destruct (relayed_on t l); by case_decide.
Qed.

(** A relay of a [k]-piece generation that has emitted [n] recoded pieces
    buffers [n] verified ones, and [n] is at most [k]. *)
Definition relay_track (k b : nat) (c : Commitment) (t : Topic) (n : nat) (s : PubsubState) : Prop :=
  n <= k /\
  forall e, ps_recoders s !! t = Some e ->
    re_commitment e = c /\ exists ps, length ps = n /\
      buffered k b (re_recoder e) ps /\ absorbed k b (re_rank_tracker e) ps /\
      Forall (verified (ps_auth s) c) ps /\ length ps = ds_useful_count (re_rank_tracker e).

Lemma relay_track_step k b c t n l s s' :
  state_change l s s' -> l <> LRelay t -> relay_track k b c t n s ->
  relay_track k b c t (n + (if relayed_on t l then 1 else 0)) s'.
Proof.
  intros Hs Hl [Hn Ht]. destruct l as [ev|t'|]; cbn in Hs.
  - destruct Hs as [ev Hp|a t0 e p d' H0 He Hv Ha Hc|a t0 e p d' data H0 He Hv Ha Hc Hdec
      |a r t0 e p d' er H0 He Hv Ha Hc Hdec|a r t0 e p er H0 He Hv Ha|a t0 e p He Hv Hred
      |a t0 e p d' r' m He Hv Hc Ha Hu Hadd]; cbn [relayed_on].
    1: destruct ev; try done; rewrite Nat.add_0_r; by split.
    1-4: rewrite Nat.add_0_r; by split.
    + rewrite Nat.add_0_r. split; [done|]. intros e' He'. cbn in He'.
      apply lookup_insert_Some in He' as [[-> <-]|[_ He']]; [|by apply Ht]. by apply (Ht e).
    + case_bool_decide as Hd; subst.
      * destruct (Ht e He) as (Hce & ps & Hlen & Hbu & Hab & Hps & Huc). subst c.
        pose proof (useful_count_absorb k b _ _ _ _ Hab Ha) as Hstep.
        assert (Hab' : absorbed k b d' (ps ++ [p])) by by econstructor.
        pose proof (useful_count_bound k b _ _ Hab'). split; [lia|]. intros e' He'. cbn in He'.
        apply lookup_insert_Some in He' as [[_ <-]|[? _]]; [|done]. cbn. split; [done|].
        exists (ps ++ [p]). rewrite length_app. cbn. split_and!; [lia|by econstructor|done| |lia].
        apply Forall_app_2; [done|]. by constructor.
      * rewrite Nat.add_0_r. split; [done|]. intros e' He'. cbn in He'.
        apply lookup_insert_Some in He' as [[? _]|[_ He']]; [done|]. by apply Ht.
  - destruct Hs as (k' & b' & c' & ->). rewrite Nat.add_0_r. split; [done|].
    destruct s as [auth ds rs tick]. cbn. intros e He.
    apply lookup_insert_Some in He as [[<- _]|[_ He]]; [done|]. by apply Ht.
  - destruct Hs as (Ha & _ & Hrs). rewrite Nat.add_0_r. split; [done|].
    intros e He. rewrite Ha. by apply Ht, Hrs.
Qed.

Lemma relay_track_register s t k b c : relay_track k b c t 0 (ps_register_relay s t k b c).
Proof.
  destruct s as [auth ds rs tick]. split; [lia|]. cbn. intros e He. rewrite lookup_insert_eq in He. injection He as <-.
  cbn. split; [done|]. exists []. split_and!; [done|constructor|constructor|constructor|].
  cbn. by rewrite useful_count_new.
Qed.

Lemma relay_track_run m ls m' k b c t :
  pm_run m ls m' -> LRelay t ∉ ls -> relay_track k b c t 0 (pm_state m) ->
  relay_track k b c t (relays t ls) (pm_state m').
Proof.
  induction 1 as [|ls m1 l m2 Hr IH Hs]; intros Hin Ht; [done|].
  apply not_elem_of_app in Hin as [Hin Hl%not_elem_of_cons]. rewrite relays_snoc.
  apply pm_step_change in Hs as [_ Hs]. eapply relay_track_step; [exact Hs| |by apply IH].
  destruct Hl as [Hl _]. congruence.
Qed.

(** A relayed piece leaves as one datagram to every peer but its source. *)
Lemma relay_path_sends h s a t wp rng w m' x t' n w' :
  io_run (relay_path h s a t wp rng) w = (Returned (Ok (m', PubsubRelayed x t' n)), w') ->
  exists ds, length ds = n /\ w_inbox w' = w_inbox w /\
    w_sent w' = w_sent w ++
      zip (socket_of_udp <$> filter (fun y => y <> a) (established_addrs h)) ds.
Proof.
  destruct s as [auth ds0 rs tick]. unfold relay_path.
  destruct (rs !! t) as [[rc tr c la]|]; [|by rewrite run_pure].
  destruct (auth_verify auth c _ _) as [[]|er]; [|by rewrite run_pure].
  destruct (ds_is_complete tr); [by rewrite run_pure|].
  destruct (ds_absorb tr (wp_piece wp)) as [tr'|er]; [|by rewrite run_pure].
  destruct (_ =? _)%nat; [by rewrite run_pure|].
  destruct (rc_add_piece rc (wp_piece wp)) as [rc'|er]; [|by rewrite run_pure].
  cbv zeta. rewrite run_bind_eq. intros (recoded & w1 & H1 & H2)%run_bind_Ok.
  apply run_map_error_Ok in H1. destruct (recode_one_draws rc' rng w) as (o & c1 & Ho).
  rewrite Ho in H1. injection H1 as -> <-. rewrite run_bind_eq in H2.
  apply run_bind_Ok in H2 as (frame & w2 & H2 & H3). rewrite run_result in H2.
  injection H2 as _ <-. rewrite run_fmap_eq in H3.
  apply run_bind_Ok in H3 as ([m1 n1] & w3 & H3 & [= -> -> -> -> ->]).
  unfold send_frame_excluding in H3. rewrite run_fmap_eq in H3.
  apply run_bind_Ok in H3 as (m2 & w4 & H3 & [= -> <- ->]).
  apply send_each_sent in H3 as (ds & Hl & Hi & Hs). exists ds. by rewrite Hl.
Qed.

Lemma dispatch_sends h s a p rng w m' x t n w' :
  io_run (pm_dispatch_plaintext h s a p rng) w = (Returned (Ok (m', PubsubRelayed x t n)), w') ->
  exists ds, length ds = n /\ w_inbox w' = w_inbox w /\
    w_sent w' = w_sent w ++
      zip (socket_of_udp <$> filter (fun y => y <> a) (established_addrs h)) ds.
Proof.
  unfold pm_dispatch_plaintext. case_bool_decide; [by rewrite run_pure|].
  case_bool_decide; [|by destruct (head p); rewrite run_pure].
  unfold handle_pubsub_body. destruct (pubsub_decode _) as [[f wp]|e]; [|by rewrite run_pure].
  destruct (contains_key (ps_recoders s) _); [apply relay_path_sends|].
  destruct (contains_key (ps_decoders s) _); rewrite run_pure; [|done].
  intros [= Hd _]. pose proof (decoder_path_event h s a (pf_topic f) wp) as He. by rewrite Hd in He.
Qed.

End invariant.

(** ** Properties *)

Section properties.
Context `{C : Crypto, RT : IoRuntime, !IoLaws RT, R : !Rlnc, RL : !RlncLaws, A : !Authenticator,
          W : !WireAuthenticator Commitment Tag}.

(** C16: whatever is done with a gossip node built on a well-formed host (dial,
    send, broadcast, register, unregister, evict, receive), its host stays
    well formed; every decoder is made of pieces that verified under the
    commitment it was registered with and is incomplete; every relay buffers
    exactly the verified pieces its rank counts; and authenticator, socket,
    identity and capacity never change. *)
Theorem pubsub_invariant (host : Host) (auth : Auth) (ls : list pm_label) (m : PubsubMux) :
  host_ok host -> pm_run (pm_new host auth) ls m ->
  host_ok (pm_host m) /\ host_frame host (pm_host m) /\
  pubsub_ok (pm_state m) /\ ps_auth (pm_state m) = auth.
Proof.
  intros Hok Hr.
  assert (H : rtc host_step host (pm_host m) /\ pubsub_ok (pm_state m) /\ ps_auth (pm_state m) = auth).
  { induction Hr as [|ls m1 l m2 Hr (IH1 & IH2 & IH3) Hs]; [split_and!; [done|apply pubsub_new_ok|done]|].
    apply pm_step_change in Hs as [H1 H2]. destruct (state_change_ok _ _ _ H2 IH2) as [H3 H4].
    split_and!; [by etrans|done|congruence]. }
  destruct H as (H1 & H2 & H3). destruct (host_steps_ok _ _ H1 Hok). done.
Qed.

(** C9: one [recv_one] of a gossip node is one step of the gossip state
    machine [gossip_step], labelled with the event it returns; and a relayed
    piece has left as exactly one datagram to every established peer but the
    one it came from, in address order, which is the count reported. *)
Theorem pubsub_recv_refines (m m' : PubsubMux) (seed : arr 32) (rng : RngFactory RlncError)
    (ev : MuxEvent) (w w' : World) :
  io_run (pm_recv_one m seed rng) w = (Returned (Ok (m', ev)), w') ->
  gossip_step (pm_state m) ev (pm_state m') /\ rtc host_step (pm_host m) (pm_host m') /\
  forall from t n, ev = PubsubRelayed from t n ->
    exists ds, length ds = n /\
      n = length (filter (fun a => a <> from) (established_addrs (pm_host m))) /\
      w_sent w' = w_sent w ++
        zip (socket_of_udp <$> filter (fun a => a <> from) (established_addrs (pm_host m))) ds.
Proof.
  intros Hr. destruct (pm_recv_post m seed rng w (m', ev) w' Hr) as [H1 H2]. split_and!; [done..|].
  intros from t n ->. destruct m as [h s]. unfold pm_recv_one in Hr. rewrite run_bind_eq in Hr.
  apply run_bind_Ok in Hr as ([h1 hev] & w1 & Hrecv & Hp).
  destruct hev as [a|a rs pid|a p|a r]; cbn [process_event] in Hp;
    try (rewrite run_pure in Hp; discriminate Hp).
  pose proof (dispatch_sends _ _ _ _ _ _ _ _ _ _ _ Hp) as (ds & Hl & _ & Hs).
  destruct (pm_dispatch_spec _ _ _ _ _ _ _ _ Hp) as (_ & _ & [-> Hn]).
  apply recv_one_sound in Hrecv as (from & d & inbox & reply & _ & Hstep & ->).
  apply recv_step_delivered in Hstep as (-> & -> & Hes).
  rewrite Hes in *. exists ds. by rewrite Hs.
Qed.

(** C10: circulation of a generation ends: from its registration on, a
    relay of a generation of [k] pieces emits at most [k] recoded pieces,
    whatever arrives and whatever else the node does, and it buffers exactly
    one verified piece for each; only registering the relay again starts
    anew. *)
Theorem relay_emits_at_most_k (m m' : PubsubMux) (t : Topic) (k b : nat) (c : Commitment)
    (ls : list pm_label) :
  pm_run (pm_register_relay m t k b c) ls m' -> LRelay t ∉ ls ->
  relays t ls <= k /\
  forall e, ps_recoders (pm_state m') !! t = Some e ->
    exists ps, buffered k b (re_recoder e) ps /\ length ps = relays t ls /\
      Forall (verified (ps_auth (pm_state m')) c) ps.
Proof.
  intros Hr Hin. assert (H0 : relay_track k b c t 0 (pm_state (pm_register_relay m t k b c))).
  { destruct m. apply relay_track_register. }
  destruct (relay_track_run _ _ _ _ _ _ _ Hr Hin H0) as [Hk He]. split; [done|].
  intros e (_ & ps & Hl & Hb & _ & Hv & _)%He. by exists ps.
Qed.

(** C8: a delivered message is what its pieces decode to: when
    [recv_one] delivers bytes on a topic, the topic had a decoder, and the
    bytes are the decoding of pieces each of which verified under the
    commitment that decoder was registered with; if they are combinations of
    a generation's pieces, the bytes are that generation.  The decoder is
    gone, and every other topic is untouched. *)
Theorem pubsub_delivers_genuine (m m' : PubsubMux) (seed : arr 32) (rng : RngFactory RlncError)
    (from : UdpAddr) (t : Topic) (bytes : list byte) (w w' : World) :
  pubsub_ok (pm_state m) ->
  io_run (pm_recv_one m seed rng) w = (Returned (Ok (m', PubsubDelivered from t bytes)), w') ->
  exists e k b ps d,
    ps_decoders (pm_state m) !! t = Some e /\
    absorbed k b d ps /\ Forall (verified (ps_auth (pm_state m)) (de_commitment e)) ps /\
    ds_useful_count d = k /\ ds_decode d = Ok bytes /\
    (forall data, od_piece_count data = k -> od_piece_byte_len data = b ->
       Forall (piece_of data) ps -> bytes = od_bytes data) /\
    ps_decoders (pm_state m') = delete t (ps_decoders (pm_state m)) /\
    ps_recoders (pm_state m') = ps_recoders (pm_state m).
Proof.
  intros [Hd _] Hr. destruct (pm_recv_post m seed rng w _ w' Hr) as [Hs _].
  inversion Hs as [ev Hp| |a t0 e p d' data _ He Hv Ha Hc Hdec| | | |]; subst; [done|].
  destruct (Hd _ _ He) as (k & b & ps & Hab & Hps & _).
  assert (Hab' : absorbed k b d' (ps ++ [p])) by by econstructor.
  exists e, k, b, (ps ++ [p]), d'. split_and!; try done.
  - apply Forall_app_2; [done|]. by constructor.
  - by apply (is_complete_iff k b d' (ps ++ [p])).
  - intros data <- <- Hof. pose proof (decode_restores data d' _ Hab' Hof Hc). congruence.
Qed.

(** C33: a registered decoder is lost to one frame: a piece that verifies
    but whose coding vector or data has the wrong length makes [absorb] fail,
    and the topic's decoder, with everything it had absorbed, is dropped; the
    topic's later frames are rejected as unregistered.  With an
    authenticator that tags nothing any established peer can send such a
    frame; a relay keeps its state in the same case. *)
Theorem decoder_lost_on_malformed_piece (h : Host) (s : PubsubState) (a : UdpAddr) (body : list byte)
    (f : PubsubFrame) (wp : WirePiece Commitment Tag) (e : DecoderEntry) (k b : nat)
    (ps : list CodedPiece) (rng : RngFactory RlncError) (w : World) :
  pubsub_decode body = Ok (f, wp) ->
  ps_recoders s !! pf_topic f = None -> ps_decoders s !! pf_topic f = Some e ->
  absorbed k b (de_state e) ps ->
  auth_verify (ps_auth s) (de_commitment e) (wp_piece wp) (wp_tag wp) = Ok tt ->
  length (cp_coding_vector (wp_piece wp)) <> k \/ length (cp_data (wp_piece wp)) <> b ->
  exists reason s',
    io_run (pm_process_plaintext (MkPubsubMux h s) a (prefix_kind KIND_PUBSUB body) rng) w =
      (Returned (Ok (MkPubsubMux h s', PmRejected a reason)), w) /\
    ps_decoders s' = delete (pf_topic f) (ps_decoders s) /\ ps_recoders s' = ps_recoders s /\
    forall a2 body2 f2 wp2 rng2 w2, pubsub_decode body2 = Ok (f2, wp2) -> pf_topic f2 = pf_topic f ->
      exists reason2,
        io_run (pm_process_plaintext (MkPubsubMux h s') a2 (prefix_kind KIND_PUBSUB body2) rng2) w2 =
          (Returned (Ok (MkPubsubMux h s', PmRejected a2 reason2)), w2).
Proof.
  intros Hdec Hr He Hab Hv Hdims. destruct s as [auth ds rs tick]. cbn in Hr, He, Hv.
  destruct (ds_absorb (de_state e) (wp_piece wp)) as [d'|er] eqn:Ea.
  { exfalso. assert (Hok : is_ok (ds_absorb (de_state e) (wp_piece wp)) = true) by by rewrite Ea.
    apply (absorb_dims k b _ _ _ Hab) in Hok. naive_solver. }
  eexists _, (MkPubsubState auth (delete (pf_topic f) ds) rs tick).
  assert (Hkr : contains_key rs (pf_topic f) = false) by by apply contains_key_false.
  split_and!; [|done|done|].
  - cbn [pm_process_plaintext]. rewrite dispatch_pubsub. unfold handle_pubsub_body.
    rewrite Hdec. cbn [ps_recoders ps_decoders].
    assert (Hkd : contains_key ds (pf_topic f) = true) by (rewrite contains_key_true; by eexists).
    rewrite Hkr, Hkd, run_pure. unfold decoder_path. rewrite He. destruct e as [d c la].
    cbn in Hv, Ea. by rewrite Hv, Ea.
  - intros a2 body2 f2 wp2 rng2 w2 Hd2 Ht. eexists.
    cbn [pm_process_plaintext]. rewrite dispatch_pubsub. unfold handle_pubsub_body.
    rewrite Hd2. cbn [ps_recoders ps_decoders].
    rewrite Ht, Hkr. unfold contains_key. rewrite lookup_delete_eq. by rewrite run_pure.
Qed.

End properties.
