(* ===== verification/PubsubE2E.v ===== *)
(** * A message from a broadcast to its delivery

    A broadcast sends its pieces to every peer of a host; a peer that
    registered the topic under the broadcast's commitment receives what the
    network lets through.  It reports each piece as absorbed up to the one
    that completes its decoder, which delivers the sender's bytes; the pieces
    that still follow are rejected, since delivery closed the topic. *)

From S2P Require Export PubsubProps HostFlight.

Section receive.
Context `{C : Crypto, RT : IoRuntime, !IoLaws RT, R : !Rlnc, RL : !RlncLaws, A : !Authenticator,
          W : !WireAuthenticator Commitment Tag, WL : !WireAuthLaws W}.

(** An event loop over the node: [n] receives, with the events in order. *)
Fixpoint pm_recv_n (n : nat) (m : PubsubMux) (seed : arr 32) (rng : RngFactory RlncError)
    : Io Error (PubsubMux * list MuxEvent) :=
  match n with
  | 0 => io_pure (m, [])
  | S n' =>
      '(m, ev) ← pm_recv_one m seed rng;
      '(m, evs) ← pm_recv_n n' m seed rng;
      io_pure (m, ev :: evs)
  end.

Lemma run_pm_recv_n n m seed rng w m1 ev w1 m2 evs w2 :
  io_run (pm_recv_one m seed rng) w = (Returned (Ok (m1, ev)), w1) ->
  io_run (pm_recv_n n m1 seed rng) w1 = (Returned (Ok (m2, evs)), w2) ->
  io_run (pm_recv_n (S n) m seed rng) w = (Returned (Ok (m2, ev :: evs)), w2).
Proof.
  intros H1 H2. cbn [pm_recv_n]. rewrite run_bind_eq, H1. cbn [run_bind].
  rewrite run_bind_eq, H2. cbn [run_bind]. by rewrite run_pure.
Qed.

(** How many of the pieces a decoder needs. *)
Fixpoint pieces_needed (d : DecoderState) (ps : list CodedPiece) : option nat :=
  match ps with
  | [] => None
  | p :: ps =>
      match ds_absorb d p with
      | Ok d' => if ds_is_complete d' then Some 1 else S <$> pieces_needed d' ps
      | Err _ => None
      end
  end.

Definition unregistered (t : Topic) : string :=
  ("frame received for unregistered topic " ++ topic_display t)%string.

(** A datagram that carries a piece of [t], where no relay is. *)
Lemma run_recv_piece h s seed rng w h1 a t k b wp :
  io_run (recv_one h seed) w =
    (Returned (Ok (h1, DatagramDelivered a (prefix_kind KIND_PUBSUB (pubsub_bytes t k b wp)))),
     world_received w) ->
  wire_ok k wp -> ps_recoders s !! t = None ->
  io_run (pm_recv_one (MkPubsubMux h s) seed rng) w =
    (Returned (Ok (if contains_key (ps_decoders s) t then decoder_path h1 s a t wp
                   else (MkPubsubMux h1 s, PmRejected a (unregistered t)))), world_received w).
Proof.
  intros Hr Hwp Hs. unfold pm_recv_one. rewrite run_bind_eq, Hr. cbn [run_bind process_event].
  rewrite dispatch_pubsub. unfold handle_pubsub_body. rewrite pubsub_decode_bytes by done.
  cbn [pf_topic]. apply contains_key_false in Hs. rewrite Hs.
  destruct (contains_key (ps_decoders s) t); by rewrite run_pure.
Qed.

(** A piece the decoder absorbs. *)
Lemma decoder_path_absorb h s a t wp d c la d' :
  ps_decoders s !! t = Some (MkDecoderEntry d c la) ->
  auth_verify (ps_auth s) c (wp_piece wp) (wp_tag wp) = Ok tt ->
  ds_absorb d (wp_piece wp) = Ok d' ->
  (ds_is_complete d' = false ->
     decoder_path h s a t wp =
       (MkPubsubMux h (put_decoder s t (MkDecoderEntry d' c (next_ps_tick s)) (next_ps_tick s)),
        PubsubAbsorbed a t)) /\
  (forall data, ds_is_complete d' = true -> ds_decode d' = Ok data ->
     decoder_path h s a t wp =
       (MkPubsubMux h (drop_decoder s t (next_ps_tick s)), PubsubDelivered a t data)).
Proof.
  destruct s as [auth ds rs tick]. cbn. intros -> -> ->. split.
  - intros ->. by rewrite insert_delete_eq.
  - by intros data -> ->.
Qed.

(** The world as the receiver's socket hands it out. *)
Fixpoint world_receiveds (n : nat) (w : World) : World :=
  match n with 0 => w | S n' => world_receiveds n' (world_received w) end.

Definition delivering (a : UdpAddr) (ds : list (list byte)) : list (result io_error (SocketAddr * list byte)) :=
  (fun d => Ok (socket_of_udp a, d)) <$> ds.

Context (a : UdpAddr) (t : Topic) (k b : u32).

Definition piece_frame (wp : WirePiece Commitment Tag) : list byte :=
  prefix_kind KIND_PUBSUB (pubsub_bytes t k b wp).

(** After the topic is closed. *)
Lemma recv_closed seed rng l : forall h h' s (pieces : list (WirePiece Commitment Tag)) w rest,
  recv_chain a h l h' -> l.*2 = piece_frame <$> pieces -> Forall (wire_ok k) pieces ->
  ps_recoders s !! t = None -> ps_decoders s !! t = None ->
  w_inbox w = delivering a l.*1 ++ rest ->
  io_run (pm_recv_n (length l) (MkPubsubMux h s) seed rng) w =
    (Returned (Ok (MkPubsubMux h' s, replicate (length l) (PmRejected a (unregistered t)))),
     world_receiveds (length l) w).
Proof.
  intros h h' s pieces w rest Hc. revert s pieces w rest.
  induction Hc as [h|h d p h1 l h2 Hstep Hc IH]; intros s pieces w rest Hl Hw Hr Hd Hin.
  { cbn [length pm_recv_n]. by rewrite run_pure. }
  destruct pieces as [|wp pieces]; [done|]. cbn in Hl. injection Hl as Hp Hl. unfold piece_frame in Hp.
  apply Forall_cons in Hw as [Hwp Hw]. cbn [length].
  eapply run_pm_recv_n.
  - rewrite (run_recv_piece _ s seed rng w h1 a t k b wp); [|rewrite <- Hp; eapply Hstep, Hin|done|done].
    assert (contains_key (ps_decoders s) t = false) as -> by by apply contains_key_false. done.
  - eapply (IH s pieces _ rest); try done. unfold world_received. cbn. by rewrite Hin.
Qed.

(** While the decoder is incomplete, and the piece that completes it. *)
Lemma recv_pieces data bs ps seed rng l : forall h h' s (pieces : list (WirePiece Commitment Tag)) d c la i,
  recv_chain a h l h' -> l.*2 = piece_frame <$> pieces -> Forall (wire_ok k) pieces ->
  absorbed (od_piece_count data) (od_piece_byte_len data) d bs -> Forall (piece_of data) bs ->
  ps = wp_piece <$> pieces -> Forall (piece_of data) ps ->
  Forall (fun wp => auth_verify (ps_auth s) c (wp_piece wp) (wp_tag wp) = Ok tt) pieces ->
  pieces_needed d ps = Some i ->
  ps_recoders s !! t = None -> ps_decoders s !! t = Some (MkDecoderEntry d c la) ->
  exists s', ps_decoders s' = delete t (ps_decoders s) /\ ps_recoders s' = ps_recoders s /\
  forall w rest, w_inbox w = delivering a l.*1 ++ rest ->
  io_run (pm_recv_n (length l) (MkPubsubMux h s) seed rng) w =
    (Returned (Ok (MkPubsubMux h' s',
       replicate (pred i) (PubsubAbsorbed a t) ++ PubsubDelivered a t (od_bytes data) ::
       replicate (length l - i) (PmRejected a (unregistered t)))),
     world_receiveds (length l) w).
Proof.
  intros h h' s pieces d c la i Hc. revert bs ps s pieces d la i.
  induction Hc as [h|h dg p h1 l h2 Hstep Hc IH];
    intros bs ps s pieces d la i Hl Hw Hab Hbs -> Hps Hv Hi Hr Hd.
  { by destruct pieces. }
  destruct pieces as [|wp pieces]; [done|]. cbn in Hl. injection Hl as Hp Hl. unfold piece_frame in Hp.
  cbn [fmap list_fmap] in Hps, Hi. apply Forall_cons in Hw as [Hwp Hw], Hps as [Hpp Hps], Hv as [Hvp Hv].
  cbn [pieces_needed] in Hi. destruct (ds_absorb d (wp_piece wp)) as [d'|] eqn:Ea; [|done].
  assert (Hab' : absorbed (od_piece_count data) (od_piece_byte_len data) d' (bs ++ [wp_piece wp]))
    by by econstructor.
  assert (Hbs' : Forall (piece_of data) (bs ++ [wp_piece wp])).
  { apply Forall_app_2; [done|]. by constructor. }
  destruct (decoder_path_absorb h1 s a t wp d c la d' Hd Hvp Ea) as [Habs Hdel].
  assert (Hrun : forall w rest, w_inbox w = delivering a ((dg, p) :: l).*1 ++ rest ->
    io_run (pm_recv_one (MkPubsubMux h s) seed rng) w =
      (Returned (Ok (decoder_path h1 s a t wp)), world_received w)).
  { intros w rest Hin. rewrite (run_recv_piece _ s seed rng w h1 a t k b wp); [|rewrite <- Hp; eapply Hstep, Hin|done|done].
    assert (contains_key (ps_decoders s) t = true) as ->; [|done].
    apply contains_key_true. by eexists. }
  assert (Hin' : forall w rest, w_inbox w = delivering a ((dg, p) :: l).*1 ++ rest ->
    w_inbox (world_received w) = delivering a l.*1 ++ rest).
  { intros w rest Hin. unfold world_received. cbn. by rewrite Hin. }
  destruct (ds_is_complete d') eqn:Ec.
  - injection Hi as <-. rewrite (Hdel (od_bytes data)) in Hrun;
      [|done|by eapply decode_restores].
    set (s1 := drop_decoder s t (next_ps_tick s)) in *.
    exists s1. split_and!; [done|done|]. intros w rest Hin. cbn [length pred replicate app].
    eapply run_pm_recv_n; [by eapply Hrun|].
    replace (S (length l) - 1) with (length l) by lia.
    eapply (recv_closed seed rng l h1 h2 s1 pieces _ rest); try done; [|by eapply Hin'].
    unfold s1, drop_decoder. cbn. apply lookup_delete_eq.
  - destruct (pieces_needed d' (wp_piece <$> pieces)) as [j|] eqn:Ej; [|done].
    injection Hi as <-. rewrite Habs in Hrun by done.
    set (s1 := put_decoder _ _ _ _) in *.
    destruct (IH _ _ s1 pieces d' (next_ps_tick s) j Hl Hw Hab' Hbs' eq_refl Hps Hv Ej)
      as (s' & Hd' & Hr' & Hrun'); [done|apply lookup_insert_eq|].
    exists s'. split_and!; [|done|].
    { rewrite Hd'. unfold s1, put_decoder. cbn. by rewrite delete_insert_eq. }
    intros w rest Hin. specialize (Hrun' _ _ (Hin' _ _ Hin)).
    cbn [length pred Nat.sub]. destruct j as [|j].
    { destruct (wp_piece <$> pieces) as [|q qs]; [done|]. cbn in Ej.
      destruct (ds_absorb d' q) as [d2|]; [|done]. destruct (ds_is_complete d2); [done|].
      by destruct (pieces_needed d2 qs). }
    cbn [replicate app]. cbn [pred] in Hrun'. eapply run_pm_recv_n; [by eapply Hrun|exact Hrun'].
Qed.

End receive.


(** ** Fan-outs *)

Section fan.
Context `{C : Crypto, RT : IoRuntime, !IoLaws RT, !CryptoLaws C, R : !Rlnc, A : !Authenticator,
          W : !WireAuthenticator Commitment Tag}.

(** Datagrams with their destinations, in the order they leave. *)
Definition worlds_to (w : World) (l : list (UdpAddr * list byte)) : World :=
  foldl (fun w x => world_sent w x.1 x.2) w l.
Definition addressed (l : list (UdpAddr * list byte)) : list (SocketAddr * list byte) :=
  (fun x => (socket_of_udp x.1, x.2)) <$> l.
Definition sent_to (b : UdpAddr) (l : list (UdpAddr * list byte)) : list (list byte) :=
  (filter (fun x => x.1 = b) l).*2.

Lemma worlds_to_sent l : forall w, w_sent (worlds_to w l) = w_sent w ++ addressed l.
Proof.
  induction l as [|x l IH]; intros w; [by rewrite app_nil_r|].
  cbn [worlds_to foldl]. fold (worlds_to (world_sent w x.1 x.2) l). rewrite IH. cbn.
  by rewrite <- app_assoc.
Qed.

Lemma worlds_to_faults l : forall w, w_send_faults w = [] -> w_send_faults (worlds_to w l) = [].
Proof.
  induction l as [|x l IH]; intros w Hw; [done|]. cbn [worlds_to foldl].
  apply IH. cbn. by rewrite Hw.
Qed.

Lemma worlds_to_inbox l : forall w, w_inbox (worlds_to w l) = w_inbox w.
Proof. induction l as [|x l IH]; intros w; [done|]. cbn [worlds_to foldl]. exact (IH (world_sent w x.1 x.2)). Qed.

Lemma worlds_to_app w l1 l2 : worlds_to w (l1 ++ l2) = worlds_to (worlds_to w l1) l2.
Proof. apply foldl_app. Qed.

Lemma sent_to_app b l1 l2 : sent_to b (l1 ++ l2) = sent_to b l1 ++ sent_to b l2.
Proof. unfold sent_to. by rewrite filter_app, fmap_app. Qed.

Definition one_each (dg : UdpAddr -> list byte) (bs : list UdpAddr) : list (UdpAddr * list byte) :=
  (fun b => (b, dg b)) <$> bs.

Lemma sent_to_cons b x l :
  sent_to b (x :: l) = if decide (x.1 = b) then x.2 :: sent_to b l else sent_to b l.
Proof. unfold sent_to. rewrite filter_cons. by destruct (decide _). Qed.

Lemma sent_to_one_each dg bs b : NoDup bs -> b ∈ bs -> sent_to b (one_each dg bs) = [dg b].
Proof.
  assert (Hno : forall l, b ∉ l -> sent_to b (one_each dg l) = []).
  { induction l as [|x l IH]; [done|]. intros [Hx Hl]%not_elem_of_cons.
    change (sent_to b ((x, dg x) :: one_each dg l) = []).
    rewrite sent_to_cons, decide_False by (cbn; congruence). by apply IH. }
  induction bs as [|x bs IH]; intros Hnd Hb; [by apply elem_of_nil in Hb|].
  apply NoDup_cons in Hnd as [Hx Hnd].
  change (sent_to b ((x, dg x) :: one_each dg bs) = [dg b]). rewrite sent_to_cons. cbn [fst snd].
  case_decide as Hxb; [subst; by rewrite Hno|]. apply IH; [done|]. by apply elem_of_cons in Hb as [->|?].
Qed.

Context (a : UdpAddr) (s : PubsubState) (peer : UdpAddr -> Host).

(** A payload to several peers, each with datagrams on the way. *)
Lemma fan_each p bs : forall h (fl : UdpAddr -> list parcel) k,
  NoDup bs -> (forall b, b ∈ bs -> in_flight h a (peer b) b (fl b) (k + 1)) -> payload_fits h p ->
  exists h' dg,
    (forall w, w_send_faults w = [] ->
       io_run (send_frame_to_each bs (MkPubsubMux h s) p) w =
         (Returned (Ok (MkPubsubMux h' s)), worlds_to w (one_each dg bs))) /\
    (forall b, b ∈ bs -> in_flight h' a (peer b) b (fl b ++ [(dg b, p)]) k) /\
    host_frame h h' /\ established_addrs h' = established_addrs h /\
    forall x, x ∉ bs -> host_established h' !! x = host_established h !! x.
Proof.
  induction bs as [|x bs IH]; intros h fl k Hnd Hf Hp.
  { exists h, (fun _ => []). split_and!; try done; [|by intros b Hb%elem_of_nil].
    intros w _. unfold send_frame_to_each. cbn. by rewrite run_pure. }
  apply NoDup_cons in Hnd as [Hx Hnd].
  destruct (in_flight_send _ _ _ _ _ _ p (Hf x (list_elem_of_here _ _)) Hp)
    as (h1 & d & Hs & Hf1 & Hat). pose proof (only_at_addrs _ _ _ Hat) as He1. destruct Hat as [HF1 _ _ Ho1].
  destruct (IH h1 fl k Hnd) as (h' & dg & Hrun & Hf' & HF & He & Ho).
  { intros b Hb. eapply in_flight_frame; [by apply Hf, list_elem_of_further|done|].
    apply Ho1. by intros ->. }
  { unfold payload_fits in *. by destruct HF1 as (-> & _). }
  exists h', (fun b => if decide (b = x) then d else dg b).
  assert (Hext : one_each (fun b => if decide (b = x) then d else dg b) bs = one_each dg bs).
  { apply list_fmap_ext. intros i b Hb%list_elem_of_lookup_2. rewrite decide_False; [done|].
    by intros ->. }
  split_and!.
  - intros w Hw. rewrite run_send_each. unfold send_frame_to.
    rewrite run_fmap_eq, Hs by (unfold send_fault; by rewrite Hw). cbn [run_bind].
    rewrite Hrun by (cbn; by rewrite Hw). change (one_each ?f (x :: bs)) with ((x, f x) :: one_each f bs).
    by rewrite Hext, decide_True.
  - intros b [->|Hb]%elem_of_cons.
    + rewrite decide_True by done. eapply in_flight_frame; [exact Hf1|done|by apply Ho].
    + rewrite decide_False by (by intros ->). by apply Hf'.
  - destruct HF1 as (? & ? & ?), HF as (? & ? & ?). unfold host_frame. split_and!; congruence.
  - congruence.
  - intros y [Hy1 Hy2]%not_elem_of_cons. rewrite Ho by done. by apply Ho1.
Qed.

(** Frames to every established peer. *)
Lemma fan_stream frames : forall h (fl : UdpAddr -> list parcel) k,
  let bs := established_addrs h in
  let ps := prefix_kind KIND_PUBSUB <$> frames in
  (forall b, b ∈ bs -> in_flight h a (peer b) b (fl b) (N.of_nat (length frames) + k)) ->
  Forall (payload_fits h) ps ->
  exists h' l,
    (forall w, w_send_faults w = [] ->
       io_run (fan_out_all (MkPubsubMux h s) frames) w =
         (Returned (Ok (MkPubsubMux h' s)), worlds_to w l)) /\
    length l = length frames * length bs /\
    (forall b, b ∈ bs -> length (sent_to b l) = length frames /\
       in_flight h' a (peer b) b (fl b ++ zip (sent_to b l) ps) k).
Proof.
  induction frames as [|f frames IH]; intros h fl k bs ps Hf Hps; subst bs ps.
  { exists h, []. split_and!; [|done|].
    - intros w _. unfold fan_out_all. cbn. by rewrite run_pure.
    - intros b Hb. split; [done|]. cbn. rewrite app_nil_r. by apply Hf. }
  cbn [fmap list_fmap] in Hps. apply Forall_cons in Hps as [Hp Hps].
  destruct (fan_each (prefix_kind KIND_PUBSUB f) (established_addrs h) h fl (N.of_nat (length frames) + k))
    as (h1 & dg & Hrun1 & Hf1 & HF1 & He1 & _); [apply NoDup_bt_keys| |done|].
  { intros b Hb. eapply in_flight_weaken; [by apply Hf|]. cbn [length]. lia. }
  destruct (IH h1 (fun b => fl b ++ [(dg b, prefix_kind KIND_PUBSUB f)]) k)
    as (h' & l & Hrun & Hlen & Hf').
  { intros b Hb. rewrite He1 in Hb. by apply Hf1. }
  { eapply Forall_impl; [exact Hps|]. intros q. unfold payload_fits. by destruct HF1 as (-> & _). }
  rewrite He1 in Hlen, Hf'.
  exists h', (one_each dg (established_addrs h) ++ l). split_and!.
  - intros w Hw. unfold fan_out_all. cbn [foldl]. rewrite run_foldl, run_bind_eq, run_pure. cbn [run_bind].
    unfold send_frame_to_all at 1. cbn [pm_host]. rewrite Hrun1 by done. cbn [run_bind].
    rewrite worlds_to_app. apply Hrun. by apply worlds_to_faults.
  - rewrite length_app, Hlen. unfold one_each. rewrite length_fmap. cbn. lia.
  - intros b Hb. destruct (Hf' b Hb) as [Hl Hfl]. rewrite sent_to_app, sent_to_one_each by
      (done || apply NoDup_bt_keys). cbn [app length fmap list_fmap zip zip_with]. split; [lia|].
    by rewrite <- app_assoc in Hfl.
Qed.

End fan.

Section broadcasts.
Context `{C : Crypto, RT : IoRuntime, !IoLaws RT, !CryptoLaws C, R : !Rlnc, RL : !RlncLaws,
          A : !Authenticator, AL : !AuthLaws, W : !WireAuthenticator Commitment Tag,
          WL : !WireAuthLaws W}.

(** The source yields [pieces] under [c], and they fit the wire and the
    socket of [m]. *)
Record broadcast_ready (m : PubsubMux) (t : Topic) (data : OriginalData) (n : nat)
    (rng : RngFactory RlncError) (k b : u32) (c : Commitment)
    (pieces : list (WirePiece Commitment Tag)) (w : World) : Prop := BroadcastReady {
  br_count : uval k = N.of_nat (od_piece_count data);
  br_len : uval b = N.of_nat (od_piece_byte_len data);
  br_source : exists s w1, gossip_source (ps_auth (pm_state m)) data rng = (c, s) /\
    io_run (stream_take_collect n s) w = (Returned (Ok pieces), w1);
  br_fits : Forall (fun wp => tag_wf (wp_tag wp) /\ payload_fits (pm_host m) (piece_frame t k b wp)) pieces;
  br_faults : w_send_faults w = []
}.

(** A piece of [data] that verifies under [c] and fits the wire. *)
Definition genuine (auth : Auth) (data : OriginalData) (k : u32) (c : Commitment)
    (wp : WirePiece Commitment Tag) : Prop :=
  wire_ok k wp /\ piece_of data (wp_piece wp) /\
  auth_verify auth c (wp_piece wp) (wp_tag wp) = Ok tt.

(** What a broadcast sends to each established peer. *)
Lemma run_broadcast m a (peer : UdpAddr -> Host) t data n rng k b c pieces w left :
  broadcast_ready m t data n rng k b c pieces w ->
  (forall x, x ∈ established_addrs (pm_host m) ->
     linked (pm_host m) a (peer x) x (N.of_nat (length pieces) + left)) ->
  exists h' l w',
    io_run (broadcast m t data n rng) w = (Returned (Ok (MkPubsubMux h' (pm_state m), c)), w') /\
    w_sent w' = w_sent w ++ addressed l /\
    length l = length pieces * length (established_addrs (pm_host m)) /\
    (forall x, x ∈ established_addrs (pm_host m) -> length (sent_to x l) = length pieces /\
       in_flight h' a (peer x) x (zip (sent_to x l) (piece_frame t k b <$> pieces)) left) /\
    Forall (genuine (ps_auth (pm_state m)) data k c) pieces.
Proof.
  intros [Hk Hb (s & w1 & Hsrc & Hrun) Hfit Hw] Hl. destruct m as [h st]. cbn [pm_host pm_state] in *.
  pose proof (source_pieces (ps_auth st) data rng n c s Hsrc w pieces w1 Hrun) as Hps.
  assert (Hw1 : w_send_faults w1 = [] /\ w_sent w1 = w_sent w).
  { pose proof (source_draws (ps_auth st) data rng n w) as (r & q & Hrun').
    rewrite Hsrc in Hrun'. cbn [snd] in Hrun'. rewrite Hrun in Hrun'. by injection Hrun' as _ ->. }
  set (frames := pubsub_bytes t k b <$> pieces).
  assert (Hframes : collect_results
    (fun wp => pubsub_encode t (od_piece_count data) (od_piece_byte_len data) wp) pieces = Ok frames).
  { unfold frames. clear -Hk Hb WL RL. induction pieces as [|wp ps IH]; [done|]. cbn [collect_results].
    rewrite (pubsub_encode_eq t _ _ wp k b) by done. cbn [mbind result_bind]. by rewrite IH. }
  assert (Hpay : prefix_kind KIND_PUBSUB <$> frames = piece_frame t k b <$> pieces)
    by (unfold frames; by rewrite <- list_fmap_compose).
  destruct (fan_stream a st peer frames h (fun _ => []) left) as (h' & l & Hrunf & Hlen & Hf).
  { intros x Hx. apply linked_in_flight. unfold frames. rewrite length_fmap. by apply Hl. }
  { rewrite Hpay. apply Forall_fmap. eapply Forall_impl; [exact Hfit|]. by intros wp [_ ?]. }
  rewrite Hpay in Hf. unfold frames in Hlen, Hf. rewrite length_fmap in Hlen, Hf.
  exists h', l, (worlds_to w1 l). split_and!; [|rewrite worlds_to_sent; by rewrite (proj2 Hw1)|done|done|].
  - unfold broadcast. cbn [pm_state]. rewrite Hsrc, run_bind_eq.
    apply (run_map_error_Ok _ rlnc_error) in Hrun. rewrite Hrun. cbn [run_bind]. cbv zeta.
    rewrite Hframes, run_bind_eq, run_result. cbn [run_bind]. rewrite run_fmap_eq.
    rewrite Hrunf by apply Hw1. done.
  - rewrite Forall_forall in *. intros wp Hin. destruct (Hps wp Hin) as (_ & Hof & Hv).
    destruct (Hfit wp Hin) as [Ht _]. split_and!; [|done|done].
    apply piece_of_dims in Hof as [Hd _]. split; [by rewrite Hd|done].
Qed.

(** Registered for [data] on [t] under [c], as a decoder with nothing yet. *)
Definition subscribed (s : PubsubState) (auth : Auth) (t : Topic) (data : OriginalData)
    (c : Commitment) : Prop :=
  ps_auth s = auth /\ ps_recoders s !! t = None /\
  exists la, ps_decoders s !! t =
    Some (MkDecoderEntry (ds_new (od_piece_count data) (od_piece_byte_len data)) c la).

(** What a subscriber makes of the genuine pieces that arrive. *)
Lemma subscriber_receives a t k b data c auth hA hB x s got (pieces : list (WirePiece Commitment Tag)) i left seed rng :
  arriving_at hA a hB x got left -> got.*2 = piece_frame t k b <$> pieces ->
  Forall (genuine auth data k c) pieces -> subscribed s auth t data c ->
  pieces_needed (ds_new (od_piece_count data) (od_piece_byte_len data)) (wp_piece <$> pieces) = Some i ->
  exists hB' s', linked hA a hB' x left /\ ps_decoders s' = delete t (ps_decoders s) /\
    ps_recoders s' = ps_recoders s /\
    forall w, w_inbox w = delivering a got.*1 ->
      io_run (pm_recv_n (length got) (MkPubsubMux hB s) seed rng) w =
        (Returned (Ok (MkPubsubMux hB' s',
           replicate (pred i) (PubsubAbsorbed a t) ++ PubsubDelivered a t (od_bytes data) ::
           replicate (length got - i) (PmRejected a (unregistered t)))),
         world_receiveds (length got) w).
Proof.
  intros Har Hgot Hg (Ha & Hr & la & Hd) Hi. rewrite <- Ha in Hg.
  destruct (arriving_at_chain _ _ _ _ _ _ Har) as (hB' & Hc & Hl).
  destruct (recv_pieces a t k b data [] (wp_piece <$> pieces) seed rng got hB hB' s pieces
    (ds_new (od_piece_count data) (od_piece_byte_len data)) c la i Hc Hgot)
    as (s' & Hs' & Hr' & Hrun); try done.
  - eapply Forall_impl; [exact Hg|]. by intros wp (? & _).
  - constructor.
  - apply Forall_fmap. eapply Forall_impl; [exact Hg|]. by intros wp (_ & ? & _).
  - eapply Forall_impl; [exact Hg|]. by intros wp (_ & _ & ?).
  - exists hB', s'. split_and!; [done|done|done|]. intros w Hin. apply (Hrun w []). by rewrite app_nil_r.
Qed.

(** And a node that is not registered for the topic. *)
Lemma bystander_receives a t k b data c auth hA hB x s got (pieces : list (WirePiece Commitment Tag)) left seed rng :
  arriving_at hA a hB x got left -> got.*2 = piece_frame t k b <$> pieces ->
  Forall (genuine auth data k c) pieces ->
  ps_recoders s !! t = None -> ps_decoders s !! t = None ->
  exists hB', linked hA a hB' x left /\
    forall w, w_inbox w = delivering a got.*1 ->
      io_run (pm_recv_n (length got) (MkPubsubMux hB s) seed rng) w =
        (Returned (Ok (MkPubsubMux hB' s, replicate (length got) (PmRejected a (unregistered t)))),
         world_receiveds (length got) w).
Proof.
  intros Har Hgot Hg Hr Hd. destruct (arriving_at_chain _ _ _ _ _ _ Har) as (hB' & Hc & Hl).
  exists hB'. split; [done|]. intros w Hin.
  apply (recv_closed a t k b seed rng got hB hB' s pieces w []); try done; [|by rewrite app_nil_r].
  eapply Forall_impl; [exact Hg|]. by intros wp (? & _).
Qed.

(** C6: a broadcast reaches every peer, whatever the network loses.  Node
    [m] broadcasts [data] to all its established peers, each over a session
    with nonces left: it sends each of them the [n] pieces of the source.
    Let a peer [x] receive any of its datagrams, in the order sent or, if
    they are at most 64, in any order.  If [x] registered the topic under the
    commitment [broadcast] returns, with the same authenticator and no relay,
    and the pieces it gets complete a decoder, the last of them needed being
    the [i]-th, then it reports [i - 1] absorptions, the delivery of exactly
    the bytes of [data], and the rejection of the rest, its decoder for the
    topic being closed.  A peer that is not registered rejects them all.
    Every session stays usable. *)
Theorem broadcast_delivers (m : PubsubMux) (a : UdpAddr) (peer : UdpAddr -> PubsubMux) (t : Topic)
    (data : OriginalData) (n : nat) (rng : RngFactory RlncError) (k b : u32) (c : Commitment)
    (pieces : list (WirePiece Commitment Tag)) (w : World) (left : N) :
  broadcast_ready m t data n rng k b c pieces w ->
  (forall x, x ∈ established_addrs (pm_host m) ->
     linked (pm_host m) a (pm_host (peer x)) x (N.of_nat (length pieces) + left)) ->
  exists m' l w',
    io_run (broadcast m t data n rng) w = (Returned (Ok (m', c)), w') /\
    w_sent w' = w_sent w ++ addressed l /\
    length l = length pieces * length (established_addrs (pm_host m)) /\
    forall x got seed rngx, x ∈ established_addrs (pm_host m) ->
      length (sent_to x l) = length pieces /\
      (arrives (zip (sent_to x l) pieces) got ->
       let s := pm_state (peer x) in
       let receives m2 evs := linked (pm_host m') a (pm_host m2) x left /\
         forall wx, w_inbox wx = delivering a got.*1 ->
           io_run (pm_recv_n (length got) (peer x) seed rngx) wx =
             (Returned (Ok (m2, evs)), world_receiveds (length got) wx) in
       (forall i, subscribed s (ps_auth (pm_state m)) t data c ->
          pieces_needed (ds_new (od_piece_count data) (od_piece_byte_len data)) (wp_piece <$> got.*2) = Some i ->
          exists m2, ps_decoders (pm_state m2) !! t = None /\
            receives m2 (replicate (pred i) (PubsubAbsorbed a t) ++ PubsubDelivered a t (od_bytes data) ::
                         replicate (length got - i) (PmRejected a (unregistered t)))) /\
       (ps_recoders s !! t = None -> ps_decoders s !! t = None ->
          exists m2, pm_state m2 = s /\
            receives m2 (replicate (length got) (PmRejected a (unregistered t))))).
Proof.
  intros Hready Hl.
  destruct (run_broadcast m a (fun x => pm_host (peer x)) t data n rng k b c pieces w left Hready Hl)
    as (h' & l & w' & Hrun & Hs & Hlen & Hpeers & Hg).
  exists (MkPubsubMux h' (pm_state m)), l, w'. split_and!; [done..|].
  intros x got seed rngx Hx. destruct (Hpeers x Hx) as [Hlx Hf]. split; [done|].
  intros Ha s receives. destruct (arrives_parcels (piece_frame t k b) _ _ _ Ha) as (got' & Har & H1 & H2 & H3).
  pose proof (in_flight_arrives _ _ _ _ _ _ _ Hf Har) as Hat.
  pose proof (arrives_snd _ _ _ _ Ha Hg) as Hgx.
  unfold receives. rewrite <- H1, <- H3. destruct (peer x) as [hx sx] eqn:Ex. cbn [pm_host pm_state] in *.
  split.
  - intros i Hsub Hi.
    destruct (subscriber_receives a t k b data c _ h' hx x sx got' got.*2 i left seed rngx Hat H2 Hgx Hsub Hi)
      as (hx' & s' & Hlk & Hd & _ & Hrunx).
    exists (MkPubsubMux hx' s'). cbn [pm_host pm_state]. split_and!; [rewrite Hd; apply lookup_delete_eq|done|done].
  - intros Hr Hd.
    destruct (bystander_receives a t k b data c _ h' hx x sx got' got.*2 left seed rngx Hat H2 Hgx Hr Hd)
      as (hx' & Hlk & Hrunx).
    by exists (MkPubsubMux hx' sx).
Qed.

End broadcasts.
