(* ===== verification/PubsubRelay.v ===== *)
(** * A message through a relay

    A source, a relay it is connected to, and subscribers the relay alone is
    connected to.  What the relay buffers and emits is the relation [emits];
    every recoded piece is a genuine piece of the generation, so a subscriber
    that gets enough of them delivers the source's bytes. *)

From S2P Require Export PubsubE2E.

Section relay.
Context `{C : Crypto, RT : IoRuntime, !IoLaws RT, !CryptoLaws C, R : !Rlnc, RL : !RlncLaws,
          A : !Authenticator, AL : !AuthLaws, W : !WireAuthenticator Commitment Tag,
          WL : !WireAuthLaws W}.

(** What a relay with recoder [rc] and rank tracker [tr] emits as the pieces
    come in: nothing for one that adds no rank, a recoded piece for one that
    does. *)
Inductive emits (rng : RngFactory RlncError) :
    Recoder -> DecoderState -> list CodedPiece -> list (option CodedPiece) -> Prop :=
| emits_nil rc tr : emits rng rc tr [] []
| emits_redundant rc tr p ps outs :
    ds_is_complete tr = true \/
      (exists tr', ds_absorb tr p = Ok tr' /\ ds_useful_count tr' = ds_useful_count tr) ->
    emits rng rc tr ps outs -> emits rng rc tr (p :: ps) (None :: outs)
| emits_recoded rc tr p ps outs tr' rc' q w w' :
    ds_is_complete tr = false -> ds_absorb tr p = Ok tr' ->
    ds_useful_count tr' <> ds_useful_count tr -> rc_add_piece rc p = Ok rc' ->
    io_run (rc_recode_one rc' rng) w = (Returned (Ok q), w') ->
    emits rng rc' tr' ps outs -> emits rng rc tr (p :: ps) (Some q :: outs).

(** Registered as a relay of [data] on [t] under [c], with nothing yet. *)
Definition relaying (st : PubsubState) (auth : Auth) (t : Topic) (data : OriginalData)
    (c : Commitment) : Prop :=
  ps_auth st = auth /\ exists la, ps_recoders st !! t =
    Some (MkRecoderEntry (rc_new (od_piece_count data) (od_piece_byte_len data))
            (ds_new (od_piece_count data) (od_piece_byte_len data)) c la).

Context (auth : Auth) (t : Topic) (data : OriginalData) (k b : u32) (c : Commitment).

(** A recoded piece as the relay sends it. *)
Definition retagged (q : CodedPiece) : WirePiece Commitment Tag := wp_new c q (auth_tag auth c q).
Definition retagged_frame (q : CodedPiece) : list byte := piece_frame t k b (retagged q).

(** What a relay at [h] needs: its randomness serves the recoder, and with
    its authenticator the pieces it tags verify and fit. *)
Record relay_ready (h : Host) (rng : RngFactory RlncError) : Prop := RelayReady {
  rr_count : uval k = N.of_nat (od_piece_count data);
  rr_len : uval b = N.of_nat (od_piece_byte_len data);
  rr_recodes rc bs w :
    buffered (od_piece_count data) (od_piece_byte_len data) rc bs ->
    Forall (piece_of data) bs -> bs <> [] ->
    exists q w', io_run (rc_recode_one rc rng) w = (Returned (Ok q), w');
  rr_tags q : piece_of data q ->
    auth_verify auth c q (auth_tag auth c q) = Ok tt /\ tag_wf (auth_tag auth c q) /\
    payload_fits h (retagged_frame q)
}.

Lemma relay_ready_frame h h' rng : relay_ready h rng -> host_frame h h' -> relay_ready h' rng.
Proof.
  intros [H1 H2 H3 H4] (Hs & _). split; [done|done|done|]. intros q Hq.
  destruct (H4 q Hq) as (? & ? & Hf). unfold payload_fits in *. by rewrite Hs.
Qed.

Lemma retagged_genuine h rng q : relay_ready h rng -> piece_of data q -> genuine auth data k c (retagged q).
Proof.
  intros Hr Hq. destruct (rr_tags _ _ Hr q Hq) as (Hv & Ht & _).
  destruct (piece_of_dims _ _ Hq) as [Hd _].
  unfold genuine, wire_ok, retagged. rewrite !wp_piece_new, !wp_tag_new.
  split_and!; [by rewrite (rr_count _ _ Hr), Hd|done|done|done].
Qed.

Context (s r : UdpAddr) (peer : UdpAddr -> Host).

Definition downstream (h : Host) : list UdpAddr := filter (fun x => x <> s) (established_addrs h).

Definition relay_event (n : nat) (out : option CodedPiece) : MuxEvent :=
  match out with None => PubsubRedundant s t | Some _ => PubsubRelayed s t n end.

(** A relay at work: what came from the source on its way, what it sent on
    its way to the peers downstream. *)
Record relay_at (hS : Host) (kS : N) (kR : N) (h : Host) (st : PubsubState) (rng : RngFactory RlncError)
    (rc : Recoder) (tr : DecoderState) (bs : list CodedPiece)
    (got : list parcel) (fl : UdpAddr -> list parcel) : Prop := RelayAt {
  ra_ready : relay_ready h rng;
  ra_source : arriving_at hS s h r got kS;
  ra_down x : x ∈ downstream h -> in_flight h r (peer x) x (fl x) (N.of_nat (length got) + kR);
  ra_auth : ps_auth st = auth;
  ra_entry : exists la, ps_recoders st !! t = Some (MkRecoderEntry rc tr c la);
  ra_buffered : buffered (od_piece_count data) (od_piece_byte_len data) rc bs;
  ra_absorbed : exists all, absorbed (od_piece_count data) (od_piece_byte_len data) tr all;
  ra_pieces : Forall (piece_of data) bs
}.

(** The relay's code on a genuine piece. *)
Lemma relay_path_step h st rng rc tr la bs all wp w :
  relay_ready h rng -> ps_auth st = auth -> ps_recoders st !! t = Some (MkRecoderEntry rc tr c la) ->
  buffered (od_piece_count data) (od_piece_byte_len data) rc bs ->
  absorbed (od_piece_count data) (od_piece_byte_len data) tr all ->
  Forall (piece_of data) bs -> genuine auth data k c wp ->
  let st' rc tr := put_relay st t (MkRecoderEntry rc tr c (next_ps_tick st)) (next_ps_tick st) in
  let p := wp_piece wp in
  ((ds_is_complete tr = true \/
     (exists tr', ds_absorb tr p = Ok tr' /\ ds_useful_count tr' = ds_useful_count tr)) /\
   relay_path h st s t wp rng = io_pure (MkPubsubMux h (st' rc tr), PubsubRedundant s t)) \/
  (exists tr' rc' q w1, ds_is_complete tr = false /\ ds_absorb tr p = Ok tr' /\
     ds_useful_count tr' <> ds_useful_count tr /\ rc_add_piece rc p = Ok rc' /\
     io_run (rc_recode_one rc' rng) w = (Returned (Ok q), w1) /\ piece_of data q /\
     w_inbox w1 = w_inbox w /\ w_sent w1 = w_sent w /\ w_send_faults w1 = w_send_faults w /\
     io_run (relay_path h st s t wp rng) w =
       io_run ((fun m => (m, PubsubRelayed s t (length (downstream h)))) <$>
                 send_frame_to_each (downstream h) (MkPubsubMux h (st' rc' tr')) (retagged_frame q)) w1).
Proof.
  intros Hready Hauth He Hbu Hab Hbs (_ & Hp & Hv) st' p. destruct st as [au dcs rs tick].
  cbn [ps_auth ps_recoders] in *. subst au. destruct (piece_of_dims _ _ Hp) as [Hd1 Hd2].
  assert (Habs : is_ok (ds_absorb tr p) = true) by by apply (absorb_dims _ _ _ _ _ Hab).
  unfold relay_path. rewrite He. fold p in Hv, Hd1, Hd2 |- *. rewrite Hv, !insert_delete_eq.
  destruct (ds_is_complete tr) eqn:Ec; [left; split; [by left|done]|].
  destruct (ds_absorb tr p) as [tr'|] eqn:Ea; [|done].
  destruct (Nat.eqb_spec (ds_useful_count tr') (ds_useful_count tr)) as [Hu|Hu].
  { left. split; [|done]. right. by exists tr'. }
  right. pose proof (add_piece_dims _ _ _ _ p Hbu Hd1 Hd2) as Hadd.
  destruct (rc_add_piece rc p) as [rc'|] eqn:Er; [|done].
  assert (Hbu' : buffered (od_piece_count data) (od_piece_byte_len data) rc' (bs ++ [p])) by by econstructor.
  assert (Hbs' : Forall (piece_of data) (bs ++ [p])) by (apply Forall_app_2; [done|by constructor]).
  destruct (rr_recodes _ _ Hready rc' (bs ++ [p]) w Hbu' Hbs') as (q & w1 & Hq); [by destruct bs|].
  exists tr', rc', q, w1. pose proof (recode_one_piece _ _ _ _ _ rng Hbu' Hbs' w q w1 Hq) as Hof.
  destruct (recode_one_draws rc' rng w) as (o & n & Hdraw). rewrite Hq in Hdraw.
  injection Hdraw as _ Hw1. split_and!; try done; try by rewrite Hw1.
  cbv zeta. rewrite run_bind_eq. apply (run_map_error_Ok _ rlnc_error) in Hq as Hq'. rewrite Hq'.
  cbn [run_bind]. rewrite run_bind_eq, (pubsub_encode_eq t _ _ (retagged q) k b), run_result.
  2: { by rewrite Hd1, (rr_count _ _ Hready). }
  2: { by rewrite Hd2, (rr_len _ _ Hready). }
  cbn [run_bind]. unfold send_frame_excluding. rewrite insert_delete_eq, !run_fmap_eq.
  fold (downstream h). by destruct (io_run (send_frame_to_each _ _ _) w1) as [[[m|e]|] w2].
Qed.

Lemma elem_of_downstream h x : x ∈ downstream h <-> x <> s /\ x ∈ established_addrs h.
Proof. unfold downstream. by rewrite list_elem_of_filter. Qed.

Lemma NoDup_downstream h : NoDup (downstream h).
Proof. apply NoDup_filter, NoDup_bt_keys. Qed.

(** The parcels and datagrams of one turn. *)
Definition out_sent (dg : UdpAddr -> list byte) (bs : list UdpAddr) (out : option CodedPiece)
    : list (UdpAddr * list byte) :=
  match out with Some _ => one_each dg bs | None => [] end.
Definition out_parcels (d : list byte) (out : option CodedPiece) : list parcel :=
  match out with Some q => [(d, retagged_frame q)] | None => [] end.

(** A piece of the relayed topic reaches the relay's code. *)
Lemma run_recv_relayed h h1 st seed rng w d wp inbox :
  (forall seed w inbox, w_inbox w = Ok (socket_of_udp s, d) :: inbox ->
     io_run (recv_one h seed) w =
       (Returned (Ok (h1, DatagramDelivered s (piece_frame t k b wp))), world_received w)) ->
  wire_ok k wp -> is_Some (ps_recoders st !! t) -> w_inbox w = Ok (socket_of_udp s, d) :: inbox ->
  io_run (pm_recv_one (MkPubsubMux h st) seed rng) w =
    io_run (relay_path h1 st s t wp rng) (world_received w).
Proof.
  intros Hr Hwp He Hin. unfold pm_recv_one. rewrite run_bind_eq, (Hr seed w inbox Hin).
  cbn [run_bind process_event]. unfold piece_frame. rewrite dispatch_pubsub. unfold handle_pubsub_body.
  rewrite pubsub_decode_bytes by done. cbn [pf_topic]. apply contains_key_true in He. by rewrite He.
Qed.

(** One turn of the relay's event loop. *)
Lemma relay_turn hS kS kR h st rng rc tr bs d wp got fl seed w inbox :
  relay_at hS kS kR h st rng rc tr bs ((d, piece_frame t k b wp) :: got) fl ->
  genuine auth data k c wp ->
  w_inbox w = Ok (socket_of_udp s, d) :: inbox -> w_send_faults w = [] ->
  exists h' st' rc' tr' bs' out dg w',
    io_run (pm_recv_one (MkPubsubMux h st) seed rng) w =
      (Returned (Ok (MkPubsubMux h' st', relay_event (length (downstream h)) out)), w') /\
    downstream h' = downstream h /\ w_inbox w' = inbox /\ w_send_faults w' = [] /\
    w_sent w' = w_sent w ++ addressed (out_sent dg (downstream h) out) /\
    relay_at hS kS kR h' st' rng rc' tr' bs' got (fun x => fl x ++ out_parcels (dg x) out) /\
    (forall q, out = Some q -> piece_of data q) /\
    (forall ps outs, emits rng rc' tr' ps outs -> emits rng rc tr (wp_piece wp :: ps) (out :: outs)).
Proof.
  intros [Hready Hsrc Hdown Hauth [la He] Hbu [all Hab] Hbs] Hg Hin Hw.
  destruct (arriving_at_recv _ _ _ _ _ _ _ _ Hsrc) as (h1 & Hr & Hsrc1 & Hat).
  pose proof (only_at_addrs _ _ _ Hat) as He1. destruct Hat as [HF1 _ _ Ho1].
  assert (Hd1 : downstream h1 = downstream h) by (unfold downstream; by rewrite He1).
  assert (Hready1 : relay_ready h1 rng) by by eapply relay_ready_frame.
  assert (Hdown1 : forall x, x ∈ downstream h1 ->
    in_flight h1 r (peer x) x (fl x) (N.of_nat (length got) + kR + 1)).
  { intros x Hx. rewrite Hd1 in Hx. pose proof Hx as [Hxs _]%elem_of_downstream.
    eapply in_flight_weaken; [eapply in_flight_frame; [by apply Hdown|done|by apply Ho1]|]. cbn [length]. lia. }
  rewrite (run_recv_relayed h h1 st seed rng w d wp inbox Hr) by (done || apply Hg).
  destruct (relay_path_step h1 st rng rc tr la bs all wp (world_received w) Hready1 Hauth He Hbu Hab Hbs Hg)
    as [[Hred ->]|(tr' & rc' & q & w1 & Hc & Ha & Hu & Hadd & Hq & Hof & Hw1 & Hw2 & Hw3 & ->)].
  - eexists h1, _, rc, tr, bs, None, (fun _ => []), (world_received w). rewrite run_pure.
    split_and!; [done|done|cbn; by rewrite Hin|done|cbn; by rewrite app_nil_r| |done|by constructor].
    split; [done|done| |done|eexists; apply lookup_insert_eq|done|by eexists|done].
    intros x Hx. cbn. rewrite app_nil_r. eapply in_flight_weaken; [by apply Hdown1|lia].
  - set (st' := put_relay _ _ _ _).
    destruct (fan_each r st' peer (retagged_frame q) (downstream h1) h1 fl (N.of_nat (length got) + kR))
      as (h2 & dg & Hrun & Hf & HF2 & He2 & Ho2); [apply NoDup_downstream|done|by apply (rr_tags _ _ Hready1)|].
    assert (Hd2 : downstream h2 = downstream h1) by (unfold downstream; by rewrite He2).
    exists h2, st', rc', tr', (bs ++ [wp_piece wp]), (Some q), dg, (worlds_to w1 (one_each dg (downstream h))).
    rewrite run_fmap_eq, Hrun, Hd1 by (by rewrite Hw3). cbn [run_bind].
    split_and!; [done|congruence| | | | |by intros q' [= <-]|intros ps outs Hem; by econstructor].
    + rewrite worlds_to_inbox, Hw1. cbn. by rewrite Hin.
    + apply worlds_to_faults. by rewrite Hw3.
    + by rewrite worlds_to_sent, Hw2.
    + split.
      * by eapply relay_ready_frame.
      * eapply arriving_at_frame; [exact Hsrc1|done|]. apply Ho2. rewrite elem_of_downstream. naive_solver.
      * intros x Hx. rewrite Hd2 in Hx. by apply Hf.
      * done.
      * eexists. apply lookup_insert_eq.
      * by econstructor.
      * eexists. by econstructor.
      * apply Forall_app_2; [done|]. constructor; [apply Hg|done].
Qed.

Lemma sent_to_out dg bs out x :
  NoDup bs -> x ∈ bs -> sent_to x (out_sent dg bs out) = match out with Some _ => [dg x] | None => [] end.
Proof. intros Hnd Hx. destruct out; [by apply sent_to_one_each|done]. Qed.

(** The relay's event loop over everything that arrives from the source. *)
Lemma relay_stream hS kS kR rng seed got : forall pieces h st rc tr bs fl w,
  relay_at hS kS kR h st rng rc tr bs got fl ->
  got.*2 = piece_frame t k b <$> pieces -> Forall (genuine auth data k c) pieces ->
  w_inbox w = delivering s got.*1 -> w_send_faults w = [] ->
  exists h' st' outs l w',
    io_run (pm_recv_n (length got) (MkPubsubMux h st) seed rng) w =
      (Returned (Ok (MkPubsubMux h' st', relay_event (length (downstream h)) <$> outs)), w') /\
    emits rng rc tr (wp_piece <$> pieces) outs /\
    w_sent w' = w_sent w ++ addressed l /\ Forall (piece_of data) (omap id outs) /\
    relay_ready h' rng /\ linked hS s h' r kS /\
    forall x, x ∈ downstream h -> length (sent_to x l) = length (omap id outs) /\
      in_flight h' r (peer x) x (fl x ++ zip (sent_to x l) (retagged_frame <$> omap id outs)) kR.
Proof.
  induction got as [|[d p] got IH]; intros pieces h st rc tr bs fl w Hra Hp Hg Hin Hw.
  { destruct pieces; [|done]. exists h, st, [], [], w. cbn [length pm_recv_n]. rewrite run_pure.
    split_and!; [done|constructor|by rewrite app_nil_r|done|apply Hra|by eapply arriving_at_linked, ra_source|].
    intros x Hx. cbn. rewrite app_nil_r. split; [done|]. apply (ra_down _ _ _ _ _ _ _ _ _ _ _ Hra x Hx). }
  destruct pieces as [|wp pieces]; [done|]. cbn in Hp. injection Hp as -> Hp.
  apply Forall_cons in Hg as [Hg1 Hg].
  destruct (relay_turn _ _ _ _ _ _ _ _ _ _ _ _ _ seed w _ Hra Hg1 Hin Hw)
    as (h1 & st1 & rc1 & tr1 & bs1 & out & dg & w1 & Hrun1 & Hd1 & Hin1 & Hw1 & Hs1 & Hra1 & Hof & Hem).
  destruct (IH pieces h1 st1 rc1 tr1 bs1 _ w1 Hra1 Hp Hg Hin1 Hw1)
    as (h' & st' & outs & l & w' & Hrun & Hems & Hs & Hofs & Hready & Hl & Hx).
  rewrite Hd1 in Hrun, Hx.
  exists h', st', (out :: outs), (out_sent dg (downstream h) out ++ l), w'. split_and!.
  - cbn [length fmap list_fmap]. by eapply run_pm_recv_n.
  - cbn [fmap list_fmap]. by apply Hem.
  - rewrite Hs, Hs1, <- app_assoc. f_equal. unfold addressed. by rewrite fmap_app.
  - destruct out as [q|]; cbn; [|done]. constructor; [by apply Hof|done].
  - done.
  - done.
  - intros x Hx0. destruct (Hx x Hx0) as [Hlen Hf]. rewrite sent_to_app, sent_to_out by
      (done || apply NoDup_downstream).
    destruct out as [q|]; cbn [out_parcels] in Hf; cbn.
    + split; [by rewrite Hlen|]. by rewrite <- app_assoc in Hf.
    + split; [done|]. by rewrite app_nil_r in Hf.
Qed.

End relay.

Section properties.
Context `{C : Crypto, RT : IoRuntime, !IoLaws RT, !CryptoLaws C, R : !Rlnc, RL : !RlncLaws,
          A : !Authenticator, AL : !AuthLaws, W : !WireAuthenticator Commitment Tag,
          WL : !WireAuthLaws W}.

(** C7: a broadcast reaches the subscribers behind a relay, over a network
    that loses datagrams.  The source [m] has the one peer [mR], which is
    registered as a relay of the topic; the relay's other peers, reached only
    through it, are the subscribers [peer x].  The source broadcasts; the
    relay receives any of its datagrams (in the order sent, or in any order
    up to 64) and for each of them reports a redundant piece, or a recoded
    one sent to every peer but the source, as [emits] says; a subscriber that
    receives any of the relay's datagrams, enough to complete its decoder,
    delivers exactly the bytes of [data].  All sessions stay usable. *)
Theorem relay_line_delivers (m mR : PubsubMux) (s r : UdpAddr) (peer : UdpAddr -> PubsubMux) (t : Topic)
    (data : OriginalData) (n : nat) (rng rngR : RngFactory RlncError) (k b : u32) (c : Commitment)
    (pieces : list (WirePiece Commitment Tag)) (w : World) (left : N) :
  let auth := ps_auth (pm_state m) in
  let len := N.of_nat (length pieces) in
  broadcast_ready m t data n rng k b c pieces w -> established_addrs (pm_host m) = [r] ->
  linked (pm_host m) s (pm_host mR) r (len + left) ->
  relaying (pm_state mR) auth t data c -> relay_ready auth t data k b c (pm_host mR) rngR ->
  (forall x, x ∈ downstream s (pm_host mR) ->
     linked (pm_host mR) r (pm_host (peer x)) x (len + left)) ->
  exists m' l w',
    io_run (broadcast m t data n rng) w = (Returned (Ok (m', c)), w') /\
    w_sent w' = w_sent w ++ addressed l /\ length (sent_to r l) = length pieces /\
    forall got seed wR,
      arrives (zip (sent_to r l) pieces) got ->
      w_inbox wR = delivering s got.*1 -> w_send_faults wR = [] ->
      exists mR' outs lR wR',
        io_run (pm_recv_n (length got) mR seed rngR) wR =
          (Returned (Ok (mR', relay_event t s (length (downstream s (pm_host mR))) <$> outs)), wR') /\
        emits rngR (rc_new (od_piece_count data) (od_piece_byte_len data))
          (ds_new (od_piece_count data) (od_piece_byte_len data)) (wp_piece <$> got.*2) outs /\
        w_sent wR' = w_sent wR ++ addressed lR /\ linked (pm_host m') s (pm_host mR') r left /\
        forall x, x ∈ downstream s (pm_host mR) ->
          length (sent_to x lR) = length (omap id outs) /\
          forall gotx i seedx rngx,
            arrives (zip (sent_to x lR) (omap id outs)) gotx ->
            subscribed (pm_state (peer x)) auth t data c ->
            pieces_needed (ds_new (od_piece_count data) (od_piece_byte_len data)) gotx.*2 = Some i ->
            exists mx, ps_decoders (pm_state mx) !! t = None /\
              linked (pm_host mR') r (pm_host mx) x left /\
              forall wx, w_inbox wx = delivering r gotx.*1 ->
                io_run (pm_recv_n (length gotx) (peer x) seedx rngx) wx =
                  (Returned (Ok (mx,
                     replicate (pred i) (PubsubAbsorbed r t) ++ PubsubDelivered r t (od_bytes data) ::
                     replicate (length gotx - i) (PmRejected r (unregistered t)))),
                   world_receiveds (length gotx) wx).
Proof.
  intros auth len Hb He Hl [Hauth [la Hent]] Hready Hdown.
  destruct (run_broadcast m s (fun _ => pm_host mR) t data n rng k b c pieces w left Hb)
    as (h' & l & w' & Hrun & Hs & _ & Hpeers & Hg).
  { rewrite He. by intros x ->%list_elem_of_singleton. }
  destruct (Hpeers r) as [Hlr Hf]; [rewrite He; by apply list_elem_of_singleton|].
  exists (MkPubsubMux h' (pm_state m)), l, w'. split_and!; [done..|].
  intros got seed wR Hgot Hin Hw. destruct mR as [hR stR]. cbn [pm_host pm_state] in *.
  destruct (arrives_parcels (piece_frame t k b) _ _ _ Hgot) as (got' & Har & G1 & G2 & G3).
  pose proof (arrives_snd _ _ _ _ Hgot Hg) as Hgg.
  assert (Hlen : length got <= length pieces).
  { apply arrives_submseteq, submseteq_length in Hgot. rewrite length_zip in Hgot. lia. }
  destruct (relay_stream auth t data k b c s r (fun x => pm_host (peer x)) h' left left rngR seed got' got.*2
    hR stR (rc_new (od_piece_count data) (od_piece_byte_len data))
    (ds_new (od_piece_count data) (od_piece_byte_len data)) [] (fun _ => []) wR)
    as (hR' & st' & outs & lR & wR' & HrunR & Hem & HsR & Hof & Hready' & Hlk & Hx); try done.
  { split; try done.
    - by eapply in_flight_arrives.
    - intros x Hx. apply linked_in_flight. eapply linked_weaken; [by apply Hdown|].
      rewrite G3. unfold len. lia.
    - by eexists.
    - constructor.
    - eexists. constructor. }
  { by rewrite G1. }
  rewrite G3 in HrunR. exists (MkPubsubMux hR' st'), outs, lR, wR'. split_and!; [done..|].
  intros x Hxd. destruct (Hx x Hxd) as [Hlx Hfx]. split; [done|]. cbn [app] in Hfx.
  intros gotx i seedx rngx Hgx Hsub Hi.
  destruct (arrives_parcels (retagged_frame auth t k b c) _ _ _ Hgx) as (got2 & Har2 & X1 & X2 & X3).
  pose proof (arrives_snd _ _ _ _ Hgx Hof) as Hofx.
  destruct (peer x) as [hx sx] eqn:Ex. cbn [pm_host pm_state] in *.
  destruct (subscriber_receives r t k b data c auth hR' hx x sx got2 (retagged auth c <$> gotx.*2) i left seedx rngx)
    as (hx' & sx' & Hlkx & Hdx & _ & Hrunx); [|rewrite X2; apply (list_fmap_compose (retagged auth c) (piece_frame t k b))| |done| |].
  { eapply in_flight_arrives; [exact Hfx|done]. }
  { apply Forall_fmap. eapply Forall_impl; [exact Hofx|]. intros q Hq. by eapply retagged_genuine. }
  { rewrite <- list_fmap_compose. erewrite (list_fmap_ext _ id), list_fmap_id; [exact Hi|].
    intros j q _. apply wp_piece_new. }
  exists (MkPubsubMux hx' sx'). cbn [pm_host pm_state]. rewrite X1, X3 in Hrunx.
  split_and!; [rewrite Hdx; apply lookup_delete_eq|done|done].
Qed.

End properties.
