(* ===== verification/PubsubWitness.v ===== *)
(** * Concrete gossip nodes

    The toy coding library, authenticator and hosts put together: each
    theorem of the gossip layer at an input where its hypotheses hold. *)

From S2P Require Export PubsubRelay RlncToy.

(** The stock newtypes, as what they wrap. *)
Definition toy_stock : StockAuth := {|
  KeyedHashCommitment := arr 32; khc_from a := a; khc_as_bytes a := a;
  KeyedHashTag := arr 32; kht_from a := a; kht_as_bytes a := a;
  LhsCommitment := arr 32; lhc_from a := a; lhc_as_bytes a := a;
  ZVec := list i64; zvec_new l := l; zvec_entries l := l;
  LhsSignature := list i64; signature_new l := l; signature_sigma l := l
|}.

Lemma toy_stock_laws : StockAuthLaws (H:=toy_stock).
Proof. by split. Qed.

Section toy.
#[local] Existing Instance direct_io.
#[local] Existing Instance direct_io_laws.
#[local] Existing Instance toy_crypto.
#[local] Existing Instance toy_crypto_laws.
#[local] Existing Instance toy_rlnc.
#[local] Existing Instance toy_rlnc_laws.
#[local] Existing Instance toy_auth.
#[local] Existing Instance toy_auth_laws.

Definition toy_wire : WireAuthenticator (arr 32) (arr 32) := keyed_hash_wire (SA:=toy_stock).
#[local] Existing Instance toy_wire.
Definition toy_wire_laws : WireAuthLaws toy_wire :=
  keyed_hash_wire_laws (SA:=toy_stock) (H:=toy_stock_laws).
#[local] Existing Instance toy_wire_laws.

Definition toy_topic : Topic := MkTopic "chat" eq_refl.
Definition toy_key : arr 32 := arr_repeat 32 x07.

(** Two pieces of one byte. *)
Definition toy_data : ToyData := MkToyData 1 [[x0a]; [x0b]] eq_refl.
Definition toy_commitment : arr 32 := toy_auth_commit toy_key toy_data.
Definition toy_tagged (p : ToyPiece) : WirePiece (arr 32) (arr 32) :=
  (toy_commitment, p, toy_auth_tag toy_key toy_commitment p).

Definition toy_k : u32 := uint_wrap 2.
Definition toy_b : u32 := uint_wrap 1.
Definition toy_body (p : ToyPiece) : list byte := pubsub_bytes toy_topic toy_k toy_b (toy_tagged p).
Definition toy_rng_ok : RngFactory string := fun _ n => Ok (replicate n x01).

Definition toy_pubsub (h : Host) : PubsubMux := pm_new h toy_key.

(** The event of a run that returned one. *)
Definition run_event {B Ev} (o : outcome Error (B * Ev) * World) : option Ev :=
  match o with (Returned (Ok (_, ev)), _) => Some ev | _ => None end.

Lemma run_event_Some {B Ev} (o : outcome Error (B * Ev) * World) ev :
  run_event o = Some ev -> exists b w, o = (Returned (Ok (b, ev)), w).
Proof. destruct o as [[[[b e]|er]|] w]; try done. intros [= ->]. by exists b, w. Qed.

Definition toy_at : UdpAddr := loopback 4001.
Definition toy_frame (p : ToyPiece) : list byte := prefix_kind KIND_PUBSUB (toy_body p).
Definition piece0 : ToyPiece := toy_systematic toy_data 0.

(** A relay for the toy generation on a host without peers. *)
Definition toy_relay_node (h : Host) : PubsubMux :=
  pm_register_relay (toy_pubsub h) toy_topic 2 1 toy_commitment.

Lemma toy_relays h :
  h = toy_host 4002 x03 x04 \/ h = toy_B ->
  exists m w, io_run (pm_process_plaintext (toy_relay_node h) toy_at (toy_frame piece0) toy_rng_ok)
    (quiet_world []) = (Returned (Ok (m, PubsubRelayed toy_at toy_topic 0)), w).
Proof. intros [-> | ->]; apply run_event_Some; vm_compute; reflexivity. Qed.

(** What [toy_client1] sends is what its server relays to the other client. *)
Definition toy_wire_datagram (h : Host) (b : UdpAddr) (p : list byte) : list byte :=
  match io_run (host_send h b p) (quiet_world []) with
  | (_, w) => default [] (snd <$> head (w_sent w))
  end.

Definition toy_inbox (h : Host) (a b : UdpAddr) (p : list byte) : World :=
  quiet_world [(socket_of_udp a, toy_wire_datagram h b p)].

Lemma toy_server_relays :
  exists m w, io_run (pm_recv_one (toy_relay_node toy_server) toy_key toy_rng_ok)
    (toy_inbox toy_client1 toy_at (loopback 4003) (toy_frame piece0)) =
    (Returned (Ok (m, PubsubRelayed toy_at toy_topic 1)), w).
Proof. apply run_event_Some. vm_compute. reflexivity. Qed.

Lemma pubsub_codec_exact_witness :
  pubsub_encode toy_topic (N.to_nat (uval toy_k)) (N.to_nat (uval toy_b)) (toy_tagged piece0) = Ok (toy_body piece0) /\
  wire_ok toy_k (toy_tagged piece0) /\ is_ok (pubsub_encode toy_topic 7 9 (toy_tagged piece0)) = true.
Proof.
  pose proof (pubsub_codec_exact (toy_body piece0)
    (MkPubsubFrame toy_topic toy_k toy_b (tp_vector piece0 ++ tp_data piece0)) (toy_tagged piece0)
    toy_topic 7 9) as [[H1 _] [_ H2]].
  destruct H1 as (He & Hw & _); [vm_compute; reflexivity|].
  cbn [pf_topic pf_piece_count pf_piece_byte_len] in He, Hw.
  split; [exact He|]. split; [exact Hw|]. apply H2. split; reflexivity.
Defined.

Lemma pubsub_invariant_witness :
  exists m, pm_run (toy_pubsub (toy_host 4002 x03 x04))
      [LRelay toy_topic; LEvent (PubsubRelayed toy_at toy_topic 0)] m /\
    host_ok (pm_host m) /\ pubsub_ok (pm_state m).
Proof.
  destruct (toy_relays (toy_host 4002 x03 x04)) as (m & w & Hr); [by left|]. exists m.
  assert (Hrun : pm_run (toy_pubsub (toy_host 4002 x03 x04))
    [LRelay toy_topic; LEvent (PubsubRelayed toy_at toy_topic 0)] m).
  { apply (pm_run_snoc _ [LRelay toy_topic] (toy_relay_node (toy_host 4002 x03 x04))).
    - apply (pm_run_snoc _ [] (toy_pubsub (toy_host 4002 x03 x04))); [constructor|apply pms_relay].
    - by eapply pms_process. }
  destruct (pubsub_invariant (A:=toy_auth) (toy_host 4002 x03 x04) toy_key _ m
    (toy_host_ok 4002 x03 x04) Hrun) as (H1 & _ & H2 & _).
  split_and!; [exact Hrun|exact H1|exact H2].
Defined.

Lemma pubsub_recv_refines_witness :
  exists (m : PubsubMux) w',
    io_run (pm_recv_one (toy_relay_node toy_server) toy_key toy_rng_ok)
      (toy_inbox toy_client1 toy_at (loopback 4003) (toy_frame piece0)) =
      (Returned (Ok (m, PubsubRelayed toy_at toy_topic 1)), w') /\
    gossip_step (pm_state (toy_relay_node toy_server)) (PubsubRelayed toy_at toy_topic 1) (pm_state m) /\
    exists d, w_sent w' = [(socket_of_udp (loopback 4002), d)].
Proof.
  destruct toy_server_relays as (m & w & Hr). exists m, w. split; [exact Hr|].
  destruct (pubsub_recv_refines _ _ _ _ _ _ _ Hr) as (H1 & _ & H2). split; [exact H1|].
  destruct (H2 toy_at toy_topic 1 eq_refl) as (ds & Hl & _ & Hs).
  assert (Hf : filter (fun a => a <> toy_at) (established_addrs (pm_host (toy_relay_node toy_server)))
    = [loopback 4002]) by (vm_compute; reflexivity).
  rewrite Hf in Hs. destruct ds as [|d [|? ?]]; [discriminate Hl| |discriminate Hl].
  exists d. exact Hs.
Defined.

Lemma relay_emits_at_most_k_witness :
  exists m', pm_run (pm_register_relay (toy_pubsub toy_B) toy_topic 2 1 toy_commitment) [LEvent (PubsubRelayed toy_at toy_topic 0)] m' /\
    relays toy_topic [LEvent (PubsubRelayed toy_at toy_topic 0)] = 1 /\
    relays toy_topic [LEvent (PubsubRelayed toy_at toy_topic 0)] <= 2 /\
    forall e, ps_recoders (pm_state m') !! toy_topic = Some e ->
      exists ps, buffered 2 1 (re_recoder e) ps /\ length ps = 1.
Proof.
  destruct (toy_relays toy_B) as (m & w & Hr); [by right|]. exists m.
  assert (Hrun : pm_run (pm_register_relay (toy_pubsub toy_B) toy_topic 2 1 toy_commitment)
    [LEvent (PubsubRelayed toy_at toy_topic 0)] m).
  { apply (pm_run_snoc _ [] (toy_relay_node toy_B)); [constructor|by eapply pms_process]. }
  destruct (relay_emits_at_most_k (A:=toy_auth) (toy_pubsub toy_B) m toy_topic 2 1 toy_commitment _ Hrun)
    as [H1 H2]; [apply not_elem_of_cons; split; [discriminate|apply not_elem_of_nil]|].
  split_and!; [exact Hrun|vm_compute; reflexivity|exact H1|].
  intros e (ps & Hb & Hl & _)%H2. exists ps. split; [exact Hb|exact Hl].
Defined.

(** A generation of one piece. *)
Definition toy_data1 : ToyData := MkToyData 1 [[x0a]] eq_refl.
Definition toy_commitment1 : arr 32 := toy_auth_commit toy_key toy_data1.
Definition toy_decoder_node (h : Host) : PubsubMux :=
  pm_register_topic (toy_pubsub h) toy_topic 1 1 toy_commitment1.
Definition toy_frame1 : list byte :=
  let p := toy_systematic toy_data1 0 in
  prefix_kind KIND_PUBSUB (pubsub_bytes toy_topic toy_b toy_b
    ((toy_commitment1, p, toy_auth_tag toy_key toy_commitment1 p) : WirePiece (arr 32) (arr 32))).

Lemma toy_delivers :
  exists m w, io_run (pm_recv_one (toy_decoder_node toy_B) toy_key toy_rng_ok)
    (toy_inbox toy_A toy_at (loopback 4002) toy_frame1) =
    (Returned (Ok (m, PubsubDelivered toy_at toy_topic [x0a])), w).
Proof. apply run_event_Some. vm_compute. reflexivity. Qed.

Lemma toy_decoder_node_ok h : pubsub_ok (pm_state (toy_decoder_node h)).
Proof.
  destruct (pm_step_change _ _ _ (pms_topic (toy_pubsub h) toy_topic 1 1 toy_commitment1)) as [_ H].
  apply (state_change_ok _ _ _ H). apply pubsub_new_ok.
Qed.

Lemma pubsub_delivers_genuine_witness :
  exists (m : PubsubMux) w',
    io_run (pm_recv_one (toy_decoder_node toy_B) toy_key toy_rng_ok)
      (toy_inbox toy_A toy_at (loopback 4002) toy_frame1) =
      (Returned (Ok (m, PubsubDelivered toy_at toy_topic [x0a])), w') /\
    exists k b d ps, absorbed k b d ps /\ Forall (verified toy_key toy_commitment1) ps /\
      ds_decode d = Ok [x0a] /\ ps_decoders (pm_state m) !! toy_topic = None.
Proof.
  destruct toy_delivers as (m & w & Hr). exists m, w. split; [exact Hr|].
  destruct (pubsub_delivers_genuine _ _ _ _ _ _ _ _ _ (toy_decoder_node_ok toy_B) Hr)
    as (e & k & b & ps & d & He & Hab & Hps & Hu & Hdec & _ & Hd & _).
  exists k, b, d, ps. split_and!; [exact Hab| |exact Hdec|rewrite Hd; apply lookup_delete_eq].
  assert (He' : ps_decoders (pm_state (toy_decoder_node toy_B)) !! toy_topic =
    Some (MkDecoderEntry (A:=toy_auth) (ds_new 1 1) toy_commitment1 (uint_wrap 1))) by apply lookup_insert_eq.
  rewrite He' in He. injection He as <-. exact Hps.
Defined.

(** A piece of the wrong dimensions, with a tag that verifies. *)
Definition toy_bad_piece : ToyPiece := MkToyPiece [x00; x00; x00] [x0a].
Definition toy_bad_wire : WirePiece (arr 32) (arr 32) :=
  (toy_commitment1, toy_bad_piece, toy_auth_tag toy_key toy_commitment1 toy_bad_piece).
Definition toy_bad_body : list byte := pubsub_bytes toy_topic (uint_wrap 3) toy_b toy_bad_wire.

Lemma decoder_lost_on_malformed_piece_witness :
  let s := pm_state (toy_decoder_node toy_B) in
  is_decoder_registered s toy_topic = true /\
    exists reason s',
    io_run (pm_process_plaintext (MkPubsubMux toy_B s) toy_at
        (prefix_kind KIND_PUBSUB toy_bad_body) toy_rng_ok) (quiet_world []) =
      (Returned (Ok (MkPubsubMux toy_B s', PmRejected toy_at reason)), quiet_world []) /\
    ps_decoders s' = delete toy_topic (ps_decoders s).
Proof.
  intros s. split; [reflexivity|].
  destruct (decoder_lost_on_malformed_piece (A:=toy_auth) toy_B s toy_at toy_bad_body
    (MkPubsubFrame toy_topic (uint_wrap 3) toy_b [x00; x00; x00; x0a]) toy_bad_wire
    (MkDecoderEntry (A:=toy_auth) (ds_new 1 1) toy_commitment1 (uint_wrap 1)) 1 1 [] toy_rng_ok (quiet_world []))
    as (reason & s' & Hr & Hd & _).
  - vm_compute. reflexivity.
  - reflexivity.
  - apply lookup_insert_eq.
  - constructor.
  - cbn [wp_tag wp_piece toy_rlnc toy_bad_wire auth_verify toy_auth fst snd]. by rewrite bool_decide_eq_true_2.
  - left. discriminate.
  - exists reason, s'. split; [exact Hr|exact Hd].
Defined.

(** ** A broadcast and its receivers *)

(** Three pieces: the two of the generation, and the first again. *)
Definition toy_pieces : list (WirePiece (arr 32) (arr 32)) := take 3 (toy_source toy_key toy_data).
Definition toy_hub : UdpAddr := loopback 4003.

(** One client of [toy_server] subscribed, the other did not. *)
Definition toy_receiver : PubsubMux :=
  pm_register_topic (toy_pubsub toy_client2) toy_topic 2 1 toy_commitment.
Definition toy_peer (x : UdpAddr) : PubsubMux :=
  if decide (x = loopback 4002) then toy_receiver else toy_pubsub toy_client1.

Lemma toy_peers_linked x k : (k < 2 ^ 64)%N ->
  x ∈ established_addrs toy_server -> linked toy_server toy_hub (pm_host (toy_peer x)) x k.
Proof.
  intros Hk Hx. assert (He : established_addrs toy_server = [loopback 4001; loopback 4002])
    by (vm_compute; reflexivity).
  rewrite He in Hx. unfold toy_peer. apply elem_of_cons in Hx as [->|Hx].
  - rewrite decide_False by done. apply linked_sym. by apply toy_linked_1.
  - apply list_elem_of_singleton in Hx as ->. rewrite decide_True by done. by apply toy_linked_2.
Qed.

Lemma toy_broadcast_ready h n ps :
  ps = take n (toy_source toy_key toy_data) ->
  Forall (fun wp : WirePiece (arr 32) (arr 32) =>
    payload_fits h (piece_frame toy_topic toy_k toy_b wp)) ps ->
  broadcast_ready (toy_pubsub h) toy_topic toy_data n toy_rng_ok toy_k toy_b toy_commitment ps (quiet_world []).
Proof.
  intros -> Hfit. split; [done|done| | |done].
  - exists (toy_source toy_key toy_data), (quiet_world []). done.
  - eapply Forall_impl; [exact Hfit|]. done.
Qed.

Lemma toy_subscribed : subscribed (pm_state toy_receiver) toy_key toy_topic toy_data toy_commitment.
Proof. split_and!; [done|done|]. eexists. apply lookup_insert_eq. Qed.

(** The subscriber misses the first of its three datagrams and gets the other
    two in the wrong order. *)
Lemma broadcast_delivers_witness :
  exists m' l w' d1 d2 d3 m2,
    io_run (broadcast (toy_pubsub toy_server) toy_topic toy_data 3 toy_rng_ok) (quiet_world []) =
      (Returned (Ok (m', toy_commitment)), w') /\
    w_sent w' = addressed l /\ length l = 6 /\ sent_to (loopback 4002) l = [d1; d2; d3] /\
    forall wx, w_inbox wx = delivering toy_hub [d3; d2] ->
      io_run (pm_recv_n 2 toy_receiver toy_key toy_rng_ok) wx =
        (Returned (Ok (m2, [PubsubAbsorbed toy_hub toy_topic;
           PubsubDelivered toy_hub toy_topic [x0a; x0b]])), world_receiveds 2 wx).
Proof.
  destruct (broadcast_delivers (A:=toy_auth) (toy_pubsub toy_server) toy_hub toy_peer toy_topic
    toy_data 3 toy_rng_ok toy_k toy_b toy_commitment toy_pieces (quiet_world []) 5)
    as (m' & l & w' & Hb & Hs & Hl & Hx).
  - apply toy_broadcast_ready; [reflexivity|]. repeat constructor; vm_compute; done.
  - intros x Hx. by apply toy_peers_linked.
  - assert (Hin : loopback 4002 ∈ established_addrs toy_server)
      by (apply elem_of_bt_keys; eexists; apply toy_server_2).
    destruct (sent_to (loopback 4002) l) as [|d1 [|d2 [|d3 [|? ?]]]] eqn:Eds;
      try (destruct (Hx (loopback 4002) [] toy_key toy_rng_ok Hin) as [H _]; rewrite Eds in H; discriminate H).
    destruct (Hx (loopback 4002) [(d3, toy_tagged (toy_systematic toy_data 2)); (d2, toy_tagged (toy_systematic toy_data 1))]
      toy_key toy_rng_ok Hin) as [_ H]. rewrite Eds in H.
    destruct H as [Hsub _]; [right; split; [cbn; lia|]|].
    + cbn. apply submseteq_cons, submseteq_swap.
    + destruct (Hsub 2 toy_subscribed eq_refl) as (m2 & _ & _ & Hrun).
      exists m', l, w', d1, d2, d3, m2. split_and!; [exact Hb|exact Hs|exact Hl|exact Eds|exact Hrun].
Defined.

(** ** A client behind a relay *)

Definition piece1 : ToyPiece := toy_systematic toy_data 1.

Lemma toy_piece_cases q : toy_piece_of toy_data q -> q = piece0 \/ q = piece1.
Proof.
  intros (i & Hi & Hv). destruct q as [v d]. cbn in Hi, Hv. subst v.
  destruct i as [|[|i]]; cbn in Hi; [injection Hi as <-; by left|injection Hi as <-; by right|].
  by destruct i.
Qed.

Lemma toy_recodes rc bs w :
  buffered 2 1 rc bs -> bs <> [] ->
  exists q w', io_run (rc_recode_one rc toy_rng_ok) w = (Returned (Ok q), w').
Proof.
  intros Hb Hne. assert (Hg : tds_got rc <> []).
  { destruct Hb as [|r ps p r' Hb Hadd]; [done|]. cbn in Hadd. destruct r as [k b got]. cbn in Hadd.
    destruct (toy_dims k b p); [|done]. by injection Hadd as <-. }
  cbn. unfold toy_recode, toy_rng. cbn.
  destruct (tds_got rc) as [|q qs]; [done|]. by eexists _, _.
Qed.

Lemma toy_relay_ready :
  relay_ready toy_key toy_topic toy_data toy_k toy_b toy_commitment toy_server toy_rng_ok.
Proof.
  split; [done|done|by intros rc bs w Hb _; apply toy_recodes|].
  intros q Hq. split_and!; [by apply bool_decide_eq_true_2 || (cbn; by rewrite bool_decide_eq_true_2)|done|].
  apply toy_piece_cases in Hq as [-> | ->]; split; vm_compute; done.
Qed.

Lemma toy_emits outs :
  emits toy_rng_ok (rc_new 2 1) (ds_new 2 1) [piece0; piece1] outs -> outs = [Some piece0; Some piece1].
Proof.
  intros H. inversion H as [|rc tr p ps outs' Hred|rc tr p ps outs' tr' rc' q w w' Hc Ha Hu Hadd Hq Hrest]; subst.
  { destruct Hred as [Hc|(tr' & Ha & Hu)]; [discriminate Hc|]. vm_compute in Ha. injection Ha as <-. discriminate Hu. }
  vm_compute in Ha, Hadd. injection Ha as <-. injection Hadd as <-. vm_compute in Hq. injection Hq as <- _.
  inversion Hrest as [|rc tr p ps outs2 Hred|rc tr p ps outs2 tr' rc' q w2 w2' Hc2 Ha Hu2 Hadd Hq Hend]; subst.
  { destruct Hred as [Hc2|(tr' & Ha & Hu2)]; [discriminate Hc2|]. vm_compute in Ha. injection Ha as <-. discriminate Hu2. }
  vm_compute in Ha, Hadd. injection Ha as <-. injection Hadd as <-. vm_compute in Hq. injection Hq as <- _.
  by inversion Hend.
Qed.

Lemma toy_client1_peers : established_addrs toy_client1 = [toy_hub].
Proof. vm_compute. reflexivity. Qed.

Lemma toy_downstream : downstream toy_at toy_server = [loopback 4002].
Proof. vm_compute. reflexivity. Qed.

(** Both pieces pass the relay, and the client behind it delivers. *)
Lemma relay_line_delivers_witness :
  exists m' l w' d1 d2,
    io_run (broadcast (toy_pubsub toy_client1) toy_topic toy_data 2 toy_rng_ok) (quiet_world []) =
      (Returned (Ok (m', toy_commitment)), w') /\ sent_to toy_hub l = [d1; d2] /\ w_sent w' = addressed l /\
    forall wR, w_inbox wR = delivering toy_at [d1; d2] -> w_send_faults wR = [] ->
      exists mR lR wR' e1 e2 mx,
        io_run (pm_recv_n 2 (toy_relay_node toy_server) toy_key toy_rng_ok) wR =
          (Returned (Ok (mR, [PubsubRelayed toy_at toy_topic 1; PubsubRelayed toy_at toy_topic 1])), wR') /\
        w_sent wR' = w_sent wR ++ addressed lR /\ sent_to (loopback 4002) lR = [e1; e2] /\
        forall wx, w_inbox wx = delivering toy_hub [e1; e2] ->
          io_run (pm_recv_n 2 toy_receiver toy_key toy_rng_ok) wx =
            (Returned (Ok (mx, [PubsubAbsorbed toy_hub toy_topic;
               PubsubDelivered toy_hub toy_topic [x0a; x0b]])), world_receiveds 2 wx).
Proof.
  destruct (relay_line_delivers (A:=toy_auth) (toy_pubsub toy_client1) (toy_relay_node toy_server)
    toy_at toy_hub toy_peer toy_topic toy_data 2 toy_rng_ok toy_rng_ok toy_k toy_b toy_commitment
    (take 2 (toy_source toy_key toy_data)) (quiet_world []) 5)
    as (m' & l & w' & Hb & Hs & Hl & Hrelay).
  - apply toy_broadcast_ready; [reflexivity|]. repeat constructor; vm_compute; done.
  - exact toy_client1_peers.
  - by apply toy_linked_1.
  - split; [reflexivity|]. eexists. apply lookup_insert_eq.
  - exact toy_relay_ready.
  - intros x Hx. cbn [toy_relay_node pm_register_relay toy_pubsub pm_new pm_host] in Hx |- *.
    apply toy_peers_linked; [done|]. by apply elem_of_downstream in Hx as [_ ?].
  - destruct (sent_to toy_hub l) as [|d1 [|d2 [|? ?]]] eqn:Eds; try discriminate Hl.
    exists m', l, w', d1, d2. split_and!; [exact Hb|exact Eds|exact Hs|]. intros wR Hin Hw.
    destruct (Hrelay _ toy_key wR (arrives_all _) Hin Hw) as (mR & outs & lR & wR' & HrunR & Hem & HsR & _ & Hx).
    apply toy_emits in Hem as ->. change (downstream toy_at (pm_host (toy_relay_node toy_server)))
      with (downstream toy_at toy_server) in HrunR, Hx. rewrite toy_downstream in HrunR, Hx.
    destruct (Hx (loopback 4002)) as [Hlx Hd]; [by apply list_elem_of_singleton|].
    destruct (sent_to (loopback 4002) lR) as [|e1 [|e2 [|? ?]]] eqn:Ees; try discriminate Hlx.
    destruct (Hd _ 2 toy_key toy_rng_ok (arrives_all _) toy_subscribed) as (mx & _ & _ & Hrunx);
      [vm_compute; reflexivity|].
    exists mR, lR, wR', e1, e2, mx. split_and!; [exact HrunR|exact HsR|exact Ees|exact Hrunx].
Defined.

End toy.
