(* ===== verification/MuxNode.v ===== *)
(** * The multi-protocol node

    Models src/crates/libp2p-cat-mux/src/{lib,event,node}.rs: one host under
    the gossip state and the Kademlia routing table, the first byte of every
    plaintext saying which protocol it belongs to.  Each protocol's own
    component does the work: the node joins it with the host, calls it with a
    wrapper that puts the kind byte on what it answers, and takes the parts
    back.  Names shared with the other nodes carry the prefix [mp], the
    events [Mp]. *)

From S2P Require Export PubsubE2E RendezvousNode KadDrive.

#[local] Open Scope string_scope.

(** [KIND_APP] and [KIND_PUBSUB] have the gossip node's values. *)
Definition KIND_KAD : byte := x02.
Definition KIND_RENDEZVOUS : byte := x03.
Definition KIND_RPC : byte := x04.
Definition MUX_KIND_APP : byte := x00.
Definition MUX_KIND_PUBSUB : byte := x01.

Inductive MultiProtocolEvent : Type :=
| MpHandshakeProgress (addr : UdpAddr)
| MpHandshakeComplete (addr : UdpAddr) (remote_static : StaticPublicKey)
    (remote_peer_id : PeerId) (remote_node_id : NodeId)
| MpAppData (addr : UdpAddr) (bytes : list byte)
| MpPubsubAbsorbed (addr : UdpAddr) (topic : Topic)
| MpPubsubDelivered (addr : UdpAddr) (topic : Topic) (data : list byte)
| MpPubsubRelayed (from : UdpAddr) (topic : Topic) (fanout_count : nat)
| MpPubsubRedundant (addr : UdpAddr) (topic : Topic)
| MpKadPingRequestReceived (from : UdpAddr)
| MpKadPingResponseReceived (from : UdpAddr)
| MpKadFindNodeRequestReceived (from : UdpAddr) (target : NodeId) (returned : nat)
| MpKadFindNodeResponseReceived (from : UdpAddr) (peers : list Peer)
| MpObserveRequestReceived (from : UdpAddr)
| MpObserveResponseReceived (from observed : UdpAddr)
| MpPunchRequestReceived (from target : UdpAddr) (forwarded : bool)
| MpPunchForwardReceived (from initiator : UdpAddr)
| MpRelayForwarded (from target : UdpAddr) (forwarded : bool) (payload_len : nat)
| MpRelayReceived (from originator : UdpAddr) (payload : list byte)
| MpRelayFailed (from peer : UdpAddr) (reason : string)
| MpRpcDatagram (peer : UdpAddr) (body : list byte)
| MpRejected (addr : UdpAddr) (reason : string).

(** ** Lifting a protocol's events *)

Definition lift_pubsub_event (ev : MuxEvent) : MultiProtocolEvent :=
  match ev with
  | AppData addr bytes => MpAppData addr bytes
  | PubsubAbsorbed addr topic => MpPubsubAbsorbed addr topic
  | PubsubDelivered addr topic data => MpPubsubDelivered addr topic data
  | PubsubRedundant addr topic => MpPubsubRedundant addr topic
  | PubsubRelayed from topic fanout_count => MpPubsubRelayed from topic fanout_count
  | PmHandshakeProgress addr =>
      MpRejected addr "pubsub HandshakeProgress surfaced inside dispatch_pubsub (unexpected)"
  | PmHandshakeComplete addr _ _ =>
      MpRejected addr "pubsub HandshakeComplete surfaced inside dispatch_pubsub (unexpected)"
  | PmRejected addr reason => MpRejected addr reason
  end.

Definition lift_kad_event (ev : KadEvent) : MultiProtocolEvent :=
  match ev with
  | PingRequestReceived from => MpKadPingRequestReceived from
  | PingResponseReceived from => MpKadPingResponseReceived from
  | FindNodeRequestReceived from target returned => MpKadFindNodeRequestReceived from target returned
  | FindNodeResponseReceived from peers => MpKadFindNodeResponseReceived from peers
  | KadRejected addr reason => MpRejected addr reason
  | KadHandshakeProgress addr =>
      MpRejected addr "kad HandshakeProgress surfaced inside dispatch_kad (unreachable)"
  | KadHandshakeComplete addr _ _ _ =>
      MpRejected addr "kad HandshakeComplete surfaced inside dispatch_kad (unreachable)"
  end.

Definition lift_rendezvous_event (ev : RendezvousEvent) : MultiProtocolEvent :=
  match ev with
  | ObserveRequestReceived from => MpObserveRequestReceived from
  | ObserveResponseReceived from observed => MpObserveResponseReceived from observed
  | PunchRequestReceived from target forwarded => MpPunchRequestReceived from target forwarded
  | PunchForwardReceived from initiator => MpPunchForwardReceived from initiator
  | RelayForwarded from target forwarded payload_len => MpRelayForwarded from target forwarded payload_len
  | RelayReceived from originator payload => MpRelayReceived from originator payload
  | RelayFailed from peer reason => MpRelayFailed from peer reason
  | RvRejected addr reason => MpRejected addr reason
  | RvHandshakeProgress addr =>
      MpRejected addr
        "rendezvous HandshakeProgress surfaced inside dispatch_rendezvous (unreachable)"
  | RvHandshakeComplete addr _ _ =>
      MpRejected addr
        "rendezvous HandshakeComplete surfaced inside dispatch_rendezvous (unreachable)"
  end.

(** [prefix_kind], and the wrapper handed to the protocols. *)
Definition mp_prefix_kind (kind : byte) (payload : list byte) : list byte := kind :: payload.
Definition kind_wrap (kind : byte) : list byte -> list byte := fun bytes => kind :: bytes.

Section mux.
Context `{C : Crypto, RT : IoRuntime, R : !Rlnc, A : !Authenticator,
          W : !WireAuthenticator Commitment Tag}.

Record MultiProtocolNode : Type := MkMultiProtocolNode {
  mp_host : Host;
  mp_pubsub_state : PubsubState;
  mp_kad_table : RoutingTable
}.

Definition mp_new (host : Host) (auth : Auth) (k : nat) : MultiProtocolNode :=
  let self_node_id := from_peer_id (id_peer_id (host_identity host)) in
  MkMultiProtocolNode host (pubsub_state_new auth) (table_new self_node_id k).

Definition mp_peer_id (n : MultiProtocolNode) : PeerId := id_peer_id (host_identity (mp_host n)).
Definition mp_node_id (n : MultiProtocolNode) : NodeId := table_self (mp_kad_table n).
Definition mp_local_addr (n : MultiProtocolNode) : result Error UdpAddr :=
  host_local_addr (mp_host n).
Definition mp_is_established (n : MultiProtocolNode) (addr : UdpAddr) : bool :=
  is_established (mp_host n) addr.
Definition mp_commit (n : MultiProtocolNode) (original : OriginalData) : Commitment :=
  ps_commit (mp_pubsub_state n) original.

Definition mp_dial (n : MultiProtocolNode) (addr : UdpAddr) (ephemeral_seed : arr 32)
    : Io Error MultiProtocolNode :=
  let '(MkMultiProtocolNode host pubsub_state kad_table) := n in
  (fun host => MkMultiProtocolNode host pubsub_state kad_table) <$> dial host addr ephemeral_seed.

(** ** The gossip roles *)

Definition mp_register_topic (n : MultiProtocolNode) (topic : Topic)
    (piece_count piece_byte_len : nat) (commitment : Commitment) : MultiProtocolNode :=
  let '(MkMultiProtocolNode host pubsub_state kad_table) := n in
  MkMultiProtocolNode host
    (ps_register_topic pubsub_state topic piece_count piece_byte_len commitment) kad_table.
Definition mp_register_relay (n : MultiProtocolNode) (topic : Topic)
    (piece_count piece_byte_len : nat) (commitment : Commitment) : MultiProtocolNode :=
  let '(MkMultiProtocolNode host pubsub_state kad_table) := n in
  MkMultiProtocolNode host
    (ps_register_relay pubsub_state topic piece_count piece_byte_len commitment) kad_table.
Definition mp_unregister_topic (n : MultiProtocolNode) (topic : Topic) : MultiProtocolNode :=
  let '(MkMultiProtocolNode host pubsub_state kad_table) := n in
  MkMultiProtocolNode host (ps_unregister_topic pubsub_state topic) kad_table.
Definition mp_unregister_relay (n : MultiProtocolNode) (topic : Topic) : MultiProtocolNode :=
  let '(MkMultiProtocolNode host pubsub_state kad_table) := n in
  MkMultiProtocolNode host (ps_unregister_relay pubsub_state topic) kad_table.
Definition mp_evict_idle_topics (n : MultiProtocolNode) (max_idle_ticks : u64)
    : MultiProtocolNode * list Topic :=
  let '(MkMultiProtocolNode host pubsub_state kad_table) := n in
  let '(pubsub_state, evicted) := ps_evict_idle_topics pubsub_state max_idle_ticks in
  (MkMultiProtocolNode host pubsub_state kad_table, evicted).
Definition mp_evict_idle_relays (n : MultiProtocolNode) (max_idle_ticks : u64)
    : MultiProtocolNode * list Topic :=
  let '(MkMultiProtocolNode host pubsub_state kad_table) := n in
  let '(pubsub_state, evicted) := ps_evict_idle_relays pubsub_state max_idle_ticks in
  (MkMultiProtocolNode host pubsub_state kad_table, evicted).

(** ** Sending *)

Definition mp_send_app (n : MultiProtocolNode) (addr : UdpAddr) (payload : list byte)
    : Io Error MultiProtocolNode :=
  let '(MkMultiProtocolNode host pubsub_state kad_table) := n in
  let pubsub_mux := pm_join host pubsub_state in
  (fun pubsub_mux =>
     let '(host, pubsub_state) := pm_split pubsub_mux in
     MkMultiProtocolNode host pubsub_state kad_table) <$> send_app pubsub_mux addr payload.

Definition mp_broadcast (n : MultiProtocolNode) (topic : Topic) (data : OriginalData)
    (num_pieces : nat) (rng_factory : RngFactory RlncError)
    : Io Error (MultiProtocolNode * Commitment) :=
  let '(MkMultiProtocolNode host pubsub_state kad_table) := n in
  let pubsub_mux := pm_join host pubsub_state in
  (fun '(pubsub_mux, commitment) =>
     let '(host, pubsub_state) := pm_split pubsub_mux in
     (MkMultiProtocolNode host pubsub_state kad_table, commitment))
    <$> broadcast pubsub_mux topic data num_pieces rng_factory.

Definition send_with_kind (host : Host) (addr : UdpAddr) (kind : byte) (body : list byte)
    : Io Error Host :=
  let plaintext := mp_prefix_kind kind body in
  host_send host addr plaintext.

Definition send_kad_frame (n : MultiProtocolNode) (peer : UdpAddr) (frame : KadFrame)
    : Io Error MultiProtocolNode :=
  let '(MkMultiProtocolNode host pubsub_state kad_table) := n in
  body ← io_result (kad_encode frame);
  (fun host => MkMultiProtocolNode host pubsub_state kad_table)
    <$> send_with_kind host peer KIND_KAD body.

Definition mp_kad_ping (n : MultiProtocolNode) (peer : UdpAddr) : Io Error MultiProtocolNode :=
  send_kad_frame n peer PingReq.
Definition kad_find_node (n : MultiProtocolNode) (peer : UdpAddr) (target : NodeId)
    : Io Error MultiProtocolNode :=
  send_kad_frame n peer (FindNodeReq target).

Definition send_rpc (n : MultiProtocolNode) (peer : UdpAddr) (body : list byte)
    : Io Error MultiProtocolNode :=
  let '(MkMultiProtocolNode host pubsub_state kad_table) := n in
  let plaintext := mp_prefix_kind KIND_RPC body in
  (fun host => MkMultiProtocolNode host pubsub_state kad_table) <$> host_send host peer plaintext.

Definition send_rendezvous_frame (n : MultiProtocolNode) (peer : UdpAddr) (frame : RvFrame)
    : Io Error MultiProtocolNode :=
  let '(MkMultiProtocolNode host pubsub_state kad_table) := n in
  body ← io_result (rv_encode frame);
  (fun host => MkMultiProtocolNode host pubsub_state kad_table)
    <$> send_with_kind host peer KIND_RENDEZVOUS body.

Definition mp_send_observe_req (n : MultiProtocolNode) (server : UdpAddr)
    : Io Error MultiProtocolNode :=
  send_rendezvous_frame n server ObserveReq.
Definition send_punch_req (n : MultiProtocolNode) (server target : UdpAddr)
    : Io Error MultiProtocolNode :=
  send_rendezvous_frame n server (PunchReq target).

(** ** Receiving *)

Definition mp_dispatch_pubsub (host : Host) (pubsub_state : PubsubState) (kad_table : RoutingTable)
    (addr : UdpAddr) (plaintext : list byte) (relay_rng : RngFactory RlncError)
    : Io Error (MultiProtocolNode * MultiProtocolEvent) :=
  let pubsub_mux := pm_join host pubsub_state in
  (fun '(pubsub_mux, ev) =>
     let '(host, pubsub_state) := pm_split pubsub_mux in
     let node := MkMultiProtocolNode host pubsub_state kad_table in
     (node, lift_pubsub_event ev)) <$> pm_process_plaintext pubsub_mux addr plaintext relay_rng.

Definition dispatch_kad (host : Host) (pubsub_state : PubsubState) (kad_table : RoutingTable)
    (addr : UdpAddr) (body : list byte) : Io Error (MultiProtocolNode * MultiProtocolEvent) :=
  let kad_node := kad_join host kad_table in
  (fun '(kad_node, ev) =>
     let '(host, kad_table) := kad_split kad_node in
     let node := MkMultiProtocolNode host pubsub_state kad_table in
     (node, lift_kad_event ev))
    <$> process_plaintext_with_wrap kad_node addr body (kind_wrap KIND_KAD).

Definition dispatch_rendezvous (host : Host) (pubsub_state : PubsubState)
    (kad_table : RoutingTable) (addr : UdpAddr) (body : list byte)
    : Io Error (MultiProtocolNode * MultiProtocolEvent) :=
  let rendezvous_node := rv_new host in
  (fun '(rendezvous_node, ev) =>
     let '(host, _) := rv_split rendezvous_node in
     let node := MkMultiProtocolNode host pubsub_state kad_table in
     (node, lift_rendezvous_event ev))
    <$> rv_process_plaintext_with_wrap rendezvous_node addr body (kind_wrap KIND_RENDEZVOUS).

Definition mp_dispatch_plaintext (host : Host) (pubsub_state : PubsubState)
    (kad_table : RoutingTable) (addr : UdpAddr) (plaintext : list byte)
    (relay_rng : RngFactory RlncError) : Io Error (MultiProtocolNode * MultiProtocolEvent) :=
  let kind := head plaintext in
  if bool_decide (kind = Some MUX_KIND_APP) || bool_decide (kind = Some MUX_KIND_PUBSUB) then
    mp_dispatch_pubsub host pubsub_state kad_table addr plaintext relay_rng
  else if bool_decide (kind = Some KIND_KAD) then
    let body := default [] (get_from 1 plaintext) in
    dispatch_kad host pubsub_state kad_table addr body
  else if bool_decide (kind = Some KIND_RENDEZVOUS) then
    let body := default [] (get_from 1 plaintext) in
    dispatch_rendezvous host pubsub_state kad_table addr body
  else if bool_decide (kind = Some KIND_RPC) then
    let body := default [] (get_from 1 plaintext) in
    io_pure (MkMultiProtocolNode host pubsub_state kad_table, MpRpcDatagram addr body)
  else if bool_decide (kind = None) then
    io_pure (MkMultiProtocolNode host pubsub_state kad_table,
             MpRejected addr "datagram plaintext was empty (no kind byte)")
  else
    let unknown := default x00 kind in
    io_pure (MkMultiProtocolNode host pubsub_state kad_table,
             MpRejected addr ("unknown plaintext kind byte 0x" ++ hex02 unknown)).

Definition mp_handle_host_event (host : Host) (pubsub_state : PubsubState)
    (kad_table : RoutingTable) (event : HostEvent) (relay_rng : RngFactory RlncError)
    : Io Error (MultiProtocolNode * MultiProtocolEvent) :=
  match event with
  | HandshakeProgress addr =>
      io_pure (MkMultiProtocolNode host pubsub_state kad_table, MpHandshakeProgress addr)
  | HandshakeComplete addr remote_static remote_peer_id =>
      let remote_node_id := from_peer_id remote_peer_id in
      let '(kad_table, _) := table_insert kad_table remote_node_id addr in
      io_pure (MkMultiProtocolNode host pubsub_state kad_table,
               MpHandshakeComplete addr remote_static remote_peer_id remote_node_id)
  | Rejected addr reason =>
      io_pure (MkMultiProtocolNode host pubsub_state kad_table, MpRejected addr reason)
  | DatagramDelivered addr plaintext =>
      mp_dispatch_plaintext host pubsub_state kad_table addr plaintext relay_rng
  end.

Definition mp_recv_one (n : MultiProtocolNode) (ephemeral_seed : arr 32)
    (relay_rng : RngFactory RlncError) : Io Error (MultiProtocolNode * MultiProtocolEvent) :=
  let '(MkMultiProtocolNode host pubsub_state kad_table) := n in
  '(host, host_event) ← recv_one host ephemeral_seed;
  mp_handle_host_event host pubsub_state kad_table host_event relay_rng.

End mux.

#[local] Close Scope string_scope.
