(* ===== verification/MuxLookup.v ===== *)
(** * Lookups on the multi-protocol node

    Models [MultiProtocolNode::lookup_node] and the driver below it in
    src/crates/libp2p-cat-mux/src/node.rs: the loop of the Kademlia node over
    the multi-protocol node's own sends and receives.  Traffic of the other
    protocols that arrives meanwhile is handled and its events dropped. *)

From S2P Require Export MuxNode.

Section drive.
Context `{C : Crypto, RT : IoRuntime, R : !Rlnc, A : !Authenticator,
          W : !WireAuthenticator Commitment Tag}.

Fixpoint mp_round_actions (node : MultiProtocolNode) (seed_factory : SeedFactory)
    (to_act : list Peer) : Io Error (list (NodeId * RoundAction)) :=
  match to_act with
  | [] => io_pure []
  | (id, addr) :: to_act' =>
      action ←
        (if is_established (mp_host node) addr then io_pure (ActQuery addr)
         else seed ← next_seed seed_factory; io_pure (ActDial addr seed));
      actions ← mp_round_actions node seed_factory to_act';
      io_pure ((id, action) :: actions)
  end.

(** The lookup's marks for the actions ([mark_action], the source's fold). *)

Definition mp_send_action (target : NodeId) (acc : Io Error MultiProtocolNode)
    (a : NodeId * RoundAction) : Io Error MultiProtocolNode :=
  n ← acc;
  match a.2 with
  | ActQuery addr => kad_find_node n addr target
  | ActDial addr seed => mp_dial n addr seed
  end.

Definition absorb_lookup_event (lookup : Lookup) (ev : MultiProtocolEvent) : Lookup :=
  match ev with
  | MpKadFindNodeResponseReceived from peers => (record_response lookup from peers).1
  | MpHandshakeComplete addr _ _ _ =>
      if is_pending_dial lookup addr then complete_dial lookup addr else lookup
  | MpHandshakeProgress _ | MpAppData _ _ | MpPubsubAbsorbed _ _ | MpPubsubDelivered _ _ _
  | MpPubsubRelayed _ _ _ | MpPubsubRedundant _ _ | MpKadPingRequestReceived _
  | MpKadPingResponseReceived _ | MpKadFindNodeRequestReceived _ _ _ | MpObserveRequestReceived _
  | MpObserveResponseReceived _ _ | MpPunchRequestReceived _ _ _ | MpPunchForwardReceived _ _
  | MpRelayForwarded _ _ _ _ | MpRelayReceived _ _ _ | MpRelayFailed _ _ _ | MpRpcDatagram _ _
  | MpRejected _ _ => lookup
  end.

Fixpoint drain_lookup_responses (node : MultiProtocolNode) (lookup : Lookup)
    (seed_factory : SeedFactory) (budget : nat) : Io Error (MultiProtocolNode * Lookup) :=
  match budget with
  | 0 => io_pure (node, lookup)
  | S budget' =>
      if negb (has_pending lookup) then io_pure (node, lookup)
      else
        seed ← next_seed seed_factory;
        '(node, ev) ← mp_recv_one node seed unused_relay_rng;
        let next_lookup := absorb_lookup_event lookup ev in
        drain_lookup_responses node next_lookup seed_factory budget'
  end.

(** [drive_lookup_rounds] and [drive_lookup_round_pick]. *)
Fixpoint drive_lookup_rounds (node : MultiProtocolNode) (lookup : Lookup)
    (seed_factory : SeedFactory) (rounds_left : nat) : Io Error (MultiProtocolNode * Lookup) :=
  match rounds_left with
  | 0 => io_pure (node, lookup)
  | S rounds_left' =>
      if is_done lookup then io_pure (node, lookup)
      else
        let to_act := pick_next_alpha lookup in
        match to_act with
        | [] => io_pure (node, lookup)
        | _ =>
            actions ← mp_round_actions node seed_factory to_act;
            let lookup_after_marks := foldl mark_action lookup actions in
            let target := lk_target lookup_after_marks in
            let send_chain := foldl (mp_send_action target) (io_pure node) actions in
            node ← send_chain;
            let budget := lc_max_recv_per_round (lk_config lookup_after_marks) in
            '(node, lookup_after_drain) ←
              drain_lookup_responses node lookup_after_marks seed_factory budget;
            let lookup := skip_pending_dials (skip_pending_queries lookup_after_drain) in
            drive_lookup_rounds node lookup seed_factory rounds_left'
        end
  end.

Definition mp_lookup_node (n : MultiProtocolNode) (target : NodeId) (config : LookupConfig)
    (seed_factory : SeedFactory) : Io Error (MultiProtocolNode * list Peer) :=
  let self_id := mp_node_id n in
  let initial := closest_to (mp_kad_table n) target (lc_k config) in
  let lookup := lookup_new self_id target config initial in
  (fun '(node, lookup) => (node, top_k_results lookup))
    <$> drive_lookup_rounds n lookup seed_factory (lc_max_rounds config).

(** The peers an event tells a lookup of. *)
Definition mux_names (ev : MultiProtocolEvent) : list Peer :=
  match ev with MpKadFindNodeResponseReceived _ peers => peers | _ => [] end.

#[export] Instance mux_driver : LookupDriver MultiProtocolNode MultiProtocolEvent := {|
  ld_host := mp_host;
  ld_find_node := kad_find_node;
  ld_dial := mp_dial;
  ld_recv n seed := mp_recv_one n seed unused_relay_rng;
  ld_observe := absorb_lookup_event;
  ld_peers := mux_names
|}.

Lemma drive_lookup_rounds_eq n l f rounds : drive_lookup_rounds n l f rounds = ld_drive n l f rounds.
Proof. reflexivity. Qed.

End drive.
