(* ===== verification/MuxSpec.v ===== *)
(** * What the multi-protocol node adds to its protocols

    [dispatch_kind] says, kind byte by kind byte, which protocol's state a
    delivered plaintext may touch and how, and which event it is reported by;
    every operation keeps the
    invariants of the host, the gossip state and the routing table at once,
    and a lookup costs what the Kademlia node's does. *)

From S2P Require Export MuxLookup.

Section spec.
Context `{C : Crypto, RT : IoRuntime, R : !Rlnc, A : !Authenticator,
          W : !WireAuthenticator Commitment Tag}.

(** The two stateful protocols' own nodes, as the source reconstitutes them. *)
Definition pubsub_view (n : MultiProtocolNode) : PubsubMux := MkPubsubMux (mp_host n) (mp_pubsub_state n).
Definition kad_view (n : MultiProtocolNode) : KademliaNode := MkKademliaNode (mp_host n) (mp_kad_table n).

(** A delivered plaintext [p] from [a] leads from gossip state [s], table
    [t] and host [h] to node [n'], reporting [ev]: each protocol's event is
    the one its own frame calls for. *)
Definition dispatch_kind (h : Host) (s : PubsubState) (t : RoutingTable) (a : UdpAddr)
    (p : list byte) (n' : MultiProtocolNode) (ev : MultiProtocolEvent) : Prop :=
  match p with
  | x00 :: bytes => n' = MkMultiProtocolNode h s t /\ ev = MpAppData a bytes
  | x01 :: body =>
      mp_kad_table n' = t /\ gossip_step s (gossip_event h s a body) (mp_pubsub_state n') /\
      ev = lift_pubsub_event (gossip_event h s a body)
  | x02 :: body =>
      mp_pubsub_state n' = s /\
      exists kev, ev = lift_kad_event kev /\ mp_kad_table n' = table_after (mp_host n') t kev /\
        match kad_decode body with
        | Ok f => kev = frame_event (learn_sender h t a) a f
        | Err e => kev = KadRejected a ("kad decode failed: " ++ error_display e)%string
        end
  | x03 :: body =>
      mp_pubsub_state n' = s /\ mp_kad_table n' = t /\ ev = lift_rendezvous_event (rv_event h a body)
  | x04 :: body => n' = MkMultiProtocolNode h s t /\ ev = MpRpcDatagram a body
  | [] => n' = MkMultiProtocolNode h s t /\ ev = MpRejected a "datagram plaintext was empty (no kind byte)"
  | k :: _ =>
      n' = MkMultiProtocolNode h s t /\
      ev = MpRejected a ("unknown plaintext kind byte 0x" ++ hex02 k)%string
  end.

(** What the host's event leads to. *)
Definition mux_change (h : Host) (s : PubsubState) (t : RoutingTable) (hev : HostEvent)
    (n' : MultiProtocolNode) (ev : MultiProtocolEvent) : Prop :=
  match hev with
  | HandshakeProgress a => n' = MkMultiProtocolNode h s t /\ ev = MpHandshakeProgress a
  | HandshakeComplete a rs pid =>
      n' = MkMultiProtocolNode h s (table_insert t (from_peer_id pid) a).1 /\
      ev = MpHandshakeComplete a rs pid (from_peer_id pid)
  | Rejected a r => n' = MkMultiProtocolNode h s t /\ ev = MpRejected a r
  | DatagramDelivered a p => dispatch_kind h s t a p n' ev
  end.

(** The protocols whose frames may be answered or passed on. *)
Definition may_answer (hev : HostEvent) : Prop :=
  match hev with
  | DatagramDelivered _ (x01 :: _ | x02 :: _ | x03 :: _) => True
  | _ => False
  end.

Context `{!IoLaws RT}.

(** ** The dispatch, kind by kind *)

(** The kinds, as a case analysis of the first byte. *)
Lemma mp_dispatch_cases h s t a p rng :
  mp_dispatch_plaintext h s t a p rng =
    match p with
    | x00 :: _ | x01 :: _ => mp_dispatch_pubsub h s t a p rng
    | x02 :: body => dispatch_kad h s t a body
    | x03 :: body => dispatch_rendezvous h s t a body
    | x04 :: body => io_pure (MkMultiProtocolNode h s t, MpRpcDatagram a body)
    | [] => io_pure (MkMultiProtocolNode h s t,
        MpRejected a "datagram plaintext was empty (no kind byte)")
    | k :: _ => io_pure (MkMultiProtocolNode h s t,
        MpRejected a ("unknown plaintext kind byte 0x" ++ hex02 k)%string)
    end.
Proof.
  destruct p as [|k body]; [done|]. unfold mp_dispatch_plaintext. cbn [head].
  rewrite get_from_unwrap_or. cbn [skipn]. rewrite drop_0. by destruct k.
Qed.

Lemma pm_dispatch_app h s a bytes rng :
  pm_process_plaintext (pm_join h s) a (x00 :: bytes) rng = io_pure (MkPubsubMux h s, AppData a bytes).
Proof.
  cbn [pm_process_plaintext pm_join]. unfold pm_dispatch_plaintext. cbn [head].
  rewrite bool_decide_eq_true_2 by done. by rewrite get_from_unwrap_or, skipn_cons, drop_0.
Qed.

Lemma lift_dispatch_post h s t a body rng :
  io_post (mp_dispatch_pubsub h s t a (x01 :: body) rng) (fun '(n', ev) =>
    rtc host_step h (mp_host n') /\ dispatch_kind h s t a (x01 :: body) n' ev).
Proof.
  intros w [n' ev] w'. unfold mp_dispatch_pubsub. rewrite run_fmap_eq.
  intros ([m pev] & w1 & Hr & [= <- <- _])%run_bind_Ok.
  pose proof (pm_dispatch_spec _ _ _ _ _ _ _ _ Hr) as (Hg & Hh & _).
  cbn [pm_process_plaintext pm_join] in Hr.
  change (x01 :: body) with (prefix_kind KIND_PUBSUB body) in Hr. rewrite dispatch_pubsub in Hr.
  apply handle_body_event in Hr. cbn [fst snd] in *. subst pev. by split_and!.
Qed.

Lemma dispatch_kad_post h s t a body :
  io_post (dispatch_kad h s t a body) (fun '(n', ev) =>
    kad_keeps (MkKademliaNode h t) (kad_view n') /\ dispatch_kind h s t a (x02 :: body) n' ev).
Proof.
  unfold dispatch_kad. eapply io_post_fmap; [apply process_post|].
  intros [k kev] (Hk & _ & Ht & Hev). cbn. destruct k as [h' t']. split; [exact Hk|].
  split; [done|]. by exists kev.
Qed.

Lemma dispatch_rendezvous_post h s t a body :
  io_post (dispatch_rendezvous h s t a body) (fun '(n', ev) =>
    rtc host_step h (mp_host n') /\ dispatch_kind h s t a (x03 :: body) n' ev).
Proof.
  unfold dispatch_rendezvous. eapply io_post_fmap; [apply rv_process_post|].
  intros [rn rev] [Hr ->]. by split_and!.
Qed.

(** ** What every operation keeps *)

Context `{RL : !RlncLaws}.

Definition mux_ok (n : MultiProtocolNode) : Prop :=
  kad_ok (kad_view n) /\ pubsub_ok (mp_pubsub_state n).

Definition mux_keeps (n n' : MultiProtocolNode) : Prop :=
  kad_keeps (kad_view n) (kad_view n') /\
  (pubsub_ok (mp_pubsub_state n) -> pubsub_ok (mp_pubsub_state n')) /\
  ps_auth (mp_pubsub_state n') = ps_auth (mp_pubsub_state n).

Lemma mux_keeps_refl n : mux_keeps n n.
Proof. split_and!; [apply kad_keeps_refl|done|done]. Qed.

Lemma mux_keeps_trans n1 n2 n3 : mux_keeps n1 n2 -> mux_keeps n2 n3 -> mux_keeps n1 n3.
Proof.
  intros (K1 & P1 & A1) (K2 & P2 & A2). split_and!; [by eapply kad_keeps_trans|auto|congruence].
Qed.

Lemma kad_keeps_hosts h h' t :
  rtc host_step h h' -> kad_keeps (MkKademliaNode h t) (MkKademliaNode h' t).
Proof.
  induction 1 as [h|h1 h2 h3 Hs _ IH]; [apply kad_keeps_refl|].
  eapply kad_keeps_trans; [by apply kad_keeps_host|exact IH].
Qed.

Lemma mux_keeps_hosts h h' s t :
  rtc host_step h h' -> mux_keeps (MkMultiProtocolNode h s t) (MkMultiProtocolNode h' s t).
Proof. intros Hr. split_and!; [by apply kad_keeps_hosts|done|done]. Qed.

(** A change of the gossip state by one of its machine's labels. *)
Lemma mux_keeps_pubsub h h' s s' t l :
  rtc host_step h h' -> state_change l s s' ->
  mux_keeps (MkMultiProtocolNode h s t) (MkMultiProtocolNode h' s' t).
Proof.
  intros Hr Hs. split_and!; [by apply kad_keeps_hosts| |].
  - intros Hok. by apply (state_change_ok _ _ _ Hs).
  - destruct l as [ev|t'|]; cbn in Hs.
    + by destruct Hs.
    + destruct Hs as (k & b & c & ->). by destruct s.
    + by destruct Hs.
Qed.

(** An operation of the gossip node, lifted. *)
Lemma mux_keeps_pm_step h s t m l :
  pm_step (MkPubsubMux h s) l m ->
  mux_keeps (MkMultiProtocolNode h s t) (MkMultiProtocolNode (pm_host m) (pm_state m) t).
Proof. intros [Hh Hs]%pm_step_change. by eapply mux_keeps_pubsub. Qed.

Lemma mp_host_post {B} h s t (m : Io Error Host) (f : Host -> B) (P : B -> Prop) :
  io_post m (host_step h) ->
  (forall h', mux_keeps (MkMultiProtocolNode h s t) (MkMultiProtocolNode h' s t) -> P (f h')) ->
  io_post (f <$> m) P.
Proof.
  intros Hm HP. eapply io_post_fmap; [exact Hm|]. intros h' Hs.
  by apply HP, mux_keeps_hosts, rtc_once.
Qed.

Lemma mp_dial_post n a s : io_post (mp_dial n a s) (mux_keeps n).
Proof. destruct n as [h ps t]. eapply mp_host_post; [apply dial_post|done]. Qed.

Lemma send_rpc_post n a body : io_post (send_rpc n a body) (mux_keeps n).
Proof. destruct n as [h ps t]. eapply mp_host_post; [apply send_post|done]. Qed.

Lemma send_kad_frame_post n a f : io_post (send_kad_frame n a f) (mux_keeps n).
Proof.
  destruct n as [h ps t]. eapply (io_post_bind _ _ (fun _ => True)); [by apply io_post_result|].
  intros body _. eapply mp_host_post; [apply send_post|done].
Qed.

Lemma send_rendezvous_frame_post n a f : io_post (send_rendezvous_frame n a f) (mux_keeps n).
Proof.
  destruct n as [h ps t]. eapply (io_post_bind _ _ (fun _ => True)); [by apply io_post_result|].
  intros body _. eapply mp_host_post; [apply send_post|done].
Qed.

Lemma mp_dispatch_post h s t a p rng :
  io_post (mp_dispatch_plaintext h s t a p rng) (fun '(n', ev) =>
    mux_keeps (MkMultiProtocolNode h s t) n' /\ dispatch_kind h s t a p n' ev).
Proof.
  rewrite mp_dispatch_cases. destruct p as [|k body].
  { apply io_post_pure. split; [apply mux_keeps_refl|]. cbn. eauto. }
  destruct k; try (apply io_post_pure; split; [apply mux_keeps_refl|cbn; by eauto]).
  - intros w [n' ev] w' Hr. unfold mp_dispatch_pubsub in Hr. rewrite pm_dispatch_app, run_fmap_eq, run_pure in Hr.
    cbn in Hr. injection Hr as <- <- _. split; [apply mux_keeps_refl|done].
  - eapply io_post_weaken; [apply lift_dispatch_post|].
    intros [n' ev] [Hh Hd]. split; [|exact Hd]. destruct Hd as (Ht & Hg & _). destruct n' as [h' s' t'].
    cbn in *. subst t'. by apply (mux_keeps_pubsub h h' s s' t (LEvent (gossip_event h s a body))).
  - eapply io_post_weaken; [apply dispatch_kad_post|].
    intros [n' ev] [Hk Hd]. split; [|exact Hd]. destruct Hd as [Hs _]. split_and!; [exact Hk| |];
      cbn; by rewrite Hs.
  - eapply io_post_weaken; [apply dispatch_rendezvous_post|].
    intros [n' ev] [Hh Hd]. split; [|exact Hd]. destruct Hd as (Hs & Ht & _). destruct n' as [h' s' t'].
    cbn in *. subst s' t'. by apply mux_keeps_hosts.
Qed.

(** What the protocols do with the host's event, the other protocols' events
    costing no datagram. *)
Lemma mp_handle_post h s t hev rng :
  io_post (mp_handle_host_event h s t hev rng) (fun '(n', ev) =>
    mux_keeps (MkMultiProtocolNode h s t) n' /\ mux_change h s t hev n' ev).
Proof.
  destruct hev as [a|a rs pid|a p|a r]; cbn [mp_handle_host_event].
  - apply io_post_pure. split; [apply mux_keeps_refl|done].
  - destruct (table_insert t (from_peer_id pid) a) as [t' o] eqn:Et. apply io_post_pure.
    pose proof (kad_keeps_insert h t (from_peer_id pid) a) as Hi. rewrite Et in Hi.
    split; [split_and!; [exact Hi|done|done]|]. cbn. by rewrite Et.
  - apply mp_dispatch_post.
  - apply io_post_pure. split; [apply mux_keeps_refl|done].
Qed.

Lemma mp_handle_quiet h s t hev rng w r w' :
  ~ may_answer hev -> io_run (mp_handle_host_event h s t hev rng) w = (Returned (Ok r), w') -> w' = w.
Proof.
  intros Hq. destruct hev as [a|a rs pid|a p|a x]; cbn [mp_handle_host_event].
  1, 4: rewrite run_pure; congruence.
  { destruct (table_insert _ _ _). rewrite run_pure. congruence. }
  rewrite mp_dispatch_cases. destruct p as [|k body]; [rewrite run_pure; congruence|].
  destruct k; try (rewrite run_pure; congruence); try by destruct Hq.
  unfold mp_dispatch_pubsub. rewrite pm_dispatch_app, run_fmap_eq, run_pure. cbn. congruence.
Qed.

(** One receive: the host's step on the oldest datagram, then what the
    protocols do with its event. *)
Lemma mp_recv_sound n seed rng w n' ev w' :
  io_run (mp_recv_one n seed rng) w = (Returned (Ok (n', ev)), w') ->
  exists from d inbox h1 hev reply w1,
    w_inbox w = Ok (socket_of_udp from, d) :: inbox /\
    recv_step (mp_host n) from (take (N.to_nat (recv_buf_size (host_socket (mp_host n)))) d) seed h1 hev reply /\
    w1 = world_reply (world_received w) from reply /\
    io_run (recv_one (mp_host n) seed) w = (Returned (Ok (h1, hev)), w1) /\
    io_run (mp_handle_host_event h1 (mp_pubsub_state n) (mp_kad_table n) hev rng) w1 =
      (Returned (Ok (n', ev)), w').
Proof.
  destruct n as [h s t]. unfold mp_recv_one. rewrite run_bind_eq.
  intros ([h1 hev] & w1 & Hr & Hh)%run_bind_Ok.
  destruct (recv_one_sound _ _ _ _ _ _ Hr) as (from & d & inbox & reply & Hin & Hs & Hw1).
  exists from, d, inbox, h1, hev, reply, w1. done.
Qed.

Lemma mp_recv_post n seed rng :
  io_post (mp_recv_one n seed rng) (fun '(n', _) => mux_keeps n n').
Proof.
  intros w [n' ev] w' (from & d & inbox & h1 & hev & reply & w1 & _ & _ & _ & Hr & Hh)%mp_recv_sound.
  destruct (mp_handle_post _ _ _ _ _ _ _ _ Hh) as [Hk _]. destruct n as [h s t].
  eapply mux_keeps_trans; [|exact Hk]. apply mux_keeps_hosts, rtc_once. by econstructor.
Qed.

End spec.

(** ** What a receive costs *)

Section cost.
Context `{C : Crypto, RT : IoRuntime, !IoLaws RT, R : !Rlnc, RL : !RlncLaws, A : !Authenticator,
          W : !WireAuthenticator Commitment Tag}.

Lemma io_cost_map_error {E F B} (m : Io E B) (f : E -> F) r s :
  io_cost m r s -> io_cost (io_map_error m f) r s.
Proof. intros Hm w b w' Hr%run_map_error_Ok. by eapply Hm. Qed.

Lemma send_each_cost addrs d : forall m, io_cost (send_frame_to_each addrs m d) 0 0.
Proof.
  induction addrs as [|x xs IH]; intros m w m' w'.
  - unfold send_frame_to_each. cbn. apply io_cost_pure.
  - rewrite run_send_each. intros (m1 & w1 & H1 & H2)%run_bind_Ok. apply IH in H2.
    destruct m as [h s]. apply (io_cost_fmap _ _ 0 0 (send_cost _ _ _)) in H1.
    unfold costs in *. lia.
Qed.

Lemma relay_path_cost h s a t wp rng : io_cost (relay_path h s a t wp rng) 0 1.
Proof.
  destruct s as [auth ds rs tick]. unfold relay_path.
  destruct (rs !! t) as [[rc tr c la]|]; [|apply io_cost_pure].
  destruct (auth_verify _ _ _ _); [|apply io_cost_pure].
  destruct (ds_is_complete tr); [apply io_cost_pure|].
  destruct (ds_absorb tr _) as [tr'|]; [|apply io_cost_pure].
  destruct (_ =? _)%nat; [apply io_cost_pure|].
  destruct (rc_add_piece rc _) as [rc'|]; [|apply io_cost_pure]. cbv zeta.
  apply (io_cost_bind _ _ 0 1 0 0); [apply io_cost_map_error, recode_one_once|]. intros p.
  apply (io_cost_bind _ _ 0 0 0 0); [apply io_cost_result|]. intros frame.
  apply io_cost_fmap. unfold send_frame_excluding. apply io_cost_fmap, send_each_cost.
Qed.

Lemma pm_process_cost m a p rng : io_cost (pm_process_plaintext m a p rng) 0 1.
Proof.
  destruct m as [h s]. cbn [pm_process_plaintext]. unfold pm_dispatch_plaintext.
  case_bool_decide; [apply io_cost_pure|]. case_bool_decide; [|destruct (head p); apply io_cost_pure].
  unfold handle_pubsub_body. destruct (pubsub_decode _) as [[f wp]|]; [|apply io_cost_pure].
  destruct (contains_key (ps_recoders s) _); [apply relay_path_cost|].
  destruct (contains_key (ps_decoders s) _); apply io_cost_pure.
Qed.

Lemma rv_send_frame_cost {B} h b frame wrap (f : Host -> B) :
  io_cost (bytes ← io_result (rv_encode frame); f <$> host_send h b (wrap bytes)) 0 0.
Proof.
  apply (io_cost_bind _ _ 0 0 0 0); [apply io_cost_result|]. intros bytes.
  apply io_cost_fmap, send_cost.
Qed.

Lemma rv_process_cost n a p wrap : io_cost (rv_process_plaintext_with_wrap n a p wrap) 0 0.
Proof.
  destruct n as [h]. unfold rv_process_plaintext_with_wrap, rv_handle_datagram. cbn [rv_host].
  destruct (rv_decode p) as [[|o|t|i|t pl|o pl|pr rs]|e]; try apply io_cost_pure.
  - apply rv_send_frame_cost.
  - unfold auto_forward_punch. destruct (is_established h t); [|apply io_cost_pure].
    apply rv_send_frame_cost.
  - unfold auto_send_punch. apply io_cost_fmap. intros w h' w' [_ ->]%send_raw_sound.
    unfold costs. cbn. lia.
  - unfold auto_forward_relay. destruct (is_established h t); apply rv_send_frame_cost.
Qed.

Lemma mp_recv_cost n seed rng : io_cost (mp_recv_one n seed rng) 1 1.
Proof.
  destruct n as [h s t]. unfold mp_recv_one.
  apply (io_cost_bind _ _ 1 0 0 1); [apply recv_cost|]. intros [h' ev].
  destruct ev as [a|a rs pid|a p|a r]; cbn [mp_handle_host_event]; try apply io_cost_pure.
  - destruct (table_insert t (from_peer_id pid) a). apply io_cost_pure.
  - rewrite mp_dispatch_cases. destruct p as [|k body]; [apply io_cost_pure|].
    destruct k; try apply io_cost_pure.
    1, 2: apply io_cost_fmap, pm_process_cost.
    all: apply io_cost_fmap; apply (io_cost_weaken _ 0 0); [|lia..];
      first [apply process_cost|apply rv_process_cost].
Qed.

Lemma mp_dial_cost n a s : io_cost (mp_dial n a s) 0 0.
Proof. destruct n. apply io_cost_fmap, dial_cost. Qed.

Lemma send_kad_frame_cost n a f : io_cost (send_kad_frame n a f) 0 0.
Proof.
  destruct n. apply (io_cost_bind _ _ 0 0 0 0); [apply io_cost_result|]. intros b.
  apply io_cost_fmap, send_cost.
Qed.

Lemma absorb_reach l ev : lookup_reaches l (absorb_lookup_event l ev).
Proof.
  destruct ev; cbn [absorb_lookup_event]; try apply rtc_refl.
  - destruct (is_pending_dial l addr); [|apply rtc_refl]. apply rtc_once, ls_complete.
  - apply rtc_once, ls_response.
Qed.

Lemma absorb_names l ev cs :
  lookup_ok l -> made_of l cs -> made_of (absorb_lookup_event l ev) (cs ++ mux_names ev).
Proof.
  intros Hok Hm. destruct ev; cbn [absorb_lookup_event mux_names]; rewrite ?app_nil_r; try done.
  - destruct (is_pending_dial l addr); [by apply made_of_complete|done].
  - by apply made_of_response.
Qed.

Lemma mp_dial_known n a s w :
  is_Some (host_handshakes (mp_host n) !! a) ->
  io_run (mp_dial n a s) w =
    (Returned (Err (HostState
       ("dial: address " ++ udp_addr_display a ++ " already known to host")%string)), w).
Proof.
  destruct n as [h ps t]. intros Hh. cbn [mp_dial mp_host] in *. rewrite run_fmap_eq.
  by rewrite run_dial_known.
Qed.

(** The node drives lookups like the Kademlia node, with one call of the
    relay's randomness more at most for each datagram. *)
#[export] Instance mux_driver_laws : LookupDriverLaws (D:=mux_driver).
Proof.
  refine {| ld_keeps := mux_keeps; ld_draws := 1 |}.
  - apply mux_keeps_refl.
  - apply mux_keeps_trans.
  - intros n a target. apply send_kad_frame_post.
  - apply mp_dial_post.
  - intros n s. eapply io_post_weaken; [apply mp_recv_post|]. by intros [n' ev].
  - apply absorb_reach.
  - apply absorb_names.
  - intros n a target. apply send_kad_frame_cost.
  - apply mp_dial_cost.
  - intros n s. apply mp_recv_cost.
  - apply mp_dial_known.
Defined.

End cost.
