(* ===== verification/MuxProps.v ===== *)
(** * What the multi-protocol node guarantees

    The invariant over every operation, the refinement of the dispatch by
    [dispatch_kind], the agreement with the gossip node run alone, and the
    exchanges over linked hosts: payloads, Kademlia requests, lookups. *)

From S2P Require Export MuxSpec.

Section steps.
Context `{C : Crypto, RT : IoRuntime, R : !Rlnc, A : !Authenticator,
          W : !WireAuthenticator Commitment Tag}.

(** Every operation of the node's interface that changes it. *)
Inductive mux_step (n : MultiProtocolNode) : MultiProtocolNode -> Prop :=
| mps_dial a s n' w w' : io_run (mp_dial n a s) w = (Returned (Ok n'), w') -> mux_step n n'
| mps_app a p n' w w' : io_run (mp_send_app n a p) w = (Returned (Ok n'), w') -> mux_step n n'
| mps_broadcast t data k rng n' c w w' :
    io_run (mp_broadcast n t data k rng) w = (Returned (Ok (n', c)), w') -> mux_step n n'
| mps_kad a f n' w w' : io_run (send_kad_frame n a f) w = (Returned (Ok n'), w') -> mux_step n n'
| mps_rendezvous a f n' w w' :
    io_run (send_rendezvous_frame n a f) w = (Returned (Ok n'), w') -> mux_step n n'
| mps_rpc a body n' w w' : io_run (send_rpc n a body) w = (Returned (Ok n'), w') -> mux_step n n'
| mps_topic t k b c : mux_step n (mp_register_topic n t k b c)
| mps_relay t k b c : mux_step n (mp_register_relay n t k b c)
| mps_untopic t : mux_step n (mp_unregister_topic n t)
| mps_unrelay t : mux_step n (mp_unregister_relay n t)
| mps_evict_topics k : mux_step n (mp_evict_idle_topics n k).1
| mps_evict_relays k : mux_step n (mp_evict_idle_relays n k).1
| mps_recv seed rng n' ev w w' :
    io_run (mp_recv_one n seed rng) w = (Returned (Ok (n', ev)), w') -> mux_step n n'
| mps_lookup target cfg f n' r w w' :
    io_run (mp_lookup_node n target cfg f) w = (Returned (Ok (n', r)), w') -> mux_step n n'.

Context `{!IoLaws RT, RL : !RlncLaws}.

Lemma mp_lookup_keeps n target cfg f n' r w w' :
  io_run (mp_lookup_node n target cfg f) w = (Returned (Ok (n', r)), w') -> mux_keeps n n'.
Proof.
  unfold mp_lookup_node. rewrite run_fmap_eq. intros ([n'' l] & w1 & Hd & [= <- _ _])%run_bind_Ok.
  rewrite drive_lookup_rounds_eq in Hd.
  by destruct (drive_post _ _ _ _ (lookup_new_ok _ _ _ _) _ _ _ Hd) as [? _].
Qed.

Lemma mux_step_keeps n n' : mux_step n n' -> mux_keeps n n'.
Proof.
  intros [a s n1 w w' H|a p n1 w w' H|t data k rng n1 c w w' H|a f n1 w w' H|a f n1 w w' H|a body n1 w w' H
    |t k b c|t k b c|t|t|k|k|seed rng n1 ev w w' H|target cfg f n1 r w w' H].
  - by eapply mp_dial_post.
  - destruct n as [h s t]. unfold mp_send_app in H. rewrite run_fmap_eq in H.
    apply run_bind_Ok in H as (m & w1 & H & [= <- _]).
    apply (mux_keeps_pm_step h s t m LOther). by eapply pms_app.
  - destruct n as [h s t']. unfold mp_broadcast in H. rewrite run_fmap_eq in H.
    apply run_bind_Ok in H as ([m c'] & w1 & H & [= <- _ _]).
    apply (mux_keeps_pm_step h s t' m LOther). by eapply pms_broadcast.
  - by eapply send_kad_frame_post.
  - by eapply send_rendezvous_frame_post.
  - by eapply send_rpc_post.
  - destruct n as [h s kt]. apply (mux_keeps_pm_step h s kt _ _ (pms_topic (MkPubsubMux h s) t k b c)).
  - destruct n as [h s kt]. apply (mux_keeps_pm_step h s kt _ _ (pms_relay (MkPubsubMux h s) t k b c)).
  - destruct n as [h s kt]. apply (mux_keeps_pm_step h s kt _ _ (pms_untopic (MkPubsubMux h s) t)).
  - destruct n as [h s kt]. apply (mux_keeps_pm_step h s kt _ _ (pms_unrelay (MkPubsubMux h s) t)).
  - destruct n as [h s kt]. pose proof (mux_keeps_pm_step h s kt _ _ (pms_evict_topics (MkPubsubMux h s) k)) as Hk.
    unfold pm_evict_idle_topics, mp_evict_idle_topics in *. by destruct (ps_evict_idle_topics s k).
  - destruct n as [h s kt]. pose proof (mux_keeps_pm_step h s kt _ _ (pms_evict_relays (MkPubsubMux h s) k)) as Hk.
    unfold pm_evict_idle_relays, mp_evict_idle_relays in *. by destruct (ps_evict_idle_relays s k).
  - exact (mp_recv_post _ _ _ _ _ _ H).
  - by eapply mp_lookup_keeps.
Qed.

(** ** Runs through the envelope *)

Lemma run_mp_recv n h1 seed rng a p w w1 :
  io_run (recv_one (mp_host n) seed) w = (Returned (Ok (h1, DatagramDelivered a p)), w1) ->
  io_run (mp_recv_one n seed rng) w =
    io_run (mp_dispatch_plaintext h1 (mp_pubsub_state n) (mp_kad_table n) a p rng) w1.
Proof.
  destruct n as [h s t]. cbn [mp_host]. intros Hr. unfold mp_recv_one.
  by rewrite run_bind_eq, Hr.
Qed.

(** The table, through a Kademlia frame. *)
Lemma run_dispatch_kad h s t a body w n' ev w' :
  io_run (process_plaintext_with_wrap (MkKademliaNode h t) a body (kind_wrap KIND_KAD)) w =
    (Returned (Ok (n', ev)), w') ->
  io_run (dispatch_kad h s t a body) w =
    (Returned (Ok (MkMultiProtocolNode (kn_host n') s (kn_table n'), lift_kad_event ev)), w').
Proof. intros Hr. unfold dispatch_kad, kad_join. by rewrite run_fmap_eq, Hr. Qed.

End steps.

(** ** Properties *)

Section properties.
Context `{C : Crypto, RT : IoRuntime, !IoLaws RT, R : !Rlnc, RL : !RlncLaws, A : !Authenticator,
          W : !WireAuthenticator Commitment Tag}.

(** C15: whatever is done with a multi-protocol node built on a well-formed
    host (dial, send and broadcast on any protocol, register, unregister,
    evict, receive, look up), the invariants of all its parts hold together:
    the host and the routing table are well formed, the table is keyed to
    the PeerId the host proves, every decoder and relay is made of verified
    pieces; and socket, identity, capacity, authenticator and [k] never
    change. *)
Theorem mux_invariant (host : Host) (auth : Auth) (k : nat) (n : MultiProtocolNode) :
  host_ok host -> rtc mux_step (mp_new host auth k) n ->
  kad_ok (kad_view n) /\ pubsub_ok (mp_pubsub_state n) /\ host_frame host (mp_host n) /\
  ps_auth (mp_pubsub_state n) = auth /\ table_k (mp_kad_table n) = k /\
  mp_node_id n = from_peer_id (id_peer_id (host_identity host)).
Proof.
  intros Hok Hr. assert (Hk : mux_keeps (mp_new host auth k) n).
  { induction Hr as [|n1 n2 n3 Hs _ IH]; [apply mux_keeps_refl|].
    eapply mux_keeps_trans; [by apply mux_step_keeps|exact IH]. }
  destruct Hk as ([Hk (F1 & F2 & F3)] & Hp & Ha). split_and!; try done.
  - by apply Hk, (kad_new_ok host k).
  - apply Hp, pubsub_new_ok.
Qed.

(** C14: one [recv_one] of the multi-protocol node takes the oldest datagram
    of the inbox, steps the host on it, and then takes the step of the protocol
    that the first byte of the delivered plaintext names, and of no other.  An
    application or RPC plaintext is handed out without its first byte; a
    gossip body is a step of the gossip machine with the event its frame calls
    for, the routing table untouched; a Kademlia body updates the table as its
    frame's event says, the gossip state untouched; a rendezvous body touches
    neither and is reported as its frame says; an empty plaintext and any other
    first byte are rejected with their reason.  A completed handshake enters
    the verified peer in the table.  Only gossip, Kademlia and rendezvous
    frames can have more sent than the host's own reply. *)
Theorem mux_recv_refines (n n' : MultiProtocolNode) (seed : arr 32) (rng : RngFactory RlncError)
    (ev : MultiProtocolEvent) (w w' : World) :
  io_run (mp_recv_one n seed rng) w = (Returned (Ok (n', ev)), w') ->
  exists from d inbox h1 hev reply,
    w_inbox w = Ok (socket_of_udp from, d) :: inbox /\
    recv_step (mp_host n) from (take (N.to_nat (recv_buf_size (host_socket (mp_host n)))) d) seed h1 hev reply /\
    io_run (recv_one (mp_host n) seed) w =
      (Returned (Ok (h1, hev)), world_reply (world_received w) from reply) /\
    match hev with
    | HandshakeProgress a =>
        n' = MkMultiProtocolNode h1 (mp_pubsub_state n) (mp_kad_table n) /\ ev = MpHandshakeProgress a
    | HandshakeComplete a rs pid =>
        n' = MkMultiProtocolNode h1 (mp_pubsub_state n)
               (table_insert (mp_kad_table n) (from_peer_id pid) a).1 /\
        ev = MpHandshakeComplete a rs pid (from_peer_id pid)
    | Rejected a r =>
        n' = MkMultiProtocolNode h1 (mp_pubsub_state n) (mp_kad_table n) /\ ev = MpRejected a r
    | DatagramDelivered a p => dispatch_kind h1 (mp_pubsub_state n) (mp_kad_table n) a p n' ev
    end /\
    (~ may_answer hev -> w' = world_reply (world_received w) from reply).
Proof.
  intros (from & d & inbox & h1 & hev & reply & w1 & Hin & Hs & -> & Hr & Hh)%mp_recv_sound.
  exists from, d, inbox, h1, hev, reply. split_and!; [done|done|done| |].
  - by destruct (mp_handle_post _ _ _ _ _ _ _ _ Hh) as [_ Hc].
  - intros Hq. by eapply mp_handle_quiet.
Qed.

(** C18: on the two gossip kinds the multi-protocol node is the gossip node:
    application sends and broadcasts are the gossip node's own, and a
    datagram the gossip node takes for an application or gossip plaintext
    has the same outcome on both, in every world, the routing table
    untouched.  This is what makes the two interoperate on the wire. *)
Theorem mux_pubsub_equivalent (n : MultiProtocolNode) (seed : arr 32) (rng : RngFactory RlncError)
    (w : World) (h1 : Host) (a : UdpAddr) (p : list byte) (w1 : World) (t : Topic)
    (data : OriginalData) (k : nat) :
  let back (m : PubsubMux) := MkMultiProtocolNode (pm_host m) (pm_state m) (mp_kad_table n) in
  (forall b bytes w0, io_run (mp_send_app n b bytes) w0 =
     run_bind (fun m w' => (Returned (Ok (back m)), w')) (io_run (send_app (pubsub_view n) b bytes) w0)) /\
  (forall w0, io_run (mp_broadcast n t data k rng) w0 =
     run_bind (fun '(m, c) w' => (Returned (Ok (back m, c)), w'))
       (io_run (broadcast (pubsub_view n) t data k rng) w0)) /\
  (io_run (recv_one (mp_host n) seed) w = (Returned (Ok (h1, DatagramDelivered a p)), w1) ->
   head p = Some KIND_APP \/ head p = Some KIND_PUBSUB ->
   io_run (mp_recv_one n seed rng) w =
     run_bind (fun '(m, ev) w' => (Returned (Ok (back m, lift_pubsub_event ev)), w'))
       (io_run (pm_recv_one (pubsub_view n) seed rng) w)).
Proof.
  destruct n as [h s kt]. cbn zeta. split_and!.
  - intros b bytes w0. unfold mp_send_app. by rewrite run_fmap_eq.
  - intros w0. unfold mp_broadcast. rewrite run_fmap_eq.
    destruct (io_run _ w0) as [[[[m c]|e]|] w']; done.
  - intros Hr Hp. rewrite (run_mp_recv _ _ _ _ _ _ _ _ Hr), mp_dispatch_cases.
    unfold pm_recv_one, pubsub_view. cbn [mp_host mp_pubsub_state mp_kad_table] in *.
    rewrite run_bind_eq, Hr. cbn [run_bind process_event].
    assert (Hd : io_run (mp_dispatch_pubsub h1 s kt a p rng) w1 =
      run_bind (fun '(m, ev) w' => (Returned (Ok (MkMultiProtocolNode (pm_host m) (pm_state m) kt,
          lift_pubsub_event ev)), w'))
        (io_run (pm_dispatch_plaintext h1 s a p rng) w1)).
    { unfold mp_dispatch_pubsub. rewrite run_fmap_eq. cbn [pm_process_plaintext pm_join].
      destruct (io_run _ w1) as [[[[m ev]|e]|] w']; done. }
    destruct p as [|b body]; [by destruct Hp|]. destruct Hp as [[= ->]|[= ->]]; exact Hd.
Qed.

(** A lookup of the multi-protocol node gives what the Kademlia node's
    gives, whatever other traffic arrives meanwhile: the [k] nearest of its
    table's closest and of the peers named in the responses it received, in
    order, never ourselves; it reads at most
    [max_rounds * max_recv_per_round] datagrams and draws, dials and relays
    together, at most [max_rounds * (alpha + 2 * max_recv_per_round)]
    times; and all the node's invariants are kept. *)
Theorem mux_lookup_result (n : MultiProtocolNode) (target : NodeId) (cfg : LookupConfig)
    (f : SeedFactory) (w w' : World) (n' : MultiProtocolNode) (results : list Peer) :
  mux_ok n -> io_run (mp_lookup_node n target cfg f) w = (Returned (Ok (n', results)), w') ->
  let far (p : Peer) := dval (distance p.1 target) in
  (exists log, lookup_run (D:=mux_driver) n w log n' w' /\
     length log <= lc_max_rounds cfg * lc_max_recv_per_round cfg /\
     let candidates := closest_to (mp_kad_table n) target (lc_k cfg) ++ (log ≫= mux_names) in
     (forall p, p ∈ results -> p ∈ candidates /\ p.1 <> mp_node_id n) /\
     (forall p, p ∈ candidates -> p.1 <> mp_node_id n -> in_or_farther (lc_k cfg) target results p)) /\
  length results <= lc_k cfg /\ StronglySorted (fun p q => far p < far q)%N results /\
  length (w_inbox w) <= length (w_inbox w') + lc_max_rounds cfg * lc_max_recv_per_round cfg /\
  w_calls w' <= w_calls w + lc_max_rounds cfg * (lc_alpha cfg + lc_max_recv_per_round cfg * 2) /\
  mux_ok n'.
Proof.
  intros [Hk Hp] Hr. pose proof (mp_lookup_keeps _ _ _ _ _ _ _ _ Hr) as ([Hk' _] & Hp' & _).
  unfold mp_lookup_node in Hr. rewrite run_fmap_eq in Hr.
  apply run_bind_Ok in Hr as ([n'' l] & w1 & Hd & [= <- <- <-]). cbn zeta.
  rewrite drive_lookup_rounds_eq in Hd.
  apply ld_lookup_result in Hd as (H1 & H2 & H3 & _ & [H5 H6] & _).
  2: { intros p Hpin. by apply (closest_not_self (kad_view n) target (lc_k cfg)). }
  cbn [ld_draws mux_driver_laws] in H6. split_and!; try done. split; [by apply Hk'|by apply Hp'].
Qed.

Context `{!CryptoLaws C}.

(** Over an established session, what is sent as application data or
    as an RPC envelope arrives as such: the peer's next [recv_one] reports
    the very bytes, under the event of their kind, and no state of either
    protocol changes. *)
Theorem mux_payload_delivered (nA nB : MultiProtocolNode) (a b : UdpAddr) (payload : list byte)
    (rpc : bool) (seed : arr 32) (rng : RngFactory RlncError) :
  linked (mp_host nA) a (mp_host nB) b 1 -> payload_fits (mp_host nA) (KIND_RPC :: payload) ->
  exists nA' d nB',
    (forall w, send_fault w = None ->
       io_run (if rpc then send_rpc nA b payload else mp_send_app nA b payload) w =
         (Returned (Ok nA'), world_sent w b d)) /\
    (forall w inbox, w_inbox w = Ok (socket_of_udp a, d) :: inbox ->
       io_run (mp_recv_one nB seed rng) w =
         (Returned (Ok (nB', if rpc then MpRpcDatagram a payload else MpAppData a payload)),
          world_received w)) /\
    mp_pubsub_state nB' = mp_pubsub_state nB /\ mp_kad_table nB' = mp_kad_table nB.
Proof.
  destruct nA as [hA sA tA], nB as [hB sB tB]. cbn [mp_host mp_pubsub_state mp_kad_table].
  intros Hl Hfit. set (kind := if rpc then KIND_RPC else KIND_APP).
  destruct (linked_transfer hA a hB b 0 (kind :: payload)) as (hA' & d & hB' & Hs & Hr & _);
    [done|exact Hfit|].
  exists (MkMultiProtocolNode hA' sA tA), d, (MkMultiProtocolNode hB' sB tB).
  split_and!; [| |done|done].
  - intros w Hw. destruct rpc.
    + unfold send_rpc. rewrite run_fmap_eq. unfold mp_prefix_kind. fold kind. by rewrite Hs.
    + unfold mp_send_app, pm_join, send_app. rewrite !run_fmap_eq. unfold prefix_kind. fold kind.
      by rewrite Hs.
  - intros w inbox Hw. rewrite (run_mp_recv _ hB' seed rng a (kind :: payload) w (world_received w))
      by (by eapply Hr). cbn [mp_pubsub_state mp_kad_table]. rewrite mp_dispatch_cases.
    destruct rpc; cbv beta iota delta [kind KIND_RPC KIND_APP]; [by rewrite run_pure|].
    unfold mp_dispatch_pubsub.
    by rewrite pm_dispatch_app, run_fmap_eq, run_pure.
Qed.

(** C17: a Kademlia request between multi-protocol nodes over an established
    session is answered through the kind byte, and the answer arrives: the
    peer's [recv_one] reports the request and replies, the asker's reports
    the reply, with exactly the peers of the responder's table closest to
    the target, as the wire carries them; the responder has learnt the
    asker. *)
Theorem mux_kad_request_answered (nA nB : MultiProtocolNode) (a b : UdpAddr) (f : KadFrame)
    (sA sB : arr 32) (rngA rngB : RngFactory RlncError) :
  linked (mp_host nA) a (mp_host nB) b 2 -> is_request f ->
  table_k (mp_kad_table nB) <= MAX_PEERS_PER_RESP ->
  (N.of_nat (2 + NODE_ID_LEN + TRANSPORT_OVERHEAD) <= max_send_payload (host_socket (mp_host nA)))%N ->
  (N.of_nat (3 + ENTRY_V6_LEN * table_k (mp_kad_table nB) + TRANSPORT_OVERHEAD)
     <= max_send_payload (host_socket (mp_host nB)))%N ->
  let tB := learn_sender (mp_host nB) (mp_kad_table nB) a in
  exists nA' d nB' d' nA'',
    (forall w, send_fault w = None ->
       io_run (send_kad_frame nA b f) w = (Returned (Ok nA'), world_sent w b d)) /\
    (forall w inbox, w_inbox w = Ok (socket_of_udp a, d) :: inbox -> send_fault w = None ->
       io_run (mp_recv_one nB sB rngB) w =
         (Returned (Ok (nB', lift_kad_event (frame_event tB a f))),
          world_sent (world_received w) a d')) /\
    (forall w inbox, w_inbox w = Ok (socket_of_udp b, d') :: inbox ->
       io_run (mp_recv_one nA' sA rngA) w =
         (Returned (Ok (nA'', lift_kad_event (answer_event tB b f))), world_received w)) /\
    mp_kad_table nB' = tB /\ mp_pubsub_state nB' = mp_pubsub_state nB /\
    mp_pubsub_state nA'' = mp_pubsub_state nA /\ linked (mp_host nA'') a (mp_host nB') b 0.
Proof.
  destruct nA as [hA gA tA], nB as [hB gB tB0]. cbn [mp_host mp_pubsub_state mp_kad_table].
  intros Hl Hf Hk255 HmaxA HmaxB. set (tB := learn_sender hB tB0 a).
  assert (HtBk : table_k tB = table_k tB0) by apply learn_sender_k.
  destruct (request_frames tB b f) as (req & r & rep & Hreq & Hlen & Hdec & Hr & Hrep & Hrlen & Hresp);
    [done|by rewrite HtBk|].
  rewrite HtBk in Hrlen.
  destruct (linked_exchange hA a hB b 0 (KIND_KAD :: req) (KIND_KAD :: rep) Hl)
    as (hA1 & d & hB1 & hB2 & d' & hA2 & S1 & R1 & S2 & R2 & Hl2 & PB).
  { apply request_fits; cbn [length]; lia. }
  { apply reply_fits with (k := table_k tB0); cbn [length]; lia. }
  assert (HtB1 : learn_sender hB1 tB0 a = tB) by (by apply learn_sender_ext).
  destruct (Hresp hA2 tA (kind_wrap KIND_KAD)) as [tA' HrespA].
  exists (MkMultiProtocolNode hA1 gA tA), d, (MkMultiProtocolNode hB2 gB tB), d',
    (MkMultiProtocolNode hA2 gA tA'). split_and!; try done.
  - intros w Hw. unfold send_kad_frame. rewrite run_bind_eq, run_result, Hreq. cbn [run_bind].
    unfold send_with_kind, mp_prefix_kind. by rewrite run_fmap_eq, S1.
  - intros w inbox Hw Hfault.
    rewrite (run_mp_recv (MkMultiProtocolNode hB gB tB0) hB1 sB rngB a (KIND_KAD :: req) w
      (world_received w)) by (by eapply R1).
    cbn [mp_pubsub_state mp_kad_table]. rewrite mp_dispatch_cases. cbv beta iota delta [KIND_KAD].
    apply (run_dispatch_kad hB1 gB tB0 a req (world_received w) (MkKademliaNode hB2 tB)).
    rewrite (run_process_request hB1 tB0 a req _ f r Hdec) by (by rewrite HtB1).
    rewrite HtB1, Hrep. unfold kind_wrap. by rewrite S2.
  - intros w inbox Hw.
    rewrite (run_mp_recv (MkMultiProtocolNode hA1 gA tA) hA2 sA rngA b (KIND_KAD :: rep) w
      (world_received w)) by (by eapply R2).
    cbn [mp_pubsub_state mp_kad_table]. rewrite mp_dispatch_cases. cbv beta iota delta [KIND_KAD].
    apply (run_dispatch_kad hA2 gA tA b rep (world_received w) (MkKademliaNode hA2 tA')).
    apply HrespA.
Qed.

End properties.
