(* ===== verification/MuxWitness.v ===== *)
(** * Concrete multi-protocol nodes

    Each theorem of [MuxProps.v] at an input where its hypotheses hold. *)

From S2P Require Export MuxProps PubsubWitness.

Section toy.
#[local] Existing Instance direct_io.
#[local] Existing Instance direct_io_laws.
#[local] Existing Instance toy_crypto.
#[local] Existing Instance toy_crypto_laws.
#[local] Existing Instance toy_rlnc.
#[local] Existing Instance toy_rlnc_laws.
#[local] Existing Instance toy_auth.
#[local] Existing Instance toy_wire.

Definition toy_mux (h : Host) : MultiProtocolNode := mp_new h toy_key 20.

Lemma mux_invariant_witness :
  exists n, rtc mux_step (toy_mux (toy_host 4001 x01 x02)) n /\
    is_relay_registered (mp_pubsub_state n) toy_topic = true /\
    kad_ok (kad_view n) /\ pubsub_ok (mp_pubsub_state n).
Proof.
  assert (Hr : rtc mux_step (toy_mux (toy_host 4001 x01 x02))
    (mp_register_relay (toy_mux (toy_host 4001 x01 x02)) toy_topic 2 1 toy_commitment))
    by (apply rtc_once, mps_relay).
  eexists. split; [exact Hr|]. split; [reflexivity|].
  destruct (mux_invariant (A:=toy_auth) (toy_host 4001 x01 x02) toy_key 20 _
    (toy_host_ok 4001 x01 x02) Hr) as (H1 & H2 & _).
  split; [exact H1|exact H2].
Defined.

(** A datagram of [toy_A] for [toy_B]. *)
Definition toy_b_inbox (p : list byte) : World := toy_inbox toy_A toy_at (loopback 4002) p.

Lemma toy_mux_rpc :
  exists n w, io_run (mp_recv_one (toy_mux toy_B) toy_key toy_rng_ok) (toy_b_inbox [x04; x07]) =
    (Returned (Ok (n, MpRpcDatagram toy_at [x07])), w).
Proof. apply run_event_Some. vm_compute. reflexivity. Qed.

(** The datagram is the one in the inbox, and the event its plaintext's. *)
Lemma mux_recv_refines_witness :
  exists n w d h1 hev reply,
    io_run (mp_recv_one (toy_mux toy_B) toy_key toy_rng_ok) (toy_b_inbox [x04; x07]) =
      (Returned (Ok (n, MpRpcDatagram toy_at [x07])), w) /\
    w_inbox (toy_b_inbox [x04; x07]) = [Ok (socket_of_udp toy_at, d)] /\
    recv_step toy_B toy_at (take (N.to_nat (recv_buf_size (host_socket toy_B))) d) toy_key h1 hev reply /\
    match hev with
    | DatagramDelivered a p =>
        dispatch_kind h1 (mp_pubsub_state (toy_mux toy_B)) (mp_kad_table (toy_mux toy_B)) a p n
          (MpRpcDatagram toy_at [x07])
    | _ => False
    end.
Proof.
  destruct toy_mux_rpc as (n & w & Hr).
  destruct (mux_recv_refines _ _ _ _ _ _ _ Hr) as (from & d & inbox & h1 & hev & reply & Hin & Hs & _ & Hc & _).
  assert (Hone : exists d0, w_inbox (toy_b_inbox [x04; x07]) = [Ok (socket_of_udp toy_at, d0)])
    by by eexists.
  destruct Hone as [d0 Hone]. pose proof Hin as Hin'. rewrite Hone in Hin'.
  injection Hin' as Hfrom -> Hnil. subst inbox.
  apply (f_equal udp_of_socket) in Hfrom. rewrite !udp_of_socket_of_udp in Hfrom. subst from.
  exists n, w, d, h1, hev, reply. split_and!; [exact Hr|exact Hone|exact Hs|].
  destruct hev; [by destruct Hc|by destruct Hc|exact Hc|by destruct Hc].
Defined.

Lemma toy_b_delivers :
  exists h w, io_run (recv_one toy_B toy_key) (toy_b_inbox [x00; x07]) =
    (Returned (Ok (h, DatagramDelivered toy_at [x00; x07])), w).
Proof. apply run_event_Some. vm_compute. reflexivity. Qed.

Lemma mux_pubsub_equivalent_witness :
  io_run (mp_recv_one (toy_mux toy_B) toy_key toy_rng_ok) (toy_b_inbox [x00; x07]) =
    run_bind (fun '(m, ev) w' => (Returned (Ok (MkMultiProtocolNode (pm_host m) (pm_state m)
        (mp_kad_table (toy_mux toy_B)), lift_pubsub_event ev)), w'))
      (io_run (pm_recv_one (pubsub_view (toy_mux toy_B)) toy_key toy_rng_ok) (toy_b_inbox [x00; x07])).
Proof.
  destruct toy_b_delivers as (h & w & Hr).
  destruct (mux_pubsub_equivalent (A:=toy_auth) (toy_mux toy_B) toy_key toy_rng_ok
    (toy_b_inbox [x00; x07]) h toy_at [x00; x07] w toy_topic toy_data 0) as (_ & _ & H).
  apply H; [exact Hr|by left].
Defined.

(** A node that knows one peer. *)
Definition toy_mux_knower (h : Host) : MultiProtocolNode :=
  MkMultiProtocolNode h (pubsub_state_new (A:=toy_auth) toy_key) (kn_table (toy_knower h)).

Lemma mux_lookup_result_witness :
  let n := toy_mux_knower (toy_host 4001 x01 x02) in
  let cfg := MkLookupConfig 3 20 0 24 in
  exists results w',
    io_run (mp_lookup_node n (toy_id x05) cfg (fun _ => arr_repeat 32 x03)) (quiet_world []) =
      (Returned (Ok (n, results)), w') /\
    length results <= 20 /\ mux_ok n.
Proof.
  intros n cfg.
  assert (Hn : mux_ok n).
  { split; [apply (toy_knower_ok _ (toy_host_ok 4001 x01 x02))|apply pubsub_new_ok]. }
  assert (E : exists results w', io_run
    (mp_lookup_node n (toy_id x05) cfg (fun _ => arr_repeat 32 x03)) (quiet_world []) =
    (Returned (Ok (n, results)), w')).
  { eexists _, _. unfold mp_lookup_node. rewrite run_fmap_eq.
    cbn [cfg lc_max_rounds drive_lookup_rounds]. rewrite run_pure. reflexivity. }
  destruct E as (results & w' & E). exists results, w'. split; [exact E|].
  destruct (mux_lookup_result n (toy_id x05) cfg _ _ _ _ _ Hn E) as (_ & Hlen & _ & _ & _ & Hok).
  split; [exact Hlen|exact Hok].
Defined.

Lemma mux_payload_delivered_witness :
  exists nA' d nB',
    io_run (send_rpc (toy_mux toy_A) (loopback 4002) [x07; x08]) (quiet_world []) =
      (Returned (Ok nA'), world_sent (quiet_world []) (loopback 4002) d) /\
    (let w := quiet_world [(socket_of_udp toy_at, d)] in
     io_run (mp_recv_one (toy_mux toy_B) toy_key toy_rng_ok) w =
       (Returned (Ok (nB', MpRpcDatagram toy_at [x07; x08])), world_received w)).
Proof.
  destruct (mux_payload_delivered (A:=toy_auth) (toy_mux toy_A) (toy_mux toy_B) toy_at (loopback 4002)
    [x07; x08] true toy_key toy_rng_ok) as (nA' & d & nB' & H1 & H2 & _).
  - by apply toy_linked.
  - split; done.
  - exists nA', d, nB'. split; [by apply H1|].
    exact (H2 (quiet_world [(socket_of_udp toy_at, d)]) [] eq_refl).
Defined.

Lemma mux_kad_request_answered_witness :
  let b := loopback 4002 in
  exists nA' d nB' d' nA'',
    io_run (mp_kad_ping (toy_mux toy_A) b) (quiet_world []) =
      (Returned (Ok nA'), world_sent (quiet_world []) b d) /\
    (let w := quiet_world [(socket_of_udp toy_at, d)] in
     io_run (mp_recv_one (toy_mux toy_B) toy_key toy_rng_ok) w =
       (Returned (Ok (nB', MpKadPingRequestReceived toy_at)), world_sent (world_received w) toy_at d')) /\
    (let w := quiet_world [(socket_of_udp b, d')] in
     io_run (mp_recv_one nA' toy_key toy_rng_ok) w =
       (Returned (Ok (nA'', MpKadPingResponseReceived b)), world_received w)).
Proof.
  intros b.
  destruct (mux_kad_request_answered (A:=toy_auth) (toy_mux toy_A) (toy_mux toy_B) toy_at b PingReq
    toy_key toy_key toy_rng_ok toy_rng_ok) as (nA' & d & nB' & d' & nA'' & H1 & H2 & H3 & _).
  - by apply toy_linked.
  - by left.
  - apply Nat.leb_le. reflexivity.
  - done.
  - done.
  - exists nA', d, nB', d', nA''. split; [|split].
    + by apply H1.
    + exact (H2 (quiet_world [(socket_of_udp toy_at, d)]) [] eq_refl eq_refl).
    + exact (H3 (quiet_world [(socket_of_udp b, d')]) [] eq_refl).
Defined.

End toy.
