(* ===== verification/MuxConverge.v ===== *)
(** * A lookup of the multi-protocol node converges

    The multi-protocol node as a [MeshNode]: the handshakes, questions and
    answers of [KadConverge.v] through the kind byte, whatever relay
    randomness the peers are given. *)

From S2P Require Export KadConverge MuxWitness.

Section node.
Context `{C : Crypto, RT : IoRuntime, R : !Rlnc, A : !Authenticator, W : !WireAuthenticator Commitment Tag}.

#[export] Instance mux_mesh : MeshNode MultiProtocolNode MultiProtocolEvent := {|
  mn_driver := mux_driver;
  mn_opts := RngFactory RlncError;
  mn_default := unused_relay_rng;
  mn_recv rng n seed := mp_recv_one n seed rng;
  mn_table := mp_kad_table;
  mn_with n host kad_table := MkMultiProtocolNode host (mp_pubsub_state n) kad_table;
  mn_wrap := kind_wrap KIND_KAD;
  mn_progress := MpHandshakeProgress;
  mn_complete addr key pid := MpHandshakeComplete addr key pid (from_peer_id pid);
  mn_answer := MpKadFindNodeResponseReceived;
  mn_asked := MpKadFindNodeRequestReceived
|}.

Context `{!IoLaws RT}.

Lemma run_mp_event n h' s rng from d ev r w inbox :
  receives (mp_host n) s from d h' ev r ->
  w_inbox w = Ok (socket_of_udp from, d) :: inbox -> send_fault w = None ->
  io_run (mp_recv_one n s rng) w =
    io_run (mp_handle_host_event h' (mp_pubsub_state n) (mp_kad_table n) ev rng)
      (world_reply (world_received w) from r).
Proof.
  destruct n as [h st t]. intros Hr Hw Hf. specialize (Hr w inbox Hw Hf). cbn [mp_host] in Hr. unfold mp_recv_one. by rewrite run_bind_eq, Hr.
Qed.

(** A Kademlia frame behind its kind byte is the Kademlia node's. *)
Lemma run_mp_kad n h' s rng from d p w inbox n' ev w' :
  receives (mp_host n) s from d h' (DatagramDelivered from (kind_wrap KIND_KAD p)) None ->
  w_inbox w = Ok (socket_of_udp from, d) :: inbox -> send_fault w = None ->
  io_run (process_plaintext_with_wrap (MkKademliaNode h' (mp_kad_table n)) from p (kind_wrap KIND_KAD))
    (world_received w) = (Returned (Ok (n', ev)), w') ->
  io_run (mp_recv_one n s rng) w =
    (Returned (Ok (MkMultiProtocolNode (kn_host n') (mp_pubsub_state n) (kn_table n'), lift_kad_event ev)), w').
Proof.
  intros Hr Hw Hf Hp. rewrite (run_mp_event _ _ _ _ _ _ _ _ _ _ Hr Hw Hf). cbn [mp_handle_host_event world_reply].
  unfold kind_wrap at 1. rewrite mp_dispatch_cases. cbv beta iota delta [KIND_KAD]. by apply run_dispatch_kad.
Qed.

#[export] Instance mux_mesh_laws : MeshNodeLaws (M:=mux_mesh).
Proof.
  split; try done.
  - intros [h st t] b s d h' Hs w Hf. specialize (Hs w Hf). cbn in *. by rewrite run_fmap_eq, Hs.
  - intros [h st t] b target p d h' Hp Hs w Hf. specialize (Hs w Hf).
    cbn [ld_host ld_find_node mn_driver mux_mesh mux_driver mp_host] in *. unfold kad_find_node, send_kad_frame. rewrite run_bind_eq, run_result, Hp. cbn [run_bind].
    unfold send_with_kind. rewrite run_fmap_eq.
    change (mp_prefix_kind KIND_KAD p) with (mn_wrap (MeshNode:=mux_mesh) p). by rewrite Hs.
  - intros n s from d h' r Hr o w inbox Hw Hf. etransitivity; [exact (run_mp_event _ _ _ _ _ _ _ _ _ _ Hr Hw Hf)|].
    apply run_pure.
  - intros n s from d h' key pid r Hr o w inbox Hw Hf.
    etransitivity; [exact (run_mp_event _ _ _ _ _ _ _ _ _ _ Hr Hw Hf)|]. cbn.
    destruct (table_insert (mp_kad_table n) _ _) as [t' ins]. apply run_pure.
  - intros n s from d h' p ps Hr Hd o w inbox Hw Hf.
    eapply (run_mp_kad n h' s o from d p w inbox (MkKademliaNode _ _) (FindNodeResponseReceived from ps)); try done.
    unfold process_plaintext_with_wrap, handle_datagram. rewrite Hd. apply run_pure.
  - intros n s from d h1 h2 p target p' d' Hr Hd t1 ps Hp Hs o w inbox Hw Hf.
    eapply (run_mp_kad n h1 s o from d p w inbox (MkKademliaNode h2 t1)
      (FindNodeRequestReceived from target (length ps))); try done.
    rewrite (run_process_request h1 _ from p _ _ _ Hd eq_refl).
    change (learn_sender h1 (mp_kad_table n) from) with t1. unfold ps in Hp. rewrite Hp.
    change (kind_wrap KIND_KAD p') with (mn_wrap (MeshNode:=mux_mesh) p'). by rewrite (Hs (world_received w)).
Qed.

End node.

(** ** Properties *)

Section properties.
Context `{C : Crypto, RT : IoRuntime, !IoLaws RT, !CryptoLaws C, R : !Rlnc, RL : !RlncLaws,
          A : !Authenticator, W : !WireAuthenticator Commitment Tag}.

(** C20: a lookup of the multi-protocol node among multi-protocol peers it has
    sessions with, or can dial, converges as the Kademlia node's does: it
    returns, having sent just what [log] says and read just what the peers,
    each taking its part of [log] in order, send back; the peers it returns
    have answered its question, and whoever one of them, or its own table,
    told it of is returned too, unless [k] peers closer to the target are. *)
Theorem mux_lookup_converges (n : MultiProtocolNode) (peer : UdpAddr -> MultiProtocolNode) (a : UdpAddr)
    (bs : list UdpAddr) (target : NodeId) (cfg : LookupConfig) (f : SeedFactory)
    (seed : UdpAddr -> arr 32) (calls : nat) :
  let met (p : Peer) := p.2 ∈ bs /\ p.1 = mp_node_id (peer p.2) in
  let known := closest_to (mp_kad_table n) target (lc_k cfg) in
  let told_by b :=
    told (mp_host (peer b)) (mp_kad_table (peer b)) a (id_peer_id (host_identity (mp_host n))) target in
  table_ok (mp_kad_table n) -> identity_ok (host_identity (mp_host n)) -> socket_ok (host_socket (mp_host n)) ->
  room_for_request (mp_host n) -> has_room (mp_host n) bs ->
  (forall b, b ∈ bs ->
     (linked (mp_host n) a (mp_host (peer b)) b 2 \/
      unknown_to (mp_host n) b /\ dialable (mp_host n) a peer b) /\
     room_for_reply (mp_host (peer b)) (mp_kad_table (peer b))) ->
  (forall p, p ∈ known -> met p) ->
  (forall b p, b ∈ bs -> p ∈ told_by b -> p.1 = mp_node_id n \/ met p) ->
  0 < lc_alpha cfg -> 2 * lc_alpha cfg <= lc_max_recv_per_round cfg -> 2 * length bs <= lc_max_rounds cfg ->
  exists n' results log calls',
    takes calls (mp_lookup_node n target cfg f) (questions log) (replies log) calls' (n', results) /\
    (forall x, x ∈ log -> ex_to x ∈ bs) /\
    (forall b, b ∈ bs -> (exists n_b, serves (seed b) a (peer b) (log_at b log) n_b) /\
       length (log_at b log) <= if is_established (mp_host n) b then 1 else 4) /\
    (forall p, p ∈ known -> in_or_farther (lc_k cfg) target results p) /\
    forall p, p ∈ results -> p.2 ∈ bs /\ p.1 = mp_node_id (peer p.2) /\
      answered a target p.2 (log_at p.2 log) /\
      forall q, q ∈ told_by p.2 -> q.1 <> mp_node_id n -> in_or_farther (lc_k cfg) target results q.
Proof.
  intros met known told_by Hok Hid Hsock HroomN Hrm Hpeers Hknown Htold Ha Hbud Hlen.
  destruct (mesh_converges (M:=mux_mesh) (mp_host n) a bs peer seed target Hid Hsock HroomN
    (fun b Hb => proj2 (Hpeers b Hb)) n known (mp_node_id n) (fun b => mp_node_id (peer b)) cfg f calls)
    as (n' & l & log & calls' & Ht & Hlog & Hsv & Hk & Hres); try done.
  - intros b Hb. by apply Hpeers.
  - intros p Hp. split; [by apply (table_self_not_closest _ target _ _ Hok Hp)|by apply Hknown].
  - exists n', (top_k_results l), log, calls'. split_and!; try done.
    + apply (takes_fmap _ (fun '(node, lookup) => (node, top_k_results lookup)) _ _ _ _ (n', l)). exact Ht.
    + intros b Hb. destruct (Hsv b Hb) as [Hs Hl]. split; [done|]. etransitivity; [exact Hl|].
      unfold handshake_len. by destruct (is_established _ _).
Qed.

End properties.

(** ** Witness *)

Section toy.
#[local] Existing Instance direct_io.
#[local] Existing Instance direct_io_laws.
#[local] Existing Instance toy_crypto.
#[local] Existing Instance toy_crypto_laws.
#[local] Existing Instance toy_rlnc.
#[local] Existing Instance toy_rlnc_laws.
#[local] Existing Instance toy_auth.
#[local] Existing Instance toy_wire.

(** The peers of [KadConverge.v], as multi-protocol nodes. *)
Definition toy_mux_of (n : KademliaNode) : MultiProtocolNode :=
  MkMultiProtocolNode (kn_host n) (pubsub_state_new (A:=toy_auth) toy_key) (kn_table n).

Lemma mux_lookup_converges_witness :
  exists n' results (log : list (exchange MultiProtocolEvent)) calls',
    takes 0 (mp_lookup_node (toy_mux_of toy_asker) (toy_id x05) lookup_config_default (fun _ => arr_repeat 32 x03))
      (questions log) (replies log) calls' (n', results) /\
    in_or_farther 20 (toy_id x05) results (toy_name toy_client1, loopback 4001) /\
    forall p : Peer, p ∈ results -> answered (M:=mux_mesh) (loopback 4003) (toy_id x05) p.2 (log_at p.2 log).
Proof.
  destruct (mux_lookup_converges (toy_mux_of toy_asker) (fun b => toy_mux_of (toy_peers b)) (loopback 4003)
    toy_bs (toy_id x05) lookup_config_default (fun _ => arr_repeat 32 x03) (fun _ => arr_repeat 32 x07) 0)
    as (n' & results & log & calls' & Ht & _ & _ & Hk & Hr).
  - apply table_insert_ok, table_new_ok.
  - apply toy_identity_ok.
  - done.
  - done.
  - exact toy_has_room.
  - intros b Hb. destruct (toy_peers_ready b Hb) as [[Hl|[Hu [D1 D2 D3 D4 D5]]] Hroom]; (split; [|exact Hroom]).
    + by left.
    + right. split; [exact Hu|by split].
  - exact toy_known_met.
  - exact toy_told_met.
  - apply Nat.leb_le; reflexivity.
  - apply Nat.leb_le; reflexivity.
  - apply Nat.leb_le; reflexivity.
  - exists n', results, log, calls'. split; [exact Ht|]. split; [|intros p Hin; by apply Hr].
    apply Hk. change (lc_k lookup_config_default) with 20. cbn [toy_mux_of mp_kad_table].
    rewrite toy_asker_knows. apply list_elem_of_here.
Defined.

End toy.
