(* ===== verification/Rpc.v ===== *)
(** * Remote procedure calls over a host

    Models src/crates/libp2p-cat-rpc/src/{lib,serve,transport}.rs: a client's
    transport anchored to one peer and the server's step.  The RPC framework
    [tarpc_cat] and the JSON of [serde_json] are outside the repository:
    [Tarpc] and [Serve] list what the source calls, [TarpcLaws] that an
    envelope's JSON is read back.  The seed of the first datagram of a drain
    is drawn by the source when the effect is described and the later ones
    when it runs, which the model does not distinguish. *)

From S2P Require Export HostLink.

#[local] Open Scope string_scope.

Definition MUX_KIND_RPC : byte := x04.

(** [tarpc_cat::protocol::Envelope], whose variants the source matches. *)
Inductive Envelope (RequestId : Type) : Type :=
| EnvRequest (id : RequestId) (payload : string)
| EnvResponse (id : RequestId) (payload : string)
| EnvError (id : RequestId) (message : string).
Arguments EnvRequest {RequestId} id payload.
Arguments EnvResponse {RequestId} id payload.
Arguments EnvError {RequestId} id message.

Class Tarpc : Type := {
  RequestId : Type;
  (** [serde_json] on envelopes. *)
  SerdeError : Type;
  serde_display : SerdeError -> string;
  envelope_to_vec : Envelope RequestId -> result SerdeError (list byte);
  envelope_from_slice : list byte -> result SerdeError (Envelope RequestId);
  (** [tarpc_cat::error::Error]. *)
  TarpcError : Type;
  tarpc_display : TarpcError -> string;
  from_serialize : SerdeError -> TarpcError;
  from_deserialize : SerdeError -> TarpcError;
  tarpc_io : io_error -> TarpcError;
  tarpc_server : string -> TarpcError
}.

(** What [serde_json] writes, it reads. *)
Class TarpcLaws (T : Tarpc) : Prop := {
  envelope_from_to e bytes : envelope_to_vec e = Ok bytes -> envelope_from_slice bytes = Ok e
}.

(** [tarpc_cat::serve::Serve], with the JSON of its requests and responses. *)
Class Serve `{RT : IoRuntime, T : Tarpc} : Type := {
  SvRequest : Type;
  SvResponse : Type;
  request_from_str : string -> result SerdeError SvRequest;
  response_to_string : SvResponse -> result SerdeError string;
  sv_handle : SvRequest -> Io TarpcError SvResponse
}.

(** ** Errors *)

Definition lib_error_to_tarpc `{Tarpc} (e : Error) : TarpcError :=
  match e with
  | ErrorIo io => tarpc_io io
  | e => tarpc_server ("libp2p error: " ++ error_display e)
  end.

(** ** The client's transport *)

Record HostTransport : Type := MkHostTransport {
  ht_host : Host;
  ht_peer : UdpAddr;
  ht_seed_factory : SeedFactory
}.

Definition ht_new (host : Host) (peer : UdpAddr) (seed_factory : SeedFactory) : HostTransport :=
  MkHostTransport host peer seed_factory.
Definition into_parts (t : HostTransport) : Host * UdpAddr := (ht_host t, ht_peer t).

Section transport.
Context `{C : Crypto, RT : IoRuntime, T : Tarpc}.

Definition ht_send (t : HostTransport) (envelope : Envelope RequestId) : Io TarpcError HostTransport :=
  let '(MkHostTransport host peer seed_factory) := t in
  body ← io_result (map_err from_serialize (envelope_to_vec envelope));
  let framed := MUX_KIND_RPC :: body in
  (fun host => MkHostTransport host peer seed_factory)
    <$> io_map_error (host_send host peer framed) lib_error_to_tarpc.

(** The source's recursion has no bound; every turn takes a datagram from
    the inbox, so fuel beyond it is never used up ([drain_rpc_fuel]). *)
Fixpoint drain_for_rpc (fuel : nat) (host : Host) (peer : UdpAddr) (seed_factory : SeedFactory)
    : Io TarpcError (Envelope RequestId * HostTransport) :=
  match fuel with
  | 0 => io_suspend (fun w => (Blocked, w))
  | S fuel' =>
      seed ← next_seed seed_factory;
      '(host, ev) ← io_map_error (recv_one host seed) lib_error_to_tarpc;
      match ev with
      | DatagramDelivered addr plaintext =>
          if bool_decide (addr = peer) && bool_decide (head plaintext = Some MUX_KIND_RPC) then
            let body := default [] (get_from 1 plaintext) in
            io_result (envelope ← map_err from_deserialize (envelope_from_slice body);
                       Ok (envelope, MkHostTransport host peer seed_factory))
          else drain_for_rpc fuel' host peer seed_factory
      | HandshakeProgress _ | HandshakeComplete _ _ _ | Rejected _ _ =>
          drain_for_rpc fuel' host peer seed_factory
      end
  end.

Definition ht_recv (fuel : nat) (t : HostTransport)
    : Io TarpcError (Envelope RequestId * HostTransport) :=
  let '(MkHostTransport host peer seed_factory) := t in
  drain_for_rpc fuel host peer seed_factory.

End transport.

(** ** The server's step *)

Section serve.
Context `{C : Crypto, RT : IoRuntime, T : Tarpc}.

Inductive ServeEvent : Type :=
| SvHandled (peer : UdpAddr) (request_id : RequestId)
| SvRejected (peer : UdpAddr) (reason : string)
| SvHandshakeProgress (peer : UdpAddr)
| SvHandshakeComplete (peer : UdpAddr) (remote_static : StaticPublicKey) (remote_peer_id : PeerId)
| SvHostRejected (peer : UdpAddr) (reason : string).

Context `{SV : !Serve}.

(** The envelope of a dispatched request: the handler's response, or the
    error of any stage. *)
Definition respond (id : RequestId) (payload : string) : effect Error (Envelope RequestId) := fun w =>
  let failed (e : TarpcError) := EnvError id (tarpc_display e) in
  match map_err from_deserialize (request_from_str payload) with
  | Err e => (Returned (Ok (failed e)), w)
  | Ok request =>
      match io_run (sv_handle request) w with
      | (Blocked, w') => (Blocked, w')
      | (Returned (Err e), w') => (Returned (Ok (failed e)), w')
      | (Returned (Ok response), w') =>
          (Returned (Ok match map_err from_serialize (response_to_string response) with
                        | Ok resp_payload => EnvResponse id resp_payload
                        | Err e => failed e
                        end), w')
      end
  end.

Definition dispatch_request (host : Host) (peer : UdpAddr) (id : RequestId) (payload : string)
    : Io Error (Host * ServeEvent) :=
  envelope ← io_suspend (respond id payload);
  body ← io_result (map_err (fun e => PubsubProtocol ("rpc envelope serialize: " ++ serde_display e))
                      (envelope_to_vec envelope));
  let framed := MUX_KIND_RPC :: body in
  (fun host => (host, SvHandled peer id)) <$> host_send host peer framed.

Definition handle_rpc_datagram (host : Host) (peer : UdpAddr) (plaintext : list byte)
    : Io Error (Host * ServeEvent) :=
  match head plaintext with
  | Some kind =>
      if bool_decide (kind = MUX_KIND_RPC) then
        let body := default [] (get_from 1 plaintext) in
        match envelope_from_slice body with
        | Err e => io_pure (host, SvRejected peer ("envelope decode failed: " ++ serde_display e))
        | Ok (EnvRequest id payload) => dispatch_request host peer id payload
        | Ok (EnvResponse _ _) | Ok (EnvError _ _) =>
            io_pure (host, SvRejected peer "expected Envelope::Request from client")
        end
      else io_pure (host, SvRejected peer ("non-RPC kind byte 0x" ++ hex02 kind))
  | None => io_pure (host, SvRejected peer "empty plaintext (no kind byte)")
  end.

Definition serve_one (host : Host) (ephemeral_seed : arr 32) : Io Error (Host * ServeEvent) :=
  '(host, ev) ← recv_one host ephemeral_seed;
  match ev with
  | DatagramDelivered addr plaintext => handle_rpc_datagram host addr plaintext
  | HandshakeProgress addr => io_pure (host, SvHandshakeProgress addr)
  | HandshakeComplete addr remote_static remote_peer_id =>
      io_pure (host, SvHandshakeComplete addr remote_static remote_peer_id)
  | Rejected addr reason => io_pure (host, SvHostRejected addr reason)
  end.

End serve.

#[local] Close Scope string_scope.
