(* ===== verification/RpcProps.v ===== *)
(** * What the RPC bridge guarantees

    A received envelope came from the anchored peer over its established
    session, and a call over linked hosts completes with the handler's
    response or its error.  A toy serializer and handler give the witnesses. *)

From S2P Require Export Rpc.

Section lemmas.
Context `{C : Crypto, RT : IoRuntime, !IoLaws RT, T : Tarpc}.

(** What a returned receive is: host steps, then a datagram from the peer. *)
Definition received_from (peer : UdpAddr) (h : Host) (e : Envelope RequestId) (h' : Host) : Prop :=
  exists h1 conn d tr body, rtc host_step h h1 /\ host_step h1 h' /\
    host_established h1 !! peer = Some conn /\
    transport_decrypt (conn_transport conn) d = (tr, Ok (MUX_KIND_RPC :: body)) /\
    envelope_from_slice body = Ok e.

Lemma rpc_framed (p : list byte) :
  head p = Some MUX_KIND_RPC -> exists body, p = MUX_KIND_RPC :: body /\ default [] (get_from 1 p) = body.
Proof.
  destruct p as [|k body]; [done|]. intros [= ->]. exists body. split; [done|].
  by rewrite get_from_unwrap_or, skipn_cons, drop_0.
Qed.

Lemma drain_rpc_post fuel : forall h peer f,
  io_post (drain_for_rpc fuel h peer f) (fun '(e, t') =>
    received_from peer h e (ht_host t') /\ ht_peer t' = peer /\ ht_seed_factory t' = f).
Proof.
  induction fuel as [|fuel IH]; intros h peer f; cbn [drain_for_rpc].
  { intros w r w'. by rewrite run_suspend. }
  eapply (io_post_bind _ _ (fun _ => True)); [by intros ?|]. intros seed _.
  eapply (io_post_bind _ _ (fun '(h1, ev) => exists w w', io_run (recv_one h seed) w = (Returned (Ok (h1, ev)), w'))).
  { intros w [h1 ev] w' Hr%run_map_error_Ok. by exists w, w'. }
  intros [h1 ev] (w & w' & Hr). assert (Hs : host_step h h1) by by econstructor.
  assert (Hrec : io_post (drain_for_rpc fuel h1 peer f) (fun '(e, t') =>
    received_from peer h e (ht_host t') /\ ht_peer t' = peer /\ ht_seed_factory t' = f)).
  { eapply io_post_weaken; [apply IH|]. intros [e t'] [(h2 & conn & d & tr & body & Hh & H) Hp].
    split; [|done]. exists h2, conn, d, tr, body. split; [by eapply rtc_l|done]. }
  destruct ev as [a|a rs pid|a p|a r]; try exact Hrec.
  destruct (bool_decide (a = peer) && bool_decide (head p = Some MUX_KIND_RPC)) eqn:Eb; [|exact Hrec].
  apply andb_true_iff in Eb as [Ha%bool_decide_eq_true Hp%bool_decide_eq_true]. subst a.
  apply io_post_result. intros [e t'] He. destruct (rpc_framed p Hp) as (body & -> & Hb).
  rewrite Hb in He. destruct (envelope_from_slice body) as [e'|] eqn:Ee; [|done].
  cbn in He. injection He as <- <-. split; [|done].
  apply recv_one_sound in Hr as (from & d & inbox & reply & _ & Hstep & _).
  inversion Hstep as [conn tr pl Hc Hd| | | | | | | | | |]; subst.
  by eexists h, conn, _, tr, body.
Qed.

(** More fuel than datagrams is never used up. *)
Lemma drain_rpc_fuel fuel : forall fuel' h peer f w,
  length (w_inbox w) < fuel -> length (w_inbox w) < fuel' ->
  io_run (drain_for_rpc fuel h peer f) w = io_run (drain_for_rpc fuel' h peer f) w.
Proof.
  induction fuel as [|fuel IH]; intros fuel' h peer f w Hf Hf'; [lia|].
  destruct fuel' as [|fuel']; [lia|]. cbn [drain_for_rpc]. rewrite !run_bind_eq.
  destruct (io_run (next_seed f) w) as [[[seed|e]|] w1] eqn:Es; try done. cbn [run_bind].
  assert (Hw1 : w_inbox w1 = w_inbox w).
  { unfold next_seed in Es. rewrite run_suspend in Es. cbn in Es. by injection Es as _ <-. }
  rewrite !run_bind_eq.
  destruct (io_run (io_map_error (recv_one h seed) lib_error_to_tarpc) w1)
    as [[[[h1 ev]|e]|] w2] eqn:Er; try done. cbn [run_bind].
  apply run_map_error_Ok, recv_one_sound in Er as (from & d & inbox & reply & Hin & _ & ->).
  set (w2 := world_reply _ _ _).
  assert (Hlen : length (w_inbox w) = S (length (w_inbox w2))).
  { rewrite <- Hw1, Hin. unfold w2, world_received. destruct reply; cbn; by rewrite Hin. }
  assert (Hrec : io_run (drain_for_rpc fuel h1 peer f) w2 = io_run (drain_for_rpc fuel' h1 peer f) w2)
    by (apply IH; lia).
  destruct ev as [a|a rs pid|a p|a r]; try exact Hrec. by destruct (_ && _).
Qed.

Lemma run_ht_send h peer f env body h' w w' :
  envelope_to_vec env = Ok body ->
  io_run (host_send h peer (MUX_KIND_RPC :: body)) w = (Returned (Ok h'), w') ->
  io_run (ht_send (MkHostTransport h peer f) env) w = (Returned (Ok (MkHostTransport h' peer f)), w').
Proof.
  intros He Hs. unfold ht_send. rewrite run_bind_eq, run_result, He. cbn [map_err run_bind].
  apply (run_map_error_Ok _ lib_error_to_tarpc) in Hs. by rewrite run_fmap_eq, Hs.
Qed.

(** The next datagram is the peer's answer. *)
Lemma run_ht_recv fuel h peer f env body h' w w1 :
  envelope_from_slice body = Ok env ->
  (forall seed, io_run (recv_one h seed) w1 = (Returned (Ok (h', DatagramDelivered peer (MUX_KIND_RPC :: body))), world_received w1)) ->
  w1 = (call_seed f w).2 ->
  io_run (ht_recv (S fuel) (MkHostTransport h peer f)) w =
    (Returned (Ok (env, MkHostTransport h' peer f)), world_received w1).
Proof.
  intros He Hr Hw. cbn [ht_recv drain_for_rpc]. rewrite run_bind_eq. unfold next_seed.
  rewrite run_suspend. destruct (call_seed f w) as [seed w0]. cbn [snd] in Hw. subst w0. cbn [run_bind].
  rewrite run_bind_eq. specialize (Hr seed). apply (run_map_error_Ok _ lib_error_to_tarpc) in Hr.
  rewrite Hr. cbn [run_bind head]. rewrite !bool_decide_eq_true_2 by done. cbn [andb].
  rewrite run_result, get_from_unwrap_or, skipn_cons, drop_0, He. done.
Qed.

End lemmas.

(** ** Properties *)

Section properties.
Context `{C : Crypto, RT : IoRuntime, !IoLaws RT, T : Tarpc}.

(** C27: an envelope that a client's transport returns came from the peer it is
    anchored to: after some host steps, a datagram decrypted under the
    session the host holds for that peer, whose PeerId was proved by a
    signature over the session's static key, and its plaintext was the RPC
    kind byte and the envelope's JSON.  The host keeps its invariant, and
    the receive does not depend on fuel beyond the inbox. *)
Theorem rpc_recv_authentic (t t' : HostTransport) (fuel : nat) (e : Envelope RequestId) (w w' : World) :
  host_ok (ht_host t) -> length (w_inbox w) < fuel ->
  io_run (ht_recv fuel t) w = (Returned (Ok (e, t')), w') ->
  host_ok (ht_host t') /\ host_frame (ht_host t) (ht_host t') /\ ht_peer t' = ht_peer t /\
  (exists h1 conn d tr body, rtc host_step (ht_host t) h1 /\
     host_established h1 !! ht_peer t = Some conn /\ conn_bound conn /\
     transport_decrypt (conn_transport conn) d = (tr, Ok (MUX_KIND_RPC :: body)) /\
     envelope_from_slice body = Ok e) /\
  forall fuel', length (w_inbox w) < fuel' ->
    io_run (ht_recv fuel' t) w = (Returned (Ok (e, t')), w').
Proof.
  destruct t as [h peer f]. cbn [ht_host ht_peer ht_recv]. intros Hok Hfuel Hr.
  destruct (drain_rpc_post _ _ _ _ _ _ _ Hr)
    as ((h1 & conn & d & tr & body & Hh & Hs & Hc & Hd & He) & Hp & _).
  destruct (host_steps_ok _ _ Hh Hok) as [Hok1 F1]. destruct (host_step_frame _ _ Hs) as (G1 & G2 & G3).
  pose proof (host_step_ok _ _ Hok1 Hs). destruct F1 as (F1 & F2 & F3).
  split_and!; [done|unfold host_frame; split_and!; congruence|done| |].
  - exists h1, conn, d, tr, body. split_and!; try done. by apply (ok_bound _ Hok1 (peer)).
  - intros fuel' Hf'. rewrite <- Hr. by apply drain_rpc_fuel.
Qed.

Context `{!CryptoLaws C, !TarpcLaws T, SV : !Serve}.

(** C26: a call completes: over an established session the client sends a
    request; the server's next [serve_one] runs the handler, reports the
    request as handled and sends one datagram; and the client's next receive
    returns the handler's response as an envelope with the request's id, or
    the error of whatever stage failed on the server.  The handler is one
    that leaves the socket alone. *)
Theorem rpc_call_completes (hA hB : Host) (a b : UdpAddr) (f : SeedFactory) (id : RequestId)
    (payload : string) (answer : Envelope RequestId) (req rep : list byte) (sB : arr 32) (fuel : nat) :
  linked hA a hB b 2 ->
  envelope_to_vec (EnvRequest id payload) = Ok req -> envelope_to_vec answer = Ok rep ->
  (forall w, respond id payload w = (Returned (Ok answer), w)) ->
  payload_fits hA (MUX_KIND_RPC :: req) -> payload_fits hB (MUX_KIND_RPC :: rep) ->
  exists tA d hB' d' tA',
    (forall w, send_fault w = None ->
       io_run (ht_send (ht_new hA b f) (EnvRequest id payload)) w =
         (Returned (Ok tA), world_sent w b d)) /\
    (forall w inbox, w_inbox w = Ok (socket_of_udp a, d) :: inbox -> send_fault w = None ->
       io_run (serve_one hB sB) w =
         (Returned (Ok (hB', SvHandled a id)), world_sent (world_received w) a d')) /\
    (forall w inbox, w_inbox w = Ok (socket_of_udp b, d') :: inbox ->
       io_run (ht_recv (S fuel) tA) w =
         (Returned (Ok (answer, tA')), world_received (call_seed f w).2)) /\
    (exists text, answer = EnvResponse id text \/ answer = EnvError id text) /\
    linked (ht_host tA') a hB' b 0.
Proof.
  intros Hl Hreq Hrep Hans HfA HfB.
  destruct (linked_exchange hA a hB b 0 _ _ Hl HfA HfB)
    as (hA1 & d & hB1 & hB2 & d' & hA2 & S1 & R1 & S2 & R2 & Hl2 & _).
  exists (MkHostTransport hA1 b f), d, hB2, d', (MkHostTransport hA2 b f). split_and!; [| | | |done].
  - intros w Hw. eapply run_ht_send; [exact Hreq|by apply S1].
  - intros w inbox Hin Hw. unfold serve_one. rewrite run_bind_eq, (R1 _ _ _ Hin). cbn [run_bind].
    unfold handle_rpc_datagram. cbn [head]. rewrite bool_decide_eq_true_2 by done.
    rewrite get_from_unwrap_or, skipn_cons, drop_0, (envelope_from_to _ _ Hreq).
    unfold dispatch_request. rewrite run_bind_eq, run_suspend, Hans. cbn [run_bind].
    rewrite run_bind_eq, run_result, Hrep. cbn [map_err run_bind].
    by rewrite run_fmap_eq, S2.
  - intros w inbox Hin. eapply run_ht_recv; [by apply envelope_from_to| |done].
    intros seed. eapply R2. cbn. exact Hin.
  - specialize (Hans (quiet_world [])). unfold respond in Hans.
    destruct (map_err from_deserialize (request_from_str payload)) as [r|e]; [|injection Hans as <-; by eauto].
    destruct (io_run (sv_handle r) _) as [[[x|e]|] w']; [|injection Hans as <- _; by eauto|done].
    destruct (map_err from_serialize (response_to_string x)); injection Hans as <- _; by eauto.
Qed.

End properties.

(** ** Witnesses *)

(** A toy framework: an envelope's JSON is a tag, an id and the text; the
    service answers with its request. *)
Definition toy_tarpc : Tarpc := {|
  RequestId := byte;
  SerdeError := string;
  serde_display e := e;
  envelope_to_vec e := Ok match e with
    | EnvRequest id p => x00 :: id :: str_bytes p
    | EnvResponse id p => x01 :: id :: str_bytes p
    | EnvError id p => x02 :: id :: str_bytes p
    end;
  envelope_from_slice l := match l with
    | x00 :: id :: p => Ok (EnvRequest id (bytes_str p))
    | x01 :: id :: p => Ok (EnvResponse id (bytes_str p))
    | x02 :: id :: p => Ok (EnvError id (bytes_str p))
    | _ => Err "not an envelope"%string
    end;
  TarpcError := string;
  tarpc_display e := e;
  from_serialize e := e;
  from_deserialize e := e;
  tarpc_io e := io_text e;
  tarpc_server e := e
|}.

Lemma toy_tarpc_laws : TarpcLaws toy_tarpc.
Proof. split. intros [id p|id p|id p] bytes [= <-]; cbn; by rewrite bytes_str_bytes. Qed.

Section toy.
#[local] Existing Instance direct_io.
#[local] Existing Instance direct_io_laws.
#[local] Existing Instance toy_crypto.
#[local] Existing Instance toy_crypto_laws.
#[local] Existing Instance toy_tarpc.
#[local] Existing Instance toy_tarpc_laws.

(** An echo service. *)
Definition toy_service : Serve := {|
  SvRequest := string;
  SvResponse := string;
  request_from_str s := Ok s;
  response_to_string s := Ok s;
  sv_handle r := io_pure r
|}.
#[local] Existing Instance toy_service.

Definition toy_id7 : byte := x07.
Definition toy_seeds : SeedFactory := fun _ => arr_repeat 32 x03.

Lemma rpc_call_completes_witness :
  exists tA d hB' d' tA',
    io_run (ht_send (ht_new toy_A (loopback 4002) toy_seeds) (EnvRequest toy_id7 "hi"%string))
      (quiet_world []) = (Returned (Ok tA), world_sent (quiet_world []) (loopback 4002) d) /\
    (let w := quiet_world [(socket_of_udp (loopback 4001), d)] in
     io_run (serve_one toy_B (arr_repeat 32 x03)) w =
       (Returned (Ok (hB', SvHandled (loopback 4001) toy_id7)),
        world_sent (world_received w) (loopback 4001) d')) /\
    (let w := quiet_world [(socket_of_udp (loopback 4002), d')] in
     io_run (ht_recv 1 tA) w =
       (Returned (Ok (EnvResponse toy_id7 "hi"%string, tA')), world_received (call_seed toy_seeds w).2)).
Proof.
  destruct (rpc_call_completes (T:=toy_tarpc) toy_A toy_B (loopback 4001) (loopback 4002) toy_seeds
    toy_id7 "hi" (EnvResponse toy_id7 "hi"%string) (x00 :: toy_id7 :: str_bytes "hi")
    (x01 :: toy_id7 :: str_bytes "hi") (arr_repeat 32 x03) 0)
    as (tA & d & hB' & d' & tA' & H1 & H2 & H3 & _).
  - by apply toy_linked.
  - reflexivity.
  - reflexivity.
  - intros w. reflexivity.
  - split; done.
  - split; done.
  - exists tA, d, hB', d', tA'. split; [by apply H1|]. split.
    + exact (H2 (quiet_world [(socket_of_udp (loopback 4001), d)]) [] eq_refl eq_refl).
    + exact (H3 (quiet_world [(socket_of_udp (loopback 4002), d')]) [] eq_refl).
Defined.

(** What a server sends is what its client's transport returns. *)
Lemma toy_receives :
  exists d t', io_run (ht_recv 2 (ht_new toy_A (loopback 4002) toy_seeds))
      (quiet_world [(socket_of_udp (loopback 4002), d)]) =
    (Returned (Ok (EnvResponse toy_id7 "hi"%string, t')),
     world_received (call_seed toy_seeds (quiet_world [(socket_of_udp (loopback 4002), d)])).2).
Proof.
  destruct (linked_transfer toy_B (loopback 4002) toy_A (loopback 4001) 0
    (MUX_KIND_RPC :: x01 :: toy_id7 :: str_bytes "hi")) as (hB' & d & hA' & _ & Hr & _).
  { by apply linked_sym, toy_linked. }
  { split; done. }
  exists d, (MkHostTransport hA' (loopback 4002) toy_seeds).
  apply (run_ht_recv (T:=toy_tarpc) 1 toy_A (loopback 4002) toy_seeds
    (EnvResponse toy_id7 "hi"%string) (x01 :: toy_id7 :: str_bytes "hi")); [reflexivity| |reflexivity].
  intros seed. by eapply Hr.
Qed.

Lemma rpc_recv_authentic_witness :
  exists d t' w',
    io_run (ht_recv 2 (ht_new toy_A (loopback 4002) toy_seeds))
      (quiet_world [(socket_of_udp (loopback 4002), d)]) =
      (Returned (Ok (EnvResponse toy_id7 "hi"%string, t')), w') /\ host_ok (ht_host t').
Proof.
  destruct toy_receives as (d & t' & Hr). eexists d, t', _. split; [exact Hr|].
  destruct (rpc_recv_authentic (T:=toy_tarpc) _ _ _ _ _ _
    (toy_session_ok 4001 x01 x02 4002 x03 x04 x0a x0b : host_ok (ht_host (ht_new toy_A (loopback 4002) toy_seeds)))
    (Nat.lt_1_2 : length (w_inbox (quiet_world [(socket_of_udp (loopback 4002), d)])) < 2) Hr)
    as (Hok & _).
  exact Hok.
Defined.

End toy.
