(* ===== verification/StdText.v ===== *)
(** * Text the standard library reads and prints

    What the command-line programs use besides [Fmt.v]:
    [SocketAddr::from_str], the [Display] and [Debug] of socket addresses and
    of byte arrays, and [String::from_utf8_lossy]. *)

From S2P Require Export Types.
From Stdlib Require Import Strings.Ascii.

#[local] Open Scope string_scope.

(** ** [core::net::parser]

    A parser takes the unread bytes and gives its value with the rest; one
    that fails leaves its input to the alternatives ([read_atomically]). *)

Definition parser (A : Type) : Type := list byte -> option (A * list byte).

#[export] Instance parser_ret : MRet parser := fun A a s => Some (a, s).
#[export] Instance parser_bind : MBind parser := fun A B k p s =>
  match p s with Some (a, s') => k a s' | None => None end.
#[export] Instance parser_fmap : FMap parser := fun A B f p s =>
  match p s with Some (a, s') => Some (f a, s') | None => None end.

(** A parser of [option]: [Some] to go on, [None] to fail. *)
Definition parser_opt {A} (o : option A) : parser A := fun s =>
  match o with Some a => Some (a, s) | None => None end.
Definition parser_or {A} (p q : parser A) : parser A := fun s =>
  match p s with Some r => Some r | None => q s end.
Definition parser_try {A} (p : parser A) (a : A) : parser A := parser_or p (mret a).

Definition read_given_char (target : byte) : parser () := fun s =>
  match s with
  | c :: s' => if decide (c = target) then Some ((), s') else None
  | [] => None
  end.

(** [char::to_digit]. *)
Definition to_digit (radix : N) (c : byte) : option N :=
  let n := b2n c in
  let d :=
    if (48 <=? n)%N && (n <=? 57)%N then Some (n - 48)%N
    else if (97 <=? n)%N && (n <=? 122)%N then Some (n - 87)%N
    else if (65 <=? n)%N && (n <=? 90)%N then Some (n - 55)%N
    else None in
  match d with
  | Some d => if (d <? radix)%N then Some d else None
  | None => None
  end.

Definition starts_with_zero (s : list byte) : bool := bool_decide (head s = Some x30).

(** The digits of a number that at most [max_digits] digits may have. *)
Fixpoint digits_upto (radix : N) (max_digits count : nat) (result : N) (s : list byte)
    : option (N * nat * list byte) :=
  match s with
  | c :: s' =>
      match to_digit radix c with
      | Some d =>
          if (max_digits <? S count)%nat then None
          else digits_upto radix max_digits (S count) (result * radix + d)%N s'
      | None => Some (result, count, s)
      end
  | [] => Some (result, count, s)
  end.

(** The digits of a number below [limit], each operation checked. *)
Fixpoint digits_checked (radix limit : N) (count : nat) (result : N) (s : list byte)
    : option (N * nat * list byte) :=
  match s with
  | c :: s' =>
      match to_digit radix c with
      | Some d =>
          if (limit <=? result * radix)%N then None
          else if (limit <=? result * radix + d)%N then None
          else digits_checked radix limit (S count) (result * radix + d)%N s'
      | None => Some (result, count, s)
      end
  | [] => Some (result, count, s)
  end.

(** [read_number]; the result has [w] bits. *)
Definition read_number {w : N} (radix : N) (max_digits : option nat) (allow_zero_prefix : bool)
    : parser (uint w) := fun s =>
  let has_leading_zero := starts_with_zero s in
  match
    match max_digits with
    | Some max_digits => digits_upto radix max_digits 0 0%N s
    | None => digits_checked radix (2 ^ w) 0 0%N s
    end
  with
  | Some (result, digit_count, s') =>
      if (digit_count =? 0)%nat then None
      else if negb allow_zero_prefix && has_leading_zero && (1 <? digit_count)%nat then None
      else match uint_try result with Some n => Some (n, s') | None => None end
  | None => None
  end.

Definition read_separator {A} (sep : byte) (index : nat) (inner : parser A) : parser A :=
  if (0 <? index)%nat then _ ← read_given_char sep; inner else inner.

(** [read_ipv4_addr]. *)
Definition read_octet (i : nat) : parser byte :=
  n ← read_separator x2e i (read_number (w:=8) 10 (Some 3) false);
  mret (n2b (uval n)).
Definition read_ipv4_addr : parser (arr 4) :=
  a ← read_octet 0;
  b ← read_octet 1;
  c ← read_octet 2;
  d ← read_octet 3;
  parser_opt (arr_try [a; b; c; d]).

(** [read_groups]: the 16-bit groups read, up to [limit], and whether an
    embedded IPv4 address ended them; [todo] slots are left, the next is [i]. *)
Fixpoint read_groups (limit i todo : nat) (s : list byte) : list u16 * bool * list byte :=
  match todo with
  | 0 => ([], false, s)
  | S todo' =>
      let ipv4 :=
        if (S i <? limit)%nat then read_separator x3a i read_ipv4_addr s else None in
      match ipv4 with
      | Some (v4_addr, s') =>
          let l := arr_list v4_addr in
          ([from_be (take 2 l); from_be (drop 2 l)], true, s')
      | None =>
          match read_separator x3a i (read_number (w:=16) 16 (Some 4) true) s with
          | Some (g, s') =>
              let '(gs, v4, s'') := read_groups limit (S i) todo' s' in (g :: gs, v4, s'')
          | None => ([], false, s)
          end
      end
  end.

Definition ipv6_of_groups (gs : list u16) : option (arr 16) :=
  arr_try (concat (be_bytes 2 <$> gs)).

(** [read_ipv6_addr]: the groups before [::], and what follows it. *)
Definition read_ipv6_tail (head : list u16) : parser (arr 16) := fun s =>
  let limit := 8 - (length head + 1) in
  let '(tail, _, s') := read_groups limit 0 limit s in
  let zeros := replicate (8 - length tail - length head) (uint_wrap 0) in
  parser_opt (ipv6_of_groups (head ++ zeros ++ tail)) s'.
Definition read_ipv6_addr : parser (arr 16) := fun s =>
  let '(head, head_ipv4, s') := read_groups 8 0 8 s in
  let rest : parser (arr 16) :=
    if (length head =? 8)%nat then parser_opt (ipv6_of_groups head)
    else if head_ipv4 then parser_opt None
    else _ ← read_given_char x3a; _ ← read_given_char x3a; read_ipv6_tail head in
  rest s'.

Definition read_port : parser u16 :=
  _ ← read_given_char x3a; read_number 10 None true.
Definition read_scope_id : parser u32 :=
  _ ← read_given_char x25; read_number 10 None true.

Definition read_socket_addr_v4 : parser SocketAddrV4 :=
  ip ← read_ipv4_addr; port ← read_port; mret (MkV4 ip port).
Definition read_socket_addr_v6 : parser SocketAddrV6 :=
  _ ← read_given_char x5b;
  ip ← read_ipv6_addr;
  scope_id ← parser_try read_scope_id (uint_wrap 0);
  _ ← read_given_char x5d;
  port ← read_port;
  mret (MkV6 ip port (uint_wrap 0) scope_id).
Definition read_socket_addr : parser SocketAddr :=
  parser_or (SocketV4 <$> read_socket_addr_v4) (SocketV6 <$> read_socket_addr_v6).

(** [SocketAddr::from_str], and the [Display] of its error. *)
Definition socket_addr_from_str (s : string) : result string SocketAddr :=
  match read_socket_addr (str_bytes s) with
  | Some (a, []) => Ok a
  | _ => Err "invalid socket address syntax"
  end.

(** ** [Display] and [Debug] *)

(** [impl Display for SocketAddrV4] and [SocketAddrV6]; [Debug] is the same. *)
Definition v4_display (s : SocketAddrV4) : string :=
  ipv4_display (v4_ip s) ++ ":" ++ dec (uval (v4_port s)).
Definition v6_display (s : SocketAddrV6) : string :=
  "[" ++ ipv6_display (v6_ip s) ++
  (if (uval (v6_scope_id s) =? 0)%N then "" else "%" ++ dec (uval (v6_scope_id s))) ++
  "]:" ++ dec (uval (v6_port s)).

(** [{:?}] and [{:02x?}] of a byte slice. *)
Definition bytes_debug (l : list byte) : string :=
  "[" ++ String.concat ", " ((fun b => dec (b2n b)) <$> l) ++ "]".
Definition bytes_hex_debug (l : list byte) : string :=
  "[" ++ String.concat ", " (hex02 <$> l) ++ "]".

(** The derived [Debug] of a tuple variant and of a struct variant. *)
Definition debug_tuple (name field : string) : string := name ++ "(" ++ field ++ ")".
Definition debug_struct (name : string) (fields : list (string * string)) : string :=
  name ++ " { " ++ String.concat ", " ((fun f => f.1 ++ ": " ++ f.2) <$> fields) ++ " }".

Definition udp_addr_debug (a : UdpAddr) : string :=
  match a with
  | V4 s => debug_tuple "V4" (v4_display s)
  | V6 s => debug_tuple "V6" (v6_display s)
  end.

(** ** [String::from_utf8_lossy]

    Every maximal invalid part is replaced by U+FFFD. *)
Definition REPLACEMENT : list byte := [xef; xbf; xbd].

Fixpoint utf8_lossy (fuel : nat) (l : list byte) : list byte :=
  match fuel with
  | 0 => []
  | S fuel' =>
      match utf8_check 0 l with
      | None => l
      | Some e =>
          take (valid_up_to e) l ++ REPLACEMENT ++
          match error_len e with
          | Some n => utf8_lossy fuel' (drop (valid_up_to e + n) l)
          | None => []
          end
      end
  end%list.

(** Every part skipped is at least one byte. *)
Definition from_utf8_lossy (l : list byte) : string := bytes_str (utf8_lossy (S (length l)) l).

Lemma from_utf8_lossy_valid l s : from_utf8 l = Ok s -> from_utf8_lossy l = s.
Proof.
  unfold from_utf8, from_utf8_lossy. cbn [utf8_lossy].
  destruct (utf8_check 0 l); [done|]. by intros [= <-].
Qed.

(** ** Decimal numbers are read back *)

#[local] Close Scope string_scope.

Definition digit_val (c : byte) : N := default 0%N (to_digit 10 c).
Definition digits_val (acc : N) (ds : list byte) : N :=
  foldl (fun acc c => acc * 10 + digit_val c)%N acc ds.
Definition is_digit (c : byte) : Prop := to_digit 10 c = Some (digit_val c).

(** [rest] does not go on with a digit. *)
Definition ends_number (rest : list byte) : Prop :=
  forall c, head rest = Some c -> to_digit 10 c = None.

Lemma digits_val_le ds : forall acc, (acc <= digits_val acc ds)%N.
Proof.
  induction ds as [|c ds IH]; intros acc; cbn; [lia|].
  specialize (IH (acc * 10 + digit_val c)%N). unfold digits_val in IH. lia.
Qed.

Lemma digits_upto_end max count result rest :
  ends_number rest -> digits_upto 10 max count result rest = Some (result, count, rest).
Proof. destruct rest as [|c rest]; intros H; cbn; [done|]. by rewrite (H c eq_refl). Qed.

Lemma digits_upto_app max ds rest : forall count acc,
  Forall is_digit ds -> ends_number rest -> (count + length ds <= max)%nat ->
  digits_upto 10 max count acc (ds ++ rest) =
    Some (digits_val acc ds, (count + length ds)%nat, rest).
Proof.
  induction ds as [|c ds IH]; intros count acc Hd He Hm; cbn [length] in Hm.
  { rewrite Nat.add_0_r. by apply digits_upto_end. }
  apply Forall_cons in Hd as [Hc Hd]. cbn [app digits_upto]. rewrite Hc.
  destruct (Nat.ltb_spec max (S count)); [lia|]. rewrite IH by (done || lia).
  cbn. by rewrite Nat.add_succ_r.
Qed.

Lemma digits_checked_app limit ds rest : forall count acc,
  Forall is_digit ds -> ends_number rest -> (digits_val acc ds < limit)%N ->
  digits_checked 10 limit count acc (ds ++ rest) =
    Some (digits_val acc ds, (count + length ds)%nat, rest).
Proof.
  induction ds as [|c ds IH]; intros count acc Hd He Hm.
  { rewrite Nat.add_0_r. destruct rest as [|c rest]; cbn; [done|]. by rewrite (He c eq_refl). }
  apply Forall_cons in Hd as [Hc Hd]. cbn [app digits_checked]. rewrite Hc.
  cbn [digits_val foldl] in Hm. fold (digits_val (acc * 10 + digit_val c) ds) in Hm.
  pose proof (digits_val_le ds (acc * 10 + digit_val c)).
  destruct (N.leb_spec limit (acc * 10)); [lia|].
  destruct (N.leb_spec limit (acc * 10 + digit_val c)); [lia|].
  rewrite IH by done. cbn [digits_val foldl length]. by rewrite Nat.add_succ_r.
Qed.

Lemma str_bytes_cons a s : str_bytes (String a s) = byte_of_ascii a :: str_bytes s.
Proof. done. Qed.

Lemma pretty_N_char_digit d :
  (d < 10)%N -> let c := byte_of_ascii (pretty_N_char d) in
  to_digit 10 c = Some d /\ (c = x30 <-> d = 0%N).
Proof.
  intros Hd. assert (d = 0 \/ d = 1 \/ d = 2 \/ d = 3 \/ d = 4 \/ d = 5 \/ d = 6 \/ d = 7 \/
    d = 8 \/ d = 9)%N as H by lia. by repeat destruct H as [->|H]; subst.
Qed.

Record decimal (n : N) (ds : list byte) : Prop := Decimal {
  decimal_digits : Forall is_digit ds;
  decimal_val : digits_val 0 ds = n;
  decimal_nonempty : (0 < length ds)%nat;
  decimal_zero : head ds = Some x30 -> length ds = 1;
  decimal_short : forall k, (0 < k)%nat -> (n < 10 ^ N.of_nat k)%N -> (length ds <= k)%nat
}.

Lemma pretty_N_go_decimal n : (0 < n)%N -> forall s,
  exists ds, str_bytes (pretty_N_go n s) = (ds ++ str_bytes s)%list /\
    decimal n ds /\ head ds <> Some x30.
Proof.
  induction (N.lt_wf_0 n) as [n _ IH]. intros Hn s. rewrite pretty_N_go_step by done.
  pose proof (N.mod_lt n 10 ltac:(done)) as Hm.
  pose proof (pretty_N_char_digit (n mod 10) Hm) as [Hd Hz].
  set (c := byte_of_ascii (pretty_N_char (n mod 10))) in *.
  assert (Hv : digit_val c = (n mod 10)%N) by (unfold digit_val; by rewrite Hd).
  assert (Hc : is_digit c) by (unfold is_digit; by rewrite Hd, Hv).
  pose proof (N.div_mod n 10 ltac:(done)) as Hdm.
  destruct (decide (n / 10 = 0)%N) as [H0|H0].
  - rewrite H0, pretty_N_go_0. exists [c]. split; [done|].
    assert (c <> x30) by (rewrite Hz; lia).
    split; [|cbn; congruence]. split; [by constructor|cbn; rewrite Hv; lia|cbn; lia|done|cbn; lia].
  - destruct (IH (n / 10)%N ltac:(apply N.div_lt; lia) ltac:(lia)
      (String (pretty_N_char (n mod 10)) s)) as (ds & Hs & [D1 D2 D3 D4 D5] & Hh).
    exists (ds ++ [c])%list. rewrite Hs, str_bytes_cons. fold c. split; [by rewrite <- app_assoc|].
    assert (Hhead : head (ds ++ [c]) = head ds) by (destruct ds; [cbn in D3; lia|done]).
    split; [|by rewrite Hhead]. split.
    + apply Forall_app_2; [done|by constructor].
    + unfold digits_val in *. rewrite foldl_app, D2. cbn. rewrite Hv. lia.
    + rewrite length_app. cbn. lia.
    + by rewrite Hhead.
    + intros k Hk Hlt. rewrite length_app. cbn [length]. destruct k as [|[|k]]; [lia| |].
      * exfalso. apply H0. apply N.div_small. lia.
      * specialize (D5 (S k) ltac:(lia)). rewrite (Nat2N.inj_succ (S k)), N.pow_succ_r' in Hlt.
        assert (n / 10 < 10 ^ N.of_nat (S k))%N by (apply N.Div0.div_lt_upper_bound; lia). lia.
Qed.

Lemma dec_decimal n : decimal n (str_bytes (dec n)).
Proof.
  unfold dec, pretty, pretty_N. case_decide as Hn.
  { subst n. split; [by repeat constructor|done|cbn; lia|done|cbn; lia]. }
  destruct (pretty_N_go_decimal n ltac:(lia) ""%string) as (ds & -> & Hd & _). by rewrite app_nil_r.
Qed.

(** A number printed in full is read by both flavours of [read_number]. *)
Lemma read_number_octet (b : byte) rest :
  ends_number rest ->
  exists n, read_number (w:=8) 10 (Some 3) false (str_bytes (dec (b2n b)) ++ rest) = Some (n, rest) /\
    uval n = b2n b.
Proof.
  intros He. destruct (dec_decimal (b2n b)) as [D1 D2 D3 D4 D5]. pose proof (b2n_lt b) as Hb.
  specialize (D5 3 ltac:(lia) ltac:(change (10 ^ N.of_nat 3)%N with 1000%N; lia)).
  unfold read_number. rewrite digits_upto_app by done. rewrite D2. cbn [Nat.add].
  set (ds := str_bytes _) in *. destruct (Nat.eqb_spec (length ds) 0); [lia|].
  assert (negb false && starts_with_zero (ds ++ rest) && (1 <? length ds) = false) as ->.
  { cbn [negb andb]. unfold starts_with_zero. destruct (bool_decide_reflect (head (ds ++ rest) = Some x30)) as [H|];
      [|done]. rewrite D4; [done|]. destruct ds; [cbn in D3; lia|done]. }
  destruct (uint_try (w:=8) (b2n b)) as [m|] eqn:E.
  - exists m. split; [done|]. by apply uint_try_Some in E.
  - apply uint_try_None in E. cbn in E. lia.
Qed.

Lemma read_number_checked {w} (n : uint w) rest :
  ends_number rest ->
  read_number (w:=w) 10 None true (str_bytes (dec (uval n)) ++ rest) = Some (n, rest).
Proof.
  intros He. destruct (dec_decimal (uval n)) as [D1 D2 D3 D4 D5].
  pose proof (uint_lt n) as Hb. unfold read_number. rewrite digits_checked_app by (done || by rewrite D2).
  rewrite D2. cbn [Nat.add]. set (ds := str_bytes _) in *. destruct (Nat.eqb_spec (length ds) 0); [lia|].
  cbn [negb andb]. destruct (uint_try (w:=w) (uval n)) as [m|] eqn:E.
  - apply uint_try_Some in E. by apply uint_eq in E as ->.
  - apply uint_try_None in E. lia.
Qed.

Lemma str_bytes_app s1 s2 : str_bytes (s1 ++ s2)%string = str_bytes s1 ++ str_bytes s2.
Proof.
  induction s1 as [|a s1 IH]; [done|]. change (String a s1 +:+ s2) with (String a (s1 +:+ s2)).
  by rewrite !str_bytes_cons, IH.
Qed.

Lemma read_octet_dec i (b : byte) rest :
  ends_number rest ->
  read_octet i ((if (0 <? i)%nat then [x2e] else []) ++ str_bytes (dec (b2n b)) ++ rest)%list =
    Some (b, rest).
Proof.
  intros He. destruct (read_number_octet b rest He) as (n & Hn & Hv).
  unfold read_octet, read_separator, mbind, parser_bind.
  destruct (0 <? i)%nat; cbn [app read_given_char]; [rewrite decide_True by done|];
    rewrite Hn; cbn; by rewrite Hv, n2b_b2n.
Qed.

Lemma ends_number_cons c l : to_digit 10 c = None -> ends_number (c :: l).
Proof. by intros H c' [= <-]. Qed.

Lemma read_ipv4_display ip rest :
  ends_number rest -> read_ipv4_addr (str_bytes (ipv4_display ip) ++ rest)%list = Some (ip, rest).
Proof.
  intros He. destruct (arr_list ip) as [|a [|b [|c [|d [|]]]]] eqn:El;
    pose proof (length_arr ip) as Hl; rewrite El in Hl; try discriminate Hl.
  unfold ipv4_display. rewrite El. cbn [fmap list_fmap String.concat].
  rewrite !str_bytes_app, <- !app_assoc. change (str_bytes "."%string) with [x2e].
  unfold read_ipv4_addr, mbind, parser_bind.
  pose proof (read_octet_dec 0 a) as R0. pose proof (read_octet_dec 1 b) as R1.
  pose proof (read_octet_dec 2 c) as R2. pose proof (read_octet_dec 3 d) as R3.
  cbn [Nat.ltb Nat.leb app] in R0, R1, R2, R3. cbn [app].
  rewrite R0 by by apply ends_number_cons.
  rewrite R1 by by apply ends_number_cons. rewrite R2 by by apply ends_number_cons. rewrite R3 by done.
  unfold parser_opt. rewrite <- El, arr_try_arr. done.
Qed.

Lemma socket_addr_v4_display (s : SocketAddrV4) :
  socket_addr_from_str (v4_display s) = Ok (SocketV4 s).
Proof.
  destruct s as [ip port]. unfold socket_addr_from_str, v4_display. cbn [v4_ip v4_port].
  rewrite !str_bytes_app. change (str_bytes ":"%string) with [x3a]. cbn [app].
  unfold read_socket_addr, parser_or, fmap, parser_fmap, read_socket_addr_v4, mbind, parser_bind.
  rewrite read_ipv4_display by by apply ends_number_cons.
  unfold read_port, mbind, parser_bind. cbn [read_given_char]. rewrite decide_True by done.
  pose proof (read_number_checked port []) as H. rewrite app_nil_r in H. by rewrite H.
Qed.

(** Text that begins neither with a digit nor with a bracket is no address. *)
Lemma socket_addr_bad_start c s :
  to_digit 10 (byte_of_ascii c) = None -> byte_of_ascii c <> x5b ->
  is_ok (socket_addr_from_str (String c s)) = false.
Proof.
  intros Hd Hb. unfold socket_addr_from_str. rewrite str_bytes_cons.
  unfold read_socket_addr, parser_or, fmap, parser_fmap, read_socket_addr_v4, read_socket_addr_v6,
    read_ipv4_addr, read_octet, read_separator, read_number, mbind, parser_bind.
  cbn [Nat.ltb Nat.leb digits_upto]. rewrite Hd. cbn [Nat.eqb read_given_char]. by rewrite decide_False.
Qed.
