(* ===== verification/Process.v ===== *)
(** * The process of a command-line program

    The programs of src/examples run their effects at once, one [run()?] after
    the other, and also use their arguments, the standard streams and the
    system's randomness.  [Process] is what the operating system holds of a
    program: the socket [World] of [Io.v] and these.  [Prog] is an expression
    of type [Result<A, Error>] evaluated in it.

    A formatted write appears as a whole or fails.  The crate [getrandom] is
    known by its answers [pr_entropy], which may differ from call to call. *)

From S2P Require Export StdText Udp.

#[local] Open Scope string_scope.

Inductive OutStream : Type := Stdout | Stderr.

Record Process : Type := MkProcess {
  pr_world : World;
  pr_args : list string;  (* [env::args()], the program's own name first *)
  pr_stdin : list (result io_error (list byte));  (* what the next [read_line]s find *)
  pr_eof : bool;  (* after these, the end of the input, or waiting for ever *)
  pr_entropy : nat -> result string (arr 32);  (* the answers of [getrandom] *)
  pr_out_faults : list (option io_error);  (* failures of the next writes and flushes *)
  pr_out : list (OutStream * string)  (* text written, oldest first *)
}.

Definition on_world (p : Process) (w : World) : Process :=
  MkProcess w (pr_args p) (pr_stdin p) (pr_eof p) (pr_entropy p) (pr_out_faults p) (pr_out p).

(** ** Expressions with [?] *)

Definition Prog (A : Type) : Type := Process -> outcome Error A * Process.

#[export] Instance prog_ret : MRet Prog := fun A a p => (Returned (Ok a), p).
#[export] Instance prog_bind : MBind Prog := fun A B k m p =>
  match m p with
  | (Returned (Ok a), p') => k a p'
  | (Returned (Err e), p') => (Returned (Err e), p')
  | (Blocked, p') => (Blocked, p')
  end.

Definition prog_result {A} (r : result Error A) : Prog A := fun p => (Returned r, p).
Definition prog_blocked {A} : Prog A := fun p => (Blocked, p).

(** [io.run()?]. *)
Definition run_prog `{IoRuntime} {A} (m : Io Error A) : Prog A := fun p =>
  let '(o, w) := io_run m (pr_world p) in (o, on_world p w).

(** ** What the standard library and [getrandom] do *)

(** The result of one write or flush; [text] appears when it succeeds. *)
Definition std_write (stream : OutStream) (text : string) : Prog () := fun p =>
  let after out :=
    MkProcess (pr_world p) (pr_args p) (pr_stdin p) (pr_eof p) (pr_entropy p)
      (tail (pr_out_faults p)) out in
  match pr_out_faults p with
  | Some e :: _ => (Returned (Err (error_from_io e)), after (pr_out p))
  | _ => (Returned (Ok ()), after (pr_out p ++ [(stream, text)])%list)
  end.
Definition std_flush : Prog () := fun p =>
  let p' := MkProcess (pr_world p) (pr_args p) (pr_stdin p) (pr_eof p) (pr_entropy p)
              (tail (pr_out_faults p)) (pr_out p) in
  match pr_out_faults p with
  | Some e :: _ => (Returned (Err (error_from_io e)), p')
  | _ => (Returned (Ok ()), p')
  end.

(** A newline: [writeln!] appends it, [read_line] keeps it. *)
Definition newline : string := bytes_str [x0a].
Definition std_writeln (stream : OutStream) (text : string) : Prog () :=
  std_write stream (text ++ newline).

(** [stdin().lock().read_line(&mut buffer)] on an empty buffer: the count of
    bytes read, none at the end of the input, and the buffer. *)
Definition std_read_line : Prog (nat * string) := fun p =>
  let after rest :=
    MkProcess (pr_world p) (pr_args p) rest (pr_eof p) (pr_entropy p) (pr_out_faults p) (pr_out p) in
  match pr_stdin p with
  | [] => if pr_eof p then (Returned (Ok (0, "")), p) else (Blocked, p)
  | Err e :: rest => (Returned (Err (error_from_io e)), after rest)
  | Ok line :: rest =>
      match from_utf8 line with
      | Ok s => (Returned (Ok (length line, s)), after rest)
      | Err _ =>
          (Returned (Err (error_from_io (IoError "stream did not contain valid UTF-8"))), after rest)
      end
  end.

(** [env::args()]. *)
Definition std_args : Prog (list string) := fun p => (Returned (Ok (pr_args p)), p).

(** [getrandom::getrandom(&mut seed)] and the seed it filled. *)
Definition draw (w : World) : World :=
  MkWorld (w_bind w) (w_inbox w) (w_send_faults w) (w_sent w) (S (w_calls w)).
Definition getrandom (f : string -> Error) : Prog (arr 32) := fun p =>
  (Returned (map_err f (pr_entropy p (w_calls (pr_world p)))), on_world p (draw (pr_world p))).

(** [s.trim_end_matches(['\n', '\r'])]. *)
Fixpoint trim_newlines (rev_s : list byte) : list byte :=
  match rev_s with
  | c :: rev_s' => if bool_decide (c = x0a) || bool_decide (c = x0d) then trim_newlines rev_s' else rev_s
  | [] => []
  end.
Definition trim_end_newlines (s : string) : string := bytes_str (rev (trim_newlines (rev (str_bytes s)))).

#[local] Close Scope string_scope.

(** ** Lemmas *)

Lemma prog_bind_eq {A B} (m : Prog A) (k : A -> Prog B) p :
  (m ≫= k) p =
    match m p with
    | (Returned (Ok a), p') => k a p'
    | (Returned (Err e), p') => (Returned (Err e), p')
    | (Blocked, p') => (Blocked, p')
    end.
Proof. done. Qed.

Lemma prog_bind_Ok {A B} (m : Prog A) (k : A -> Prog B) p a p' :
  m p = (Returned (Ok a), p') -> (m ≫= k) p = k a p'.
Proof. intros H. by rewrite prog_bind_eq, H. Qed.

Lemma prog_bind_Err {A B} (m : Prog A) (k : A -> Prog B) p e p' :
  m p = (Returned (Err e), p') -> (m ≫= k) p = (Returned (Err e), p').
Proof. intros H. by rewrite prog_bind_eq, H. Qed.

(** Two continuations that agree on what the first part returns. *)
Lemma prog_bind_ext {A B} (m : Prog A) (k k' : A -> Prog B) p :
  (forall a p', m p = (Returned (Ok a), p') -> k a p' = k' a p') -> (m ≫= k) p = (m ≫= k') p.
Proof. intros H. rewrite !prog_bind_eq. destruct (m p) as [[[a|e]|] p'] eqn:E; try done. by apply H. Qed.

Lemma run_prog_eq `{IoRuntime} {A} (m : Io Error A) p o w :
  io_run m (pr_world p) = (o, w) -> run_prog m p = (o, on_world p w).
Proof. intros H0. unfold run_prog. by rewrite H0. Qed.

(** A process whose streams work. *)
Definition quiet (p : Process) : Prop := pr_out_faults p = [].

(** The same process with more text written. *)
Definition wrote (p : Process) (stream : OutStream) (text : string) : Process :=
  MkProcess (pr_world p) (pr_args p) (pr_stdin p) (pr_eof p) (pr_entropy p) (pr_out_faults p)
    (pr_out p ++ [(stream, text)]).

Lemma run_write stream text p : quiet p -> std_write stream text p = (Returned (Ok ()), wrote p stream text).
Proof. unfold quiet, std_write, wrote. by intros ->. Qed.

Lemma run_flush p : quiet p -> std_flush p = (Returned (Ok ()), p).
Proof. unfold quiet, std_flush. destruct p. cbn. by intros ->. Qed.

(** ** A line typed at the keyboard *)

(** Text that is not empty and does not end in a newline or carriage return. *)
Definition plain_line (s : string) : Prop :=
  is_str s = true /\ exists l c, str_bytes s = l ++ [c] /\ c <> x0a /\ c <> x0d.

Definition typed (s : string) : result io_error (list byte) := Ok (str_bytes s ++ [x0a]).

Lemma trim_typed s : plain_line s -> trim_end_newlines (bytes_str (str_bytes s ++ [x0a])) = s.
Proof.
  intros (_ & l & c & Hs & H1 & H2). unfold trim_end_newlines. rewrite str_bytes_str, Hs.
  rewrite !rev_app_distr. cbn [rev app trim_newlines]. rewrite bool_decide_true by done. cbn [orb].
  rewrite !bool_decide_false by done. cbn [orb rev]. rewrite rev_involutive, <- Hs. apply bytes_str_bytes.
Qed.

Lemma utf8_check_app n : forall l k i, length l <= n ->
  utf8_check i l = None -> utf8_check i (l ++ k) = utf8_check (i + length l) k.
Proof.
  induction n as [|n IH]; intros l k i Hn H.
  { destruct l; [|cbn in Hn; lia]. by rewrite Nat.add_0_r. }
  destruct l as [|b0 l1]; [by rewrite Nat.add_0_r|]. cbn [utf8_check app] in *.
  assert (Hstep : forall l' j, length l' <= n -> utf8_check (i + j) l' = None ->
    utf8_check (i + j) (l' ++ k) = utf8_check (i + (j + length l')) k).
  { intros l' j Hl Hc. rewrite (IH l' k (i + j) Hl Hc). f_equal. lia. }
  destruct (b2n b0 <? 128)%N.
  { rewrite Hstep by (done || cbn in Hn; lia). f_equal. }
  destruct (in_range 194 223 b0).
  { destruct l1 as [|b1 l2]; [done|]. cbn [app]. destruct (is_cont b1); [|done].
    rewrite Hstep by (done || cbn in *; lia). f_equal. }
  destruct (in_range 224 239 b0).
  { destruct l1 as [|b1 l2]; [done|]. cbn [app]. destruct (second3_ok b0 b1); [|done].
    destruct l2 as [|b2 l3]; [done|]. cbn [app]. destruct (is_cont b2); [|done].
    rewrite Hstep by (done || cbn in *; lia). f_equal. }
  destruct (in_range 240 244 b0); [|done].
  destruct l1 as [|b1 l2]; [done|]. cbn [app]. destruct (second4_ok b0 b1); [|done].
  destruct l2 as [|b2 l3]; [done|]. cbn [app]. destruct (is_cont b2); [|done].
  destruct l3 as [|b3 l4]; [done|]. cbn [app]. destruct (is_cont b3); [|done].
  rewrite Hstep by (done || cbn in *; lia). f_equal.
Qed.

Lemma from_utf8_typed s : is_str s = true -> from_utf8 (str_bytes s ++ [x0a]) = Ok (bytes_str (str_bytes s ++ [x0a])).
Proof.
  unfold is_str, from_utf8. destruct (utf8_check 0 (str_bytes s)) eqn:E; [done|]. intros _.
  by rewrite (utf8_check_app (length (str_bytes s))).
Qed.

(** The same process with its first typed line read. *)
Definition read_from (p : Process) (rest : list (result io_error (list byte))) : Process :=
  MkProcess (pr_world p) (pr_args p) rest (pr_eof p) (pr_entropy p) (pr_out_faults p) (pr_out p).

Lemma run_read_typed s rest p :
  is_str s = true -> pr_stdin p = typed s :: rest ->
  std_read_line p =
    (Returned (Ok (S (length (str_bytes s)), bytes_str (str_bytes s ++ [x0a]))), read_from p rest).
Proof.
  intros Hs Hp. unfold std_read_line. rewrite Hp. cbn [typed]. rewrite from_utf8_typed by done.
  rewrite length_app. cbn. by rewrite Nat.add_1_r.
Qed.
