(* ===== verification/Chat.v ===== *)
(** * The chat program

    Models src/examples/chat/src/main.rs: two hosts that shake hands and then
    take turns, a line typed on one side being printed on the other.  Two
    recursions of the source have no bound of their own and take fuel; every
    turn uses up a datagram or a typed line ([drive_fuel_enough],
    [chat_fuel_enough] in [ChatProps.v]), and out of fuel the program waits,
    as the source does for a datagram that never comes. *)

From S2P Require Export Process Host.

#[local] Open Scope string_scope.

(** The derived [Debug] of [HostEvent], printed in error messages. *)
Definition host_event_debug (ev : HostEvent) : string :=
  match ev with
  | HandshakeProgress addr => debug_struct "HandshakeProgress" [("addr", udp_addr_debug addr)]
  | HandshakeComplete addr remote_static remote_peer_id =>
      debug_struct "HandshakeComplete"
        [("addr", udp_addr_debug addr);
         ("remote_static", debug_tuple "StaticPublicKey" (bytes_debug (arr_list (static_public_bytes remote_static))));
         ("remote_peer_id", debug_tuple "PeerId" (bytes_debug (peer_id_bytes remote_peer_id)))]
  | DatagramDelivered addr plaintext =>
      debug_struct "DatagramDelivered"
        [("addr", udp_addr_debug addr); ("plaintext", bytes_debug plaintext)]
  | Rejected addr reason =>
      debug_struct "Rejected" [("addr", udp_addr_debug addr); ("reason", str_debug reason)]
  end.

(** ** Arguments and keys *)

Inductive Turn : Type := TurnSend | TurnRecv.

Record Args : Type := MkArgs { args_bind : UdpAddr; args_peer : option UdpAddr }.

Definition parse_addr (s : string) : result Error UdpAddr :=
  map_err (fun e => HostState ("could not parse " ++ str_debug s ++ " as a socket address: " ++ e))
    (udp_of_socket <$> socket_addr_from_str s).

Definition parse_args : Prog Args :=
  args ← std_args;
  let iter := drop 1 args in
  bind_arg ← prog_result (ok_or_else (head iter) (HostState "usage: chat BIND_ADDR [PEER_ADDR]"));
  let peer_arg := head (drop 1 iter) in
  bind ← prog_result (parse_addr bind_arg);
  peer ← prog_result
    match peer_arg with
    | Some s => Some <$> parse_addr s
    | None => Ok None
    end;
  mret (MkArgs bind peer).

Definition seed_from_port (addr : UdpAddr) (domain : byte) : arr 32 :=
  let port := match addr with V4 s => v4_port s | V6 s => v6_port s end in
  let port_bytes := be_bytes 2 port in
  arr_from_fn (fun i =>
    match i with
    | 0 => domain
    | j => default x00 (port_bytes !! (j - 1))
    end).

Definition fresh_seed : Prog (arr 32) :=
  getrandom (fun e => HostState ("getrandom failed: " ++ e)).

Section chat.
Context `{C : Crypto, RT : IoRuntime}.

Definition derive_keypair (addr : UdpAddr) : StaticKeypair :=
  from_private_bytes (seed_from_port addr xc0).
Definition derive_identity (addr : UdpAddr) : Ed25519Keypair :=
  ed_from_seed (seed_from_port addr xed).

(** ** Messages *)

Definition banner_text (bind : UdpAddr) (peer : option UdpAddr) (peer_id : PeerId) : string :=
  let role :=
    match peer with
    | Some p => "dialer (will reach " ++ udp_addr_display p ++ ")"
    | None => "listener (waiting for incoming dial)"
    end in
  "libp2p-cat-rs chat: bound to " ++ udp_addr_display bind ++ " as " ++ role ++ newline ++
  "local peer id = " ++ peer_id_display peer_id.
Definition print_banner (bind : UdpAddr) (peer : option UdpAddr) (peer_id : PeerId) : Prog () :=
  std_writeln Stdout (banner_text bind peer peer_id).

Definition handshake_text (remote_static : StaticPublicKey) (remote_peer_id : PeerId) : string :=
  "handshake complete" ++ newline ++
  "  remote peer id = " ++ peer_id_display remote_peer_id ++ newline ++
  "  remote static  = " ++ bytes_hex_debug (arr_list (static_public_bytes remote_static)).
Definition announce_handshake (remote_static : StaticPublicKey) (remote_peer_id : PeerId) : Prog () :=
  std_writeln Stdout (handshake_text remote_static remote_peer_id).

Definition read_line (prompt : string) : Prog string :=
  _ ← std_write Stdout prompt;
  _ ← std_flush;
  '(read, buffer) ← std_read_line;
  if (read =? 0)%nat then mret "" else mret (trim_end_newlines buffer).

Definition print_incoming (bytes : list byte) : Prog () :=
  std_writeln Stdout ("peer> " ++ from_utf8_lossy bytes).

Definition warn (msg : string) : Prog () := std_writeln Stderr ("[warn] " ++ msg).

(** ** The handshake *)

Definition drive_error (peer : UdpAddr) (other : HostEvent) : Error :=
  HostState ("expected HandshakeComplete from " ++ udp_addr_display peer ++ ", got " ++
             host_event_debug other).

Fixpoint drive_handshake_to_completion (fuel : nat) (host : Host) (peer : UdpAddr) : Prog Host :=
  match fuel with
  | 0 => prog_blocked
  | S fuel' =>
      seed ← fresh_seed;
      '(host, ev) ← run_prog (recv_one host seed);
      match ev with
      | HandshakeComplete addr remote_static remote_peer_id =>
          if decide (addr = peer) then
            _ ← announce_handshake remote_static remote_peer_id;
            mret host
          else prog_result (Err (drive_error peer ev))
      | HandshakeProgress addr =>
          if decide (addr = peer) then drive_handshake_to_completion fuel' host peer
          else prog_result (Err (drive_error peer ev))
      | DatagramDelivered _ _ | Rejected _ _ => prog_result (Err (drive_error peer ev))
      end
  end.

Definition initiator_handshake (fuel : nat) (host : Host) (peer : UdpAddr) : Prog Host :=
  seed ← fresh_seed;
  host ← run_prog (dial host peer seed);
  drive_handshake_to_completion fuel host peer.

Definition responder_handshake (fuel : nat) (host : Host) : Prog (Host * UdpAddr) :=
  seed ← fresh_seed;
  '(host, ev1) ← run_prog (recv_one host seed);
  peer ← prog_result
    match ev1 with
    | HandshakeProgress addr => Ok addr
    | HandshakeComplete _ _ _ | DatagramDelivered _ _ | Rejected _ _ =>
        Err (HostState ("expected HandshakeProgress, got " ++ host_event_debug ev1))
    end;
  host ← drive_handshake_to_completion fuel host peer;
  mret (host, peer).

(** ** Taking turns: [chat_step] is the function the two steps call back *)

Definition chat_send_step (chat_step : Host -> UdpAddr -> Turn -> Prog ()) (host : Host) (peer : UdpAddr)
    : Prog () :=
  line ← read_line "you> ";
  if decide (line = "") then mret ()
  else
    host ← run_prog (host_send host peer (str_bytes line));
    chat_step host peer TurnRecv.

Definition chat_recv_step (chat_step : Host -> UdpAddr -> Turn -> Prog ()) (host : Host) (peer : UdpAddr)
    : Prog () :=
  seed ← fresh_seed;
  '(host, ev) ← run_prog (recv_one host seed);
  match ev with
  | DatagramDelivered addr plaintext =>
      if decide (addr = peer) then
        _ ← print_incoming plaintext;
        chat_step host peer TurnSend
      else
        _ ← warn ("ignoring datagram from unexpected peer " ++ udp_addr_display addr);
        chat_step host peer TurnRecv
  | Rejected addr reason =>
      _ ← warn ("rejected datagram from " ++ udp_addr_display addr ++ ": " ++ reason);
      chat_step host peer TurnRecv
  | HandshakeProgress addr =>
      _ ← warn ("unexpected mid-chat HandshakeProgress from " ++ udp_addr_display addr);
      chat_step host peer TurnRecv
  | HandshakeComplete addr _ _ =>
      _ ← warn ("unexpected mid-chat HandshakeComplete from " ++ udp_addr_display addr);
      chat_step host peer TurnRecv
  end.

Fixpoint chat_step (fuel : nat) (host : Host) (peer : UdpAddr) (turn : Turn) : Prog () :=
  match fuel with
  | 0 => prog_blocked
  | S fuel' =>
      match turn with
      | TurnSend => chat_send_step (chat_step fuel') host peer
      | TurnRecv => chat_recv_step (chat_step fuel') host peer
      end
  end.

(** ** The program *)

Definition chat_run (fuel : nat) : Prog () :=
  args ← parse_args;
  let bind := args_bind args in
  socket ← run_prog (udp_bind bind);
  let keypair := derive_keypair bind in
  let identity := derive_identity bind in
  host ← prog_result (host_new socket keypair identity (arr_repeat 32 x4a));
  _ ← print_banner bind (args_peer args) (id_peer_id (host_identity host));
  '(host, peer_addr, first_turn) ←
    match args_peer args with
    | Some remote =>
        host ← initiator_handshake fuel host remote; mret (host, remote, TurnSend)
    | None =>
        '(host, p) ← responder_handshake fuel host; mret (host, p, TurnRecv)
    end;
  chat_step fuel host peer_addr first_turn.

Inductive ExitCode : Type := SUCCESS | FAILURE.

(** [main]: the failure of its own message is ignored. *)
Definition chat_main (fuel : nat) (p : Process) : option ExitCode * Process :=
  match chat_run fuel p with
  | (Returned (Ok _), p') => (Some SUCCESS, p')
  | (Returned (Err e), p') => (Some FAILURE, (std_writeln Stderr ("chat: " ++ error_display e) p').2)
  | (Blocked, p') => (None, p')
  end.

End chat.
