(* ===== verification/Stage.v ===== *)
(** * Running a program to its end

    The runs of the command-line programs are followed in a process whose
    environment works: [stage] is such a process at a given point of its run,
    known by what it may still read, the seeds it has drawn, and what it has
    sent and written.  Each expression of the programs takes one stage to the
    next.  [host_hears] is the run of a host over datagrams from anywhere, and
    [recv_step_session] what any of them leaves of a session. *)

From S2P Require Export Chat HostLink.

#[local] Open Scope string_scope.

(** The environment works: writes and flushes succeed and [getrandom] fills
    the seed it is asked for. *)
Record lively (p : Process) (seeds : nat -> arr 32) : Prop := Lively {
  lively_entropy n : pr_entropy p n = Ok (seeds n)
}.

Abbreviation Inbox := (list (result io_error (SocketAddr * list byte))).
Abbreviation Stdin := (list (result io_error (list byte))).

Definition stage (p : Process) (inbox : Inbox) (calls : nat) (sent : list (SocketAddr * list byte))
    (stdin : Stdin) (out : list (OutStream * string)) : Process :=
  MkProcess (MkWorld (w_bind (pr_world p)) inbox [] sent calls)
    (pr_args p) stdin (pr_eof p) (pr_entropy p) [] out.

(** The datagrams a socket receives from one peer, and what a reply adds to
    those it sent. *)
Definition from_peer (a : UdpAddr) (ds : list (list byte)) : Inbox :=
  (fun d => Ok (socket_of_udp a, d)) <$> ds.
Definition to_peer (b : UdpAddr) (ds : list (list byte)) : list (SocketAddr * list byte) :=
  pair (socket_of_udp b) <$> ds.

Lemma from_peer_app a ds es : from_peer a (ds ++ es)%list = (from_peer a ds ++ from_peer a es)%list.
Proof. apply fmap_app. Qed.
Lemma to_peer_app b ds es : to_peer b (ds ++ es)%list = (to_peer b ds ++ to_peer b es)%list.
Proof. apply fmap_app. Qed.
Lemma length_from_peer a ds : length (from_peer a ds) = length ds.
Proof. apply length_fmap. Qed.

(** What [UdpTransport::bind] makes of a socket. *)
Definition default_transport (sock : UdpSocket) : UdpTransport :=
  MkUdpTransport sock DEFAULT_MAX_DATAGRAM MAX_UDP_PAYLOAD.

Section stage.
Context `{C : Crypto, RT : IoRuntime, !IoLaws RT}.
Context (p : Process) (seeds : nat -> arr 32) (Hp : lively p seeds).

Lemma stage_seed i n s t o f :
  getrandom f (stage p i n s t o) = (Returned (Ok (seeds n)), stage p i (S n) s t o).
Proof. unfold getrandom. cbn. by rewrite (lively_entropy p seeds Hp). Qed.

Lemma stage_write stream text i n s t o :
  std_write stream text (stage p i n s t o) =
    (Returned (Ok ()), stage p i n s t (o ++ [(stream, text)])%list).
Proof. done. Qed.

Lemma stage_run {A} (m : Io Error A) r w i n s t o :
  io_run m (MkWorld (w_bind (pr_world p)) i [] s n) = (r, w) -> w_send_faults w = [] ->
  w_bind w = w_bind (pr_world p) ->
  run_prog m (stage p i n s t o) = (r, stage p (w_inbox w) (w_calls w) (w_sent w) t o).
Proof.
  intros Hr Hf Hb. unfold run_prog, stage. cbn [pr_world]. rewrite Hr. unfold on_world. cbn.
  do 2 f_equal. destruct w. cbn in *. by subst.
Qed.

Lemma stage_bind a sock i n s t o :
  w_bind (pr_world p) (socket_of_udp a) = Ok sock ->
  run_prog (udp_bind a) (stage p i n s t o) = (Returned (Ok (default_transport sock)), stage p i n s t o).
Proof.
  intros Hb. erewrite (stage_run _ _ (MkWorld (w_bind (pr_world p)) i [] s n)); [done| |done|done].
  unfold udp_bind, bind_with_limits. rewrite run_suspend. unfold io_err, effect_map, std_bind.
  cbn [w_bind]. by rewrite Hb.
Qed.

Lemma stage_sends m b d h' i n s t o :
  sends m b d h' ->
  run_prog m (stage p i n s t o) =
    (Returned (Ok h'), stage p i n (s ++ to_peer b [d])%list t o).
Proof. intros Hs. erewrite stage_run; [|by apply Hs|done|done]. done. Qed.

Lemma stage_receives h seed a d h' ev reply i n s t o :
  receives h seed a d h' ev reply ->
  run_prog (recv_one h seed) (stage p (from_peer a [d] ++ i)%list n s t o) =
    (Returned (Ok (h', ev)), stage p i n (s ++ to_peer a (option_list reply))%list t o).
Proof.
  intros Hr. erewrite stage_run; [|by eapply Hr|by destruct reply|by destruct reply].
  destruct reply; cbn; [done|]. by rewrite app_nil_r.
Qed.

Lemma stage_blocks h seed n s t o :
  run_prog (recv_one h seed) (stage p [] n s t o) = (Blocked, stage p [] n s t o).
Proof.
  rewrite (stage_run _ Blocked (MkWorld (w_bind (pr_world p)) [] [] s n)); [done| |done|done].
  unfold recv_one. destruct h as [sock ident hs es cap tick].
  by rewrite run_bind_eq, run_udp_recv.
Qed.

Lemma stage_read_line prompt x i n s t o :
  plain_line x ->
  read_line prompt (stage p i n s (typed x :: t) o) =
    (Returned (Ok x), stage p i n s t (o ++ [(Stdout, prompt)])%list).
Proof.
  intros Hx. unfold read_line. rewrite (prog_bind_Ok _ _ _ _ _ (stage_write _ _ _ _ _ _ _)).
  rewrite (prog_bind_Ok _ _ _ () (stage p i n s (typed x :: t) (o ++ [(Stdout, prompt)])%list)) by done.
  erewrite prog_bind_Ok by (apply run_read_typed; [apply Hx|done]). cbn [Nat.eqb]. by rewrite trim_typed.
Qed.

Lemma stage_end_of_input prompt i n s o :
  pr_eof p = true ->
  read_line prompt (stage p i n s [] o) =
    (Returned (Ok ""), stage p i n s [] (o ++ [(Stdout, prompt)])%list).
Proof.
  intros He. unfold read_line. rewrite (prog_bind_Ok _ _ _ _ _ (stage_write _ _ _ _ _ _ _)).
  rewrite (prog_bind_Ok _ _ _ () (stage p i n s [] (o ++ [(Stdout, prompt)])%list)) by done.
  rewrite prog_bind_eq. unfold std_read_line. cbn [stage pr_stdin pr_eof]. by rewrite He.
Qed.

End stage.

(** ** Whatever arrives *)

(** Datagrams from anywhere, and the world of a stage that receives them. *)
Definition datagrams (l : list (UdpAddr * list byte)) : Inbox :=
  (fun xd => Ok (socket_of_udp xd.1, xd.2)) <$> l.
Definition world_at (p : Process) (l : list (UdpAddr * list byte)) (calls : nat)
    (sent : list (SocketAddr * list byte)) : World :=
  MkWorld (w_bind (pr_world p)) (datagrams l) [] sent calls.

Section any.
Context `{C : Crypto, RT : IoRuntime, !IoLaws RT, !CryptoLaws C}.
Context (p : Process) (seeds : nat -> arr 32).

(** A host that takes any datagram. *)
Definition host_ready (h : Host) : Prop :=
  host_ok h /\ (N.of_nat HANDSHAKE_MAX <= max_send_payload (host_socket h))%N.

Lemma host_ready_step h h' : host_step h h' -> host_ready h -> host_ready h'.
Proof.
  intros Hst [Hok Hm]. split; [by eapply host_step_ok|]. by apply host_step_frame in Hst as (-> & _).
Qed.

(** What a socket gives a host of a datagram. *)
Definition taken (h : Host) (d : list byte) : list byte := take (N.to_nat (recv_buf_size (host_socket h))) d.

(** From its [n]th seed on, [h] steps on the datagrams it is sent, in order,
    replying to each at most once; [evs] are the events it reports. *)
Inductive host_hears : nat -> Host -> list (UdpAddr * list byte) -> list (SocketAddr * list byte) ->
    list HostEvent -> Host -> list (UdpAddr * list byte) -> list (SocketAddr * list byte) -> Prop :=
| hh_end n h l s : host_hears n h l s [] h l s
| hh_turn n h x d l s h1 ev reply evs h2 l2 s2 :
    recv_step h x (taken h d) (seeds n) h1 ev reply ->
    io_run (recv_one h (seeds n)) (world_at p ((x, d) :: l) (S n) s) =
      (Returned (Ok (h1, ev)), world_at p l (S n) (s ++ to_peer x (option_list reply))%list) ->
    host_hears (S n) h1 l (s ++ to_peer x (option_list reply))%list evs h2 l2 s2 ->
    host_hears n h ((x, d) :: l) s (ev :: evs) h2 l2 s2.

Lemma world_at_reply x d l n s reply :
  world_reply (world_received (world_at p ((x, d) :: l) n s)) x reply =
    world_at p l n (s ++ to_peer x (option_list reply))%list.
Proof. destruct reply; [done|]. cbn. by rewrite app_nil_r. Qed.

Lemma recv_any h x d l n s :
  host_ready h ->
  exists h1 ev reply, host_ready h1 /\ recv_step h x (taken h d) (seeds n) h1 ev reply /\
    io_run (recv_one h (seeds n)) (world_at p ((x, d) :: l) (S n) s) =
      (Returned (Ok (h1, ev)), world_at p l (S n) (s ++ to_peer x (option_list reply))%list).
Proof.
  intros [Hok Hmax].
  destruct (recv_one_total h (seeds n) (world_at p ((x, d) :: l) (S n) s) x d (datagrams l) Hok Hmax eq_refl eq_refl)
    as (h1 & ev & reply & Hs & Hr).
  exists h1, ev, reply. split; [apply (host_ready_step h); [by econstructor|done]|]. split; [done|].
  by rewrite Hr, world_at_reply.
Qed.

Lemma stage_at {A} (m : Io Error A) r l l' n s s' t o :
  io_run m (world_at p l n s) = (r, world_at p l' n s') ->
  run_prog m (stage p (datagrams l) n s t o) = (r, stage p (datagrams l') n s' t o).
Proof. intros Hr. by rewrite (stage_run p m r (world_at p l' n s')). Qed.

(** A datagram either is the peer's own message, or leaves its session as it
    is, as long as no other session has to go. *)
Lemma recv_step_session h x d seed h1 ev reply peer c :
  recv_step h x d seed h1 ev reply -> host_established h !! peer = Some c ->
  size (host_established h) < max_established (host_capacity h) ->
  (x = peer /\ exists t' q, transport_decrypt (conn_transport c) d = (t', Ok q) /\
     ev = DatagramDelivered peer q /\ reply = None /\
     h1 = host_with h (host_handshakes h)
       (<[peer := MkEstablished t' (conn_remote_static c) (conn_remote_peer_id c) (next_tick h)]>
          (host_established h)) (next_tick h)) \/
  (host_established h1 !! peer = Some c /\ host_frame h h1 /\
   size (host_established h1) <= S (size (host_established h)) /\
   (forall q, ev <> DatagramDelivered peer q) /\
   (x = peer -> exists t' e, transport_decrypt (conn_transport c) d = (t', Err e))).
Proof.
  intros Hs Hc Hroom.
  assert (Hput : forall cn, peer <> x -> put_established h x cn !! peer = Some c /\
    size (put_established h x cn) <= S (size (host_established h))).
  { intros cn Hne. unfold put_established, insert_established_with_lru.
    destruct (insert_with_lru_cases conn_last_activity (host_established h) x cn
      (max_established (host_capacity h))) as [[-> _]|(v & v0 & _ & _ & Hcap & _)]; [|lia].
    rewrite lookup_insert_ne by done. split; [done|]. rewrite map_size_insert. case_match; unfold id; lia. }
  destruct Hs as [conn t' q Hx Hd|conn t' e Hx Hd|?? ? Hx|?????? ? Hx|???? Hx|????? Hx|??? Hx|Hx|??? Hx|?? Hx|? Hx];
    try (assert (Hne : peer <> x) by (intros ->; by rewrite Hx in Hc);
         right; cbn [host_established host_with]; split_and!; [..|done|by intros ->]; try done;
         first [by apply Hput|cbn; lia|idtac]).
  - destruct (decide (x = peer)) as [->|Hne].
    + left. split; [done|]. rewrite Hx in Hc. injection Hc as ->. by exists t', q.
    + right. cbn [host_established host_with]. rewrite lookup_insert_ne by done.
      split_and!; [done|done|rewrite map_size_insert, Hx; unfold id; lia|intros q' [= ? ?]; done|done].
  - right. split_and!; [done|done|lia|done|]. intros ->. rewrite Hx in Hc. injection Hc as ->. by exists t', e.
Qed.

End any.

(** A host just built on a socket bound with the default limits. *)
Lemma fresh_host_ok `{C : Crypto, !CryptoLaws C} sock key seed secret h :
  host_new (default_transport sock) (from_private_bytes key) (ed_from_seed seed) secret = Ok h ->
  identity_ok (host_identity h) /\ host_socket h = default_transport sock /\
  (forall x, unknown_to h x) /\ socket_ok (host_socket h).
Proof.
  intros Hh. apply with_capacity_identity_ok in Hh as (Hi & Hs & Hu & _). split_and!; [done..|].
  rewrite Hs. by split; vm_compute.
Qed.
