(* ===== verification/ChatE2E.v ===== *)
(** * Two chat programs converse

    What src/examples/chat achieves: two programs, each fed with what the
    other sends, shake hands and carry a conversation, each printing what was
    typed at the other. *)

From S2P Require Export Stage.

#[local] Open Scope string_scope.

Definition prompt : OutStream * string := (Stdout, "you> ").
Definition heard (x : string) : OutStream * string := (Stdout, ("peer> " ++ x) ++ newline).

(** What each side shows of the rounds of a conversation: a round is a line
    of the dialer and the answer of the listener. *)
Definition dialer_view (rounds : list (string * string)) : list (OutStream * string) :=
  concat ((fun r => [prompt; heard r.2]) <$> rounds).
Definition listener_view (rounds : list (string * string)) : list (OutStream * string) :=
  concat ((fun r => [heard r.1; prompt]) <$> rounds).

Definition lines_ok (hA hB : Host) (rounds : list (string * string)) : Prop :=
  Forall (fun r => plain_line r.1 /\ plain_line r.2 /\
                   payload_fits hA (str_bytes r.1) /\ payload_fits hB (str_bytes r.2)) rounds.

Lemma plain_line_nonempty x : plain_line x -> x <> "".
Proof. intros (_ & l & c & Hx & _) ->. by destruct l. Qed.

Section steps.
Context `{C : Crypto, RT : IoRuntime, !IoLaws RT}.
Context (p : Process) (seeds : nat -> arr 32) (Hp : lively p seeds).

(** One turn of either kind. *)
Lemma stage_send_step f h b x d h' i n s t o :
  plain_line x -> sends (host_send h b (str_bytes x)) b d h' ->
  chat_step (S f) h b TurnSend (stage p i n s (typed x :: t) o) =
    chat_step f h' b TurnRecv (stage p i n (s ++ to_peer b [d]) t (o ++ [prompt]))%list.
Proof.
  intros Hx Hs. cbn [chat_step]. unfold chat_send_step.
  erewrite prog_bind_Ok by (by apply stage_read_line).
  rewrite decide_False by by apply plain_line_nonempty.
  erewrite prog_bind_Ok by (by eapply stage_sends). done.
Qed.

Lemma stage_recv_step f h b x d h' i n s t o :
  is_str x = true ->
  receives h (seeds n) b d h' (DatagramDelivered b (str_bytes x)) None ->
  chat_step (S f) h b TurnRecv (stage p (from_peer b [d] ++ i) n s t o)%list =
    chat_step f h' b TurnSend (stage p i (S n) s t (o ++ [heard x]))%list.
Proof.
  intros Hx Hr. cbn [chat_step]. unfold chat_recv_step, fresh_seed.
  erewrite prog_bind_Ok by (by apply stage_seed).
  erewrite prog_bind_Ok by (by eapply stage_receives). cbv beta iota. rewrite decide_True by done.
  unfold print_incoming, std_writeln.
  erewrite prog_bind_Ok by (apply stage_write).
  erewrite from_utf8_lossy_valid by (by apply from_utf8_Ok).
  by cbn [option_list]; rewrite app_nil_r.
Qed.

(** The end of the input ends the chat; with nothing to receive it waits. *)
Lemma stage_send_end f h b i n s o :
  pr_eof p = true ->
  chat_step (S f) h b TurnSend (stage p i n s [] o) =
    (Returned (Ok ()), stage p i n s [] (o ++ [prompt])%list).
Proof.
  intros He. cbn [chat_step]. unfold chat_send_step.
  erewrite prog_bind_Ok by (by apply stage_end_of_input). by rewrite decide_True.
Qed.

Lemma stage_recv_waits f h b n s t o :
  chat_step (S f) h b TurnRecv (stage p [] n s t o) = (Blocked, stage p [] (S n) s t o).
Proof.
  cbn [chat_step]. unfold chat_recv_step, fresh_seed.
  erewrite prog_bind_Ok by (by apply stage_seed). by rewrite prog_bind_eq, stage_blocks.
Qed.

End steps.

Section converse.
Context `{C : Crypto, RT : IoRuntime, !IoLaws RT, !CryptoLaws C}.

Lemma payload_fits_frame h h' q : host_frame h h' -> payload_fits h q -> payload_fits h' q.
Proof. intros (Hs & _) [H1 H2]. split; [by rewrite Hs|done]. Qed.

Lemma lines_ok_frame hA hA' hB hB' rounds :
  host_frame hA hA' -> host_frame hB hB' -> lines_ok hA hB rounds -> lines_ok hA' hB' rounds.
Proof.
  intros FA FB H. eapply Forall_impl; [exact H|]. intros r (H1 & H2 & H3 & H4).
  split_and!; [done|done|by eapply payload_fits_frame|by eapply payload_fits_frame].
Qed.

(** The dialer starts; both follow the rounds, each fed with what the other
    sends. *)
Lemma converse a b rounds : forall hA hB k,
  linked hA a hB b (N.of_nat (length rounds + length rounds) + k) -> lines_ok hA hB rounds ->
  exists dsA dsB hA' hB', length dsA = length rounds /\ length dsB = length rounds /\
    linked hA' a hB' b k /\
    (forall p seeds f i n s t o, lively p seeds ->
       chat_step (2 * length rounds + f) hA b TurnSend
         (stage p (from_peer b dsB ++ i) n s ((typed <$> rounds.*1) ++ t) o) =
       chat_step f hA' b TurnSend
         (stage p i (n + length rounds) (s ++ to_peer b dsA) t (o ++ dialer_view rounds)))%list /\
    (forall p seeds f i n s t o, lively p seeds ->
       chat_step (2 * length rounds + f) hB a TurnRecv
         (stage p (from_peer a dsA ++ i) n s ((typed <$> rounds.*2) ++ t) o) =
       chat_step f hB' a TurnRecv
         (stage p i (n + length rounds) (s ++ to_peer a dsB) t (o ++ listener_view rounds)))%list.
Proof.
  induction rounds as [|[x y] rounds IH]; intros hA hB k Hl Hok.
  { exists [], [], hA, hB. split_and!; try done; intros p seeds f i n s t o _;
      cbn; by rewrite Nat.add_0_r, !app_nil_r. }
  apply Forall_cons in Hok as [(Hx & Hy & FxA & FyB) Hok]. cbn in Hx, Hy, FxA, FyB.
  set (r := length rounds) in *.
  destruct (linked_transfer hA a hB b (N.of_nat (r + r) + k + 1) (str_bytes x))
    as (hA1 & d & hB1 & Hs & Hr & Hl1 & FA & FB & _); [|done|].
  { eapply linked_weaken; [exact Hl|]. unfold r. cbn [length]. lia. }
  destruct (linked_transfer hB1 b hA1 a (N.of_nat (r + r) + k) (str_bytes y))
    as (hB2 & d' & hA2 & Hs' & Hr' & Hl2 & FB2 & FA2 & _);
    [by apply linked_sym|by eapply payload_fits_frame|].
  destruct (IH hA2 hB2 k) as (dsA & dsB & hA' & hB' & LA & LB & Hl' & HA & HB);
    [by apply linked_sym|..].
  { eapply (lines_ok_frame hA1 hA2 hB1 hB2); [done..|]. by eapply lines_ok_frame. }
  exists (d :: dsA), (d' :: dsB), hA', hB'. cbn [length]. fold r. fold r in HA, HB.
  split_and!; [by rewrite LA|by rewrite LB|done|..]; intros p seeds f i n s t o Hp.
  - replace (2 * S r + f) with (S (S (2 * r + f))) by lia.
    change (d' :: dsB) with ([d'] ++ dsB)%list. change (d :: dsA) with ([d] ++ dsA)%list.
    rewrite from_peer_app, to_peer_app, <- !app_assoc. cbn [fmap list_fmap app].
    change ((x, y).1) with x. rewrite (stage_send_step _ _ _ _ x d hA1) by done.
    rewrite (stage_recv_step _ _ Hp _ _ _ y d' hA2) by (apply Hy || (intros w inbox Hw _; by eapply Hr')).
    rewrite (HA p seeds) by done. unfold dialer_view. cbn [fmap list_fmap concat].
    by rewrite <- !app_assoc, Nat.add_succ_r.
  - replace (2 * S r + f) with (S (S (2 * r + f))) by lia.
    change (d' :: dsB) with ([d'] ++ dsB)%list. change (d :: dsA) with ([d] ++ dsA)%list.
    rewrite from_peer_app, to_peer_app, <- !app_assoc. cbn [fmap list_fmap app].
    change ((x, y).2) with y.
    rewrite (stage_recv_step _ _ Hp _ _ _ x d hB1) by (apply Hx || (intros w inbox Hw _; by eapply Hr)).
    rewrite (stage_send_step _ _ _ _ y d' hB2) by done.
    rewrite (HB p seeds) by done. unfold listener_view. cbn [fmap list_fmap concat].
    by rewrite <- !app_assoc, Nat.add_succ_r.
Qed.

End converse.

(** ** The handshake *)

Definition announced (h : Host) : OutStream * string :=
  (Stdout, handshake_text (keypair_public (id_static_keypair (host_identity h)))
             (id_peer_id (host_identity h)) ++ newline).

Section handshake.
Context `{C : Crypto, RT : IoRuntime, !IoLaws RT}.
Context (p : Process) (seeds : nat -> arr 32) (Hp : lively p seeds).

Lemma stage_drive_progress f h b d h' reply i n s t o :
  receives h (seeds n) b d h' (HandshakeProgress b) reply ->
  drive_handshake_to_completion (S f) h b (stage p (from_peer b [d] ++ i) n s t o)%list =
    drive_handshake_to_completion f h' b (stage p i (S n) (s ++ to_peer b (option_list reply)) t o)%list.
Proof.
  intros Hr. cbn [drive_handshake_to_completion]. unfold fresh_seed.
  erewrite prog_bind_Ok by (by apply stage_seed).
  erewrite prog_bind_Ok by (by eapply stage_receives). cbv beta iota. by rewrite decide_True.
Qed.

Lemma stage_drive_complete f h b d h' rs pid reply i n s t o :
  receives h (seeds n) b d h' (HandshakeComplete b rs pid) reply ->
  drive_handshake_to_completion (S f) h b (stage p (from_peer b [d] ++ i) n s t o)%list =
    (Returned (Ok h'), stage p i (S n) (s ++ to_peer b (option_list reply)) t
                         (o ++ [(Stdout, handshake_text rs pid ++ newline)%string]))%list.
Proof.
  intros Hr. cbn [drive_handshake_to_completion]. unfold fresh_seed.
  erewrite prog_bind_Ok by (by apply stage_seed).
  erewrite prog_bind_Ok by (by eapply stage_receives). cbv beta iota. rewrite decide_True by done.
  unfold announce_handshake, std_writeln. by erewrite prog_bind_Ok by (apply stage_write).
Qed.

End handshake.

Section programs.
Context `{C : Crypto, RT : IoRuntime, !IoLaws RT, !CryptoLaws C}.

(** Two programs' hosts shake hands, each fed with what the other sends. *)
Lemma programs_handshake hA hB a b (seedsA seedsB : nat -> arr 32) nA nB :
  identity_ok (host_identity hA) -> identity_ok (host_identity hB) ->
  socket_ok (host_socket hA) -> socket_ok (host_socket hB) ->
  unknown_to hA b -> unknown_to hB a ->
  (max_send_payload (host_socket hA) <= recv_buf_size (host_socket hB))%N ->
  (max_send_payload (host_socket hB) <= recv_buf_size (host_socket hA))%N ->
  exists dsA dsB hA' hB', length dsA = 3 /\ length dsB = 2 /\
    linked hA' a hB' b (2 ^ 64 - 1) /\
    host_socket hA' = host_socket hA /\ host_socket hB' = host_socket hB /\
    (forall p f i s t o, lively p seedsA ->
       initiator_handshake (S (S f)) hA b (stage p (from_peer b dsB ++ i) nA s t o) =
         (Returned (Ok hA'), stage p i (nA + 3) (s ++ to_peer b dsA) t (o ++ [announced hB])))%list /\
    (forall p f i s t o, lively p seedsB ->
       responder_handshake (S (S f)) hB (stage p (from_peer a dsA ++ i) nB s t o) =
         (Returned (Ok (hB', a)), stage p i (nB + 3) (s ++ to_peer a dsB) t (o ++ [announced hA])))%list.
Proof.
  intros HiA HiB HsA HsB HuA HuB Hb1 Hb2.
  destruct (handshake_runs hA hB a b (seedsA nA) (seedsB (S nB)) HiA HiB HsA HsB HuA HuB)
    as (A1 & A2 & A3 & B1 & B2 & B3 & m1 & c & m1c & m2 & m3 & cA & cB & k1 & k2 &
        E1 & E2 & E3 & E4 & E5 & E6 & SA & SB & LA & TA & LB & TB).
  exists [m1; m1c; m3], [c; m2], A3, B3. split_and!; [done|done| |done|done|..].
  { eapply linked_fresh; [done..| |]; by rewrite SA, SB. }
  - intros p f i s t o Hp. unfold initiator_handshake, fresh_seed.
    erewrite prog_bind_Ok by (by apply stage_seed). erewrite prog_bind_Ok by (by eapply stage_sends).
    change [c; m2] with ([c] ++ [m2])%list. rewrite from_peer_app, <- app_assoc.
    rewrite (stage_drive_progress _ _ Hp _ _ _ _ _ _ _ _ _ _ _ (E3 _)).
    rewrite (stage_drive_complete _ _ Hp _ _ _ _ _ _ _ _ _ _ _ _ _ (E5 _)).
    cbn [option_list]. rewrite <- !app_assoc, <- !to_peer_app. by rewrite Nat.add_comm.
  - intros p f i s t o Hp. unfold responder_handshake, fresh_seed.
    erewrite prog_bind_Ok by (by apply stage_seed).
    change [m1; m1c; m3] with ([m1] ++ [m1c] ++ [m3])%list. rewrite !from_peer_app, <- !app_assoc.
    erewrite prog_bind_Ok by (eapply stage_receives, E2). cbv beta iota.
    rewrite (prog_bind_Ok _ _ _ a _ eq_refl).
    erewrite prog_bind_Ok.
    2: { rewrite (stage_drive_progress _ _ Hp _ _ _ _ _ _ _ _ _ _ _ E4).
         by rewrite (stage_drive_complete _ _ Hp _ _ _ _ _ _ _ _ _ _ _ _ _ (E6 _)). }
    cbn [option_list]. unfold mret, prog_ret. rewrite <- !app_assoc, <- !to_peer_app.
    cbn [app]. by rewrite Nat.add_comm.
Qed.

End programs.

(** ** The whole programs *)

Section run.
Context `{C : Crypto, RT : IoRuntime, !IoLaws RT, !CryptoLaws C}.

(** The host the program builds for its bind address. *)
Definition chat_host (a : UdpAddr) (sock : UdpSocket) : result Error Host :=
  host_new (default_transport sock) (derive_keypair a) (derive_identity a) (arr_repeat 32 x4a).

Lemma chat_host_ok a sock h :
  chat_host a sock = Ok h ->
  identity_ok (host_identity h) /\ host_socket h = default_transport sock /\
  (forall x, unknown_to h x) /\ socket_ok (host_socket h).
Proof. apply fresh_host_ok. Qed.

Definition banner (bind : UdpAddr) (peer : option UdpAddr) (h : Host) : OutStream * string :=
  (Stdout, banner_text bind peer (id_peer_id (host_identity h)) ++ newline).

(** A line the default socket carries in one datagram. *)
Definition chat_line (x : string) : Prop :=
  plain_line x /\ (N.of_nat (length (str_bytes x) + TRANSPORT_OVERHEAD) <= DEFAULT_MAX_DATAGRAM)%N.

Lemma chat_line_fits h sock x :
  host_socket h = default_transport sock -> chat_line x -> payload_fits h (str_bytes x).
Proof.
  intros Hs [_ Hx]. unfold payload_fits. rewrite Hs. cbn [max_send_payload default_transport].
  split; [done|]. change DEFAULT_MAX_DATAGRAM with 1200%N in Hx.
  assert (1200 < AEAD_SAFE_LEN)%N by by vm_compute. lia.
Qed.

(** The run up to the handshake. *)
Lemma stage_chat_start fuel p prog text rest a peer sock h n s i t o :
  pr_args p = prog :: text :: rest -> parse_addr text = Ok a ->
  match head rest with Some x => Some <$> parse_addr x | None => Ok None end = Ok peer ->
  w_bind (pr_world p) (socket_of_udp a) = Ok sock -> chat_host a sock = Ok h ->
  chat_run fuel (stage p i n s t o) =
    ('(host, peer_addr, first_turn) ←
       match peer with
       | Some remote => host ← initiator_handshake fuel h remote; mret (host, remote, TurnSend)
       | None => '(host, q) ← responder_handshake fuel h; mret (host, q, TurnRecv)
       end;
     chat_step fuel host peer_addr first_turn) (stage p i n s t (o ++ [banner a peer h])%list).
Proof.
  intros Ha Ht Hr Hb Hh. unfold chat_run. erewrite (prog_bind_Ok _ _ _ (MkArgs a peer)).
  2: { unfold parse_args. rewrite (prog_bind_Ok _ _ _ (pr_args p) (stage p i n s t o)) by done.
       rewrite Ha. cbn [drop head ok_or_else]. rewrite (prog_bind_Ok _ _ _ text _ eq_refl).
       erewrite (prog_bind_Ok _ _ _ a) by (unfold prog_result; by rewrite Ht).
       erewrite (prog_bind_Ok _ _ _ peer) by (unfold prog_result; by rewrite skipn_O, Hr). done. }
  cbn [args_bind args_peer].
  erewrite prog_bind_Ok by (by eapply stage_bind).
  fold (chat_host a sock). erewrite (prog_bind_Ok _ _ _ h) by (unfold prog_result; by rewrite Hh).
  by erewrite prog_bind_Ok by (apply stage_write).
Qed.

(** C28: two instances of the chat program converse.  The listener is
    started on address [b], the dialer on [a] with [b] to reach; the sockets
    bind, writes succeed, [getrandom] answers.  Given the lines typed at the
    two keyboards, a round being a line of the dialer and the listener's
    answer, there are datagrams [dsA] and [dsB] such that the dialer, which
    finds exactly [dsB] in its socket, sends exactly [dsA], and the other way
    round.  The dialer's output is its banner, the listener's static key and
    PeerId, and at each round its prompt and what was typed at the listener;
    it ends with success at the end of its input.  The listener shows the
    dialer's identity and lines and is left waiting for the next. *)
Theorem chat_programs_converse (pA pB : Process) (seedsA seedsB : nat -> arr 32) (a b : UdpAddr)
    (sockA sockB : UdpSocket) (hA hB : Host) (progA progB textA textB : string)
    (rounds : list (string * string)) :
  lively pA seedsA -> lively pB seedsB -> pr_eof pA = true ->
  pr_args pA = [progA; textA; textB] -> pr_args pB = [progB; textB] ->
  parse_addr textA = Ok a -> parse_addr textB = Ok b ->
  w_bind (pr_world pA) (socket_of_udp a) = Ok sockA -> chat_host a sockA = Ok hA ->
  w_bind (pr_world pB) (socket_of_udp b) = Ok sockB -> chat_host b sockB = Ok hB ->
  Forall (fun r => chat_line r.1 /\ chat_line r.2) rounds ->
  (N.of_nat (2 * length rounds) < 2 ^ 64)%N ->
  let r := length rounds in
  exists dsA dsB, length dsA = r + 3 /\ length dsB = r + 2 /\ forall fuel more,
    chat_run (2 * r + 3 + fuel) (stage pA (from_peer b dsB) 0 [] (typed <$> rounds.*1) []) =
      (Returned (Ok ()),
       stage pA [] (r + 3) (to_peer b dsA) []
         ([banner a (Some b) hA; announced hB] ++ dialer_view rounds ++ [prompt])%list) /\
    chat_run (2 * r + 3 + fuel) (stage pB (from_peer a dsA) 0 [] ((typed <$> rounds.*2) ++ more)%list []) =
      (Blocked,
       stage pB [] (r + 4) (to_peer a dsB) more
         ([banner b None hB; announced hA] ++ listener_view rounds)%list).
Proof.
  intros LA LB Heof HaA HaB HtA HtB HbA HhA HbB HhB Hlines Hn r.
  destruct (chat_host_ok _ _ _ HhA) as (IA & SA & UA & OA).
  destruct (chat_host_ok _ _ _ HhB) as (IB & SB & UB & OB).
  destruct (programs_handshake hA hB a b seedsA seedsB 0 0 IA IB OA OB (UA b) (UB a))
    as (d1 & d2 & hA1 & hB1 & L1 & L2 & Hl & SA1 & SB1 & RA & RB); [by rewrite SA, SB..|].
  destruct (converse a b rounds hA1 hB1 (2 ^ 64 - 1 - N.of_nat (r + r)))
    as (d3 & d4 & hA2 & hB2 & L3 & L4 & _ & CA & CB).
  { eapply linked_weaken; [exact Hl|]. fold r. unfold r in *. lia. }
  { eapply Forall_impl; [exact Hlines|]. intros q [[Hp1 Hf1] [Hp2 Hf2]]. split_and!; [done|done|..].
    - apply (chat_line_fits _ sockA); [by rewrite SA1|done].
    - apply (chat_line_fits _ sockB); [by rewrite SB1|done]. }
  fold r in L3, L4, CA, CB.
  exists (d1 ++ d3)%list, (d2 ++ d4)%list. rewrite !length_app.
  split; [lia|]. split; [lia|]. intros fuel more.
  replace (2 * r + 3 + fuel) with (S (S (2 * r + S fuel))) by lia. rewrite !from_peer_app. split.
  - erewrite (stage_chat_start _ pA progA textA [textB]) by (done || cbn [head]; by rewrite HtB).
    cbn [app]. rewrite prog_bind_eq.
    erewrite (prog_bind_Ok _ _ _ hA1) by (by apply RA). unfold mret, prog_ret. cbv beta iota.
    replace (S (S (2 * r + S fuel))) with (2 * r + S (S (S fuel))) by lia.
    pose proof (CA pA seedsA (S (S (S fuel))) [] 3 (to_peer b d1) [] [banner a (Some b) hA; announced hB] LA) as H.
    rewrite !app_nil_r in H. cbn [app Nat.add]. rewrite H.
    rewrite stage_send_end by done. rewrite to_peer_app, <- !app_assoc. by rewrite (Nat.add_comm r 3).
  - erewrite (stage_chat_start _ pB progB textB []) by done.
    cbn [app]. rewrite prog_bind_eq.
    erewrite (prog_bind_Ok _ _ _ (hB1, a)) by (by apply RB). unfold mret, prog_ret. cbv beta iota.
    replace (S (S (2 * r + S fuel))) with (2 * r + S (S (S fuel))) by lia.
    pose proof (CB pB seedsB (S (S (S fuel))) [] 3 (to_peer a d2) more [banner b None hB; announced hA] LB) as H.
    rewrite !app_nil_r in H. cbn [app Nat.add]. rewrite H.
    rewrite (stage_recv_waits _ _ LB). rewrite to_peer_app. by rewrite (Nat.add_comm r 4).
Qed.

End run.

(** ** Two concrete programs *)

Section toy.
#[local] Existing Instance toy_crypto.
#[local] Existing Instance direct_io.

Definition toy_socket (a : UdpAddr) : UdpSocket := MkSocket (Ok (socket_of_udp a)).
Definition toy_seeds (n : nat) : arr 32 := arr_repeat 32 (n2b (N.of_nat n)).
Definition toy_process (args : list string) : Process :=
  MkProcess (quiet_world []) args [] true (fun n => Ok (toy_seeds n)) [] [].

Definition toy_chat_host (a : UdpAddr) : Host :=
  match chat_host a (toy_socket a) with
  | Ok h => h
  | Err _ => toy_host 0 x00 x00
  end.

Lemma toy_chat_host_new a : chat_host a (toy_socket a) = Ok (toy_chat_host a).
Proof. done. Qed.

Lemma toy_lively args : lively (toy_process args) toy_seeds.
Proof. done. Qed.

Definition toy_rounds : list (string * string) := [("hello", "hi"); ("how are you", "fine")].

Lemma plain_line_check x :
  is_str x = true ->
  match rev (str_bytes x) with c :: _ => negb (bool_decide (c = x0a)) && negb (bool_decide (c = x0d)) | [] => false end = true ->
  plain_line x.
Proof.
  intros Hs H. split; [done|]. destruct (rev (str_bytes x)) as [|c l] eqn:E; [done|].
  exists (rev l), c. bool_to_prop. split_and!; [|done|done].
  by rewrite <- (rev_involutive (str_bytes x)), E.
Qed.

Lemma chat_programs_converse_witness :
  exists dsA dsB, length dsA = 5 /\ length dsB = 4 /\ forall fuel more,
    chat_run (7 + fuel)
      (stage (toy_process ["chat"; "127.0.0.1:4002"; "127.0.0.1:4001"]) (from_peer (loopback 4001) dsB)
         0 [] (typed <$> toy_rounds.*1) []) =
      (Returned (Ok ()),
       stage (toy_process ["chat"; "127.0.0.1:4002"; "127.0.0.1:4001"]) [] 5 (to_peer (loopback 4001) dsA) []
         ([banner (loopback 4002) (Some (loopback 4001)) (toy_chat_host (loopback 4002));
           announced (toy_chat_host (loopback 4001))] ++ dialer_view toy_rounds ++ [prompt])%list) /\
    chat_run (7 + fuel)
      (stage (toy_process ["chat"; "127.0.0.1:4001"]) (from_peer (loopback 4002) dsA)
         0 [] ((typed <$> toy_rounds.*2) ++ more)%list []) =
      (Blocked,
       stage (toy_process ["chat"; "127.0.0.1:4001"]) [] 6 (to_peer (loopback 4002) dsB) more
         ([banner (loopback 4001) None (toy_chat_host (loopback 4001));
           announced (toy_chat_host (loopback 4002))] ++ listener_view toy_rounds)%list).
Proof.
  apply (chat_programs_converse (IoLaws0:=direct_io_laws) (CryptoLaws0:=toy_crypto_laws)
    (toy_process ["chat"; "127.0.0.1:4002"; "127.0.0.1:4001"]) (toy_process ["chat"; "127.0.0.1:4001"])
    toy_seeds toy_seeds (loopback 4002) (loopback 4001) (toy_socket (loopback 4002)) (toy_socket (loopback 4001))
    _ _ "chat" "chat" "127.0.0.1:4002" "127.0.0.1:4001" toy_rounds);
    try done; try apply toy_lively; try apply toy_chat_host_new.
  repeat constructor; try (by vm_compute); by apply plain_line_check.
Defined.

End toy.
