(* ===== verification/ChatProps.v ===== *)
(** * What ends a chat and what does not

    Whatever arrives, a chat that waits for its peer goes on; a program that
    is not connected yet is ended by one stray datagram, and a chat by an
    empty or an oversized line.  Fuel beyond the datagrams and lines there
    are is never used up. *)

From S2P Require Export ChatE2E.

#[local] Open Scope string_scope.

Section robust.
Context `{C : Crypto, RT : IoRuntime, !IoLaws RT, !CryptoLaws C}.
Context (p : Process) (seeds : nat -> arr 32) (Hp : lively p seeds).

Lemma stage_recv_any h seed x d i n s t o :
  host_ready h ->
  exists h' ev s', host_ready h' /\ event_addr ev = x /\
    run_prog (recv_one h seed) (stage p (Ok (socket_of_udp x, d) :: i) n s t o) =
      (Returned (Ok (h', ev)), stage p i n s' t o).
Proof.
  intros [Hok Hmax].
  set (w := MkWorld (w_bind (pr_world p)) (Ok (socket_of_udp x, d) :: i) [] s n).
  destruct (recv_one_total h seed w x d i Hok Hmax eq_refl eq_refl) as (h' & ev & reply & Hs & Hr).
  exists h', ev, (w_sent (world_reply (world_received w) x reply)). split_and!.
  - apply (host_ready_step h); [by econstructor|done].
  - by eapply recv_step_addr.
  - erewrite stage_run; [|exact Hr|by destruct reply..]. by destruct reply.
Qed.

(** One datagram from elsewhere while the program drives the handshake. *)
Lemma stage_drive_stray f h peer x d i n s t o :
  host_ready h -> x <> peer ->
  exists ev s', event_addr ev = x /\
    drive_handshake_to_completion (S f) h peer (stage p (Ok (socket_of_udp x, d) :: i) n s t o) =
      (Returned (Err (drive_error peer ev)), stage p i (S n) s' t o).
Proof.
  intros Hh Hx. cbn [drive_handshake_to_completion]. unfold fresh_seed.
  destruct (stage_recv_any h (seeds n) x d i (S n) s t o Hh) as (h' & ev & s' & _ & Hev & Hr).
  exists ev, s'. split; [done|].
  erewrite prog_bind_Ok by (by apply stage_seed). erewrite prog_bind_Ok by exact Hr. cbv beta iota.
  destruct ev as [y|y rs pid|y q|y r]; cbn [event_addr] in Hev; subst y; try done;
    by rewrite decide_False.
Qed.

(** What a waiting chat shows of an event, and whose turn it is after. *)
Definition shown (peer : UdpAddr) (ev : HostEvent) : (OutStream * string) * Turn :=
  let warned msg := ((Stderr, ("[warn] " ++ msg) ++ newline), TurnRecv) in
  match ev with
  | DatagramDelivered addr plaintext =>
      if decide (addr = peer) then (heard (from_utf8_lossy plaintext), TurnSend)
      else warned ("ignoring datagram from unexpected peer " ++ udp_addr_display addr)
  | Rejected addr reason =>
      warned ("rejected datagram from " ++ udp_addr_display addr ++ ": " ++ reason)
  | HandshakeProgress addr =>
      warned ("unexpected mid-chat HandshakeProgress from " ++ udp_addr_display addr)
  | HandshakeComplete addr _ _ =>
      warned ("unexpected mid-chat HandshakeComplete from " ++ udp_addr_display addr)
  end.

(** What a stretch of events shows. *)
Definition warnings (peer : UdpAddr) (evs : list HostEvent) : list (OutStream * string) :=
  (fun ev => (shown peer ev).1) <$> evs.

Lemma stage_recv_turn f h peer l l1 n s s1 t o h1 ev :
  io_run (recv_one h (seeds n)) (world_at p l (S n) s) = (Returned (Ok (h1, ev)), world_at p l1 (S n) s1) ->
  chat_step (S f) h peer TurnRecv (stage p (datagrams l) n s t o) =
    chat_step f h1 peer (shown peer ev).2 (stage p (datagrams l1) (S n) s1 t (o ++ [(shown peer ev).1])%list).
Proof.
  intros Hr. cbn [chat_step]. unfold chat_recv_step, fresh_seed.
  erewrite prog_bind_Ok by (by apply stage_seed). erewrite prog_bind_Ok by (by apply stage_at). cbv beta iota.
  destruct ev as [y|y rs pid|y q|y r]; cbn [shown]; try case_decide; unfold warn, print_incoming, std_writeln;
    by erewrite prog_bind_Ok by (apply stage_write).
Qed.

(** Only the peer's own message is not a warning. *)
Lemma shown_warning peer ev :
  (forall q, ev <> DatagramDelivered peer q) -> (shown peer ev).1.1 = Stderr /\ (shown peer ev).2 = TurnRecv.
Proof. intros Hne. destruct ev as [y|y rs pid|y q|y r]; cbn; [done|done| |done]. case_decide; [naive_solver|done]. Qed.

End robust.

Section endings.
Context `{C : Crypto, RT : IoRuntime, !IoLaws RT, !CryptoLaws C}.

(** C31: nothing that arrives ends a chat that waits for its peer, and only the
    peer's own message is taken for one.  Let [c] be the session with the
    peer, with room in the table for as many more as there are datagrams, and
    take any datagrams, of any sources and bytes.  The host steps on the first
    of them, [l1], up to the one that comes from the peer and opens under [c],
    if there is one.  Each of [l1] is warned of on the error stream, as its
    event says, and the session is [c] all along.  If [l1] is all there is, the
    program waits for more.  Otherwise it prints the bytes that were opened,
    the session advances, and it is its turn to send. *)
Theorem chat_waits_through_junk (p : Process) (seeds : nat -> arr 32) (h : Host) (peer : UdpAddr)
    (c : EstablishedConnection) (l : list (UdpAddr * list byte)) (fuel n : nat)
    (s : list (SocketAddr * list byte)) (t : Stdin) (o : list (OutStream * string)) :
  lively p seeds -> host_ready h -> host_established h !! peer = Some c ->
  size (host_established h) + length l <= max_established (host_capacity h) -> length l < fuel ->
  let opening d := transport_decrypt (conn_transport c) (taken h d) in
  exists l1 l2 evs h1 s1,
    l = (l1 ++ l2)%list /\ host_hears p seeds n h l s evs h1 l2 s1 /\ event_addr <$> evs = l1.*1 /\
    Forall (fun m => m.1 = Stderr) (warnings peer evs) /\
    (forall d, (peer, d) ∈ l1 -> exists t' e, opening d = (t', Err e)) /\
    host_ready h1 /\ host_established h1 !! peer = Some c /\
    match l2 with
    | [] =>
        chat_step fuel h peer TurnRecv (stage p (datagrams l) n s t o) =
          (Blocked, stage p [] (S (n + length l)) s1 t (o ++ warnings peer evs)%list)
    | (x, d) :: rest =>
        x = peer /\ exists t' q, opening d = (t', Ok q) /\
        let h2 := host_with h1 (host_handshakes h1)
          (<[peer := MkEstablished t' (conn_remote_static c) (conn_remote_peer_id c) (next_tick h1)]>
             (host_established h1)) (next_tick h1) in
        host_ready h2 /\
        chat_step fuel h peer TurnRecv (stage p (datagrams l) n s t o) =
          chat_step (fuel - S (length l1)) h2 peer TurnSend
            (stage p (datagrams rest) (S (n + length l1)) s1 t
               (o ++ warnings peer evs ++ [heard (from_utf8_lossy q)])%list)
    end.
Proof.
  intros Hp. revert h fuel n s o.
  induction l as [|[x d] l IH]; intros h fuel n s o Hh Hc Hroom Hf opening;
    (destruct fuel as [|fuel]; [cbn in Hf; lia|]); cbn [length] in Hroom, Hf.
  { exists [], [], [], h, s. split_and!; [done|apply hh_end|done|by constructor|intros d Hd; by apply elem_of_nil in Hd|done|done|].
    change (datagrams []) with ([] : Inbox). by rewrite (stage_recv_waits _ _ Hp), app_nil_r, Nat.add_0_r. }
  destruct (recv_any p seeds h x d l n s Hh) as (h1 & ev & reply & Hh1 & Hs & Hr).
  pose proof (stage_recv_turn p seeds Hp fuel h peer _ _ n s _ t o h1 ev Hr) as Hturn.
  destruct (recv_step_session _ _ _ _ _ _ _ peer c Hs Hc) as
    [(-> & t' & q & Hq & -> & -> & Hh2)|(Hc1 & Hfr & Hsz & Hne & Hfail)]; [lia| |].
  - exists [], ((peer, d) :: l), [], h, s.
    split_and!; [done|apply hh_end|done|by constructor|intros e He; by apply elem_of_nil in He|done|done|done|].
    exists t', q. split; [exact Hq|]. rewrite <- Hh2. split; [done|]. rewrite Hturn. cbn [shown length].
    rewrite decide_True by done. cbn [fst snd to_peer option_list fmap list_fmap].
    by rewrite Nat.sub_succ, Nat.sub_0_r, Nat.add_0_r, app_nil_r.
  - destruct (shown_warning peer ev Hne) as [Hw Ht]. rewrite Ht in Hturn.
    pose proof Hfr as (Fs & _ & Fc).
    destruct (IH h1 fuel (S n) (s ++ to_peer x (option_list reply))%list (o ++ [(shown peer ev).1])%list Hh1 Hc1
      ltac:(rewrite Fc; lia) ltac:(lia)) as (l1 & l2 & evs & h2 & s2 & -> & Hhear & Ha & Hws & Hno & Hr2 & Hc2 & Hend).
    assert (Et : forall e, taken h1 e = taken h e) by (intros e; unfold taken; by rewrite Fs).
    exists ((x, d) :: l1), l2, (ev :: evs), h2, s2. split_and!; try done.
    + by eapply hh_turn.
    + cbn. rewrite Ha. f_equal. by eapply recv_step_addr.
    + by constructor.
    + intros e [[= <- <-]|He]%elem_of_cons; [by apply Hfail|].
      destruct (Hno e He) as (t' & er & Hd). rewrite Et in Hd. by exists t', er.
    + rewrite Hturn. destruct l2 as [|[y e] rest].
      * rewrite Hend. cbn [length warnings fmap list_fmap]. by rewrite <- app_assoc, Nat.add_succ_r.
      * destruct Hend as (-> & t' & q & Hq & Hr3 & Hrun). split; [done|]. exists t', q. rewrite Et in Hq.
        split; [exact Hq|]. split; [done|]. rewrite Hrun. cbn [length warnings fmap list_fmap].
        by rewrite <- app_assoc, Nat.add_succ_r.
Qed.

Lemma chat_host_ready a sock h : chat_host a sock = Ok h -> host_ready h.
Proof.
  intros Hh. pose proof (chat_host_ok _ _ _ Hh) as (_ & Hs & _ & Hm & _). split; [|done].
  by eapply (with_capacity_ok _ _ _ _ 256 1024 capacity_default h eq_refl).
Qed.

(** C40: one stray datagram ends a program that is not connected yet.  A
    dialer that receives any datagram from a source other than the peer it
    dialled fails with exit code and message.  A listener takes the source
    of the first 32 bytes it receives for its peer, before anything is
    verified, and then fails on any datagram from elsewhere; so a single
    spoofed datagram makes it turn its real peer away. *)
Theorem chat_handshake_fragile (p : Process) (seeds : nat -> arr 32) (prog text : string)
    (rest : list string) (a : UdpAddr) (peer : option UdpAddr) (sock : UdpSocket) (h : Host)
    (fuel : nat) (t : Stdin) (inbox : Inbox) (x y : UdpAddr) (d e : list byte) :
  lively p seeds -> pr_args p = prog :: text :: rest -> parse_addr text = Ok a ->
  match head rest with Some z => Some <$> parse_addr z | None => Ok None end = Ok peer ->
  w_bind (pr_world p) (socket_of_udp a) = Ok sock -> chat_host a sock = Ok h ->
  let fails inbox peer' x :=
    exists ev p', event_addr ev = x /\
      chat_main (S fuel) (stage p inbox 0 [] t []) = (Some FAILURE, p') /\
      pr_out p' = [banner a peer h;
                   (Stderr, ("chat: " ++ error_display (drive_error peer' ev)) ++ newline)] in
  (forall b, peer = Some b -> x <> b -> fails (Ok (socket_of_udp x, d) :: inbox) b x) /\
  (peer = None -> length d = MESSAGE_1_LEN -> y <> x ->
     fails (Ok (socket_of_udp x, d) :: Ok (socket_of_udp y, e) :: inbox) x y).
Proof.
  intros Hp Ha Ht Hr Hb Hh fails. pose proof (chat_host_ready _ _ _ Hh) as Hrd.
  pose proof (chat_host_ok _ _ _ Hh) as (_ & Hs & Hu & Hm & _).
  split.
  - intros b -> Hx. destruct (dial_sends h b (seeds 0) (Hu b) ltac:(by rewrite Hs)) as (ae & m1 & _ & Hd).
    set (h1 := host_with _ _ _ _) in Hd.
    assert (Hrd1 : host_ready h1).
    { apply (host_ready_step h); [|done]. by eapply op_dial, (Hd (quiet_world [])). }
    destruct (stage_drive_stray p seeds Hp fuel h1 b x d inbox 1 (to_peer b [m1]) t [banner a (Some b) h] Hrd1 Hx)
      as (ev & s' & Hev & Hdr).
    unfold fails, chat_main. exists ev. eexists. split; [done|].
    erewrite (stage_chat_start _ p prog text rest) by done.
    rewrite prog_bind_eq. unfold initiator_handshake, fresh_seed.
    erewrite prog_bind_eq, (prog_bind_Ok _ _ _ _ _ (stage_seed p seeds Hp _ _ _ _ _ _)).
    rewrite (prog_bind_Ok _ _ _ _ _ (stage_sends p _ _ _ _ _ _ _ _ _ Hd)). cbn [app]. rewrite Hdr. done.
  - intros -> Hd Hy. destruct (Hu x) as [Hu1 Hu2].
    set (h1 := host_with h (host_handshakes h) (host_established h) (next_tick h)).
    set (c := challenge (id_cookie_secret (host_identity h)) x d).
    assert (Hrec : receives h (seeds 0) x d h1 (HandshakeProgress x) (Some c)).
    { apply receives_step; [by apply step_bare_msg1|done| |].
      - rewrite Hs. cbn [recv_buf_size default_transport]. rewrite Hd.
        assert (N.of_nat MESSAGE_1_LEN <= MAX_UDP_PAYLOAD)%N by by vm_compute. lia.
      - intros r [= <-]. rewrite Hs. unfold c. rewrite length_challenge. by vm_compute. }
    assert (Hrd1 : host_ready h1) by (split; [by apply host_ok_tables, Hrd|apply Hrd]).
    destruct (stage_drive_stray p seeds Hp fuel h1 x y e inbox 1 (to_peer x [c]) t [banner a None h] Hrd1 Hy)
      as (ev & s' & Hev & Hdr).
    unfold fails, chat_main. exists ev. eexists. split; [done|].
    erewrite (stage_chat_start _ p prog text rest) by done.
    rewrite prog_bind_eq. unfold responder_handshake, fresh_seed.
    erewrite prog_bind_eq, (prog_bind_Ok _ _ _ _ _ (stage_seed p seeds Hp _ _ _ _ _ _)).
    change (Ok (socket_of_udp x, d) :: Ok (socket_of_udp y, e) :: inbox)
      with (from_peer x [d] ++ Ok (socket_of_udp y, e) :: inbox)%list.
    rewrite (prog_bind_Ok _ _ _ _ _ (stage_receives p _ _ _ _ _ _ _ _ _ _ _ _ Hrec)). cbv beta iota.
    rewrite (prog_bind_Ok _ _ _ x _ eq_refl). cbn [app option_list].
    by rewrite (prog_bind_Err _ _ _ _ _ Hdr).
Qed.

(** What ends a chat whose turn it is to send.  The end of the input
    and an empty line end it with success; a line that does not fit a
    datagram ends it with an error, the session being lost although it could
    go on.  In none of these cases is anything sent. *)
Theorem chat_send_ends (p : Process) (h : Host) (peer : UdpAddr) (conn : EstablishedConnection)
    (line : string) (fuel n : nat) (i : Inbox) (s : list (SocketAddr * list byte)) (t : Stdin)
    (o : list (OutStream * string)) :
  host_established h !! peer = Some conn -> nonces_left (conn_transport conn) 1 ->
  plain_line line -> (N.of_nat (length (str_bytes line)) < AEAD_SAFE_LEN)%N ->
  let len := N.of_nat (length (str_bytes line) + TRANSPORT_OVERHEAD) in
  (max_send_payload (host_socket h) < len)%N ->
  let after t := stage p i n s t (o ++ [prompt])%list in
  (pr_eof p = true ->
     chat_step (S fuel) h peer TurnSend (stage p i n s [] o) = (Returned (Ok ()), after [])) /\
  chat_step (S fuel) h peer TurnSend (stage p i n s (Ok [x0a] :: t) o) =
    (Returned (Ok ()), after t) /\
  chat_step (S fuel) h peer TurnSend (stage p i n s (typed line :: t) o) =
    (Returned (Err (DatagramTooLarge len (max_send_payload (host_socket h)))), after t).
Proof.
  intros Hc Hn Hl Hsafe len Hlen after. split_and!.
  - intros He. by apply stage_send_end.
  - done.
  - cbn [chat_step]. unfold chat_send_step. erewrite prog_bind_Ok by (by apply stage_read_line).
    rewrite decide_False by by apply plain_line_nonempty.
    destruct (transport_encrypt_total (conn_transport conn) (str_bytes line) Hn Hsafe) as (tr & d & Hd).
    pose proof (transport_encrypt_length _ _ _ _ Hd) as Hdl.
    assert (Hdn : N.of_nat (length d) = len) by (unfold len; lia).
    rewrite prog_bind_eq, (stage_run p _ (Returned (Err (DatagramTooLarge len (max_send_payload (host_socket h)))))
      (MkWorld (w_bind (pr_world p)) i [] s n)); [done| |done|done].
    rewrite run_host_send, Hc, Hd. unfold after_reply. rewrite Hdn.
    destruct (N.ltb_spec (max_send_payload (host_socket h)) len); [done|lia].
Qed.

(** ** Fuel *)

(** What the next turns can use up. *)
Definition chat_measure (p : Process) : nat := length (w_inbox (pr_world p)) + length (pr_stdin p).

Lemma recv_measure h seed p r p' :
  run_prog (recv_one h seed) p = (Returned (Ok r), p') -> chat_measure p = S (chat_measure p').
Proof.
  unfold run_prog. destruct (io_run (recv_one h seed) (pr_world p)) as [o w] eqn:E.
  intros [= -> <-]. destruct r as [h' ev]. apply recv_one_sound in E as (from & d & inbox & reply & Hin & _ & ->).
  unfold chat_measure. rewrite Hin. by destruct reply; cbn; rewrite Hin.
Qed.

Lemma send_measure h b q p h' p' :
  run_prog (host_send h b q) p = (Returned (Ok h'), p') -> chat_measure p' = chat_measure p.
Proof.
  unfold run_prog. destruct (io_run (host_send h b q) (pr_world p)) as [o w] eqn:E.
  intros [= -> <-]. by apply send_sound in E as (? & ? & ? & _ & _ & _ & ->).
Qed.

Lemma seed_measure p r p' : fresh_seed p = (Returned (Ok r), p') -> chat_measure p' = chat_measure p.
Proof. unfold fresh_seed, getrandom. by intros [= _ <-]. Qed.

Lemma write_measure stream text p r p' :
  std_write stream text p = (Returned (Ok r), p') -> chat_measure p' = chat_measure p.
Proof. unfold std_write. destruct (pr_out_faults p) as [|[e|] fs]; by intros [= _ <-]. Qed.

Lemma read_line_measure text p x p' :
  read_line text p = (Returned (Ok x), p') -> x <> "" -> chat_measure p = S (chat_measure p').
Proof.
  unfold read_line. rewrite prog_bind_eq.
  destruct (std_write Stdout text p) as [[[[]|e]|] p1] eqn:E1; try done.
  apply write_measure in E1. rewrite prog_bind_eq.
  destruct (std_flush p1) as [[[[]|e]|] p2] eqn:E2; try done.
  assert (H2 : chat_measure p2 = chat_measure p1).
  { revert E2. unfold std_flush. destruct (pr_out_faults p1) as [|[e|] fs]; by intros [= <-]. }
  rewrite prog_bind_eq. destruct (std_read_line p2) as [[[[n buf]|e]|] p3] eqn:E3; try done.
  intros Hx Hne. destruct n as [|n]; cbn in Hx; injection Hx as <- <-; [done|].
  rewrite <- E1, <- H2. revert E3. unfold std_read_line, chat_measure.
  destruct (pr_stdin p2) as [|[line|e] rest]; [by destruct (pr_eof p2)| |done].
  destruct (from_utf8 line); [|done]. intros [= _ _ <-]. cbn. lia.
Qed.

(** The chat program takes a turn only for a datagram or a typed line:
    with fuel above their number, more fuel gives the same run, from any
    process, during the handshake and after it. *)
Theorem chat_fuel_enough (h : Host) (peer : UdpAddr) (turn : Turn) (fuel fuel' : nat) (p : Process) :
  chat_measure p < fuel -> chat_measure p < fuel' ->
  chat_step fuel h peer turn p = chat_step fuel' h peer turn p /\
  drive_handshake_to_completion fuel h peer p = drive_handshake_to_completion fuel' h peer p.
Proof.
  revert h turn fuel' p. induction fuel as [|fuel IH]; intros h turn fuel' p Hf Hf'; [lia|].
  destruct fuel' as [|fuel']; [lia|]. split.
  - cbn [chat_step]. destruct turn.
    + unfold chat_send_step. apply prog_bind_ext. intros x p1 E1. case_decide as Hx; [done|].
      apply read_line_measure in E1; [|done]. apply prog_bind_ext. intros h1 p2 E2%send_measure.
      apply IH; lia.
    + unfold chat_recv_step. apply prog_bind_ext. intros sd p1 E1%seed_measure.
      apply prog_bind_ext. intros [h1 ev] p2 E2%recv_measure.
      destruct ev; try case_decide; apply prog_bind_ext; intros [] p3 E3%write_measure; apply IH; lia.
  - cbn [drive_handshake_to_completion]. apply prog_bind_ext. intros sd p1 E1%seed_measure.
    apply prog_bind_ext. intros [h1 ev] p2 E2%recv_measure.
    destruct ev; try case_decide; try done. apply (IH h1 TurnSend); lia.
Qed.

End endings.

(** ** Concrete chats *)

Section toy.
#[local] Existing Instance toy_crypto.
#[local] Existing Instance direct_io.

Lemma toy_ready port key seed : host_ready (toy_host port key seed).
Proof. split; [apply toy_host_ok|by vm_compute]. Qed.

(** Datagrams of no meaning, from two strangers and from the peer. *)
Definition toy_junk : list (UdpAddr * list byte) :=
  [(loopback 4009, [x00]); (loopback 4008, []); (loopback 4002, [x05]); (loopback 4009, [x01; x02])].

(** What the peer seals. *)
Definition toy_hi : list byte :=
  match transport_encrypt (transport_new (arr_repeat 32 x0b) (arr_repeat 32 x0a)) (str_bytes "hi") with
  | Ok (_, d) => d
  | Err _ => []
  end.

(** A list splits in one way at its first good element. *)
Lemma split_first {A} (good : A -> Prop) (junk : list A) x rest : forall l1 l2,
  (junk ++ x :: rest)%list = (l1 ++ l2)%list -> Forall (fun y => ~ good y) junk -> good x ->
  Forall (fun y => ~ good y) l1 -> (forall y r, l2 = y :: r -> good y) -> l2 <> [] ->
  l1 = junk /\ l2 = x :: rest.
Proof.
  induction junk as [|y junk IH]; intros [|z l1] l2 Heq Hj Hx Hl Hg Hne; cbn in Heq.
  - by subst l2.
  - injection Heq as <- _. by apply Forall_cons in Hl as [? _].
  - subst l2. apply Forall_cons in Hj as [Hy _]. by destruct (Hy (Hg _ _ eq_refl)).
  - injection Heq as <- Heq. apply Forall_cons in Hj as [_ Hj], Hl as [_ Hl].
    by destruct (IH l1 l2 Heq Hj Hx Hl Hg Hne) as [-> ->].
Qed.

(** Four warnings, then the peer's "hi"; the datagram after it is still to
    come. *)
Lemma chat_waits_through_junk_witness :
  let p := toy_process ["chat"; "127.0.0.1:4001"] in
  let peer := loopback 4002 in
  exists ws h2 s1, length ws = 4 /\ Forall (fun m => m.1 = Stderr) ws /\
    chat_step 7 toy_A peer TurnRecv
        (stage p (datagrams (toy_junk ++ (peer, toy_hi) :: [(loopback 4009, [])])%list) 0 [] [] []) =
      chat_step 2 h2 peer TurnSend
        (stage p (datagrams [(loopback 4009, [])]) 5 s1 [] (ws ++ [heard "hi"])%list) /\
    is_Some (host_established h2 !! peer).
Proof.
  intros p peer. set (c := toy_conn x03 x04 x0a x0b).
  assert (Hc : host_established toy_A !! peer = Some c) by apply lookup_singleton_eq.
  assert (Hbad : exists t e, transport_decrypt (conn_transport c) (taken toy_A [x05]) = (t, Err e))
    by (eexists _, _; vm_compute; reflexivity).
  assert (Hgood : exists t, transport_decrypt (conn_transport c) (taken toy_A toy_hi) = (t, Ok (str_bytes "hi")))
    by (eexists; vm_compute; reflexivity).
  assert (Hready : host_ready toy_A) by (split; [exact (toy_session_ok 4001 x01 x02 4002 x03 x04 x0a x0b)|by vm_compute]).
  destruct (chat_waits_through_junk (IoLaws0:=direct_io_laws) (CryptoLaws0:=toy_crypto_laws)
    p toy_seeds toy_A peer c (toy_junk ++ (peer, toy_hi) :: [(loopback 4009, [])]) 7 0 [] [] []
    (toy_lively _) Hready Hc) as (l1 & l2 & evs & h1 & s1 & Heq & _ & Ha & Hws & Hno & _ & _ & Hend).
  - apply Nat.leb_le. vm_compute. reflexivity.
  - apply Nat.ltb_lt. reflexivity.
  - destruct Hbad as (tb & eb & Hbad), Hgood as [tg Hgood].
    set (good := fun xd : UdpAddr * list byte => xd.1 = peer /\
      exists t q, transport_decrypt (conn_transport c) (taken toy_A xd.2) = (t, Ok q)).
    assert (Hhi : good (peer, toy_hi)) by (split; [reflexivity|]; by eexists _, _).
    assert (Hl1 : Forall (fun y => ~ good y) l1).
    { apply Forall_forall. intros [x d] Hin [Hx (t & q & Hq)]. cbn in Hx, Hq. subst x.
      destruct (Hno d Hin) as (t' & e & He). pose proof (eq_trans (eq_sym Hq) He) as Hx. discriminate Hx. }
    assert (Hjunk : Forall (fun y => ~ good y) toy_junk).
    { repeat apply Forall_cons_2; [..|by apply Forall_nil]; intros [Hx (t & q & Hq)];
        [discriminate Hx|discriminate Hx| |discriminate Hx].
      pose proof (eq_trans (eq_sym Hq) Hbad) as Hy. discriminate Hy. }
    destruct l2 as [|[x d] l2].
    { exfalso. rewrite app_nil_r in Heq. rewrite <- Heq in Hl1. apply Forall_app in Hl1 as [_ Hl1].
      apply Forall_cons in Hl1 as [Hn _]. exact (Hn Hhi). }
    destruct Hend as (-> & t' & q & Hq & _ & Hrun).
    destruct (split_first good toy_junk (peer, toy_hi) [(loopback 4009, [])] l1 ((peer, d) :: l2) Heq
      Hjunk Hhi Hl1) as [-> [= -> ->]]; [|discriminate|].
    { intros y r [= <- _]. split; [reflexivity|]. by eexists _, _. }
    pose proof (eq_trans (eq_sym Hq) Hgood) as Hy. injection Hy as _ ->.
    eexists (warnings peer evs), _, s1. split_and!; [|exact Hws|exact Hrun|].
    + unfold warnings. rewrite length_fmap, <- (length_fmap event_addr), Ha. reflexivity.
    + cbn [host_established host_with]. rewrite lookup_insert_eq. by eexists.
Defined.

Lemma chat_handshake_fragile_witness :
  let p := toy_process ["chat"; "127.0.0.1:4002"; "127.0.0.1:4001"] in
  let h := toy_chat_host (loopback 4002) in
  exists ev p', event_addr ev = loopback 4009 /\
    chat_main 1 (stage p [Ok (socket_of_udp (loopback 4009), [x00])] 0 [] [] []) = (Some FAILURE, p') /\
    pr_out p' = [banner (loopback 4002) (Some (loopback 4001)) h;
                 (Stderr, ("chat: " ++ error_display (drive_error (loopback 4001) ev)) ++ newline)].
Proof.
  intros p h.
  apply (proj1 (chat_handshake_fragile (IoLaws0:=direct_io_laws) (CryptoLaws0:=toy_crypto_laws)
    p toy_seeds "chat" "127.0.0.1:4002" ["127.0.0.1:4001"] (loopback 4002) (Some (loopback 4001))
    (toy_socket (loopback 4002)) h 0 [] [] (loopback 4009) (loopback 4009) [x00] [x00]
    (toy_lively _) eq_refl ltac:(by vm_compute) ltac:(by vm_compute) eq_refl (toy_chat_host_new _)));
    [done|by vm_compute].
Defined.

Definition toy_long_line : string := String.concat "" (replicate 1200 "x").

Lemma chat_send_ends_witness :
  let p := toy_process ["chat"; "127.0.0.1:4001"] in
  let after t := stage p [] 0 [] t [prompt] in
  (pr_eof p = true ->
     chat_step 1 toy_A (loopback 4002) TurnSend (stage p [] 0 [] [] []) = (Returned (Ok ()), after [])) /\
  chat_step 1 toy_A (loopback 4002) TurnSend (stage p [] 0 [] [Ok [x0a]] []) = (Returned (Ok ()), after []) /\
  chat_step 1 toy_A (loopback 4002) TurnSend (stage p [] 0 [] [typed toy_long_line] []) =
    (Returned (Err (DatagramTooLarge 1224 1200)), after []).
Proof.
  intros p after.
  apply (chat_send_ends (IoLaws0:=direct_io_laws) (CryptoLaws0:=toy_crypto_laws) p toy_A (loopback 4002)
    (toy_conn x03 x04 x0a x0b) toy_long_line 0 0 [] [] [] []).
  - apply lookup_singleton_eq.
  - by vm_compute.
  - apply plain_line_check; by vm_compute.
  - by vm_compute.
  - by vm_compute.
Defined.

Lemma chat_fuel_enough_witness :
  let p := toy_process ["chat"; "127.0.0.1:4001"] in
  chat_step 1 toy_A (loopback 4002) TurnRecv p = chat_step 7 toy_A (loopback 4002) TurnRecv p /\
  drive_handshake_to_completion 1 toy_A (loopback 4002) p =
    drive_handshake_to_completion 7 toy_A (loopback 4002) p.
Proof.
  intros p. apply (chat_fuel_enough (IoLaws0:=direct_io_laws) toy_A (loopback 4002) TurnRecv 1 7 p); cbn; lia.
Defined.

End toy.
