(* ===== verification/RvDemo.v ===== *)
(** * The rendezvous demonstration

    Models src/examples/rendezvous-demo/src/bin/{server,observe}.rs: a server
    that answers for ever and logs every event, and a client that asks it
    once for its own address.  The two programs repeat the chat program's key
    derivation, seeds and address parsing word for word; names they share
    with it carry the prefixes [sv] and [ob].  The server's loop counts to
    [usize::MAX]; the count is an argument here. *)

From S2P Require Export Stage RendezvousProps.

#[local] Open Scope string_scope.

(** ** The server *)

Definition log_line (event : RendezvousEvent) : string :=
  match event with
  | RvHandshakeProgress addr => "[handshake-progress] addr=" ++ udp_addr_display addr
  | RvHandshakeComplete addr _ remote_peer_id =>
      "[handshake-complete] addr=" ++ udp_addr_display addr ++
      " peer_id=" ++ peer_id_display remote_peer_id
  | ObserveRequestReceived from =>
      "[observe-req] from=" ++ udp_addr_display from ++ "; replied with " ++ udp_addr_display from
  | ObserveResponseReceived from observed =>
      "[observe-resp] from=" ++ udp_addr_display from ++ " observed=" ++ udp_addr_display observed
  | PunchRequestReceived from target forwarded =>
      "[punch-req] from=" ++ udp_addr_display from ++ " target=" ++ udp_addr_display target ++
      " forwarded=" ++ (if forwarded then "true" else "false")
  | PunchForwardReceived from initiator =>
      "[punch-forward] from=" ++ udp_addr_display from ++ " initiator=" ++ udp_addr_display initiator
  | RelayForwarded from target forwarded payload_len =>
      "[relay-fwd] from=" ++ udp_addr_display from ++ " target=" ++ udp_addr_display target ++
      " forwarded=" ++ (if forwarded then "true" else "false") ++
      " payload_len=" ++ decn payload_len
  | RelayReceived from originator payload =>
      "[relay-recv] from=" ++ udp_addr_display from ++ " originator=" ++ udp_addr_display originator ++
      " payload_len=" ++ decn (length payload)
  | RelayFailed from peer reason =>
      "[relay-fail] from=" ++ udp_addr_display from ++ " peer=" ++ udp_addr_display peer ++
      " reason=" ++ reason
  | RvRejected addr reason => "[rejected] addr=" ++ udp_addr_display addr ++ " reason=" ++ reason
  end.
Definition log_event (event : RendezvousEvent) : Prog () := std_writeln Stdout (log_line event).

Definition parse_bind_arg : Prog UdpAddr :=
  args ← std_args;
  arg ← prog_result (ok_or_else (head (drop 1 args)) (HostState "usage: rendezvous-server BIND_ADDR"));
  prog_result
    (map_err (fun e => HostState ("could not parse " ++ str_debug arg ++ " as a socket address: " ++ e))
       (udp_of_socket <$> socket_addr_from_str arg)).

Definition sv_seed_from_port (addr : UdpAddr) (domain : byte) : arr 32 := seed_from_port addr domain.
Definition sv_fresh_seed : Prog (arr 32) := fresh_seed.

Section server.
Context `{C : Crypto, RT : IoRuntime}.

Definition derive_static_keypair (addr : UdpAddr) : StaticKeypair :=
  from_private_bytes (sv_seed_from_port addr xc0).
Definition sv_derive_identity (addr : UdpAddr) : Ed25519Keypair :=
  ed_from_seed (sv_seed_from_port addr xed).

(** [(0..count).try_fold(initial, ..)]. *)
Fixpoint serve_loop (count : nat) (node : RendezvousNode) : Prog RendezvousNode :=
  match count with
  | 0 => mret node
  | S count' =>
      seed ← sv_fresh_seed;
      '(next, event) ← run_prog (rv_recv_one node seed);
      _ ← log_event event;
      serve_loop count' next
  end.
Definition serve_forever (count : nat) (initial : RendezvousNode) : Prog () :=
  _ ← serve_loop count initial; mret ().

Definition server_text (bound_addr : UdpAddr) (peer_id : PeerId) : string :=
  "rendezvous server bound to " ++ udp_addr_display bound_addr ++ newline ++
  "local peer id = " ++ peer_id_display peer_id.

Definition server_run (count : nat) : Prog () :=
  bind ← parse_bind_arg;
  socket ← run_prog (udp_bind bind);
  bound_addr ← prog_result (udp_local_addr socket);
  let static_kp := derive_static_keypair bind in
  let identity := sv_derive_identity bind in
  host ← prog_result (host_new socket static_kp identity (arr_repeat 32 x4a));
  let node := rv_new host in
  _ ← std_writeln Stdout (server_text bound_addr (rv_peer_id node));
  serve_forever count node.

Definition server_main (count : nat) (p : Process) : option ExitCode * Process :=
  match server_run count p with
  | (Returned (Ok _), p') => (Some SUCCESS, p')
  | (Returned (Err e), p') =>
      (Some FAILURE, (std_writeln Stderr ("rendezvous-server: " ++ error_display e) p').2)
  | (Blocked, p') => (None, p')
  end.

End server.

(** ** The client *)

Record ObArgs : Type := MkObArgs { ob_bind : UdpAddr; ob_server : UdpAddr }.

Definition ob_usage : string := "usage: rendezvous-observe BIND_ADDR SERVER_ADDR".
Definition ob_parse_addr (s : string) : result Error UdpAddr := parse_addr s.
Definition ob_fresh_seed : Prog (arr 32) := fresh_seed.

Definition ob_parse_args : Prog ObArgs :=
  args ← std_args;
  let iter := drop 1 args in
  bind_arg ← prog_result (ok_or_else (head iter) (HostState ob_usage));
  server_arg ← prog_result (ok_or_else (head (drop 1 iter)) (HostState ob_usage));
  bind ← prog_result (ob_parse_addr bind_arg);
  server ← prog_result (ob_parse_addr server_arg);
  mret (MkObArgs bind server).

(** A seed of zeros where [getrandom] fails. *)
Definition fresh_seed_factory : Prog SeedFactory := fun p =>
  (Returned (Ok (fun n => match pr_entropy p n with Ok seed => seed | Err _ => arr_repeat 32 x00 end)), p).

Section observe.
Context `{C : Crypto, RT : IoRuntime}.

Definition derive_static_keypair_from_bytes (seed : arr 32) : StaticKeypair := from_private_bytes seed.
Definition derive_identity_from_bytes (seed : arr 32) : Ed25519Keypair := ed_from_seed seed.

(** Without a bound in the source; fuel as in [Chat.v]. *)
Fixpoint ob_drive_handshake (fuel : nat) (host : Host) (expected : UdpAddr) : Prog (Host * PeerId) :=
  match fuel with
  | 0 => prog_blocked
  | S fuel' =>
      seed ← ob_fresh_seed;
      '(host, ev) ← run_prog (recv_one host seed);
      match ev with
      | HandshakeComplete addr _ remote_peer_id =>
          if decide (addr = expected) then mret (host, remote_peer_id)
          else prog_result (Err (drive_error expected ev))
      | HandshakeProgress addr =>
          if decide (addr = expected) then ob_drive_handshake fuel' host expected
          else prog_result (Err (drive_error expected ev))
      | DatagramDelivered _ _ | Rejected _ _ => prog_result (Err (drive_error expected ev))
      end
  end.

Definition observe_text (bound_addr : UdpAddr) (peer_id : PeerId) : string :=
  "rendezvous-observe: bound to " ++ udp_addr_display bound_addr ++ newline ++
  "local peer id = " ++ peer_id_display peer_id.

Definition observe_run (fuel : nat) : Prog () :=
  args ← ob_parse_args;
  socket ← run_prog (udp_bind (ob_bind args));
  bound_addr ← prog_result (udp_local_addr socket);
  let static_kp := derive_static_keypair_from_bytes (arr_repeat 32 xa1) in
  let identity := derive_identity_from_bytes (arr_repeat 32 x11) in
  host ← prog_result (host_new socket static_kp identity (arr_repeat 32 x4a));
  _ ← std_writeln Stdout (observe_text bound_addr (id_peer_id (host_identity host)));
  seed ← ob_fresh_seed;
  host ← run_prog (dial host (ob_server args) seed);
  '(host, _) ← ob_drive_handshake fuel host (ob_server args);
  let node := rv_new host in
  factory ← fresh_seed_factory;
  '(_, observed) ← run_prog (observe_self fuel node (ob_server args) factory);
  std_writeln Stdout ("observed address = " ++ udp_addr_display observed).

Definition observe_main (fuel : nat) (p : Process) : option ExitCode * Process :=
  match observe_run fuel p with
  | (Returned (Ok _), p') => (Some SUCCESS, p')
  | (Returned (Err e), p') =>
      (Some FAILURE, (std_writeln Stderr ("rendezvous-observe: " ++ error_display e) p').2)
  | (Blocked, p') => (None, p')
  end.

End observe.
