(* ===== verification/RvDemoProps.v ===== *)
(** * The demonstration programs at work

    The server and the client of src/examples/rendezvous-demo, each fed with
    what the other sends: the client prints the address the server sees it
    at; and what the server's loop does with any inbox: [node_hears] is the
    run of its node, which ends only at an answer that cannot be sealed. *)

From S2P Require Export RvDemo ChatE2E.

#[local] Open Scope string_scope.

Section steps.
Context `{C : Crypto, RT : IoRuntime, !IoLaws RT}.
Context (p : Process) (seeds : nat -> arr 32) (Hp : lively p seeds).

Definition logged (ev : RendezvousEvent) : OutStream * string := (Stdout, log_line ev ++ newline).

(** One turn of the server's loop. *)
Lemma stage_serve f node node' ev i i' n n' s s' t o :
  run_prog (rv_recv_one node (seeds n)) (stage p i (S n) s t o) =
    (Returned (Ok (node', ev)), stage p i' n' s' t o) ->
  serve_loop (S f) node (stage p i n s t o) =
    serve_loop f node' (stage p i' n' s' t (o ++ [logged ev])%list).
Proof.
  intros Hr. cbn [serve_loop]. unfold sv_fresh_seed, fresh_seed.
  erewrite prog_bind_Ok by (by apply stage_seed). rewrite (prog_bind_Ok _ _ _ _ _ Hr). cbv beta iota.
  unfold log_event, std_writeln. by erewrite prog_bind_Ok by (apply stage_write).
Qed.

Lemma stage_serve_waits f node n s t o :
  serve_loop (S f) node (stage p [] n s t o) = (Blocked, stage p [] (S n) s t o).
Proof.
  cbn [serve_loop]. unfold sv_fresh_seed, fresh_seed.
  erewrite prog_bind_Ok by (by apply stage_seed).
  rewrite prog_bind_eq, (stage_run p _ Blocked (MkWorld (w_bind (pr_world p)) [] [] s (S n))); [done| |done|done].
  unfold rv_recv_one, recv_one. destruct node as [[sock ident hs es cap tick]]. cbn [rv_host].
  by rewrite !run_bind_eq, run_udp_recv.
Qed.

(** The handshake's events pass through the node. *)
Definition rv_lift (ev : HostEvent) : option RendezvousEvent :=
  match ev with
  | HandshakeProgress addr => Some (RvHandshakeProgress addr)
  | HandshakeComplete addr rs pid => Some (RvHandshakeComplete addr rs pid)
  | _ => None
  end.

Lemma stage_rv_receives h seed a d h' ev ev' reply i n s t o :
  receives h seed a d h' ev reply -> rv_lift ev = Some ev' ->
  run_prog (rv_recv_one (MkRendezvousNode h) seed) (stage p (from_peer a [d] ++ i)%list n s t o) =
    (Returned (Ok (MkRendezvousNode h', ev')), stage p i n (s ++ to_peer a (option_list reply))%list t o).
Proof.
  intros Hr Hev. set (w := MkWorld (w_bind (pr_world p)) (from_peer a [d] ++ i)%list [] s n).
  erewrite (stage_run p _ _ (world_reply (world_received w) a reply)).
  2: { fold w. unfold rv_recv_one. cbn [rv_host]. rewrite run_bind_eq, (Hr w i eq_refl eq_refl). cbn [run_bind].
       destruct ev; cbn in Hev; try done; injection Hev as <-; cbn [rv_handle_host_event]; by rewrite run_pure. }
  2, 3: by destruct reply.
  destruct reply; cbn; [done|]. by rewrite app_nil_r.
Qed.

(** The client's handshake. *)
Lemma stage_ob_progress f h b d h' reply i n s t o :
  receives h (seeds n) b d h' (HandshakeProgress b) reply ->
  ob_drive_handshake (S f) h b (stage p (from_peer b [d] ++ i) n s t o)%list =
    ob_drive_handshake f h' b (stage p i (S n) (s ++ to_peer b (option_list reply)) t o)%list.
Proof.
  intros Hr. cbn [ob_drive_handshake]. unfold ob_fresh_seed, fresh_seed.
  erewrite prog_bind_Ok by (by apply stage_seed).
  erewrite prog_bind_Ok by (by eapply stage_receives). cbv beta iota. by rewrite decide_True.
Qed.

Lemma stage_ob_complete f h b d h' rs pid reply i n s t o :
  receives h (seeds n) b d h' (HandshakeComplete b rs pid) reply ->
  ob_drive_handshake (S f) h b (stage p (from_peer b [d] ++ i) n s t o)%list =
    (Returned (Ok (h', pid)), stage p i (S n) (s ++ to_peer b (option_list reply)) t o)%list.
Proof.
  intros Hr. cbn [ob_drive_handshake]. unfold ob_fresh_seed, fresh_seed.
  erewrite prog_bind_Ok by (by apply stage_seed).
  erewrite prog_bind_Ok by (by eapply stage_receives). cbv beta iota. by rewrite decide_True.
Qed.

End steps.

Section programs.
Context `{C : Crypto, RT : IoRuntime, !IoLaws RT, !CryptoLaws C}.

Definition server_host (s : UdpAddr) (sock : UdpSocket) : result Error Host :=
  host_new (default_transport sock) (derive_static_keypair s) (sv_derive_identity s) (arr_repeat 32 x4a).
Definition observe_host (sock : UdpSocket) : result Error Host :=
  host_new (default_transport sock) (derive_static_keypair_from_bytes (arr_repeat 32 xa1))
    (derive_identity_from_bytes (arr_repeat 32 x11)) (arr_repeat 32 x4a).

(** What the two programs print first. *)
Definition server_banner (la : UdpAddr) (h : Host) : OutStream * string :=
  (Stdout, server_text la (id_peer_id (host_identity h)) ++ newline).
Definition observe_banner (la : UdpAddr) (h : Host) : OutStream * string :=
  (Stdout, observe_text la (id_peer_id (host_identity h)) ++ newline).

Lemma stage_server_start count p prog text rest s sock la h i n sent t o :
  pr_args p = prog :: text :: rest -> parse_addr text = Ok s ->
  w_bind (pr_world p) (socket_of_udp s) = Ok sock -> sock_local sock = Ok (socket_of_udp la) ->
  server_host s sock = Ok h ->
  server_run count (stage p i n sent t o) =
    serve_forever count (MkRendezvousNode h) (stage p i n sent t (o ++ [server_banner la h])%list).
Proof.
  intros Ha Ht Hb Hla Hh. unfold server_run. erewrite (prog_bind_Ok _ _ _ s).
  2: { unfold parse_bind_arg. rewrite (prog_bind_Ok _ _ _ (pr_args p) (stage p i n sent t o)) by done.
       rewrite Ha. cbn [drop head ok_or_else]. rewrite (prog_bind_Ok _ _ _ text _ eq_refl).
       fold (parse_addr text). unfold prog_result. by rewrite Ht. }
  erewrite prog_bind_Ok by (by eapply stage_bind).
  erewrite (prog_bind_Ok _ _ _ la).
  2: { unfold prog_result, udp_local_addr. cbn [socket default_transport]. rewrite Hla.
       cbn [fmap result_fmap map_err]. by rewrite udp_of_socket_of_udp. }
  fold (server_host s sock). erewrite (prog_bind_Ok _ _ _ h) by (unfold prog_result; by rewrite Hh).
  by erewrite prog_bind_Ok by (apply stage_write).
Qed.

Lemma stage_observe_start fuel p prog textA textS rest b s sock la h i n sent t o :
  pr_args p = prog :: textA :: textS :: rest -> parse_addr textA = Ok b -> parse_addr textS = Ok s ->
  w_bind (pr_world p) (socket_of_udp b) = Ok sock -> sock_local sock = Ok (socket_of_udp la) ->
  observe_host sock = Ok h ->
  observe_run fuel (stage p i n sent t o) =
    (seed ← ob_fresh_seed;
     host ← run_prog (dial h s seed);
     '(host, _) ← ob_drive_handshake fuel host s;
     factory ← fresh_seed_factory;
     '(_, observed) ← run_prog (observe_self fuel (rv_new host) s factory);
     std_writeln Stdout ("observed address = " ++ udp_addr_display observed))
      (stage p i n sent t (o ++ [observe_banner la h])%list).
Proof.
  intros Ha Ht Hs Hb Hla Hh. unfold observe_run. erewrite (prog_bind_Ok _ _ _ (MkObArgs b s)).
  2: { unfold ob_parse_args. rewrite (prog_bind_Ok _ _ _ (pr_args p) (stage p i n sent t o)) by done.
       rewrite Ha. cbn [drop head ok_or_else]. rewrite (prog_bind_Ok _ _ _ textA _ eq_refl).
       rewrite (prog_bind_Ok _ _ _ textS _ eq_refl). unfold ob_parse_addr.
       erewrite (prog_bind_Ok _ _ _ b) by (unfold prog_result; by rewrite Ht).
       by erewrite (prog_bind_Ok _ _ _ s) by (unfold prog_result; by rewrite Hs). }
  cbn [ob_bind ob_server].
  erewrite prog_bind_Ok by (by eapply stage_bind).
  erewrite (prog_bind_Ok _ _ _ la).
  2: { unfold prog_result, udp_local_addr. cbn [socket default_transport]. rewrite Hla.
       cbn [fmap result_fmap map_err]. by rewrite udp_of_socket_of_udp. }
  fold (observe_host sock). erewrite (prog_bind_Ok _ _ _ h) by (unfold prog_result; by rewrite Hh).
  by erewrite prog_bind_Ok by (apply stage_write).
Qed.

(** The exchange of [rv_observe_self] in a process: the server's turn and the
    client's call. *)
Lemma stage_answers p n n' seed a d d' i k sent t o :
  (forall w inbox, w_inbox w = Ok (socket_of_udp a, d) :: inbox -> send_fault w = None ->
     io_run (rv_recv_one n seed) w =
       (Returned (Ok (n', ObserveRequestReceived a)), world_sent (world_received w) a d')) ->
  run_prog (rv_recv_one n seed) (stage p (from_peer a [d] ++ i)%list k sent t o) =
    (Returned (Ok (n', ObserveRequestReceived a)), stage p i k (sent ++ to_peer a [d'])%list t o).
Proof. intros H. by erewrite stage_run; [|by eapply H|..]. Qed.

Lemma stage_observes p n n' s d d' x fuel f k sent t o :
  (forall fuel f w inbox, w_inbox w = Ok (socket_of_udp s, d') :: inbox -> send_fault w = None ->
     length (w_inbox w) < fuel ->
     io_run (observe_self fuel n s f) w =
       (Returned (Ok (n', x)), world_received (call_seed f (world_sent w s d)).2)) ->
  run_prog (observe_self (S (S fuel)) n s f) (stage p (from_peer s [d']) k sent t o) =
    (Returned (Ok (n', x)), stage p [] (S k) (sent ++ to_peer s [d])%list t o).
Proof. intros H. erewrite stage_run; [|eapply H; [done|done|cbn; lia]|..]; done. Qed.

Lemma wire_addr_display a : udp_addr_display (wire_addr a) = udp_addr_display a.
Proof. by destruct a. Qed.

Lemma observe_frames_fit h sock a :
  host_socket h = default_transport sock ->
  payload_fits h (rv_bytes ObserveReq) /\ payload_fits h (rv_bytes (ObserveResp a)).
Proof.
  intros Hs. unfold payload_fits. rewrite Hs, !length_rv_bytes. cbn [max_send_payload default_transport].
  destruct a; by repeat split; vm_compute.
Qed.

(** C29: the two demonstration programs do what they are for: the
    client, given any address to bind and the server's address, and the
    server, given its address, each find in their sockets exactly what the
    other sends.  The client shakes hands, asks, prints its banner and then
    the address [a] at which the server sees it, and ends with success.  The
    server logs the three events of the handshake and the request, and waits
    for the next datagram. *)
Theorem observe_programs (pC pS : Process) (seedsC seedsS : nat -> arr 32) (b a s laC laS : UdpAddr)
    (sockC sockS : UdpSocket) (hC hS : Host) (progC progS textC textS : string) :
  lively pC seedsC -> lively pS seedsS ->
  pr_args pC = [progC; textC; textS] -> pr_args pS = [progS; textS] ->
  parse_addr textC = Ok b -> parse_addr textS = Ok s ->
  w_bind (pr_world pC) (socket_of_udp b) = Ok sockC -> sock_local sockC = Ok (socket_of_udp laC) ->
  w_bind (pr_world pS) (socket_of_udp s) = Ok sockS -> sock_local sockS = Ok (socket_of_udp laS) ->
  observe_host sockC = Ok hC -> server_host s sockS = Ok hS ->
  exists dsC dsS, length dsC = 4 /\ length dsS = 3 /\ forall fuel count tC tS,
    observe_run (4 + fuel) (stage pC (from_peer s dsS) 0 [] tC []) =
      (Returned (Ok ()),
       stage pC [] 4 (to_peer s dsC) tC
         [observe_banner laC hC;
          (Stdout, ("observed address = " ++ udp_addr_display a) ++ newline)]) /\
    server_run (5 + count) (stage pS (from_peer a dsC) 0 [] tS []) =
      (Blocked,
       stage pS [] 5 (to_peer a dsS) tS
         [server_banner laS hS;
          logged (RvHandshakeProgress a); logged (RvHandshakeProgress a);
          logged (RvHandshakeComplete a (keypair_public (id_static_keypair (host_identity hC)))
                    (id_peer_id (host_identity hC)));
          logged (ObserveRequestReceived a)]).
Proof.
  intros LC LS HaC HaS HtC HtS HbC HlC HbS HlS HhC HhS.
  destruct (fresh_host_ok _ _ _ _ _ HhC) as (IC & SC & UC & OC).
  destruct (fresh_host_ok _ _ _ _ _ HhS) as (IS & SS & US & OS).
  destruct (handshake_runs hC hS a s (seedsC 0) (seedsS 1) IC IS OC OS (UC s) (US a))
    as (A1 & A2 & A3 & B1 & B2 & B3 & m1 & c & m1c & m2 & m3 & cA & cB & k1 & k2 &
        E1 & E2 & E3 & E4 & E5 & E6 & SA & SB & LA & TA & LB & TB).
  assert (Hl : linked A3 a B3 s 2).
  { eapply linked_weaken; [eapply linked_fresh|]; [done..| | |]; by rewrite ?SA, ?SB, ?SC, ?SS. }
  destruct (observe_frames_fit A3 sockC a) as [F1 _]; [by rewrite SA|].
  destruct (observe_frames_fit B3 sockS a) as [_ F2]; [by rewrite SB|].
  destruct (rv_observe_self (MkRendezvousNode A3) (MkRendezvousNode B3) a s (seedsS 3) Hl F1 F2)
    as (d & nS' & d' & nA' & RS & RC & _ & _).
  exists ([m1; m1c; m3] ++ [d])%list, ([c; m2] ++ [d'])%list. split; [done|]. split; [done|].
  intros fuel count tC tS. split.
  - erewrite (stage_observe_start _ pC progC textC textS []) by done. cbn [app].
    unfold ob_fresh_seed, fresh_seed. erewrite prog_bind_Ok by (by apply stage_seed).
    erewrite prog_bind_Ok by (by eapply stage_sends).
    change [c; m2; d'] with ([c] ++ [m2] ++ [d'])%list. rewrite !from_peer_app. cbn [Nat.add].
    erewrite prog_bind_Ok.
    2: { rewrite (stage_ob_progress _ _ LC _ _ _ _ _ _ _ _ _ _ _ (E3 _)).
         by rewrite (stage_ob_complete _ _ LC _ _ _ _ _ _ _ _ _ _ _ _ _ (E5 _)). }
    cbv beta iota. rewrite (prog_bind_Ok fresh_seed_factory _ _ _ _ eq_refl).
    erewrite prog_bind_Ok by (by apply (stage_observes pC _ nA' s d d' (wire_addr a))).
    cbv beta iota. rewrite wire_addr_display. unfold std_writeln. by rewrite stage_write.
  - erewrite (stage_server_start _ pS progS textS []) by done. cbn [app]. unfold serve_forever.
    change [m1; m1c; m3; d] with ([m1] ++ [m1c] ++ [m3] ++ [d])%list. rewrite !from_peer_app.
    cbn [Nat.add]. rewrite prog_bind_eq.
    erewrite (stage_serve _ _ LS) by (by apply (stage_rv_receives _ _ _ _ _ _ _ _ _ _ _ _ _ _ (E2 _))).
    erewrite (stage_serve _ _ LS) by (by apply (stage_rv_receives _ _ _ _ _ _ _ _ _ _ _ _ _ _ E4)).
    erewrite (stage_serve _ _ LS) by (by apply (stage_rv_receives _ _ _ _ _ _ _ _ _ _ _ _ _ _ (E6 _))).
    erewrite (stage_serve _ _ LS) by (rewrite <- (app_nil_r (from_peer a [d])); by apply stage_answers).
    by rewrite (stage_serve_waits _ _ LS).
Qed.

End programs.

(** ** The server's loop on any inbox *)

#[local] Close Scope string_scope.

(** What a frame from [a] has the server send, and to whom. *)
Definition answer_to `{C : Crypto} (h : Host) (a : UdpAddr) (f : RvFrame) : option (UdpAddr * RvFrame) :=
  match f with
  | ObserveReq => Some (a, ObserveResp a)
  | PunchReq t => if is_established h t then Some (t, PunchForward a) else None
  | RelayDataReq t pl =>
      if is_established h t then Some (t, RelayDataDeliver a pl)
      else Some (a, RelayFail t ("relay: no established session with " ++ udp_addr_display t)%string)
  | ObserveResp _ | PunchForward _ | RelayDataDeliver _ _ | RelayFail _ _ => None
  end.

Section loop.
Context `{C : Crypto, RT : IoRuntime, !IoLaws RT, !CryptoLaws C}.

(** Sealing under [conn] for the host's socket fails with [e]. *)
Definition sealing_fails (h : Host) (conn : EstablishedConnection) (bytes : list byte) (e : Error) : Prop :=
  match transport_encrypt (conn_transport conn) bytes with
  | Err er => e = er
  | Ok (_, d) =>
      let len := N.of_nat (length d) in
      (max_send_payload (host_socket h) < len)%N /\ e = DatagramTooLarge len (max_send_payload (host_socket h))
  end.

Lemma run_answer {A} h to g conn (F : Host -> A) w :
  host_established h !! to = Some conn -> send_fault w = None ->
  let r := io_run (bytes ← io_result (rv_encode g); F <$> host_send h to (rv_identity_wrap bytes)) w in
  (exists h2 d, r = (Returned (Ok (F h2)), world_sent w to d) /\ host_step h h2) \/
  (exists e, r = (Returned (Err e), w) /\ sealing_fails h conn (rv_bytes g) e).
Proof.
  intros Hc Hf r. unfold r, sealing_fails. rewrite rv_encode_eq, run_bind_eq, run_result. cbn [run_bind].
  unfold rv_identity_wrap. rewrite run_fmap_eq, run_host_send, Hc.
  assert (Hstep : forall h2 w2, io_run (host_send h to (rv_bytes g)) w = (Returned (Ok h2), w2) -> host_step h h2)
    by (intros h2 w2 Hr; by econstructor).
  rewrite run_host_send, Hc in Hstep. destruct (transport_encrypt _ _) as [[t d]|e].
  2: { right. by exists e. }
  unfold after_reply in *. rewrite Hf in *. destruct (N.ltb_spec (max_send_payload (host_socket h)) (N.of_nat (length d))).
  - right. by eexists.
  - left. eexists _, d. split; [done|]. by eapply Hstep.
Qed.

(** A frame of the rendezvous protocol cannot be too long for the socket,
    except what a relay request carries. *)
Lemma sealing_fails_why h a f to g conn e :
  host_ready h -> answer_to h a f = Some (to, g) -> sealing_fails h conn (rv_bytes g) e ->
  ~ nonces_left (conn_transport conn) 1 \/ exists t pl, f = RelayDataReq t pl.
Proof.
  intros [_ Hmax] Ha Hs.
  destruct f as [|o|t|i|t pl|o pl|pr rs]; try discriminate Ha; [left; intros Hn|left; intros Hn|by right; eexists _, _].
  - injection Ha as <- <-. revert Hs. unfold sealing_fails.
    assert (Hl : length (rv_bytes (ObserveResp a)) <= 20) by (rewrite length_rv_bytes; destruct a; cbn; lia).
    destruct (transport_encrypt_total (conn_transport conn) (rv_bytes (ObserveResp a)) Hn) as (t' & d & Hd);
      [unfold AEAD_SAFE_LEN; lia|]. rewrite Hd. apply transport_encrypt_length in Hd. intros [Hlt _].
    change TRANSPORT_OVERHEAD with 24 in Hd. change HANDSHAKE_MAX with 192 in Hmax. lia.
  - cbn in Ha. destruct (is_established h t); [|done]. injection Ha as <- <-. revert Hs. unfold sealing_fails.
    assert (Hl : length (rv_bytes (PunchForward a)) <= 20) by (rewrite length_rv_bytes; destruct a; cbn; lia).
    destruct (transport_encrypt_total (conn_transport conn) (rv_bytes (PunchForward a)) Hn) as (t' & d & Hd);
      [unfold AEAD_SAFE_LEN; lia|]. rewrite Hd. apply transport_encrypt_length in Hd. intros [Hlt _].
    change TRANSPORT_OVERHEAD with 24 in Hd. change HANDSHAKE_MAX with 192 in Hmax. lia.
Qed.

(** The answer the frame [f] of [a] calls for cannot be sealed: the sending
    nonces of the session are used up, or [f] is a relay request whose payload
    makes too long a datagram. *)
Definition answer_fails (h : Host) (a : UdpAddr) (f : RvFrame) (e : Error) : Prop :=
  exists to g conn, answer_to h a f = Some (to, g) /\ host_established h !! to = Some conn /\
    sealing_fails h conn (rv_bytes g) e /\
    (~ nonces_left (conn_transport conn) 1 \/ exists t pl, f = RelayDataReq t pl).

Lemma run_answering {A} h a f to g (F : Host -> A) w :
  host_ready h -> answer_to h a f = Some (to, g) -> is_Some (host_established h !! to) -> send_fault w = None ->
  let r := io_run (bytes ← io_result (rv_encode g); F <$> host_send h to (rv_identity_wrap bytes)) w in
  (exists h2 d, r = (Returned (Ok (F h2)), world_sent w to d) /\ host_ready h2) \/
  (exists e, r = (Returned (Err e), w) /\ answer_fails h a f e).
Proof.
  intros Hh Ha [conn Hc] Hf. destruct (run_answer h to g conn F w Hc Hf) as [(h2 & d & Hr & Hs)|(e & Hr & Hs)].
  - left. exists h2, d. split; [exact Hr|by eapply host_ready_step].
  - right. exists e. split; [exact Hr|]. exists to, g, conn. split_and!; [done|done|done|by eapply sealing_fails_why].
Qed.

(** What the node does with the plaintext of a peer. *)
Lemma run_rv_plaintext h a q w :
  host_ready h -> is_Some (host_established h !! a) -> send_fault w = None ->
  let r := io_run (rv_process_plaintext (MkRendezvousNode h) a q) w in
  (exists h2 to reply, r = (Returned (Ok (MkRendezvousNode h2, rv_event h a q)), world_reply w to reply) /\
     host_ready h2) \/
  (exists f e, rv_decode q = Ok f /\ answer_fails h a f e /\ r = (Returned (Err e), w)).
Proof.
  intros Hh Ha Hf r. unfold r, rv_process_plaintext, rv_process_plaintext_with_wrap, rv_handle_datagram, rv_event.
  cbn [rv_host]. destruct (rv_decode q) as [f|e]; [|rewrite run_pure; left; by exists h, a, None].
  assert (Hanswer : forall to g (ev : RendezvousEvent), answer_to h a f = Some (to, g) -> is_Some (host_established h !! to) ->
    let r := io_run (bytes ← io_result (rv_encode g);
      (fun host => (MkRendezvousNode host, ev)) <$> host_send h to (rv_identity_wrap bytes)) w in
    (exists h2 to reply, r = (Returned (Ok (MkRendezvousNode h2, ev)), world_reply w to reply) /\ host_ready h2) \/
    (exists f' e, (Ok f : result Error RvFrame) = Ok f' /\ answer_fails h a f' e /\ r = (Returned (Err e), w))).
  { intros to g ev Hto Hc. destruct (run_answering h a f to g (fun host => (MkRendezvousNode host, ev)) w Hh Hto Hc Hf)
      as [(h2 & d & Hr & Hh2)|(e & Hr & Hfail)].
    - left. by exists h2, to, (Some d).
    - right. by exists f, e. }
  destruct f as [|o|t|i|t pl|o pl|pr rs]; try (rewrite run_pure; left; by exists h, a, None).
  - by apply Hanswer.
  - unfold auto_forward_punch. cbn in Hanswer. destruct (is_established h t) eqn:Et.
    + apply Hanswer; [done|]. by apply contains_key_true.
    + rewrite run_pure. left. by exists h, a, None.
  - left. unfold auto_send_punch. rewrite run_fmap_eq, run_punch; [|destruct Hh as [_ Hm]; change HANDSHAKE_MAX with 192 in Hm; lia|done].
    cbn [run_bind]. eexists _, i, (Some [PUNCH_BYTE]). split; [done|].
    split; [by apply host_ok_tables, Hh|apply Hh].
  - unfold auto_forward_relay. cbn in Hanswer. destruct (is_established h t) eqn:Et.
    + apply Hanswer; [done|]. by apply contains_key_true.
    + by apply Hanswer.
Qed.

(** The node's event for the host's. *)
Definition rv_reports (h : Host) (ev : HostEvent) : RendezvousEvent :=
  match ev with
  | HandshakeProgress a => RvHandshakeProgress a
  | HandshakeComplete a rs pid => RvHandshakeComplete a rs pid
  | Rejected a r => RvRejected a r
  | DatagramDelivered a q => rv_event h a q
  end.

Context (p : Process) (seeds : nat -> arr 32).

(** The node takes datagrams one by one, from its [n]th seed on; each gives
    an event, which is the one the host's step and the frame call for. *)
Inductive node_hears : nat -> RendezvousNode -> list (UdpAddr * list byte) -> list (SocketAddr * list byte) ->
    list RendezvousEvent -> RendezvousNode -> list (UdpAddr * list byte) -> list (SocketAddr * list byte) -> Prop :=
| nh_end n node l s : node_hears n node l s [] node l s
| nh_turn n node x d l s h1 hev reply node1 s1 evs node2 l2 s2 :
    recv_step (rv_host node) x (taken (rv_host node) d) (seeds n) h1 hev reply ->
    io_run (rv_recv_one node (seeds n)) (world_at p ((x, d) :: l) (S n) s) =
      (Returned (Ok (node1, rv_reports h1 hev)), world_at p l (S n) s1) ->
    node_hears (S n) node1 l s1 evs node2 l2 s2 ->
    node_hears n node ((x, d) :: l) s (rv_reports h1 hev :: evs) node2 l2 s2.

(** One turn, whatever arrives. *)
Lemma node_turn node x d l n s :
  host_ready (rv_host node) ->
  exists h1 hev reply, recv_step (rv_host node) x (taken (rv_host node) d) (seeds n) h1 hev reply /\
  let r := io_run (rv_recv_one node (seeds n)) (world_at p ((x, d) :: l) (S n) s) in
  (exists node1 s1, r = (Returned (Ok (node1, rv_reports h1 hev)), world_at p l (S n) s1) /\
     host_ready (rv_host node1)) \/
  (exists q f e, hev = DatagramDelivered x q /\ rv_decode q = Ok f /\ answer_fails h1 x f e /\
     r = (Returned (Err e), world_at p l (S n) s)).
Proof.
  intros Hh. destruct (recv_any p seeds (rv_host node) x d l n s Hh) as (h1 & hev & reply & Hh1 & Hs & Hr).
  exists h1, hev, reply. split; [done|]. cbn zeta. unfold rv_recv_one. rewrite run_bind_eq, Hr. cbn [run_bind].
  destruct hev as [y|y rs pid|y q|y r]; cbn [rv_handle_host_event rv_reports].
  1, 2, 4: rewrite run_pure; left; by eexists _, _.
  inversion Hs as [cn t' q' Hx Hd| | | | | | | | | |]; subst. cbn [option_list to_peer fmap list_fmap] in *.
  rewrite app_nil_r. edestruct (run_rv_plaintext _ y q (world_at p l (S n) s) Hh1) as
    [(h2 & to & rep & Hrun & Hh2)|(f & e & Hf & Hfail & Hrun)]; [|done|rewrite Hrun..].
  - cbn [host_established host_with]. rewrite lookup_insert_eq. by eexists.
  - left. exists (MkRendezvousNode h2), (w_sent (world_reply (world_at p l (S n) s) to rep)).
    split; [|done]. by destruct rep.
  - right. by exists q, f, e.
Qed.

Context (Hp : lively p seeds).

(** C30: only a frame whose answer cannot be sealed stops the server.  Let it
    receive any datagrams, of strangers, of handshakes, junk, and frames it
    rejects, with a count above their number, as the source's [usize::MAX]
    is.  It takes them one by one, each on the node the one before left, and
    writes for each the line of its event, the one that the host's step and
    the frame call for.  Either all are taken and logged and it waits for
    more; or it stops at one which opened under a session of its source to a
    frame whose answer cannot be sealed, with that error: the sending nonces
    are used up, or the frame is a relay request that makes too long a
    datagram. *)
Theorem server_logs_every_datagram (node : RendezvousNode) (l : list (UdpAddr * list byte))
    (count n : nat) (s : list (SocketAddr * list byte)) (t : Stdin) (o : list (OutStream * string)) :
  host_ready (rv_host node) -> length l < count ->
  exists l1 l2 events node1 s1,
    l = l1 ++ l2 /\ length events = length l1 /\
    node_hears n node l s events node1 l2 s1 /\ host_ready (rv_host node1) /\
    match l2 with
    | [] =>
        serve_forever count node (stage p (datagrams l) n s t o) =
          (Blocked, stage p [] (S (n + length l)) s1 t (o ++ (logged <$> events)))
    | (x, d) :: rest =>
        exists h1 q f e,
          recv_step (rv_host node1) x (taken (rv_host node1) d) (seeds (n + length l1)) h1
            (DatagramDelivered x q) None /\
          rv_decode q = Ok f /\ answer_fails h1 x f e /\
          serve_forever count node (stage p (datagrams l) n s t o) =
            (Returned (Err e), stage p (datagrams rest) (S (n + length l1)) s1 t (o ++ (logged <$> events)))
    end.
Proof.
  unfold serve_forever. revert node count n s o.
  induction l as [|[x d] l IH]; intros node count n s o Hh Hc; (destruct count as [|count]; [cbn in Hc; lia|]);
    cbn [length] in Hc; rewrite prog_bind_eq.
  { exists [], [], [], node, s. split_and!; [done|done|apply nh_end|done|].
    change (datagrams []) with ([] : Inbox). by rewrite (stage_serve_waits _ _ Hp), app_nil_r, Nat.add_0_r. }
  destruct (node_turn node x d l n s Hh) as (h1 & hev & reply & Hs & [(node1 & s1 & Hr & Hh1)|(q & f & e & -> & Hf & Hfail & Hr)]).
  - rewrite (stage_serve _ _ Hp _ _ _ _ _ _ _ _ _ _ _ _ (stage_at p _ _ _ _ _ _ _ t o Hr)).
    destruct (IH node1 count (S n) s1 (o ++ [logged (rv_reports h1 hev)]) Hh1 ltac:(lia))
      as (l1 & l2 & evs & node2 & s2 & -> & Hlen & Hhear & Hh2 & Hend). rewrite prog_bind_eq in Hend.
    exists ((x, d) :: l1), l2, (rv_reports h1 hev :: evs), node2, s2. cbn [length fmap list_fmap].
    split_and!; [done|by rewrite Hlen|by eapply nh_turn|done|].
    destruct l2 as [|[y e] rest].
    + rewrite Hend. by rewrite <- app_assoc, Nat.add_succ_r.
    + destruct Hend as (h3 & q & f & er & H1 & H2 & H3 & ->). exists h3, q, f, er.
      rewrite Nat.add_succ_r. split_and!; [done|done|done|]. by rewrite <- app_assoc.
  - exists [], ((x, d) :: l), [], node, s. split_and!; [done|done|apply nh_end|done|].
    destruct (recv_step_delivered _ _ _ _ _ _ _ _ Hs) as (_ & -> & _).
    exists h1, q, f, e. cbn [length]. rewrite Nat.add_0_r, app_nil_r. split_and!; [done..|].
    cbn [serve_loop]. unfold sv_fresh_seed, fresh_seed.
    rewrite (prog_bind_Ok _ _ _ _ _ (stage_seed p seeds Hp _ _ _ _ _ _)).
    by rewrite prog_bind_eq, (stage_at p _ _ _ _ _ _ _ t o Hr).
Qed.

End loop.

(** ** Concrete programs *)

Section toy.
#[local] Existing Instance toy_crypto.
#[local] Existing Instance direct_io.

Definition toy_server_host (s : UdpAddr) : Host :=
  match server_host s (toy_socket s) with Ok h => h | Err _ => toy_host 0 x00 x00 end.
Definition toy_observe_host (s : UdpAddr) : Host :=
  match observe_host (toy_socket s) with Ok h => h | Err _ => toy_host 0 x00 x00 end.

Lemma observe_programs_witness :
  let client := toy_process ["observe"; "127.0.0.1:0"; "127.0.0.1:5000"] in
  let server := toy_process ["server"; "127.0.0.1:5000"] in
  let hC := toy_observe_host (loopback 0) in
  let hS := toy_server_host (loopback 5000) in
  exists dsC dsS, length dsC = 4 /\ length dsS = 3 /\ forall fuel count tC tS,
    observe_run (4 + fuel) (stage client (from_peer (loopback 5000) dsS) 0 [] tC []) =
      (Returned (Ok ()),
       stage client [] 4 (to_peer (loopback 5000) dsC) tC
         [observe_banner (loopback 0) hC;
          (Stdout, ("observed address = " ++ "/ip4/127.0.0.1/udp/4711") ++ newline)%string]) /\
    server_run (5 + count) (stage server (from_peer (loopback 4711) dsC) 0 [] tS []) =
      (Blocked,
       stage server [] 5 (to_peer (loopback 4711) dsS) tS
         [server_banner (loopback 5000) hS;
          logged (RvHandshakeProgress (loopback 4711)); logged (RvHandshakeProgress (loopback 4711));
          logged (RvHandshakeComplete (loopback 4711)
                    (keypair_public (id_static_keypair (host_identity hC)))
                    (id_peer_id (host_identity hC)));
          logged (ObserveRequestReceived (loopback 4711))]).
Proof.
  intros client server hC hS.
  change "/ip4/127.0.0.1/udp/4711"%string with (udp_addr_display (loopback 4711)).
  apply (observe_programs (IoLaws0:=direct_io_laws) (CryptoLaws0:=toy_crypto_laws)
    client server toy_seeds toy_seeds (loopback 0) (loopback 4711) (loopback 5000) (loopback 0)
    (loopback 5000) (toy_socket (loopback 0)) (toy_socket (loopback 5000)) hC hS
    "observe" "server" "127.0.0.1:0" "127.0.0.1:5000"); done.
Defined.

(** What the clients of [toy_server] seal for it. *)
Definition toy_sealed (k1 k2 : byte) (f : RvFrame) : list byte :=
  match transport_encrypt (transport_new (arr_repeat 32 k1) (arr_repeat 32 k2)) (rv_bytes f) with
  | Ok (_, d) => d
  | Err _ => []
  end.

(** A stranger's junk, a client's request for its address, bytes of no
    meaning from a client: the server logs the three and waits.  A client's
    relay request with 1200 bytes for the other then ends it. *)
Definition toy_requests : list (UdpAddr * list byte) :=
  [(loopback 4009, [x00]); (loopback 4001, toy_sealed x0a x0b ObserveReq); (loopback 4002, [x01; x02])].
Definition toy_flood : list (UdpAddr * list byte) :=
  [(loopback 4002, toy_sealed x0c x0d (RelayDataReq (loopback 4001) (replicate 1200 x07)))].

Lemma server_logs_every_datagram_witness :
  let p := toy_process ["server"; "127.0.0.1:4003"] in
  let serves count l := serve_forever count (MkRendezvousNode toy_server) (stage p (datagrams l) 0 [] [] []) in
  (exists events s1, length events = 3 /\
     serves 5 toy_requests = (Blocked, stage p [] 4 s1 [] (logged <$> events))) /\
  (exists events s1 x h1 f e rest, serves 5 (toy_requests ++ toy_flood) =
     (Returned (Err e), stage p (datagrams rest) (S (length events)) s1 [] (logged <$> events)) /\
     answer_fails h1 x f e).
Proof.
  intros p serves.
  assert (Hready : host_ready (rv_host (MkRendezvousNode toy_server))).
  { split; [apply toy_server_ok|by vm_compute]. }
  split.
  - assert (E : fst (serves 5 toy_requests) = Blocked) by (vm_compute; reflexivity).
    destruct (server_logs_every_datagram (IoLaws0:=direct_io_laws) (CryptoLaws0:=toy_crypto_laws)
      p toy_seeds (toy_lively _) (MkRendezvousNode toy_server) toy_requests 5 0 [] [] [] Hready)
      as (l1 & l2 & events & node1 & s1 & Heq & Hlen & _ & _ & Hend); [apply Nat.ltb_lt; reflexivity|].
    destruct l2 as [|[x d] rest].
    + rewrite app_nil_r in Heq. subst l1. exists events, s1. split; [exact Hlen|exact Hend].
    + destruct Hend as (h1 & q & f & e & _ & _ & _ & Hrun). unfold serves in E. rewrite Hrun in E. discriminate E.
  - assert (E : fst (serves 5 (toy_requests ++ toy_flood)) <> Blocked) by (vm_compute; discriminate).
    destruct (server_logs_every_datagram (IoLaws0:=direct_io_laws) (CryptoLaws0:=toy_crypto_laws)
      p toy_seeds (toy_lively _) (MkRendezvousNode toy_server) (toy_requests ++ toy_flood) 5 0 [] [] [] Hready)
      as (l1 & l2 & events & node1 & s1 & Heq & Hlen & _ & _ & Hend); [apply Nat.ltb_lt; reflexivity|].
    destruct l2 as [|[x d] rest].
    + unfold serves in E. rewrite Hend in E. destruct (E eq_refl).
    + destruct Hend as (h1 & q & f & e & _ & _ & Hf & Hrun). exists events, s1, x, h1, f, e, rest.
      split; [|exact Hf]. rewrite Hlen. exact Hrun.
Defined.

End toy.
